(** * Whale audio encoder (modeling_whale.py): a shallow embedding

    The Python module builds a speech encoder out of torch tensors and
    [nn.Module]s.  The embedding follows the file top to bottom:

    - Python exceptions and a small state-and-error monad [Py] (the state
      holds torch's random generator and what has been printed);
    - scalars behind the interface [Float], with two instances: exact
      arithmetic with the IEEE special values ([ifloat_Float]), and the
      same with every operation rounded to binary32 ([binary32_Float]);
    - tensors as torch stores them: a shape and the row-major data;
    - the torch operations the file calls;
    - the modules of the file, one group of definitions per class;
    - the properties of the modules. *)

From Stdlib Require Import String Bool Arith ZArith Lia Lra Reals QArith Qreals List.
Import ListNotations.

Set Implicit Arguments.
Local Open Scope nat_scope.

(* ===================================================================== *)
(** ** Python exceptions and the [Py] monad *)
(* ===================================================================== *)

(** The exceptions this file can raise, by Python class.  [RuntimeError]
    is what torch raises on shape mismatches. *)
Inductive PyError : Type :=
| ValueError (msg : string)
| AssertionError
| TypeError (msg : string)
| IndexError (msg : string)
| KeyError (key : string)
| AttributeError (attr : string)
| NameError (name : string)
| UnboundLocalError (name : string)
| ZeroDivisionError
| RuntimeError (msg : string).

Definition Res (A : Type) : Type := (PyError + A)%type.

Definition res_bind {A B} (r : Res A) (k : A -> Res B) : Res B :=
  match r with
  | inl e => inl e
  | inr a => k a
  end.

(** [self.name] for an attribute that [__init__] sets only under a flag:
    [None] is the attribute that was never set. *)
Definition attr {A} (name : string) (o : option A) : Res A :=
  match o with
  | Some a => inr a
  | None => inl (AttributeError name)
  end.

Section PyMonad.
(** [G] is the state of torch's global random generator. *)
Variable G : Type.

Record World : Type := mkWorld { rng : G; stdout : list string }.

Definition Py (A : Type) : Type := World -> Res A * World.

Definition ret {A} (a : A) : Py A := fun w => (inr a, w).

Definition bind {A B} (c : Py A) (k : A -> Py B) : Py B :=
  fun w => match c w with
           | (inl e, w') => (inl e, w')
           | (inr a, w') => k a w'
           end.

Definition raise {A} (e : PyError) : Py A := fun w => (inl e, w).

Definition lift {A} (r : Res A) : Py A := fun w => (r, w).

(** [print(s)] *)
Definition print (s : string) : Py unit :=
  fun w => (inr tt, mkWorld (rng w) (stdout w ++ [s])).

(** Draw from the generator. *)
Definition draw {A} (f : G -> A * G) : Py A :=
  fun w => let (a, g) := f (rng w) in (inr a, mkWorld g (stdout w)).

Fixpoint mapM {A B} (f : A -> Py B) (l : list A) : Py (list B) :=
  match l with
  | [] => ret []
  | a :: l' => bind (f a) (fun b => bind (mapM f l') (fun bs => ret (b :: bs)))
  end.
End PyMonad.

Arguments ret {G A} a.
Arguments bind {G A B} c k.
Arguments raise {G A} e.
Arguments lift {G A} r.
Arguments print {G} s.
Arguments draw {G A} f.
Arguments mapM {G A B} f l.
Arguments mkWorld {G} rng stdout.
Arguments rng {G} w.
Arguments stdout {G} w.

Declare Scope py_scope.
Delimit Scope py_scope with py.
Notation "x <- c ;; k" := (bind c (fun x => k))
  (at level 61, c at next level, right associativity) : py_scope.
Notation "' pat <- c ;; k" := (bind c (fun x => match x with pat => k end))
  (at level 61, pat pattern, c at next level, right associativity) : py_scope.
Notation "c ;; k" := (bind c (fun _ => k))
  (at level 61, right associativity) : py_scope.
Notation "x <~ r ;; k" := (res_bind r (fun x => k))
  (at level 61, r at next level, right associativity) : py_scope.
Notation "' pat <~ r ;; k" := (res_bind r (fun x => match x with pat => k end))
  (at level 61, pat pattern, r at next level, right associativity) : py_scope.
Local Open Scope py_scope.

(* ===================================================================== *)
(** ** Scalars *)
(* ===================================================================== *)

(** What the file asks of floating-point numbers.  [ACT2FN] is the
    activation registry of [transformers.activations] (a table that is not
    part of this file), resolved by name. *)
Class Float (F : Type) : Type := {
  f0 : F;
  fadd : F -> F -> F;
  fsub : F -> F -> F;
  fmul : F -> F -> F;
  fdiv : F -> F -> F;
  fneg : F -> F;
  fsqrt : F -> F;
  fexp : F -> F;
  flog : F -> F;
  fsin : F -> F;
  fcos : F -> F;
  fpow : F -> F -> F;
  frelu : F -> F;
  fltb : F -> F -> bool;
  of_Z : Z -> F;
  of_Q : Q -> F;
  neg_inf : F;
  ACT2FN : string -> option (F -> F)
}.

(** torch's generator: one uniform sample for parameter initialisation,
    one Bernoulli draw (with the given success probability) for dropout. *)
Class Generator (G F : Type) : Type := {
  next_float : G -> F * G;
  next_bernoulli : F -> G -> bool * G
}.

(** *** Exact arithmetic

    Exact arithmetic with the IEEE special values: a finite value is an
    exact rational (so that arithmetic on literals computes) or an exact
    real (what the transcendental functions return).  Nothing is rounded
    here: the instance serves to run the code on small inputs and to read
    its formulas as real analysis reads them.  What torch stores is the
    rounded value, for which see [binary32_Float] below. *)

Inductive ifloat : Type :=
| Rat (q : Q)
| Real (r : R)
| PInf
| NInf
| NaN.

Definition Rsign (r : R) : comparison :=
  if Rlt_dec r 0 then Lt else if Rlt_dec 0 r then Gt else Eq.

Definition inf_of (c : comparison) : ifloat :=
  match c with Lt => NInf | Gt => PInf | Eq => NaN end.

(** The real number a finite value stands for. *)
Definition fin (x : ifloat) : option R :=
  match x with
  | Rat q => Some (Q2R q)
  | Real r => Some r
  | _ => None
  end.

Definition isign (x : ifloat) : option comparison :=
  match x with
  | Rat q => Some (Qcompare q 0)
  | Real r => Some (Rsign r)
  | PInf => Some Gt
  | NInf => Some Lt
  | NaN => None
  end.

Definition cmp_mul (a b : comparison) : comparison :=
  match a, b with
  | Eq, _ | _, Eq => Eq
  | Lt, Lt | Gt, Gt => Gt
  | _, _ => Lt
  end.

Definition iadd (x y : ifloat) : ifloat :=
  match x, y with
  | Rat a, Rat b => Rat (a + b)
  | _, _ =>
      match fin x, fin y with
      | Some a, Some b => Real (a + b)
      | _, _ =>
          match x, y with
          | NaN, _ | _, NaN => NaN
          | PInf, NInf | NInf, PInf => NaN
          | PInf, _ | _, PInf => PInf
          | _, _ => NInf
          end
      end
  end.

Definition ineg (x : ifloat) : ifloat :=
  match x with
  | Rat q => Rat (- q)
  | Real a => Real (- a)
  | PInf => NInf
  | NInf => PInf
  | NaN => NaN
  end.

Definition imul (x y : ifloat) : ifloat :=
  match x, y with
  | Rat a, Rat b => Rat (a * b)
  | _, _ =>
      match fin x, fin y with
      | Some a, Some b => Real (a * b)
      | _, _ =>
          match isign x, isign y with
          | Some a, Some b => inf_of (cmp_mul a b)
          | _, _ => NaN
          end
      end
  end.

Definition idiv (x y : ifloat) : ifloat :=
  match x, y with
  | Rat a, Rat b =>
      if Qeq_bool b 0 then inf_of (Qcompare a 0) else Rat (a / b)
  | _, _ =>
      match fin x, fin y with
      | Some a, Some b =>
          if Req_dec_T b 0 then inf_of (Rsign a) else Real (a / b)
      | Some _, None => match y with NaN => NaN | _ => Rat 0 end
      | None, Some b =>
          match isign x with
          | Some s => inf_of (cmp_mul s (match Rsign b with Eq => Gt | c => c end))
          | None => NaN
          end
      | None, None => NaN
      end
  end.

Definition isqrt (x : ifloat) : ifloat :=
  match x with
  | PInf => PInf
  | _ => match isign x, fin x with
         | Some Lt, _ => NaN
         | Some _, Some a => Real (sqrt a)
         | _, _ => NaN
         end
  end.

Definition iexp (x : ifloat) : ifloat :=
  match x with
  | PInf => PInf
  | NInf => Rat 0
  | _ => match fin x with Some a => Real (exp a) | None => NaN end
  end.

Definition ilog (x : ifloat) : ifloat :=
  match x with
  | PInf => PInf
  | _ => match isign x, fin x with
         | Some Gt, Some a => Real (ln a)
         | Some Eq, Some _ => NInf
         | _, _ => NaN
         end
  end.

Definition isin (x : ifloat) : ifloat :=
  match fin x with Some a => Real (sin a) | None => NaN end.

Definition icos (x : ifloat) : ifloat :=
  match fin x with Some a => Real (cos a) | None => NaN end.

(** Finite operands only; a negative base gives [NaN] (Python would
    answer with a complex number). *)
Definition ipow (x y : ifloat) : ifloat :=
  match fin x, fin y with
  | Some a, Some b =>
      match isign x, isign y with
      | Some Gt, _ => Real (Rpower a b)
      | Some Eq, Some Gt => Rat 0
      | Some Eq, Some Eq => Rat 1
      | Some Eq, Some Lt => PInf
      | _, _ => NaN
      end
  | _, _ => NaN
  end.

Definition irelu (x : ifloat) : ifloat :=
  match x with
  | Rat q => Rat (match Qcompare q 0 with Lt => 0 | _ => q end)
  | Real a => Real (Rmax 0 a)
  | PInf => PInf
  | NInf => Rat 0
  | NaN => NaN
  end.

Definition iltb (x y : ifloat) : bool :=
  match x, y with
  | Rat a, Rat b => match Qcompare a b with Lt => true | _ => false end
  | _, _ =>
      match fin x, fin y with
      | Some a, Some b => if Rlt_dec a b then true else false
      | _, _ =>
          match x, y with
          | NaN, _ | _, NaN => false
          | NInf, NInf | PInf, PInf => false
          | NInf, _ | _, PInf => true
          | _, _ => false
          end
      end
  end.

Definition itanh (x : ifloat) : ifloat :=
  match x with
  | PInf => Rat 1
  | NInf => Rat (- (1))
  | _ => match fin x with Some a => Real (tanh a) | None => NaN end
  end.

(** The entries of the registry the instance knows. *)
Definition iACT2FN (name : string) : option (ifloat -> ifloat) :=
  if String.eqb name "relu" then Some irelu
  else if String.eqb name "tanh" then Some itanh
  else if String.eqb name "linear" then Some (fun x => x)
  else None.

#[export] Instance ifloat_Float : Float ifloat := {
  f0 := Rat 0;
  fadd := iadd;
  fsub := fun x y => iadd x (ineg y);
  fmul := imul;
  fdiv := idiv;
  fneg := ineg;
  fsqrt := isqrt;
  fexp := iexp;
  flog := ilog;
  fsin := isin;
  fcos := icos;
  fpow := ipow;
  frelu := irelu;
  fltb := iltb;
  of_Z := fun z => Rat (inject_Z z);
  of_Q := Rat;
  neg_inf := NInf;
  ACT2FN := iACT2FN
}.

(** A generator that always answers the same: enough to run the model on
    concrete inputs. *)
#[export] Instance const_Generator : Generator unit ifloat := {
  next_float := fun g => (Rat 0, g);
  next_bernoulli := fun _ g => (true, g)
}.

(** *** Arithmetic rounded to binary32

    [torch.float32]: the values are those of [ifloat] and every operation
    rounds its exact result to the nearest binary32 number. *)

(** The greatest integer not above [x]. *)
Definition floorR (x : R) : Z := (up x - 1)%Z.

(** The integer nearest to [x]; of two equally near, the even one. *)
Definition nearest_even (x : R) : Z :=
  let f := floorR x in
  if Rlt_dec (x - IZR f) (1 / 2) then f
  else if Rlt_dec (1 / 2) (x - IZR f) then (f + 1)%Z
  else if Z.even f then f else (f + 1)%Z.

(** The exponent of the leading binary digit of [x <> 0]. *)
Definition exponent2 (x : R) : Z := floorR (ln (Rabs x) / ln 2).

(** Rounding to the nearest binary32 number: 24 significant binary digits,
    the leading one with an exponent from -126 to 127; below that the
    subnormal numbers, spaced [2^-149]; from [2^128 - 2^103] on, infinity.
    The sign of a zero is not kept. *)
Definition round32 (x : R) : ifloat :=
  if Req_dec_T x 0 then Rat 0
  else if Rle_dec (IZR (2 ^ 128 - 2 ^ 103)) (Rabs x) then
    if Rlt_dec x 0 then NInf else PInf
  else
    let u := powerRZ 2 (Z.max (exponent2 x) (-126) - 23) in
    let m := nearest_even (Rabs x / u) in
    Real ((if Rlt_dec x 0 then -1 else 1) * (IZR m * u)).

(** Special values are kept. *)
Definition rnd (x : ifloat) : ifloat :=
  match fin x with Some r => round32 r | None => x end.

(** The basic operations as IEEE 754 defines them; the elementary
    functions as a library that rounds correctly has them (torch's are
    within one unit in the last place of that).  The two Python floats of
    the file, [math.sqrt(d_model)] and [math.log(10000.0) / d_model], are
    binary64 in Python and rounded to binary32 here. *)
Definition binary32_Float : Float ifloat := {|
  f0 := Rat 0;
  fadd := fun x y => rnd (iadd x y);
  fsub := fun x y => rnd (iadd x (ineg y));
  fmul := fun x y => rnd (imul x y);
  fdiv := fun x y => rnd (idiv x y);
  fneg := ineg;
  fsqrt := fun x => rnd (isqrt x);
  fexp := fun x => rnd (iexp x);
  flog := fun x => rnd (ilog x);
  fsin := fun x => rnd (isin x);
  fcos := fun x => rnd (icos x);
  fpow := fun x y => rnd (ipow x y);
  frelu := irelu;
  fltb := iltb;
  of_Z := fun z => round32 (IZR z);
  of_Q := fun q => round32 (Q2R q);
  neg_inf := NInf;
  ACT2FN := fun name => option_map (fun f x => rnd (f x)) (iACT2FN name)
|}.

(* ===================================================================== *)
(** ** Tensors *)
(* ===================================================================== *)

(** A torch tensor: its [shape] and its elements in row-major order. *)
Record Tensor (A : Type) : Type := mkTensor { shape : list nat; data : list A }.
Arguments mkTensor {A} shape data.
Arguments shape {A} t.
Arguments data {A} t.

Definition numel (s : list nat) : nat := fold_right Nat.mul 1 s.

(** [len(x.shape)] *)
Definition rank {A} (t : Tensor A) : nat := length (shape t).

(** Row-major position of a multi-index. *)
Fixpoint ravel (s idx : list nat) : nat :=
  match s, idx with
  | _ :: s', i :: idx' => i * numel s' + ravel s' idx'
  | _, _ => 0
  end.

(** All multi-indices of a shape, in row-major order. *)
Fixpoint indices (s : list nat) : list (list nat) :=
  match s with
  | [] => [[]]
  | d :: s' => flat_map (fun i => map (cons i) (indices s')) (seq 0 d)
  end.

(** [t[idx]], with [d] outside the tensor. *)
Definition tget {A} (d : A) (t : Tensor A) (idx : list nat) : A :=
  nth (ravel (shape t) idx) (data t) d.

(** The tensor of shape [s] whose element at [idx] is [f idx]. *)
Definition build {A} (s : list nat) (f : list nat -> A) : Tensor A :=
  mkTensor s (map f (indices s)).

Definition tmap {A B} (f : A -> B) (t : Tensor A) : Tensor B :=
  mkTensor (shape t) (map f (data t)).

(** [x.size(k)] *)
Definition size {A} (t : Tensor A) (k : nat) : Res nat :=
  match nth_error (shape t) k with
  | Some n => inr n
  | None => inl (IndexError "Dimension out of range")
  end.

(** [x.unsqueeze(k)] *)
Definition unsqueeze {A} (k : nat) (t : Tensor A) : Res (Tensor A) :=
  if k <=? rank t
  then inr (mkTensor (firstn k (shape t) ++ 1 :: skipn k (shape t)) (data t))
  else inl (IndexError "Dimension out of range").

(** Python's [slice(start, stop, step).indices(n)] for a positive step:
    the first index and the number of indices taken. *)
Definition pyslice (start stop : option Z) (step n : nat) : nat * nat :=
  let clamp (i : Z) :=
    if (i <? 0)%Z then Z.max 0 (i + Z.of_nat n) else Z.min i (Z.of_nat n) in
  let lo := match start with None => 0%Z | Some i => clamp i end in
  let hi := match stop with None => Z.of_nat n | Some i => clamp i end in
  (Z.to_nat lo, (Z.to_nat (hi - lo) + (step - 1)) / step).

(** [t[:, start:stop:step]]: a slice of dimension 1, whatever the rank. *)
Definition slice_dim1 {A} (d : A) (start stop : option Z) (step : nat)
    (t : Tensor A) : Res (Tensor A) :=
  match shape t with
  | d0 :: d1 :: rest =>
      let (lo, n) := pyslice start stop step d1 in
      inr (build (d0 :: n :: rest)
             (fun idx => match idx with
                         | i0 :: i1 :: r => tget d t (i0 :: lo + step * i1 :: r)
                         | _ => d
                         end))
  | _ => inl (IndexError "too many indices for tensor")
  end.

(** [t[:, i, :]] *)
Definition select_dim1 {A} (d : A) (i : nat) (t : Tensor A) : Res (Tensor A) :=
  match shape t with
  | d0 :: d1 :: d2 :: rest =>
      if i <? d1 then
        inr (build (d0 :: d2 :: rest)
               (fun idx => match idx with
                           | i0 :: r => tget d t (i0 :: i :: r)
                           | _ => d
                           end))
      else inl (IndexError "index out of range")
  | _ => inl (IndexError "too many indices for tensor")
  end.

(** Position of [k] in a permutation. *)
Fixpoint index_of (k : nat) (perm : list nat) : nat :=
  match perm with
  | [] => 0
  | p :: perm' => if p =? k then 0 else S (index_of k perm')
  end.

(** [t.permute(perm)] *)
Definition permute {A} (d : A) (perm : list nat) (t : Tensor A) : Tensor A :=
  build (map (fun p => nth p (shape t) 0) perm)
    (fun idx => tget d t (map (fun k => nth (index_of k perm) idx 0)
                            (seq 0 (rank t)))).

(** The permutation that exchanges dimensions [a] and [b]. *)
Definition swap_perm (a b n : nat) : list nat :=
  map (fun k => if k =? a then b else if k =? b then a else k) (seq 0 n).

(** [t.transpose(a, b)] *)
Definition transpose {A} (d : A) (a b : nat) (t : Tensor A) : Res (Tensor A) :=
  if (a <? rank t) && (b <? rank t)
  then inr (permute d (swap_perm a b (rank t)) t)
  else inl (IndexError "Dimension out of range").

(** [t.view(dims)] and [t.reshape(dims)] (the tensors reshaped in this
    file are contiguous): at most one dimension may be [-1]. *)
Definition infer_dims (dims : list Z) (n : nat) : option (list nat) :=
  if forallb (fun z => (-1 <=? z)%Z) dims then
    let known := numel (map Z.to_nat (filter (fun z => (0 <=? z)%Z) dims)) in
    match length (filter (fun z => (z =? -1)%Z) dims) with
    | 0 => if known =? n then Some (map Z.to_nat dims) else None
    | 1 => if (known =? 0) || negb (n mod known =? 0) then None
           else Some (map (fun z => if (z =? -1)%Z then n / known
                                    else Z.to_nat z) dims)
    | _ => None
    end
  else None.

Definition view {A} (dims : list Z) (t : Tensor A) : Res (Tensor A) :=
  match infer_dims dims (numel (shape t)) with
  | Some s => inr (mkTensor s (data t))
  | None => inl (RuntimeError "shape is invalid for input size")
  end.

(** [t.flatten(-2, -1)] *)
Definition flatten_last2 {A} (t : Tensor A) : Res (Tensor A) :=
  match rev (shape t) with
  | a :: b :: pre => inr (mkTensor (rev pre ++ [b * a]) (data t))
  | _ => inl (IndexError "Dimension out of range")
  end.

(** Broadcasting of two shapes, aligned at the last dimension. *)
Fixpoint broadcast_rev (a b : list nat) : option (list nat) :=
  match a, b with
  | [], _ => Some b
  | _, [] => Some a
  | x :: a', y :: b' =>
      match broadcast_rev a' b' with
      | None => None
      | Some r => if x =? y then Some (x :: r)
                  else if x =? 1 then Some (y :: r)
                  else if y =? 1 then Some (x :: r)
                  else None
      end
  end.

Definition broadcast_shapes (s1 s2 : list nat) : option (list nat) :=
  option_map (@rev nat) (broadcast_rev (rev s1) (rev s2)).

(** The index read in an operand of shape [s] for the index [idx] of the
    broadcast result. *)
Fixpoint bmask (s idx : list nat) : list nat :=
  match s, idx with
  | d :: s', i :: idx' => (if d =? 1 then 0 else i) :: bmask s' idx'
  | _, _ => []
  end.

Definition bidx (s idx : list nat) : list nat :=
  bmask s (skipn (length idx - length s) idx).

(** An elementwise binary operation with broadcasting. *)
Definition tzip {A B C} (da : A) (db : B) (op : A -> B -> C)
    (a : Tensor A) (b : Tensor B) : Res (Tensor C) :=
  match broadcast_shapes (shape a) (shape b) with
  | Some s => inr (build s (fun idx => op (tget da a (bidx (shape a) idx))
                                          (tget db b (bidx (shape b) idx))))
  | None => inl (RuntimeError "The size of tensor a must match the size of tensor b")
  end.

(** [torch.cat([a, b], dim=-1)] *)
Definition cat_last {A} (d : A) (a b : Tensor A) : Res (Tensor A) :=
  match rev (shape a), rev (shape b) with
  | na :: pa, nb :: pb =>
      if list_eq_dec Nat.eq_dec pa pb then
        inr (build (rev pa ++ [na + nb])
               (fun idx => let pre := removelast idx in
                           let j := last idx 0 in
                           if j <? na then tget d a (pre ++ [j])
                           else tget d b (pre ++ [j - na])))
      else inl (RuntimeError "Sizes of tensors must match except in dimension -1")
  | _, _ => inl (RuntimeError "zero-dimensional tensor cannot be concatenated")
  end.

(* ===================================================================== *)
(** ** The torch operations the file calls *)
(* ===================================================================== *)

Section Torch.
Context {F : Type} {FO : Float F} {G : Type} {GO : Generator G F}.

Definition fget (t : Tensor F) (idx : list nat) : F := tget f0 t idx.

(** Sum of a list of scalars, left to right. *)
Definition fsum (l : list F) : F := fold_left fadd l f0.

(** [x * c] for a Python float [c]. *)
Definition tscale (c : F) (t : Tensor F) : Tensor F :=
  tmap (fun v => fmul v c) t.

Definition tadd (a b : Tensor F) : Res (Tensor F) := tzip f0 f0 fadd a b.
Definition tmul (a b : Tensor F) : Res (Tensor F) := tzip f0 f0 fmul a b.

(** Sizes handed to a tensor factory must not be negative. *)
Definition check_dims (dims : list Z) : Res (list nat) :=
  if forallb (fun z => (0 <=? z)%Z) dims then inr (map Z.to_nat dims)
  else inl (RuntimeError "Trying to create tensor with negative dimension").

(** [torch.zeros(dims)] *)
Definition torch_zeros (dims : list Z) : Res (Tensor F) :=
  s <~ check_dims dims ;; inr (build s (fun _ => f0)).

(** [torch.ones(dims)] *)
Definition torch_ones (dims : list Z) : Res (Tensor F) :=
  s <~ check_dims dims ;; inr (build s (fun _ => of_Z 1)).

Fixpoint draws (n : nat) : Py G (list F) :=
  match n with
  | 0 => ret []
  | S n' => x <- draw next_float ;; xs <- draws n' ;; ret (x :: xs)
  end.

(** A freshly initialised parameter: its values come from the generator. *)
Definition torch_rand (dims : list Z) : Py G (Tensor F) :=
  s <- lift (check_dims dims) ;;
  xs <- draws (numel s) ;;
  ret (mkTensor s xs).

(** [torch.arange(0, stop, step, dtype=torch.float32)] for [step >= 1]. *)
Definition arange (stop : Z) (step : nat) : Tensor F :=
  build [(Z.to_nat stop + (step - 1)) / step]
    (fun idx => of_Z (Z.of_nat (step * hd 0 idx))).

(** [t[:, start::step] = src] for a rank-2 [t]: the source is broadcast
    to the shape of the slice. *)
Definition setitem_cols (start step : nat) (t src : Tensor F) : Res (Tensor F) :=
  match shape t with
  | [rows; cols] =>
      let (lo, n) := pyslice (Some (Z.of_nat start)) None step cols in
      match broadcast_shapes [rows; n] (shape src) with
      | Some s =>
          if list_eq_dec Nat.eq_dec s [rows; n] then
            inr (build [rows; cols]
                   (fun idx =>
                      match idx with
                      | [i; j] =>
                          if (lo <=? j) && ((j - lo) mod step =? 0)
                          then fget src (bidx (shape src) [i; (j - lo) / step])
                          else fget t [i; j]
                      | _ => f0
                      end))
          else inl (RuntimeError "shape mismatch in assignment")
      | None => inl (RuntimeError "shape mismatch in assignment")
      end
  | _ => inl (IndexError "too many indices for tensor")
  end.

(** *** [nn.Linear] *)
Record Linear : Type := mkLinear {
  in_features : nat;
  out_features : nat;
  weight : Tensor F;
  bias : option (Tensor F)
}.

Definition nn_Linear (i o : Z) (with_bias : bool) : Py G Linear :=
  w <- torch_rand [o; i] ;;
  b <- (if with_bias then (t <- torch_rand [o] ;; ret (Some t)) else ret None) ;;
  ret (mkLinear (Z.to_nat i) (Z.to_nat o) w b).

Definition Linear_forward (l : Linear) (x : Tensor F) : Res (Tensor F) :=
  match rev (shape x) with
  | n :: pre =>
      if n =? in_features l then
        inr (build (rev pre ++ [out_features l])
               (fun idx =>
                  let p := removelast idx in
                  let o := last idx 0 in
                  let acc := fsum (map (fun i => fmul (fget x (p ++ [i]))
                                                      (fget (weight l) [o; i]))
                                     (seq 0 n)) in
                  match bias l with
                  | Some b => fadd acc (fget b [o])
                  | None => acc
                  end))
      else inl (RuntimeError "mat1 and mat2 shapes cannot be multiplied")
  | [] => inl (RuntimeError "both arguments to linear need to be at least 1D")
  end.

(** *** [nn.Conv2d] (no padding, no dilation, one group) *)
Record Conv2d : Type := mkConv2d {
  in_channels : nat;
  out_channels : nat;
  kernel_size : nat;
  stride : nat;
  conv_weight : Tensor F;
  conv_bias : Tensor F
}.

Definition nn_Conv2d (i o : Z) (k s : nat) : Py G Conv2d :=
  w <- torch_rand [o; i; Z.of_nat k; Z.of_nat k] ;;
  b <- torch_rand [o] ;;
  ret (mkConv2d (Z.to_nat i) (Z.to_nat o) k s w b).

(** Output length of one convolved axis. *)
Definition conv_out (n k s : nat) : nat := (n - k) / s + 1.

(** The convolution of a batch [(b, c, h, w)].  torch checks the weight
    first (with one group it needs at least one output channel), then the
    channels of the input, then the size of the input against the kernel. *)
Definition conv2d_batched (c : Conv2d) (x : Tensor F) (b ci h w : nat)
  : Res (Tensor F) :=
  if out_channels c =? 0 then
    inl (RuntimeError "expected weight to be at least 1 at dimension 0")
  else if negb (ci =? in_channels c) then
    inl (RuntimeError "input channels do not match the weight")
  else if (h <? kernel_size c) || (w <? kernel_size c) then
    inl (RuntimeError "Kernel size can't be greater than actual input size")
  else
    inr (build [b; out_channels c;
                conv_out h (kernel_size c) (stride c);
                conv_out w (kernel_size c) (stride c)]
           (fun idx =>
              match idx with
              | [ib; co; i; j] =>
                  fadd
                    (fsum
                       (map (fun q =>
                               match q with
                               | [qc; di; dj] =>
                                   fmul (fget x [ib; qc; stride c * i + di;
                                                 stride c * j + dj])
                                        (fget (conv_weight c) [co; qc; di; dj])
                               | _ => f0
                               end)
                            (indices [ci; kernel_size c; kernel_size c])))
                    (fget (conv_bias c) [co])
              | _ => f0
              end)).

(** A rank-4 input is a batch, a rank-3 input a single image. *)
Definition Conv2d_forward (c : Conv2d) (x : Tensor F) : Res (Tensor F) :=
  match shape x with
  | [b; ci; h; w] => conv2d_batched c x b ci h w
  | [ci; h; w] =>
      y <~ conv2d_batched c (mkTensor [1; ci; h; w] (data x)) 1 ci h w ;;
      inr (mkTensor (tl (shape y)) (data y))
  | _ => inl (RuntimeError "Expected 3D (unbatched) or 4D (batched) input to conv2d")
  end.

(** *** [nn.LayerNorm] over the last dimension *)
Record LayerNorm : Type := mkLayerNorm {
  normalized_shape : nat;
  ln_weight : Tensor F;
  ln_bias : Tensor F;
  ln_eps : F
}.

Definition nn_LayerNorm (n : Z) (eps : F) : Res LayerNorm :=
  w <~ torch_ones [n] ;;
  b <~ torch_zeros [n] ;;
  inr (mkLayerNorm (Z.to_nat n) w b eps).

Definition LayerNorm_forward (l : LayerNorm) (x : Tensor F) : Res (Tensor F) :=
  match rev (shape x) with
  | n :: _ =>
      if n =? normalized_shape l then
        inr (build (shape x)
               (fun idx =>
                  let p := removelast idx in
                  let j := last idx 0 in
                  let row := map (fun i => fget x (p ++ [i])) (seq 0 n) in
                  let cnt := of_Z (Z.of_nat n) in
                  let mean := fdiv (fsum row) cnt in
                  let var := fdiv (fsum (map (fun v => fmul (fsub v mean)
                                                            (fsub v mean)) row))
                                  cnt in
                  fadd (fmul (fdiv (fsub (fget x idx) mean)
                                   (fsqrt (fadd var (ln_eps l))))
                             (fget (ln_weight l) [j]))
                       (fget (ln_bias l) [j])))
      else inl (RuntimeError "input shape does not end with normalized_shape")
  | [] => inl (RuntimeError "input shape does not end with normalized_shape")
  end.

(** *** [nn.Dropout] *)
Record Dropout : Type := mkDropout { dropout_p : F; dropout_training : bool }.

(** A new module is in training mode. *)
Definition nn_Dropout (prob : F) : Res Dropout :=
  if fltb prob f0 || fltb (of_Z 1) prob
  then inl (ValueError "dropout probability has to be between 0 and 1")
  else inr (mkDropout prob true).

Fixpoint keeps (q : F) (n : nat) : Py G (list bool) :=
  match n with
  | 0 => ret []
  | S n' => b <- draw (next_bernoulli q) ;; bs <- keeps q n' ;; ret (b :: bs)
  end.

(** The identity in evaluation mode; in training mode each element is
    kept with probability [1 - p] and the kept ones are rescaled. *)
Definition Dropout_forward (d : Dropout) (x : Tensor F) : Py G (Tensor F) :=
  if dropout_training d then
    let q := fsub (of_Z 1) (dropout_p d) in
    ks <- keeps q (length (data x)) ;;
    ret (mkTensor (shape x)
           (map (fun kv : bool * F => if fst kv then fdiv (snd kv) q else f0)
                (combine ks (data x))))
  else ret x.

(** *** Functions on tensors *)

(** [nn.ReLU] *)
Definition relu (x : Tensor F) : Tensor F := tmap frelu x.

(** [torch.matmul] on operands of rank at least 2 (the only ones this
    file multiplies), with broadcast batch dimensions. *)
Definition matmul (a b : Tensor F) : Res (Tensor F) :=
  match rev (shape a), rev (shape b) with
  | k :: n :: ba, m :: k' :: bb =>
      if k =? k' then
        match broadcast_rev ba bb with
        | Some bs =>
            let nb := length bs in
            inr (build (rev bs ++ [n; m])
                   (fun idx =>
                      let batch := firstn nb idx in
                      let i := nth nb idx 0 in
                      let j := nth (S nb) idx 0 in
                      fsum (map (fun l =>
                                   fmul (fget a (bidx (rev ba) batch ++ [i; l]))
                                        (fget b (bidx (rev bb) batch ++ [l; j])))
                                (seq 0 k))))
        | None => inl (RuntimeError "batch dimensions cannot be broadcast")
        end
      else inl (RuntimeError "mat1 and mat2 shapes cannot be multiplied")
  | _, _ => inl (RuntimeError "matmul operand of rank below 2")
  end.

(** [x.softmax(dim=-1)] *)
Definition softmax_last (x : Tensor F) : Tensor F :=
  build (shape x)
    (fun idx =>
       let p := removelast idx in
       let n := last (shape x) 1 in
       fdiv (fexp (fget x idx))
            (fsum (map (fun j => fexp (fget x (p ++ [j]))) (seq 0 n)))).

(** [x.masked_fill(mask, v)], out of place: the tensor and the mask are
    broadcast against each other, and the result has the broadcast shape. *)
Definition masked_fill (x : Tensor F) (mask : Tensor bool) (v : F)
  : Res (Tensor F) :=
  match broadcast_shapes (shape x) (shape mask) with
  | Some s =>
      inr (build s (fun idx => if tget false mask (bidx (shape mask) idx)
                               then v else fget x (bidx (shape x) idx)))
  | None => inl (RuntimeError "The size of tensor a must match the size of tensor b")
  end.

(** *** [nn.Sequential] *)
Inductive Module : Type :=
| M_Conv2d (c : Conv2d)
| M_Linear (l : Linear)
| M_LayerNorm (l : LayerNorm)
| M_Dropout (d : Dropout)
| M_ReLU
| M_Identity.

Definition Module_forward (m : Module) (x : Tensor F) : Py G (Tensor F) :=
  match m with
  | M_Conv2d c => lift (Conv2d_forward c x)
  | M_Linear l => lift (Linear_forward l x)
  | M_LayerNorm l => lift (LayerNorm_forward l x)
  | M_Dropout d => Dropout_forward d x
  | M_ReLU => ret (relu x)
  | M_Identity => ret x
  end.

Fixpoint Sequential_forward (ms : list Module) (x : Tensor F) : Py G (Tensor F) :=
  match ms with
  | [] => ret x
  | m :: ms' => y <- Module_forward m x ;; Sequential_forward ms' y
  end.

(** [module.train(mode)] on the leaves: only dropout has a mode. *)
Definition Dropout_train (mode : bool) (d : Dropout) : Dropout :=
  mkDropout (dropout_p d) mode.

Definition Module_train (mode : bool) (m : Module) : Module :=
  match m with
  | M_Dropout d => M_Dropout (Dropout_train mode d)
  | _ => m
  end.
End Torch.

(* ===================================================================== *)
(** ** The configuration *)
(* ===================================================================== *)

Module WhaleConfig.
Section Def.
Variable F : Type.

(** Modelled from the spec: [WhaleConfig] lives in configuration_whale.py,
    which is not among the sources.  The spec describes it as "a
    configuration object exposing named numeric/boolean fields (hidden
    size, head count, intermediate size, dropout rates, activation name,
    flags for normalization ordering, relative positional encoding,
    optimized-attention availability, max sequence length, input feature
    dimension, channel count)"; the fields below are the attributes that
    modeling_whale.py reads, Python ints as [Z]. *)
Record t : Type := mk {
  num_channels : Z;
  hidden_size : Z;
  input_dim : Z;
  dropout : F;
  max_position_embeddings : Z;
  num_attention_heads : Z;
  use_flash_attn : bool;
  attention_dropout : F;
  qk_normalization : bool;
  layer_norm_eps : F;
  use_relative_pe : bool;
  hidden_act : string;
  intermediate_size : Z;
  normalize_before : bool;
  concat_after : bool;
  num_hidden_layers : Z;
  output_hidden_states : bool;
  use_return_dict : bool
}.
End Def.
End WhaleConfig.

(** Line 52: the optimized kernel is not imported. *)
Definition has_flash_attn : bool := false.

(* ===================================================================== *)
(** ** class WhaleConv2dSubsampling4 *)
(* ===================================================================== *)

Module WhaleConv2dSubsampling4.
Section Def.
Context {F : Type} {FO : Float F} {G : Type} {GO : Generator G F}.

Record t : Type := mk {
  config : WhaleConfig.t F;
  in_channels : Z;
  hidden_size : Z;
  input_dim : Z;
  conv_in : list (@Module F);
  intermediate_size : Z;
  out : @Linear F;
  subsampling_rate : Z;
  right_context : Z
}.

Definition __init__ (config : WhaleConfig.t F) : Py G t :=
  let in_channels := WhaleConfig.num_channels config in
  let hidden_size := WhaleConfig.hidden_size config in
  let input_dim := WhaleConfig.input_dim config in
  c1 <- nn_Conv2d in_channels hidden_size 3 2 ;;
  c2 <- nn_Conv2d hidden_size hidden_size 3 2 ;;
  let conv_in := [M_Conv2d c1; M_ReLU; M_Conv2d c2; M_ReLU] in
  let intermediate_size := (hidden_size * (((input_dim - 1) / 2 - 1) / 2))%Z in
  out <- nn_Linear intermediate_size hidden_size true ;;
  ret (mk config in_channels hidden_size input_dim conv_in
          intermediate_size out 4 6).

(** [x_mask[:, 2::2]] *)
Definition mask_step (m : Tensor bool) : Res (Tensor bool) :=
  slice_dim1 false (Some 2%Z) None 2 m.

Definition forward (self : t) (x : Tensor F) (x_mask : option (Tensor bool))
  : Py G (Tensor F * Tensor bool) :=
  x <- lift (unsqueeze 1 x) ;;
  x <- Sequential_forward (conv_in self) x ;;
  match shape x with
  | [b; c; t; f] =>
      xt <- lift (transpose f0 1 2 x) ;;
      xv <- lift (view [Z.of_nat b; Z.of_nat t; Z.of_nat (c * f)] xt) ;;
      x <- lift (Linear_forward (out self) xv) ;;
      match x_mask with
      | None => raise (TypeError "'NoneType' object is not subscriptable")
      | Some m =>
          m1 <- lift (mask_step m) ;;
          m2 <- lift (mask_step m1) ;;
          ret (x, m2)
      end
  | _ => raise (ValueError "wrong number of values to unpack (expected 4)")
  end.

Definition train (mode : bool) (self : t) : t :=
  mk (config self) (in_channels self) (hidden_size self) (input_dim self)
     (map (Module_train mode) (conv_in self)) (intermediate_size self)
     (out self) (subsampling_rate self) (right_context self).
End Def.
End WhaleConv2dSubsampling4.

(* ===================================================================== *)
(** ** class WhalePositionalEncoding *)
(* ===================================================================== *)

Module WhalePositionalEncoding.
Section Def.
Context {F : Type} {FO : Float F} {G : Type} {GO : Generator G F}.

Record t : Type := mk {
  d_model : Z;
  xscale : F;
  dropout : @Dropout F;
  max_len : Z;
  pe : Tensor F
}.

(** [math.sqrt] of a Python int. *)
Definition math_sqrt (z : Z) : Res F :=
  if (z <? 0)%Z then inl (ValueError "math domain error")
  else inr (fsqrt (of_Z z)).

(** [torch.exp(torch.arange(0, d, 2) * -(math.log(10000.0) / d))] *)
Definition div_term_of (d : Z) : Res (Tensor F) :=
  if (d =? 0)%Z then inl ZeroDivisionError
  else inr (tmap fexp
              (tscale (fneg (fdiv (flog (of_Z 10000)) (of_Z d))) (arange d 2))).

Definition __init__ (config : WhaleConfig.t F) : Res t :=
  let d_model := WhaleConfig.hidden_size config in
  xscale <~ math_sqrt d_model ;;
  dropout <~ nn_Dropout (WhaleConfig.dropout config) ;;
  let max_len := WhaleConfig.max_position_embeddings config in
  pe <~ torch_zeros [max_len; d_model] ;;
  position <~ unsqueeze 1 (arange max_len 1) ;;
  div_term <~ div_term_of d_model ;;
  angle <~ tmul position div_term ;;
  pe <~ setitem_cols 0 2 pe (tmap fsin angle) ;;
  angle <~ tmul position div_term ;;
  pe <~ setitem_cols 1 2 pe (tmap fcos angle) ;;
  pe <~ unsqueeze 0 pe ;;
  inr (mk d_model xscale dropout max_len pe).

Definition forward (self : t) (x : Tensor F) (offset : Z)
  : Py G (Tensor F * Tensor F) :=
  n <- lift (size x 1) ;;
  if negb (offset + Z.of_nat n <? max_len self)%Z then raise AssertionError
  else
    pos_emb <- lift (slice_dim1 f0 (Some offset) (Some (offset + Z.of_nat n)%Z)
                       1 (pe self)) ;;
    x <- lift (tadd (tscale (xscale self) x) pos_emb) ;;
    x <- Dropout_forward (dropout self) x ;;
    pos_emb <- Dropout_forward (dropout self) pos_emb ;;
    ret (x, pos_emb).

Definition position_encoding (self : t) (offset size : Z) : Py G (Tensor F) :=
  if negb (offset + size <? max_len self)%Z then raise AssertionError
  else
    pos_emb <- lift (slice_dim1 f0 (Some offset) (Some (offset + size)%Z)
                       1 (pe self)) ;;
    Dropout_forward (dropout self) pos_emb.

Definition train (mode : bool) (self : t) : t :=
  mk (d_model self) (xscale self) (Dropout_train mode (dropout self))
     (max_len self) (pe self).
End Def.
End WhalePositionalEncoding.

(* ===================================================================== *)
(** ** class RelPositionalEncoding(WhalePositionalEncoding) *)
(* ===================================================================== *)

Module RelPositionalEncoding.
Section Def.
Context {F : Type} {FO : Float F} {G : Type} {GO : Generator G F}.

(** The subclass adds three attributes to those of its base class. *)
Record t : Type := mk {
  super : @WhalePositionalEncoding.t F;
  hidden_size : Z;
  div_term : Tensor F;
  max_length : Z
}.

Definition __init__ (config : WhaleConfig.t F) : Res t :=
  base <~ WhalePositionalEncoding.__init__ config ;;
  let hidden_size := WhaleConfig.hidden_size config in
  div_term <~ WhalePositionalEncoding.div_term_of hidden_size ;;
  inr (mk base hidden_size div_term (WhaleConfig.max_position_embeddings config)).

(** The override of [forward]. *)
Definition forward (self : t) (x : Tensor F) (offset : Z)
  : Py G (Tensor F * Tensor F) :=
  let x := tscale (WhalePositionalEncoding.xscale (super self)) x in
  n <- lift (size x 1) ;;
  pos_emb <- lift (slice_dim1 f0 (Some offset) (Some (offset + Z.of_nat n)%Z)
                     1 (WhalePositionalEncoding.pe (super self))) ;;
  x <- Dropout_forward (WhalePositionalEncoding.dropout (super self)) x ;;
  pos_emb <- Dropout_forward (WhalePositionalEncoding.dropout (super self)) pos_emb ;;
  ret (x, pos_emb).

(** Inherited unchanged. *)
Definition position_encoding (self : t) (offset size : Z) : Py G (Tensor F) :=
  WhalePositionalEncoding.position_encoding (super self) offset size.

Definition train (mode : bool) (self : t) : t :=
  mk (WhalePositionalEncoding.train mode (super self)) (hidden_size self)
     (div_term self) (max_length self).
End Def.
End RelPositionalEncoding.

(* ===================================================================== *)
(** ** class WhaleAudioEmbeddings *)
(* ===================================================================== *)

Module WhaleAudioEmbeddings.
Section Def.
Context {F : Type} {FO : Float F} {G : Type} {GO : Generator G F}.

Record t : Type := mk {
  config : WhaleConfig.t F;
  hidden_size : Z;
  embed_dim : Z;
  dropout_rate : F;
  input_dim : Z;
  embedding : list (@Module F);
  positional_embedding : @RelPositionalEncoding.t F
}.

Definition __init__ (config : WhaleConfig.t F) : Py G t :=
  let hidden_size := WhaleConfig.hidden_size config in
  let embed_dim := WhaleConfig.hidden_size config in
  let dropout_rate := WhaleConfig.dropout config in
  let input_dim := WhaleConfig.input_dim config in
  l <- nn_Linear (WhaleConfig.hidden_size config) embed_dim true ;;
  n <- lift (nn_LayerNorm embed_dim (of_Q (1 # 100000))) ;;
  d <- lift (nn_Dropout dropout_rate) ;;
  let embedding := [M_Linear l; M_LayerNorm n; M_Dropout d; M_ReLU] in
  positional_embedding <- lift (RelPositionalEncoding.__init__ config) ;;
  ret (mk config hidden_size embed_dim dropout_rate input_dim embedding
          positional_embedding).

Definition forward (self : t) (input_features : Tensor F)
  : Py G (Tensor F * Tensor F) :=
  hidden_states <- Sequential_forward (embedding self) input_features ;;
  ' (hidden_states, pos_embeds) <-
      RelPositionalEncoding.forward (positional_embedding self) hidden_states 0 ;;
  ret (hidden_states, pos_embeds).

Definition train (mode : bool) (self : t) : t :=
  mk (config self) (hidden_size self) (embed_dim self) (dropout_rate self)
     (input_dim self) (map (Module_train mode) (embedding self))
     (RelPositionalEncoding.train mode (positional_embedding self)).
End Def.
End WhaleAudioEmbeddings.

(* ===================================================================== *)
(** ** class WhaleAttention *)
(* ===================================================================== *)

Module WhaleAttention.
Section Def.
Context {F : Type} {FO : Float F} {G : Type} {GO : Generator G F}.

(** Attributes set only under a flag are [None] when the flag is off;
    reading one of those is an [AttributeError]. *)
Record t : Type := mk {
  config : WhaleConfig.t F;
  embed_dim : Z;
  num_heads : Z;
  use_flash_attn : bool;
  head_dim : Z;
  scale : F;
  linear_q : @Linear F;
  linear_k : @Linear F;
  linear_v : @Linear F;
  linear_out : @Linear F;
  attn_drop : @Dropout F;
  qk_normalization : bool;
  q_norm : option (@LayerNorm F);
  k_norm : option (@LayerNorm F);
  use_relative_pe : bool;
  linear_pos : option (@Linear F);
  pos_bias_u : option (Tensor F);
  pos_bias_v : option (Tensor F)
}.

Definition flash_warning : string :=
  "Warning: Flash Attention is not available, use_flash_attn is set to False.".

(** The message of the divisibility check, up to the two values that the
    f-string appends in parentheses. *)
Definition divisible_error : string :=
  "embed_dim must be divisible by num_heads".

(** [a // b] on Python ints. *)
Definition floordiv (a b : Z) : Res Z :=
  if (b =? 0)%Z then inl ZeroDivisionError else inr (a / b)%Z.

(** [n ** -0.5] for a Python int [n]: zero cannot be raised to a
    negative power.  (For a negative [n] Python answers with a complex
    number; the model answers with what [fpow] gives.) *)
Definition inv_sqrt (n : Z) : Res F :=
  if (n =? 0)%Z then inl ZeroDivisionError
  else inr (fpow (of_Z n) (of_Q (- (1 # 2)))).

Definition __init__ (config : WhaleConfig.t F) : Py G t :=
  let embed_dim := WhaleConfig.hidden_size config in
  let num_heads := WhaleConfig.num_attention_heads config in
  let use_flash_attn := WhaleConfig.use_flash_attn config && has_flash_attn in
  (if WhaleConfig.use_flash_attn config && negb has_flash_attn
   then print flash_warning else ret tt) ;;
  head_dim <- lift (floordiv embed_dim num_heads) ;;
  if negb (head_dim * num_heads =? embed_dim)%Z
  then raise (ValueError divisible_error)
  else
    scale <- lift (inv_sqrt head_dim) ;;
    linear_q <- nn_Linear embed_dim embed_dim true ;;
    linear_k <- nn_Linear embed_dim embed_dim true ;;
    linear_v <- nn_Linear embed_dim embed_dim true ;;
    _ <- nn_Linear embed_dim embed_dim true ;;
    attn_drop <- lift (nn_Dropout (WhaleConfig.attention_dropout config)) ;;
    let qk_normalization := WhaleConfig.qk_normalization config in
    ' (q_norm, k_norm) <-
        (if qk_normalization then
           qn <- lift (nn_LayerNorm embed_dim (WhaleConfig.layer_norm_eps config)) ;;
           kn <- lift (nn_LayerNorm embed_dim (WhaleConfig.layer_norm_eps config)) ;;
           ret (Some qn, Some kn)
         else ret (None, None)) ;;
    (if use_flash_attn then raise (NameError "FlashAttention") else ret tt) ;;
    linear_out <- nn_Linear embed_dim embed_dim true ;;
    let use_relative_pe := WhaleConfig.use_relative_pe config in
    ' (linear_pos, pos_bias_u, pos_bias_v) <-
        (if use_relative_pe then
           lp <- nn_Linear embed_dim embed_dim false ;;
           u <- torch_rand [num_heads; head_dim] ;;
           v <- torch_rand [num_heads; head_dim] ;;
           ret (Some lp, Some u, Some v)
         else ret (None, None, None)) ;;
    ret (mk config embed_dim num_heads use_flash_attn head_dim scale
            linear_q linear_k linear_v linear_out attn_drop qk_normalization
            q_norm k_norm use_relative_pe linear_pos pos_bias_u pos_bias_v).

(** [linear(x).reshape(B, N, num_heads, head_dim).permute(0, 2, 1, 3)] *)
Definition to_heads (self : t) (l : @Linear F) (x : Tensor F) (B N : nat)
  : Res (Tensor F) :=
  y <~ Linear_forward l x ;;
  y <~ view [Z.of_nat B; Z.of_nat N; num_heads self; head_dim self] y ;;
  inr (permute f0 [0; 2; 1; 3] y).

(** [norm(q.transpose(1, 2).flatten(-2, -1)).view(B_, N_, H_, D_).transpose(1, 2)] *)
Definition head_norm (n : @LayerNorm F) (q : Tensor F) (B_ H_ N_ D_ : nat)
  : Res (Tensor F) :=
  y <~ transpose f0 1 2 q ;;
  y <~ flatten_last2 y ;;
  y <~ LayerNorm_forward n y ;;
  y <~ view [Z.of_nat B_; Z.of_nat N_; Z.of_nat H_; Z.of_nat D_] y ;;
  transpose f0 1 2 y.

(** [tensor.transpose(-2, -1)] *)
Definition transpose_last2 (x : Tensor F) : Res (Tensor F) :=
  transpose f0 (rank x - 2) (rank x - 1) x.

Definition _naive_attn (self : t) (x : Tensor F)
    (attention_mask : option (Tensor bool)) (pos_embeds : option (Tensor F))
  : Py G (Tensor F) :=
  match shape x with
  | [B; N; C] =>
      q <- lift (to_heads self (linear_q self) x B N) ;;
      k <- lift (to_heads self (linear_k self) x B N) ;;
      v <- lift (to_heads self (linear_v self) x B N) ;;
      ' (q, k) <-
          (if qk_normalization self then
             match shape q with
             | [B_; H_; N_; D_] =>
                 qn <- lift (attr "q_norm" (q_norm self)) ;;
                 q <- lift (head_norm qn q B_ H_ N_ D_) ;;
                 kn <- lift (attr "k_norm" (k_norm self)) ;;
                 k <- lift (head_norm kn k B_ H_ N_ D_) ;;
                 ret (q, k)
             | _ => raise (ValueError "wrong number of values to unpack (expected 4)")
             end
           else ret (q, k)) ;;
      attn <-
          (if use_relative_pe self then
             q <- lift (transpose f0 1 2 q) ;;
             pos <- lift (match pos_embeds with
                          | Some pos => inr pos
                          | None => inl (AttributeError "size")
                          end) ;;
             batch_size <- lift (size pos 0) ;;
             lp <- lift (attr "linear_pos" (linear_pos self)) ;;
             p <- lift (y <~ Linear_forward lp pos ;;
                        y <~ view [Z.of_nat batch_size; (-1)%Z;
                                   num_heads self; head_dim self] y ;;
                        transpose f0 1 2 y) ;;
             u <- lift (attr "pos_bias_u" (pos_bias_u self)) ;;
             query_with_bias_u <- lift (y <~ tadd q u ;; transpose f0 1 2 y) ;;
             b <- lift (attr "pos_bias_v" (pos_bias_v self)) ;;
             query_with_bias_v <- lift (y <~ tadd q b ;; transpose f0 1 2 y) ;;
             matrix_ac <- lift (kt <~ transpose_last2 k ;;
                                matmul query_with_bias_u kt) ;;
             matrix_bd <- lift (pt <~ transpose_last2 p ;;
                                matmul query_with_bias_v pt) ;;
             s <- lift (tadd matrix_ac matrix_bd) ;;
             ret (tscale (scale self) s)
           else
             lift (kt <~ transpose_last2 k ;;
                   matmul (tscale (scale self) q) kt)) ;;
      attn <-
          match attention_mask with
          | Some m =>
              lift (m <~ unsqueeze 1 m ;;
                    m <~ unsqueeze 2 m ;;
                    masked_fill attn (tmap negb m) neg_inf)
          | None => ret attn
          end ;;
      let attn := softmax_last attn in
      attn <- Dropout_forward (attn_drop self) attn ;;
      x <- lift (y <~ matmul attn v ;;
                 y <~ transpose f0 1 2 y ;;
                 view [Z.of_nat B; Z.of_nat N; Z.of_nat C] y) ;;
      lift (Linear_forward (linear_out self) x)
  | _ => raise (ValueError "wrong number of values to unpack (expected 3)")
  end.

(** The first statement reads [self.qkv], which [__init__] never sets;
    what follows it in the source cannot run. *)
Definition _flash_attn (self : t) (x : Tensor F) : Py G (Tensor F) :=
  raise (AttributeError "qkv").

Definition forward (self : t) (hidden_states : Tensor F)
    (attention_mask : option (Tensor bool)) (pos_embeds : option (Tensor F))
  : Py G (Tensor F) :=
  if negb (use_flash_attn self)
  then _naive_attn self hidden_states attention_mask pos_embeds
  else _flash_attn self hidden_states.

Definition train (mode : bool) (self : t) : t :=
  mk (config self) (embed_dim self) (num_heads self) (use_flash_attn self)
     (head_dim self) (scale self) (linear_q self) (linear_k self)
     (linear_v self) (linear_out self) (Dropout_train mode (attn_drop self))
     (qk_normalization self) (q_norm self) (k_norm self)
     (use_relative_pe self) (linear_pos self) (pos_bias_u self)
     (pos_bias_v self).
End Def.
End WhaleAttention.

(* ===================================================================== *)
(** ** class WhaleMLP *)
(* ===================================================================== *)

Module WhaleMLP.
Section Def.
Context {F : Type} {FO : Float F} {G : Type} {GO : Generator G F}.

Record t : Type := mk {
  config : WhaleConfig.t F;
  act : F -> F;
  w_1 : @Linear F;
  w_2 : @Linear F;
  dropout : @Dropout F
}.

Definition __init__ (config : WhaleConfig.t F) : Py G t :=
  act <- lift (match ACT2FN (WhaleConfig.hidden_act config) with
               | Some f => inr f
               | None => inl (KeyError (WhaleConfig.hidden_act config))
               end) ;;
  w_1 <- nn_Linear (WhaleConfig.hidden_size config)
                   (WhaleConfig.intermediate_size config) true ;;
  w_2 <- nn_Linear (WhaleConfig.intermediate_size config)
                   (WhaleConfig.hidden_size config) true ;;
  dropout <- lift (nn_Dropout (WhaleConfig.dropout config)) ;;
  ret (mk config act w_1 w_2 dropout).

Definition forward (self : t) (hidden_states : Tensor F) : Py G (Tensor F) :=
  hidden_states <- lift (Linear_forward (w_1 self) hidden_states) ;;
  let hidden_states := tmap (act self) hidden_states in
  hidden_states <- Dropout_forward (dropout self) hidden_states ;;
  lift (Linear_forward (w_2 self) hidden_states).

Definition train (mode : bool) (self : t) : t :=
  mk (config self) (act self) (w_1 self) (w_2 self)
     (Dropout_train mode (dropout self)).
End Def.
End WhaleMLP.

(* ===================================================================== *)
(** ** class WhaleAudioEncoderLayer *)
(* ===================================================================== *)

Module WhaleAudioEncoderLayer.
Section Def.
Context {F : Type} {FO : Float F} {G : Type} {GO : Generator G F}.

Record t : Type := mk {
  embed_dim : Z;
  intermediate_size : Z;
  dropout_rate : F;
  normalize_before : bool;
  concat_after : bool;
  attn : @WhaleAttention.t F;
  feed_forward : @WhaleMLP.t F;
  norm1 : @LayerNorm F;
  norm2 : @LayerNorm F;
  dropout : @Dropout F;
  concat_linear : @Module F
}.

Definition __init__ (config : WhaleConfig.t F) : Py G t :=
  let embed_dim := WhaleConfig.hidden_size config in
  let concat_after := WhaleConfig.concat_after config in
  attn <- WhaleAttention.__init__ config ;;
  feed_forward <- WhaleMLP.__init__ config ;;
  norm1 <- lift (nn_LayerNorm embed_dim (WhaleConfig.layer_norm_eps config)) ;;
  norm2 <- lift (nn_LayerNorm embed_dim (WhaleConfig.layer_norm_eps config)) ;;
  dropout <- lift (nn_Dropout (WhaleConfig.dropout config)) ;;
  concat_linear <-
      (if concat_after
       then l <- nn_Linear (embed_dim * 2) embed_dim true ;; ret (M_Linear l)
       else ret M_Identity) ;;
  ret (mk embed_dim (WhaleConfig.intermediate_size config)
          (WhaleConfig.dropout config) (WhaleConfig.normalize_before config)
          concat_after attn feed_forward norm1 norm2 dropout concat_linear).

Definition forward (self : t) (hidden_states : Tensor F)
    (attention_mask : option (Tensor bool)) (pos_emb : option (Tensor F))
  : Py G (Tensor F) :=
  let residual := hidden_states in
  hidden_states <-
      (if normalize_before self
       then lift (LayerNorm_forward (norm1 self) hidden_states)
       else ret hidden_states) ;;
  hidden_states <-
      (if concat_after self then
         a <- WhaleAttention.forward (attn self) hidden_states attention_mask pos_emb ;;
         hidden_states <- lift (cat_last f0 hidden_states a) ;;
         y <- Module_forward (concat_linear self) hidden_states ;;
         lift (tadd y residual)
       else
         a <- WhaleAttention.forward (attn self) hidden_states attention_mask pos_emb ;;
         y <- Dropout_forward (dropout self) a ;;
         lift (tadd y residual)) ;;
  hidden_states <-
      (if negb (normalize_before self)
       then lift (LayerNorm_forward (norm1 self) hidden_states)
       else ret hidden_states) ;;
  let residual := hidden_states in
  hidden_states <-
      (if normalize_before self
       then lift (LayerNorm_forward (norm2 self) hidden_states)
       else ret hidden_states) ;;
  y <- WhaleMLP.forward (feed_forward self) hidden_states ;;
  y <- Dropout_forward (dropout self) y ;;
  hidden_states <- lift (tadd y residual) ;;
  hidden_states <-
      (if negb (normalize_before self)
       then lift (LayerNorm_forward (norm2 self) hidden_states)
       else ret hidden_states) ;;
  ret hidden_states.

Definition train (mode : bool) (self : t) : t :=
  mk (embed_dim self) (intermediate_size self) (dropout_rate self)
     (normalize_before self) (concat_after self)
     (WhaleAttention.train mode (attn self))
     (WhaleMLP.train mode (feed_forward self)) (norm1 self) (norm2 self)
     (Dropout_train mode (dropout self))
     (Module_train mode (concat_linear self)).
End Def.
End WhaleAudioEncoderLayer.

(* ===================================================================== *)
(** ** Output containers of [transformers.modeling_outputs] *)
(* ===================================================================== *)

Section Outputs.
Variable F : Type.

(** An element of a returned Python tuple: a tensor or a tuple of
    tensors. *)
Inductive PyObj : Type :=
| O_Tensor (x : Tensor F)
| O_Tuple (xs : list (Tensor F)).

Record BaseModelOutput : Type := mkBaseModelOutput {
  bmo_last_hidden_state : Tensor F;
  bmo_hidden_states : option (list (Tensor F));
  bmo_attentions : option (list (Tensor F))
}.

Record BaseModelOutputWithPooling : Type := mkBaseModelOutputWithPooling {
  last_hidden_state : Tensor F;
  pooler_output : Tensor F;
  hidden_states : option (list (Tensor F));
  attentions : option (list (Tensor F))
}.

(** What a [forward] with a [return_dict] switch returns. *)
Inductive Returned (D : Type) : Type :=
| AsTuple (items : list PyObj)
| AsDict (d : D).

(** [output[1:]] of a [BaseModelOutput]: its fields that are not [None],
    the first one dropped. *)
Definition bmo_tail (o : BaseModelOutput) : list PyObj :=
  match bmo_hidden_states o with Some hs => [O_Tuple hs] | None => [] end
  ++ match bmo_attentions o with Some a => [O_Tuple a] | None => [] end.
End Outputs.

Arguments O_Tensor {F} x.
Arguments O_Tuple {F} xs.
Arguments AsTuple {F D} items.
Arguments AsDict {F D} d.
Arguments bmo_tail {F} o.

(* ===================================================================== *)
(** ** class WhaleAudioEncoder *)
(* ===================================================================== *)

Module WhaleAudioEncoder.
Section Def.
Context {F : Type} {FO : Float F} {G : Type} {GO : Generator G F}.

Record t : Type := mk {
  config : WhaleConfig.t F;
  layers : list (@WhaleAudioEncoderLayer.t F);
  gradient_checkpointing : bool;
  normalize_before : bool;
  layer_norm : option (@LayerNorm F);
  training : bool
}.

Definition __init__ (config : WhaleConfig.t F) : Py G t :=
  layers <- mapM (fun _ : nat => WhaleAudioEncoderLayer.__init__ config)
                 (seq 0 (Z.to_nat (WhaleConfig.num_hidden_layers config))) ;;
  let normalize_before := WhaleConfig.normalize_before config in
  layer_norm <-
      (if normalize_before
       then n <- lift (nn_LayerNorm (WhaleConfig.hidden_size config)
                         (WhaleConfig.layer_norm_eps config)) ;;
            ret (Some n)
       else ret None) ;;
  ret (mk config layers true normalize_before layer_norm true).

(** [torch.utils.checkpoint.checkpoint(f, args)] computes [f(args)]; it
    only changes what is kept for the backward pass. *)
Definition checkpoint {A} (call : Py G A) : Py G A := call.

(** The loop over [self.layers]; [encoder_states] is [None] or the tuple
    collected so far. *)
Fixpoint run_layers (self : t) (ls : list (@WhaleAudioEncoderLayer.t F))
    (output_hidden_states : bool)
    (attention_mask : option (Tensor bool)) (pos_embeds : option (Tensor F))
    (encoder_states : option (list (Tensor F))) (hidden_states : Tensor F)
  : Py G (option (list (Tensor F)) * Tensor F) :=
  match ls with
  | [] => ret (encoder_states, hidden_states)
  | encoder_layer :: ls' =>
      let encoder_states :=
        if output_hidden_states
        then option_map (fun es => es ++ [hidden_states]) encoder_states
        else encoder_states in
      layer_outputs <-
          (if gradient_checkpointing self && training self
           then checkpoint (WhaleAudioEncoderLayer.forward encoder_layer
                              hidden_states attention_mask pos_embeds)
           else WhaleAudioEncoderLayer.forward encoder_layer
                  hidden_states attention_mask pos_embeds) ;;
      run_layers self ls' output_hidden_states attention_mask pos_embeds
        encoder_states layer_outputs
  end.

Definition forward (self : t) (inputs_embeds : Tensor F)
    (attention_mask : option (Tensor bool)) (pos_embeds : option (Tensor F))
    (output_hidden_states return_dict : option bool)
  : Py G (Returned F (BaseModelOutput F)) :=
  let output_hidden_states :=
    match output_hidden_states with
    | Some b => b
    | None => WhaleConfig.output_hidden_states (config self)
    end in
  let return_dict :=
    match return_dict with
    | Some b => b
    | None => WhaleConfig.use_return_dict (config self)
    end in
  let encoder_states := if output_hidden_states then Some [] else None in
  let hidden_states := inputs_embeds in
  ' (encoder_states, hidden_states) <-
      run_layers self (layers self) output_hidden_states attention_mask
        pos_embeds encoder_states hidden_states ;;
  hidden_states <-
      (if normalize_before self then
         n <- lift (attr "layer_norm" (layer_norm self)) ;;
         lift (LayerNorm_forward n hidden_states)
       else ret hidden_states) ;;
  let encoder_states :=
    if output_hidden_states
    then option_map (fun es => es ++ [hidden_states]) encoder_states
    else encoder_states in
  if negb return_dict then
    ret (AsTuple (O_Tensor hidden_states ::
                  match encoder_states with
                  | Some es => [O_Tuple es]
                  | None => []
                  end))
  else
    ret (AsDict (mkBaseModelOutput hidden_states encoder_states None)).

Definition train (mode : bool) (self : t) : t :=
  mk (config self) (map (WhaleAudioEncoderLayer.train mode) (layers self))
     (gradient_checkpointing self) (normalize_before self) (layer_norm self)
     mode.
End Def.
End WhaleAudioEncoder.

(* ===================================================================== *)
(** ** class WhaleAudioModel *)
(* ===================================================================== *)

Module WhaleAudioModel.
Section Def.
Context {F : Type} {FO : Float F} {G : Type} {GO : Generator G F}.

Record t : Type := mk {
  config : WhaleConfig.t F;
  subsampling : @WhaleConv2dSubsampling4.t F;
  embeddings : @WhaleAudioEmbeddings.t F;
  encoder : @WhaleAudioEncoder.t F
}.

Definition __init__ (config : WhaleConfig.t F) : Py G t :=
  subsampling <- WhaleConv2dSubsampling4.__init__ config ;;
  embeddings <- WhaleAudioEmbeddings.__init__ config ;;
  encoder <- WhaleAudioEncoder.__init__ config ;;
  ret (mk config subsampling embeddings encoder).

Definition get_input_embeddings (self : t) : @WhaleAudioEmbeddings.t F :=
  embeddings self.

Definition specify_error : string :=
  "You have to specify pixel_values or pixel_embeds".

(** The message of the rank check, up to the shape that the f-string
    appends. *)
Definition wrong_size_error : string := "wrong pixel_values size".

(** Reading a local variable: [None] is a name that no assignment has
    reached. *)
Definition local {A} (name : string) (v : option A) : Res A :=
  match v with
  | Some a => inr a
  | None => inl (UnboundLocalError name)
  end.

Definition is_None {A} (o : option A) : bool :=
  match o with None => true | Some _ => false end.

Definition forward (self : t)
    (input_features : option (Tensor F))
    (attention_mask : option (Tensor bool))
    (output_hidden_states return_dict : option bool)
    (pixel_embeds : option (Tensor F))
  : Py G (Returned F (BaseModelOutputWithPooling F)) :=
  let output_hidden_states :=
    match output_hidden_states with
    | Some b => b
    | None => WhaleConfig.output_hidden_states (config self)
    end in
  let return_dict :=
    match return_dict with
    | Some b => b
    | None => WhaleConfig.use_return_dict (config self)
    end in
  if is_None input_features && is_None pixel_embeds
  then raise (ValueError specify_error)
  else
    (* the locals [hidden_states], [attention_mask], [pos_embeds] after
       the [if]: the branch for [pixel_embeds] assigns no [pos_embeds] *)
    ' (hidden_states, attention_mask, pos_embeds) <-
        match pixel_embeds with
        | Some pixel_embeds => ret (pixel_embeds, attention_mask, None)
        | None =>
            input_features <-
                lift (match input_features with
                      | Some x => inr x
                      | None => inl (AttributeError "shape")
                      end) ;;
            if rank input_features =? 3 then
              ' (input_features, attention_mask) <-
                  WhaleConv2dSubsampling4.forward (subsampling self)
                    input_features attention_mask ;;
              ' (hidden_states, pos_embeds) <-
                  WhaleAudioEmbeddings.forward (embeddings self) input_features ;;
              ret (hidden_states, Some attention_mask, Some pos_embeds)
            else raise (ValueError wrong_size_error)
        end ;;
    pos_embeds <- lift (local "pos_embeds" pos_embeds) ;;
    encoder_outputs <-
        WhaleAudioEncoder.forward (encoder self) hidden_states attention_mask
          (Some pos_embeds) (Some output_hidden_states) (Some return_dict) ;;
    match encoder_outputs with
    | AsTuple _ => raise (AttributeError "last_hidden_state")
    | AsDict encoder_outputs =>
        let last_hidden_state := bmo_last_hidden_state encoder_outputs in
        pooled_output <- lift (select_dim1 f0 0 last_hidden_state) ;;
        if negb return_dict then
          ret (AsTuple (O_Tensor last_hidden_state :: O_Tensor pooled_output
                        :: bmo_tail encoder_outputs))
        else
          ret (AsDict (mkBaseModelOutputWithPooling
                         last_hidden_state pooled_output
                         (bmo_hidden_states encoder_outputs)
                         (bmo_attentions encoder_outputs)))
    end.

(** [model.train(mode)]; [model.eval()] is [train false]. *)
Definition train (mode : bool) (self : t) : t :=
  mk (config self) (WhaleConv2dSubsampling4.train mode (subsampling self))
     (WhaleAudioEmbeddings.train mode (embeddings self))
     (WhaleAudioEncoder.train mode (encoder self)).
End Def.
End WhaleAudioModel.

(* ===================================================================== *)
(** ** Vocabulary of the statements *)
(* ===================================================================== *)

(** *** Results of a run *)

Definition is_inr {A} (r : Res A) : bool :=
  match r with inr _ => true | inl _ => false end.

(** The value of a result known to be a success. *)
Definition get {A} (r : Res A) : is_inr r = true -> A :=
  match r as r0 return is_inr r0 = true -> A with
  | inr a => fun _ => a
  | inl _ => fun H => match Bool.diff_false_true H with end
  end.

(** [c] can only fail with an error satisfying [P]. *)
Definition fails_with {G} (P : PyError -> Prop) {A} (c : Py G A) : Prop :=
  forall w e w', c w = (inl e, w') -> P e.

(** [c] prints nothing. *)
Definition quiet {G A} (c : Py G A) : Prop :=
  forall w, stdout (snd (c w)) = stdout w.

Definition is_RuntimeError (e : PyError) : Prop := exists msg, e = RuntimeError msg.

(** *** Tensors *)

(** The data of a tensor fill its shape. *)
Definition wf {A} (t : Tensor A) : Prop := length (data t) = numel (shape t).

Section Vocabulary.
Context {F : Type} {FO : Float F} {G : Type} {GO : Generator G F}.

(** *** The positional table, entry by entry *)

(** [position * div_term] at row [pos], column [i]. *)
Definition pe_angle (d : Z) (pos i : nat) : F :=
  fmul (of_Z (Z.of_nat pos))
       (fexp (fmul (of_Z (Z.of_nat (2 * i)))
                   (fneg (fdiv (flog (of_Z 10000)) (of_Z d))))).

(** Sine in the even columns, cosine in the odd ones. *)
Definition pe_entry (d : Z) (pos j : nat) : F :=
  if Nat.even j then fsin (pe_angle d pos (j / 2))
  else fcos (pe_angle d pos (j / 2)).

(** *** The relative variant, in the words of the specification

    "returns the pair (dropout(x * sqrt(d)),
    dropout(pe[:, offset : offset + time]))" *)
Definition rel_forward_spec (d : Z) (drop : @Dropout F) (pe x : Tensor F)
    (offset : Z) (time : nat) : Py G (Tensor F * Tensor F) :=
  a <- Dropout_forward drop (tmap (fun v => fmul v (fsqrt (of_Z d))) x) ;;
  s <- lift (slice_dim1 f0 (Some offset) (Some (offset + Z.of_nat time)%Z) 1 pe) ;;
  b <- Dropout_forward drop s ;;
  ret (a, b).

(** *** What the constructors establish *)

(** [WhaleConv2dSubsampling4.__init__]: two convolutions with kernel 3 and
    stride 2, and the sizes of the output projection. *)
Definition subsampling_built (cfg : WhaleConfig.t F)
    (m : @WhaleConv2dSubsampling4.t F) : Prop :=
  let hid := Z.to_nat (WhaleConfig.hidden_size cfg) in
  exists c1 c2,
    WhaleConv2dSubsampling4.conv_in m
      = [M_Conv2d c1; M_ReLU; M_Conv2d c2; M_ReLU] /\
    kernel_size c1 = 3 /\ stride c1 = 2 /\
    in_channels c1 = Z.to_nat (WhaleConfig.num_channels cfg) /\
    out_channels c1 = hid /\
    kernel_size c2 = 3 /\ stride c2 = 2 /\
    in_channels c2 = hid /\ out_channels c2 = hid /\
    in_features (WhaleConv2dSubsampling4.out m)
      = Z.to_nat (WhaleConfig.hidden_size cfg
                  * (((WhaleConfig.input_dim cfg - 1) / 2 - 1) / 2)) /\
    out_features (WhaleConv2dSubsampling4.out m) = hid /\
    (0 <= WhaleConfig.hidden_size cfg)%Z.

(** The error of the divisibility check, and no other. *)
Definition not_divisible_error (e : PyError) : Prop :=
  e <> ValueError WhaleAttention.divisible_error.

(** A configuration the attention module accepts: positive sizes, a head
    count that divides the embedding dimension, a dropout probability
    between 0 and 1. *)
Definition valid_attention_config (cfg : WhaleConfig.t F) : Prop :=
  (0 < WhaleConfig.hidden_size cfg)%Z /\
  (0 < WhaleConfig.num_attention_heads cfg)%Z /\
  (WhaleConfig.num_attention_heads cfg | WhaleConfig.hidden_size cfg)%Z /\
  fltb (WhaleConfig.attention_dropout cfg) f0 = false /\
  fltb (of_Z 1) (WhaleConfig.attention_dropout cfg) = false.
(** The configuration [cfg] with the request for the optimized kernel
    withdrawn. *)
Definition without_flash_request (cfg : WhaleConfig.t F) : WhaleConfig.t F :=
  WhaleConfig.mk (WhaleConfig.num_channels cfg) (WhaleConfig.hidden_size cfg)
    (WhaleConfig.input_dim cfg) (WhaleConfig.dropout cfg)
    (WhaleConfig.max_position_embeddings cfg)
    (WhaleConfig.num_attention_heads cfg) false
    (WhaleConfig.attention_dropout cfg) (WhaleConfig.qk_normalization cfg)
    (WhaleConfig.layer_norm_eps cfg) (WhaleConfig.use_relative_pe cfg)
    (WhaleConfig.hidden_act cfg) (WhaleConfig.intermediate_size cfg)
    (WhaleConfig.normalize_before cfg) (WhaleConfig.concat_after cfg)
    (WhaleConfig.num_hidden_layers cfg) (WhaleConfig.output_hidden_states cfg)
    (WhaleConfig.use_return_dict cfg).

(** The attention module [m] with [cfg] as its [config] attribute. *)
Definition holding (cfg : WhaleConfig.t F) (m : @WhaleAttention.t F)
  : @WhaleAttention.t F :=
  WhaleAttention.mk cfg (WhaleAttention.embed_dim m) (WhaleAttention.num_heads m)
    (WhaleAttention.use_flash_attn m) (WhaleAttention.head_dim m)
    (WhaleAttention.scale m) (WhaleAttention.linear_q m)
    (WhaleAttention.linear_k m) (WhaleAttention.linear_v m)
    (WhaleAttention.linear_out m) (WhaleAttention.attn_drop m)
    (WhaleAttention.qk_normalization m) (WhaleAttention.q_norm m)
    (WhaleAttention.k_norm m) (WhaleAttention.use_relative_pe m)
    (WhaleAttention.linear_pos m) (WhaleAttention.pos_bias_u m)
    (WhaleAttention.pos_bias_v m).

(** The outcome of a run with the returned value changed by [f]. *)
Definition outcome_map {A B} (f : A -> B) (o : Res A * World G)
  : Res B * World G :=
  (match fst o with inl e => inl e | inr a => inr (f a) end, snd o).

End Vocabulary.

(* ===================================================================== *)
(** ** A small model to run *)
(* ===================================================================== *)

(** One channel, 7 features per frame, hidden size 4, two heads, one
    layer, a table of 16 positions; the configuration asks for the
    optimized attention kernel. *)
Definition demo_config : WhaleConfig.t ifloat :=
  WhaleConfig.mk 1 4 7 (Rat 0) 16 2 true (Rat 0) false (Rat (1 # 100000)) true
    "relu" 8 true false 1 false true.

(** The same with three heads, which do not divide the hidden size. *)
Definition three_heads_config : WhaleConfig.t ifloat :=
  WhaleConfig.mk 1 4 7 (Rat 0) 16 3 true (Rat 0) false (Rat (1 # 100000)) true
    "relu" 8 true false 1 false true.

(** The same with no head at all. *)
Definition zero_heads_config : WhaleConfig.t ifloat :=
  WhaleConfig.mk 1 4 7 (Rat 0) 16 0 true (Rat 0) false (Rat (1 # 100000)) true
    "relu" 8 true false 1 false true.

(** No head and a hidden size of zero. *)
Definition zero_size_config : WhaleConfig.t ifloat :=
  WhaleConfig.mk 1 0 7 (Rat 0) 16 0 true (Rat 0) false (Rat (1 # 100000)) true
    "relu" 8 true false 1 false true.

Definition demo_world : World unit := mkWorld tt [].

(** Features of shape (1, T, 7). *)
Definition features (T : nat) : Tensor ifloat := build [1; T; 7] (fun _ => Rat 1).

(** A mask of shape (1, T): one row per batch entry. *)
Definition mask2 (T : nat) : Tensor bool := build [1; T] (fun _ => true).

(** A mask of shape (1, 1, T), as the docstring of the subsampling has it. *)
Definition mask3 (T : nat) : Tensor bool := build [1; 1; T] (fun _ => true).

(** A mask of shape (1, T, 1), which torch broadcasts against the
    attention scores. *)
Definition mask_column (T : nat) : Tensor bool := build [1; T; 1] (fun _ => true).

(** Hidden states of shape (1, T, 4). *)
Definition hidden (T : nat) : Tensor ifloat := build [1; T; 4] (fun _ => Rat 1).

Definition demo_subsampling : WhaleConv2dSubsampling4.t :=
  get (fst (WhaleConv2dSubsampling4.__init__ demo_config demo_world)) eq_refl.

Definition demo_positional : RelPositionalEncoding.t :=
  get (RelPositionalEncoding.__init__ demo_config) eq_refl.

Definition demo_attention : WhaleAttention.t :=
  get (fst (WhaleAttention.__init__ demo_config demo_world)) eq_refl.

Definition demo_model : WhaleAudioModel.t :=
  get (fst (WhaleAudioModel.__init__ demo_config demo_world)) eq_refl.

(** A rank-2 tensor of features: one utterance without its batch axis. *)
Definition unbatched_features : Tensor ifloat := build [7; 7] (fun _ => Rat 1).

(** The model on 7 frames and their mask. *)
Definition demo_run : Res (Returned ifloat (BaseModelOutputWithPooling ifloat))
                      * World unit :=
  WhaleAudioModel.forward demo_model (Some (features 7)) (Some (mask2 7))
    None None None demo_world.

(** The subsampling on 11 frames and their mask. *)
Definition subsampling_run : Res (Tensor ifloat * Tensor bool) * World unit :=
  WhaleConv2dSubsampling4.forward demo_subsampling (features 11)
    (Some (mask2 11)) demo_world.

(* ===================================================================== *)
(** ** Vocabulary of the further properties *)
(* ===================================================================== *)

(** [c] neither reads the world nor changes it: it has one result, the
    same in every state of the generator and of the output, and leaves
    both as it found them. *)
Definition stateless {G A} (c : Py G A) : Prop :=
  exists r, forall w, c w = (r, w).

Section Built.
Context {F : Type} {FO : Float F}.

(** *** What the other constructors establish

    Sizes only: they do not change with [train]. *)

(** A linear layer from [i] to [o] features. *)
Definition linear_sized (i o : nat) (l : @Linear F) : Prop :=
  in_features l = i /\ out_features l = o.

(** [WhaleMLP.__init__]: hidden size to intermediate size and back. *)
Definition mlp_built (cfg : WhaleConfig.t F) (m : @WhaleMLP.t F) : Prop :=
  linear_sized (Z.to_nat (WhaleConfig.hidden_size cfg))
               (Z.to_nat (WhaleConfig.intermediate_size cfg)) (WhaleMLP.w_1 m) /\
  linear_sized (Z.to_nat (WhaleConfig.intermediate_size cfg))
               (Z.to_nat (WhaleConfig.hidden_size cfg)) (WhaleMLP.w_2 m).

(** [WhaleAttention.__init__]: four projections of the hidden size onto
    itself, heads that tile the hidden size, and the optional parts that
    the flags ask for. *)
Definition attention_built (cfg : WhaleConfig.t F) (m : @WhaleAttention.t F)
  : Prop :=
  let e := Z.to_nat (WhaleConfig.hidden_size cfg) in
  WhaleAttention.use_flash_attn m = false /\
  WhaleAttention.num_heads m = WhaleConfig.num_attention_heads cfg /\
  WhaleAttention.use_relative_pe m = WhaleConfig.use_relative_pe cfg /\
  (WhaleAttention.head_dim m * WhaleAttention.num_heads m
   = WhaleConfig.hidden_size cfg)%Z /\
  (0 <= WhaleConfig.hidden_size cfg)%Z /\
  WhaleAttention.head_dim m <> 0%Z /\
  linear_sized e e (WhaleAttention.linear_q m) /\
  linear_sized e e (WhaleAttention.linear_k m) /\
  linear_sized e e (WhaleAttention.linear_v m) /\
  linear_sized e e (WhaleAttention.linear_out m) /\
  (WhaleAttention.qk_normalization m = true ->
   exists qn kn,
     WhaleAttention.q_norm m = Some qn /\ WhaleAttention.k_norm m = Some kn /\
     normalized_shape qn = e /\ normalized_shape kn = e) /\
  (WhaleAttention.use_relative_pe m = true ->
   exists lp u v,
     WhaleAttention.linear_pos m = Some lp /\ linear_sized e e lp /\
     WhaleAttention.pos_bias_u m = Some u /\
     WhaleAttention.pos_bias_v m = Some v /\
     shape u = [Z.to_nat (WhaleAttention.num_heads m);
                Z.to_nat (WhaleAttention.head_dim m)] /\
     shape v = [Z.to_nat (WhaleAttention.num_heads m);
                Z.to_nat (WhaleAttention.head_dim m)]).

(** [WhaleAudioEncoderLayer.__init__] *)
Definition layer_built (cfg : WhaleConfig.t F) (l : @WhaleAudioEncoderLayer.t F)
  : Prop :=
  let e := Z.to_nat (WhaleConfig.hidden_size cfg) in
  attention_built cfg (WhaleAudioEncoderLayer.attn l) /\
  mlp_built cfg (WhaleAudioEncoderLayer.feed_forward l) /\
  normalized_shape (WhaleAudioEncoderLayer.norm1 l) = e /\
  normalized_shape (WhaleAudioEncoderLayer.norm2 l) = e /\
  (WhaleAudioEncoderLayer.concat_after l = true ->
   exists lin, WhaleAudioEncoderLayer.concat_linear l = M_Linear lin /\
               linear_sized (e + e) e lin).

(** [WhaleAudioEncoder.__init__] *)
Definition encoder_built (cfg : WhaleConfig.t F) (m : @WhaleAudioEncoder.t F)
  : Prop :=
  WhaleAudioEncoder.config m = cfg /\
  length (WhaleAudioEncoder.layers m)
    = Z.to_nat (WhaleConfig.num_hidden_layers cfg) /\
  Forall (layer_built cfg) (WhaleAudioEncoder.layers m) /\
  WhaleAudioEncoder.normalize_before m = WhaleConfig.normalize_before cfg /\
  (WhaleAudioEncoder.normalize_before m = true ->
   exists n, WhaleAudioEncoder.layer_norm m = Some n /\
             normalized_shape n = Z.to_nat (WhaleConfig.hidden_size cfg)).

(** [WhalePositionalEncoding.__init__]: the scale and the table. *)
Definition table_built (cfg : WhaleConfig.t F) (p : @WhalePositionalEncoding.t F)
  : Prop :=
  let d := WhaleConfig.hidden_size cfg in
  let L := WhaleConfig.max_position_embeddings cfg in
  (0 < d)%Z /\ (0 <= L)%Z /\
  WhalePositionalEncoding.max_len p = L /\
  WhalePositionalEncoding.xscale p = fsqrt (of_Z d) /\
  shape (WhalePositionalEncoding.pe p) = [1; Z.to_nat L; Z.to_nat d] /\
  forall pos j, pos < Z.to_nat L -> j < Z.to_nat d ->
    tget f0 (WhalePositionalEncoding.pe p) [0; pos; j] = pe_entry d pos j.

(** [WhaleAudioEmbeddings.__init__] *)
Definition embeddings_built (cfg : WhaleConfig.t F) (m : @WhaleAudioEmbeddings.t F)
  : Prop :=
  let e := Z.to_nat (WhaleConfig.hidden_size cfg) in
  (exists l n d,
      WhaleAudioEmbeddings.embedding m
        = [M_Linear l; M_LayerNorm n; M_Dropout d; M_ReLU] /\
      linear_sized e e l /\ normalized_shape n = e) /\
  table_built cfg
    (RelPositionalEncoding.super (WhaleAudioEmbeddings.positional_embedding m)).

(** [WhaleAudioModel.__init__] *)
Definition model_built (cfg : WhaleConfig.t F) (m : @WhaleAudioModel.t F)
  : Prop :=
  WhaleAudioModel.config m = cfg /\
  subsampling_built cfg (WhaleAudioModel.subsampling m) /\
  embeddings_built cfg (WhaleAudioModel.embeddings m) /\
  encoder_built cfg (WhaleAudioModel.encoder m).

(** *** Configurations that the constructors accept *)

(** A hidden size for which the two strided assignments fit: the sines
    fill the columns [0::2] and the cosines the columns [1::2]. *)
Definition table_config (cfg : WhaleConfig.t F) : Prop :=
  let d := WhaleConfig.hidden_size cfg in
  (0 < d)%Z /\ (Z.even d = true \/ d = 1%Z) /\
  (0 <= WhaleConfig.max_position_embeddings cfg)%Z /\
  fltb (WhaleConfig.dropout cfg) f0 = false /\
  fltb (of_Z 1) (WhaleConfig.dropout cfg) = false.


End Built.

(** *** The loop over the layers *)

Section Loop.
Context {F : Type} {FO : Float F} {G : Type} {GO : Generator G F}.

(** [outs] holds the outputs of the layers [ls], run one after the other
    from the hidden states [hs]: each layer is given what the layer
    before it returned. *)
Fixpoint layer_outputs (ls : list (@WhaleAudioEncoderLayer.t F))
    (mask : option (Tensor bool)) (pos : option (Tensor F))
    (hs : Tensor F) (outs : list (Tensor F)) : Prop :=
  match ls, outs with
  | [], [] => True
  | l :: ls', out :: outs' =>
      (exists w w' : World G,
          WhaleAudioEncoderLayer.forward l hs mask pos w = (inr out, w')) /\
      layer_outputs ls' mask pos out outs'
  | _, _ => False
  end.
End Loop.

(** *** The other parts of the small model, each built on its own *)

Definition demo_table : WhalePositionalEncoding.t :=
  get (WhalePositionalEncoding.__init__ demo_config) eq_refl.

Definition demo_embeddings : WhaleAudioEmbeddings.t :=
  get (fst (WhaleAudioEmbeddings.__init__ demo_config demo_world)) eq_refl.

Definition demo_mlp : WhaleMLP.t :=
  get (fst (WhaleMLP.__init__ demo_config demo_world)) eq_refl.

Definition demo_layer : WhaleAudioEncoderLayer.t :=
  get (fst (WhaleAudioEncoderLayer.__init__ demo_config demo_world)) eq_refl.

Definition demo_encoder : WhaleAudioEncoder.t :=
  get (fst (WhaleAudioEncoder.__init__ demo_config demo_world)) eq_refl.

(** The encoder, in evaluation mode, on three frames, all kept by the
    mask, with their three rows of positions. *)
Definition encoder_run : Res (Returned ifloat (BaseModelOutput ifloat))
                         * World unit :=
  WhaleAudioEncoder.forward (WhaleAudioEncoder.train false demo_encoder)
    (hidden 3) (Some (mask2 3)) (Some (hidden 3)) (Some true) None demo_world.

(** The model, in evaluation mode, on 7 frames and their mask. *)
Definition eval_run : Res (Returned ifloat (BaseModelOutputWithPooling ifloat))
                      * World unit :=
  WhaleAudioModel.forward (WhaleAudioModel.train false demo_model)
    (Some (features 7)) (Some (mask2 7)) None None None demo_world.

(** Features of shape (1, 11, 7) that differ from [features 11] from
    frame 7 on. *)
Definition late_features : Tensor ifloat :=
  build [1; 11; 7] (fun idx => if nth 1 idx 0 <? 7 then Rat 1 else Rat 2).

(** The subsampling, in evaluation mode, on the two inputs. *)
Definition early_run : Res (Tensor ifloat * Tensor bool) * World unit :=
  WhaleConv2dSubsampling4.forward
    (WhaleConv2dSubsampling4.train false demo_subsampling)
    (features 11) (Some (mask2 11)) demo_world.

Definition late_run : Res (Tensor ifloat * Tensor bool) * World unit :=
  WhaleConv2dSubsampling4.forward
    (WhaleConv2dSubsampling4.train false demo_subsampling)
    late_features (Some (mask2 11)) demo_world.

(* ===================================================================== *)
(** ** Facts about results and the monad *)
(* ===================================================================== *)

Lemma get_eq {A} (r : Res A) (H : is_inr r = true) : r = inr (get r H).
Proof. destruct r; [discriminate H|reflexivity]. Qed.

Lemma run_eq {A W} (p : Res A * W) (H : is_inr (fst p) = true) :
  p = (inr (get (fst p) H), snd p).
Proof. destruct p as [[e|a] w]; [discriminate H|reflexivity]. Qed.

Lemma res_bind_inr (A B : Type) (r : Res A) (k : A -> Res B) (b : B) :
  res_bind r k = inr b -> exists a, r = inr a /\ k a = inr b.
Proof.
  destruct r as [e|a]; simpl; [discriminate|].
  intros H. exists a. split; [reflexivity|exact H].
Qed.

Ltac res_inv H :=
  match type of H with
  | res_bind _ _ = inr _ =>
      let a := fresh "v" in let Ha := fresh "E" in
      apply res_bind_inr in H; destruct H as (a & Ha & H); res_inv H
  | _ => idtac
  end.

Section MonadFacts.
Variable G : Type.

Lemma bind_inr A B (c : Py G A) (k : A -> Py G B) w b w' :
  bind c k w = (inr b, w') ->
  exists a w1, c w = (inr a, w1) /\ k a w1 = (inr b, w').
Proof.
  unfold bind. destruct (c w) as [[e|a] w1]; [discriminate|].
  intros H. exists a, w1. split; [reflexivity|exact H].
Qed.

Lemma bind_inl A B (c : Py G A) (k : A -> Py G B) w e w' :
  bind c k w = (inl e, w') ->
  c w = (inl e, w') \/ exists a w1, c w = (inr a, w1) /\ k a w1 = (inl e, w').
Proof.
  unfold bind. destruct (c w) as [[e1|a] w1].
  - intros H. injection H as -> ->. left. reflexivity.
  - intros H. right. exists a, w1. split; [reflexivity|exact H].
Qed.

Lemma lift_inr A (r : Res A) (w : World G) a w' :
  lift r w = (inr a, w') -> r = inr a /\ w' = w.
Proof. unfold lift. intros H. injection H as -> <-. split; reflexivity. Qed.

Lemma ret_inr A (a b : A) (w w' : World G) :
  ret a w = (inr b, w') -> b = a /\ w' = w.
Proof. unfold ret. intros H. injection H as <- <-. split; reflexivity. Qed.

(** Running [c] then [k] when [c] is known to return. *)
Lemma bind_ok {A B} {c : Py G A} (k : A -> Py G B) {w a w1} :
  c w = (inr a, w1) -> bind c k w = k a w1.
Proof. unfold bind. intros ->. reflexivity. Qed.

Lemma bind_lift_ok {A B} {r : Res A} (k : A -> Py G B) (w : World G) {a} :
  r = inr a -> bind (lift r) k w = k a w.
Proof. intros ->. reflexivity. Qed.

Lemma fails_with_ret P A (a : A) : fails_with P (ret (G := G) a).
Proof. intros w e w' H. discriminate. Qed.

Lemma fails_with_raise (P : PyError -> Prop) A e :
  P e -> fails_with P (@raise G A e).
Proof. intros He w e' w' H. injection H as <- _. exact He. Qed.

Lemma fails_with_lift (P : PyError -> Prop) A (r : Res A) :
  (forall e, r = inl e -> P e) -> fails_with P (@lift G A r).
Proof. intros Hr w e w' H. injection H as -> _. apply Hr. reflexivity. Qed.

Lemma fails_with_bind P A B (c : Py G A) (k : A -> Py G B) :
  fails_with P c -> (forall a, fails_with P (k a)) -> fails_with P (bind c k).
Proof.
  intros Hc Hk w e w' H. apply bind_inl in H.
  destruct H as [H|(a & w1 & _ & H)].
  - exact (Hc _ _ _ H).
  - exact (Hk _ _ _ _ H).
Qed.

Lemma fails_with_print P s : fails_with P (@print G s).
Proof. intros w e w' H. discriminate. Qed.

Lemma fails_with_weaken {P Q : PyError -> Prop} {A} {c : Py G A} :
  (forall e, P e -> Q e) -> fails_with P c -> fails_with Q c.
Proof. intros HPQ Hc w e w' H. apply HPQ. exact (Hc _ _ _ H). Qed.
End MonadFacts.

(** Take apart a run that returned. *)
Ltac py_inv H :=
  match type of H with
  | bind _ _ _ = (inr _, _) =>
      let a := fresh "v" in let w := fresh "w" in let Ha := fresh "E" in
      apply bind_inr in H; destruct H as (a & w & Ha & H); py_inv Ha; py_inv H
  | lift _ _ = (inr _, _) =>
      let E := fresh "E" in
      apply lift_inr in H; destruct H as [H E]; subst
  | ret _ _ = (inr _, _) =>
      let E := fresh "E" in
      apply ret_inr in H; destruct H as [H E]; subst
  | raise _ _ = (inr _, _) => discriminate H
  | (let (_, _) := ?v in _) _ = (inr _, _) => destruct v; py_inv H
  | _ => idtac
  end.

(* ===================================================================== *)
(** ** Facts about tensors *)
(* ===================================================================== *)

Section BlockLists.
Variable A : Type.

Lemma nth_flat_map_block (B : Type) (f : B -> list A) (n : nat) (d : A) (db : B) :
  (forall b, length (f b) = n) ->
  forall (l : list B) (i j : nat),
    i < length l -> j < n ->
    nth (i * n + j) (flat_map f l) d = nth j (f (nth i l db)) d.
Proof.
  intros Hlen l. induction l as [|b l IH]; intros i j Hi Hj; simpl in *.
  - lia.
  - destruct i as [|i].
    + simpl. rewrite app_nth1; [reflexivity | rewrite Hlen; exact Hj].
    + rewrite app_nth2; rewrite Hlen; [|lia].
      replace (S i * n + j - n) with (i * n + j) by lia.
      apply IH; lia.
Qed.

Lemma length_flat_map_block (B : Type) (f : B -> list A) (n : nat) :
  (forall b, length (f b) = n) ->
  forall l : list B, length (flat_map f l) = length l * n.
Proof.
  intros Hlen l. induction l as [|b l IH]; simpl; [reflexivity|].
  rewrite length_app, Hlen, IH. reflexivity.
Qed.
End BlockLists.

Lemma length_indices (s : list nat) : length (indices s) = numel s.
Proof.
  induction s as [|d s IH]; simpl; [reflexivity|].
  rewrite (@length_flat_map_block _ _ _ (numel s)).
  - rewrite length_seq. reflexivity.
  - intros b. rewrite length_map. exact IH.
Qed.

Lemma ravel_lt (s idx : list nat) :
  Forall2 lt idx s -> ravel s idx < numel s.
Proof.
  intros H. induction H as [|i d idx s Hi _ IH]; simpl; [lia|].
  nia.
Qed.

(** The multi-index stored at its own row-major position. *)
Lemma nth_indices (s idx : list nat) (d : list nat) :
  Forall2 lt idx s -> nth (ravel s idx) (indices s) d = idx.
Proof.
  intros H. induction H as [|i n idx s Hi H IH]; simpl; [reflexivity|].
  rewrite (@nth_flat_map_block _ _ _ (numel s) d 0).
  - rewrite seq_nth by exact Hi. simpl.
    rewrite (nth_indep _ d (i :: d)).
    + rewrite map_nth. rewrite IH. reflexivity.
    + rewrite length_map, length_indices. apply ravel_lt. exact H.
  - intros b. rewrite length_map. apply length_indices.
  - rewrite length_seq. exact Hi.
  - apply ravel_lt. exact H.
Qed.

(** Reading a tensor built from an index function. *)
Lemma tget_build (A : Type) (d : A) (s : list nat) (f : list nat -> A)
    (idx : list nat) :
  Forall2 lt idx s -> tget d (build s f) idx = f idx.
Proof.
  intros H. unfold tget, build. simpl.
  rewrite (nth_indep _ d (f [])).
  - rewrite map_nth. rewrite nth_indices by exact H. reflexivity.
  - rewrite length_map, length_indices. apply ravel_lt. exact H.
Qed.

Lemma wf_build A s (f : list nat -> A) : wf (build s f).
Proof. unfold wf, build; simpl. rewrite length_map. apply length_indices. Qed.

Lemma wf_tmap A B (f : A -> B) t : wf t -> wf (tmap f t).
Proof. unfold wf, tmap; simpl. rewrite length_map. auto. Qed.

Lemma tget_tmap A B (f : A -> B) (da : A) (db : B) t idx :
  wf t -> Forall2 lt idx (shape t) -> tget db (tmap f t) idx = f (tget da t idx).
Proof.
  intros Hwf H. unfold tget, tmap; simpl.
  rewrite (nth_indep _ db (f da)).
  - apply map_nth.
  - rewrite length_map, Hwf. apply ravel_lt. exact H.
Qed.

Lemma unsqueeze_inr A (k : nat) (t t' : Tensor A) :
  unsqueeze k t = inr t' ->
  k <= rank t /\
  t' = mkTensor (firstn k (shape t) ++ 1 :: skipn k (shape t)) (data t).
Proof.
  unfold unsqueeze. destruct (Nat.leb_spec k (rank t)); [|discriminate].
  intros H'. injection H' as <-. split; [assumption|reflexivity].
Qed.

Lemma pyslice_from (a step n : nat) :
  pyslice (Some (Z.of_nat a)) None step n
  = (Nat.min a n, (n - Nat.min a n + (step - 1)) / step).
Proof.
  unfold pyslice.
  destruct (Z.ltb_spec (Z.of_nat a) 0) as [Hneg|_]; [lia|].
  f_equal; [lia|]. f_equal. lia.
Qed.

(** A slice of dimension 1 of a tensor of rank at least 2 always exists. *)
Lemma slice_dim1_ok A (d : A) (start stop : option Z) (step : nat) (t : Tensor A)
    (d0 d1 : nat) (rest : list nat) :
  shape t = d0 :: d1 :: rest ->
  exists s, slice_dim1 d start stop step t = inr s /\
    shape s = d0 :: snd (pyslice start stop step d1) :: rest /\
    forall i j r, Forall2 lt (i :: j :: r) (shape s) ->
      tget d s (i :: j :: r)
      = tget d t (i :: fst (pyslice start stop step d1) + step * j :: r).
Proof.
  intros Hs. unfold slice_dim1. rewrite Hs.
  destruct (pyslice start stop step d1) as [lo n]. cbn [fst snd].
  eexists. split; [reflexivity|]. split; [reflexivity|].
  intros i j r Hidx. rewrite tget_build by exact Hidx. reflexivity.
Qed.

Lemma select_dim1_inr A (d : A) (i : nat) (t s : Tensor A) :
  select_dim1 d i t = inr s ->
  exists d0 d1 d2 rest, shape t = d0 :: d1 :: d2 :: rest /\ i < d1 /\
    shape s = d0 :: d2 :: rest /\
    forall i0 r, Forall2 lt (i0 :: r) (shape s) ->
      tget d s (i0 :: r) = tget d t (i0 :: i :: r).
Proof.
  unfold select_dim1. destruct (shape t) as [|d0 [|d1 [|d2 rest]]]; try discriminate.
  destruct (Nat.ltb_spec i d1) as [Hi|]; [|discriminate].
  intros H. injection H as <-. exists d0, d1, d2, rest.
  repeat split; try assumption.
  intros i0 r Hidx. rewrite tget_build by exact Hidx. reflexivity.
Qed.

Lemma broadcast_col_row (n h : nat) : broadcast_shapes [n; 1] [h] = Some [n; h].
Proof. destruct h as [|[|h]]; reflexivity. Qed.

(** An index within the shape is read where it points. *)
Lemma bmask_within (s idx : list nat) : Forall2 lt idx s -> bmask s idx = idx.
Proof.
  intros H. induction H as [|i d idx s Hi _ IH]; [reflexivity|].
  cbn [bmask]. rewrite IH. destruct (Nat.eqb_spec d 1); [f_equal; lia|reflexivity].
Qed.

Lemma bidx_within (s idx : list nat) : Forall2 lt idx s -> bidx s idx = idx.
Proof.
  intros H. unfold bidx. rewrite (Forall2_length H), Nat.sub_diag.
  apply bmask_within. exact H.
Qed.

Lemma bidx_same_rank2 (a b i j : nat) :
  i < a -> j < b -> bidx [a; b] [i; j] = [i; j].
Proof.
  intros Hi Hj. unfold bidx. cbn [length skipn Nat.sub bmask].
  destruct (Nat.eqb_spec a 1), (Nat.eqb_spec b 1); repeat f_equal; lia.
Qed.

Lemma of_nat_dims (dims : list nat) :
  forallb (fun z => (-1 <=? z)%Z) (map Z.of_nat dims) = true /\
  filter (fun z => (z =? -1)%Z) (map Z.of_nat dims) = [] /\
  filter (fun z => (0 <=? z)%Z) (map Z.of_nat dims) = map Z.of_nat dims /\
  map Z.to_nat (map Z.of_nat dims) = dims.
Proof.
  induction dims as [|n dims (IH1 & IH2 & IH3 & IH4)]; [repeat split|].
  cbn [map filter forallb].
  destruct (Z.leb_spec (-1) (Z.of_nat n)); [|lia].
  destruct (Z.eqb_spec (Z.of_nat n) (-1)); [lia|].
  destruct (Z.leb_spec 0 (Z.of_nat n)); [|lia].
  rewrite IH1, IH2, IH3, IH4, Nat2Z.id. repeat split.
Qed.

Lemma view_nonneg A (dims : list nat) (x y : Tensor A) :
  view (map Z.of_nat dims) x = inr y ->
  shape y = dims /\ data y = data x /\ numel dims = numel (shape x).
Proof.
  unfold view, infer_dims.
  destruct (of_nat_dims dims) as (H1 & H2 & H3 & H4).
  rewrite H1, H2, H3, H4. cbn [length].
  destruct (Nat.eqb_spec (numel dims) (numel (shape x))); [|discriminate].
  intros H. injection H as <-. repeat split; assumption.
Qed.

Lemma view_nonneg_ok A (dims : list nat) (x : Tensor A) :
  numel dims = numel (shape x) ->
  view (map Z.of_nat dims) x = inr (mkTensor dims (data x)).
Proof.
  intros Hn. unfold view, infer_dims.
  destruct (of_nat_dims dims) as (H1 & H2 & H3 & H4).
  rewrite H1, H2, H3, H4. cbn [length].
  destruct (Nat.eqb_spec (numel dims) (numel (shape x))); [reflexivity|contradiction].
Qed.

(* ===================================================================== *)
(** ** Facts about the torch operations *)
(* ===================================================================== *)

Section TorchFacts.
Context {F : Type} {FO : Float F} {G : Type} {GO : Generator G F}.

Lemma draws_ok (n : nat) (w : World G) :
  exists xs w', draws n w = (inr xs, w') /\ length xs = n /\ stdout w' = stdout w.
Proof.
  revert w. induction n as [|n IH]; intros w; simpl.
  - exists [], w. repeat split.
  - unfold bind at 1. unfold draw at 1.
    destruct (next_float (rng w)) as [x g].
    destruct (IH (mkWorld g (stdout w))) as (xs & w' & E & Hl & Hs).
    unfold bind. rewrite E. exists (x :: xs), w'. simpl. repeat split; auto.
Qed.

Lemma keeps_ok (q : F) (n : nat) (w : World G) :
  exists ks w', keeps q n w = (inr ks, w') /\ length ks = n /\ stdout w' = stdout w.
Proof.
  revert w. induction n as [|n IH]; intros w; simpl.
  - exists [], w. repeat split.
  - unfold bind at 1. unfold draw at 1.
    destruct (next_bernoulli q (rng w)) as [x g].
    destruct (IH (mkWorld g (stdout w))) as (xs & w' & E & Hl & Hs).
    unfold bind. rewrite E. exists (x :: xs), w'. simpl. repeat split; auto.
Qed.

Lemma check_dims_inr (dims : list Z) s :
  check_dims dims = inr s ->
  Forall (fun z => (0 <= z)%Z) dims /\ s = map Z.to_nat dims.
Proof.
  unfold check_dims. destruct (forallb _ dims) eqn:E; [|discriminate].
  intros H. injection H as <-. split; [|reflexivity].
  rewrite forallb_forall in E. apply Forall_forall. intros z Hz.
  apply Z.leb_le. apply E. exact Hz.
Qed.

Lemma check_dims_ok (dims : list Z) :
  Forall (fun z => (0 <= z)%Z) dims -> check_dims dims = inr (map Z.to_nat dims).
Proof.
  intros H. unfold check_dims.
  replace (forallb (fun z => (0 <=? z)%Z) dims) with true; [reflexivity|].
  symmetry. apply forallb_forall. rewrite Forall_forall in H.
  intros z Hz. apply Z.leb_le. auto.
Qed.

Lemma check_dims_inl (dims : list Z) e :
  check_dims dims = inl e -> is_RuntimeError e.
Proof.
  unfold check_dims. destruct (forallb _ dims); [discriminate|].
  intros H. injection H as <-. eexists. reflexivity.
Qed.

Lemma torch_zeros_inr (dims : list Z) (t : Tensor F) :
  torch_zeros dims = inr t ->
  Forall (fun z => (0 <= z)%Z) dims /\
  t = build (map Z.to_nat dims) (fun _ => f0).
Proof.
  unfold torch_zeros. intros H. res_inv H.
  apply check_dims_inr in E. destruct E as [Hd ->]. injection H as <-. auto.
Qed.

Lemma torch_rand_ok (dims : list Z) (w : World G) :
  Forall (fun z => (0 <= z)%Z) dims ->
  exists t w', torch_rand dims w = (inr t, w') /\
               shape t = map Z.to_nat dims /\ stdout w' = stdout w.
Proof.
  intros H. unfold torch_rand.
  rewrite (bind_lift_ok _ _ (check_dims_ok H)).
  destruct (draws_ok (numel (map Z.to_nat dims)) w) as (xs & w' & E & _ & Hs).
  rewrite (bind_ok _ E). exists (mkTensor (map Z.to_nat dims) xs), w'.
  repeat split; auto.
Qed.

Lemma torch_rand_inr (dims : list Z) (w w' : World G) (t : Tensor F) :
  torch_rand dims w = (inr t, w') ->
  Forall (fun z => (0 <= z)%Z) dims /\ shape t = map Z.to_nat dims.
Proof.
  unfold torch_rand. intros H. py_inv H.
  match goal with
  | H : check_dims _ = inr _ |- _ =>
      apply check_dims_inr in H; destruct H as [Hd ->]
  end.
  split; [exact Hd|reflexivity].
Qed.

Lemma torch_rand_fails (dims : list Z) :
  fails_with is_RuntimeError (torch_rand (G := G) dims).
Proof.
  unfold torch_rand. apply fails_with_bind.
  - apply fails_with_lift. intros e He. apply check_dims_inl in He. exact He.
  - intros s. apply fails_with_bind; [|intros; apply fails_with_ret].
    intros w e w' H. destruct (draws_ok (numel s) w) as (xs & w1 & E & _).
    rewrite E in H. discriminate.
Qed.

Lemma nn_Linear_ok (i o : Z) (b : bool) (w : World G) :
  (0 <= i)%Z -> (0 <= o)%Z ->
  exists l w', nn_Linear i o b w = (inr l, w') /\
    in_features l = Z.to_nat i /\ out_features l = Z.to_nat o /\
    stdout w' = stdout w.
Proof.
  intros Hi Ho. unfold nn_Linear.
  destruct (@torch_rand_ok [o; i] w) as (t & w1 & E & _ & Hs1);
    [repeat constructor; assumption|].
  rewrite (bind_ok _ E).
  destruct b.
  - destruct (@torch_rand_ok [o] w1) as (t2 & w2 & E2 & _ & Hs2);
      [repeat constructor; assumption|].
    assert (E3 : (t0 <- torch_rand [o];; ret (Some t0)) w1 = (inr (Some t2), w2))
      by (rewrite (bind_ok _ E2); reflexivity).
    rewrite (bind_ok _ E3).
    eexists _, w2. split; [reflexivity|]. cbn. repeat split; congruence.
  - eexists _, w1. split; [reflexivity|]. cbn. repeat split; congruence.
Qed.

Lemma nn_Linear_inr (i o : Z) (b : bool) (w w' : World G) l :
  nn_Linear i o b w = (inr l, w') ->
  in_features l = Z.to_nat i /\ out_features l = Z.to_nat o /\
  (0 <= i)%Z /\ (0 <= o)%Z.
Proof.
  unfold nn_Linear. intros H. py_inv H.
  match goal with
  | H : torch_rand [o; i] _ = _ |- _ =>
      apply torch_rand_inr in H; destruct H as [Hd _]
  end.
  inversion Hd as [|? ? Ho Hd']; subst. inversion Hd' as [|? ? Hi _]; subst.
  cbn. repeat split; assumption.
Qed.

Lemma nn_Linear_fails (i o : Z) (b : bool) :
  fails_with is_RuntimeError (nn_Linear (G := G) i o b).
Proof.
  unfold nn_Linear. apply fails_with_bind; [apply torch_rand_fails|].
  intros t. apply fails_with_bind; [|intros; apply fails_with_ret].
  destruct b; [|apply fails_with_ret].
  apply fails_with_bind; [apply torch_rand_fails|intros; apply fails_with_ret].
Qed.

Lemma nn_Conv2d_inr (i o : Z) (k s : nat) (w w' : World G) c :
  nn_Conv2d i o k s w = (inr c, w') ->
  in_channels c = Z.to_nat i /\ out_channels c = Z.to_nat o /\
  kernel_size c = k /\ stride c = s /\ (0 <= i)%Z /\ (0 <= o)%Z.
Proof.
  unfold nn_Conv2d. intros H. py_inv H.
  match goal with
  | H : torch_rand [o; i; _; _] _ = _ |- _ =>
      apply torch_rand_inr in H; destruct H as [Hd _]
  end.
  inversion Hd as [|? ? Ho Hd']; subst. inversion Hd' as [|? ? Hi _]; subst.
  cbn. repeat split; assumption.
Qed.

Lemma nn_LayerNorm_ok (n : Z) (eps : F) :
  (0 <= n)%Z ->
  exists l, nn_LayerNorm n eps = inr l /\ normalized_shape l = Z.to_nat n.
Proof.
  intros Hn. unfold nn_LayerNorm, torch_ones, torch_zeros.
  rewrite check_dims_ok by (repeat constructor; assumption). cbn [res_bind].
  eexists. split; reflexivity.
Qed.

Lemma nn_LayerNorm_inl (n : Z) (eps : F) e :
  nn_LayerNorm n eps = inl e -> is_RuntimeError e.
Proof.
  unfold nn_LayerNorm, torch_ones, torch_zeros.
  destruct (check_dims [n]) as [e1|s] eqn:E; cbn [res_bind].
  - intros H. injection H as <-. apply check_dims_inl in E. exact E.
  - discriminate.
Qed.

Lemma nn_Dropout_inl (q : F) e :
  nn_Dropout q = inl e ->
  e = ValueError "dropout probability has to be between 0 and 1".
Proof.
  unfold nn_Dropout. destruct (_ || _); [|discriminate].
  intros H. injection H as <-. reflexivity.
Qed.

Lemma nn_Dropout_ok (q : F) :
  fltb q f0 = false -> fltb (of_Z 1) q = false ->
  nn_Dropout q = inr (mkDropout q true).
Proof. intros H1 H2. unfold nn_Dropout. rewrite H1, H2. reflexivity. Qed.

Lemma Dropout_forward_ok (d : @Dropout F) (x : Tensor F) (w : World G) :
  exists y w', Dropout_forward d x w = (inr y, w') /\ shape y = shape x.
Proof.
  unfold Dropout_forward. destruct (dropout_training d).
  - destruct (keeps_ok (fsub (of_Z 1) (dropout_p d)) (length (data x)) w)
      as (ks & w' & E & _).
    rewrite (bind_ok _ E). eexists _, w'. split; reflexivity.
  - exists x, w. split; reflexivity.
Qed.

Lemma arange_shape (stop : Z) (step : nat) :
  shape (arange stop step) = [(Z.to_nat stop + (step - 1)) / step].
Proof. reflexivity. Qed.

Lemma arange_get (d : F) (stop : Z) (step i : nat) :
  i < (Z.to_nat stop + (step - 1)) / step ->
  tget d (arange stop step) [i] = of_Z (Z.of_nat (step * i)).
Proof.
  intros Hi. unfold arange. rewrite tget_build; [reflexivity|].
  repeat constructor. exact Hi.
Qed.

Lemma tzip_inr A B C (da : A) (db : B) (op : A -> B -> C) a b c :
  tzip da db op a b = inr c ->
  exists s, broadcast_shapes (shape a) (shape b) = Some s /\
    c = build s (fun idx => op (tget da a (bidx (shape a) idx))
                               (tget db b (bidx (shape b) idx))).
Proof.
  unfold tzip.
  destruct (broadcast_shapes (shape a) (shape b)) as [s|]; [|discriminate].
  intros H. injection H as <-. exists s. split; reflexivity.
Qed.

Lemma tzip_inl A B C (da : A) (db : B) (op : A -> B -> C) a b e :
  tzip da db op a b = inl e -> is_RuntimeError e.
Proof.
  unfold tzip.
  destruct (broadcast_shapes (shape a) (shape b)) as [s|]; [discriminate|].
  intros H. injection H as <-. eexists. reflexivity.
Qed.

Lemma setitem_cols_inr (start step rows cols : nat) (t src r : Tensor F) :
  shape t = [rows; cols] ->
  setitem_cols start step t src = inr r ->
  let lo := Nat.min start cols in
  let n := (cols - lo + (step - 1)) / step in
  broadcast_shapes [rows; n] (shape src) = Some [rows; n] /\
  r = build [rows; cols]
        (fun idx =>
           match idx with
           | [i; j] =>
               if (lo <=? j) && ((j - lo) mod step =? 0)
               then fget src (bidx (shape src) [i; (j - lo) / step])
               else fget t [i; j]
           | _ => f0
           end).
Proof.
  intros Ht. unfold setitem_cols. rewrite Ht, pyslice_from.
  intros H. cbv zeta.
  destruct (broadcast_shapes _ (shape src)) as [s|]; [|discriminate].
  destruct (list_eq_dec Nat.eq_dec s _) as [->|]; [|discriminate].
  injection H as <-. split; reflexivity.
Qed.

Lemma Conv2d_forward_inr (c : @Conv2d F) (x y : Tensor F) (b ci h w : nat) :
  shape x = [b; ci; h; w] ->
  Conv2d_forward c x = inr y ->
  ci = in_channels c /\ kernel_size c <= h /\ kernel_size c <= w /\
  shape y = [b; out_channels c; conv_out h (kernel_size c) (stride c);
             conv_out w (kernel_size c) (stride c)].
Proof.
  intros Hs. unfold Conv2d_forward. rewrite Hs. unfold conv2d_batched.
  destruct (Nat.eqb_spec (out_channels c) 0); [discriminate|].
  destruct (Nat.eqb_spec ci (in_channels c)) as [Hc|]; [|discriminate]. cbn [negb].
  destruct (Nat.ltb_spec h (kernel_size c)); [discriminate|].
  destruct (Nat.ltb_spec w (kernel_size c)); [discriminate|]. cbn [orb].
  intros H'. injection H' as <-. repeat split; assumption.
Qed.

(** A convolution that returns has an output channel. *)
Lemma Conv2d_forward_out_channels (c : @Conv2d F) (x y : Tensor F)
    (b ci h w : nat) :
  shape x = [b; ci; h; w] -> Conv2d_forward c x = inr y -> 0 < out_channels c.
Proof.
  intros Hs. unfold Conv2d_forward. rewrite Hs. unfold conv2d_batched.
  destruct (Nat.eqb_spec (out_channels c) 0); [discriminate|]. intros _. lia.
Qed.

(** Without an output channel the convolution fails, whatever the input. *)
Lemma Conv2d_forward_no_output (c : @Conv2d F) (x : Tensor F) (b ci h w : nat) :
  shape x = [b; ci; h; w] -> out_channels c = 0 ->
  Conv2d_forward c x
  = inl (RuntimeError "expected weight to be at least 1 at dimension 0").
Proof.
  intros Hs Ho. unfold Conv2d_forward. rewrite Hs. unfold conv2d_batched.
  rewrite Ho. reflexivity.
Qed.

Lemma Conv2d_forward_ok (c : @Conv2d F) (x : Tensor F) (b ci h w : nat) :
  shape x = [b; ci; h; w] -> ci = in_channels c ->
  kernel_size c <= h -> kernel_size c <= w -> 0 < out_channels c ->
  exists y, Conv2d_forward c x = inr y /\
    shape y = [b; out_channels c; conv_out h (kernel_size c) (stride c);
               conv_out w (kernel_size c) (stride c)].
Proof.
  intros Hs Hc Hh Hw Ho. unfold Conv2d_forward. rewrite Hs. unfold conv2d_batched.
  destruct (Nat.eqb_spec (out_channels c) 0); [lia|].
  destruct (Nat.eqb_spec ci (in_channels c)); [|contradiction]. cbn [negb].
  destruct (Nat.ltb_spec h (kernel_size c)); [lia|].
  destruct (Nat.ltb_spec w (kernel_size c)); [lia|]. cbn [orb].
  eexists. split; reflexivity.
Qed.

Lemma transpose12_rank4 (x y : Tensor F) (a b c e : nat) :
  shape x = [a; b; c; e] -> transpose f0 1 2 x = inr y -> shape y = [a; c; b; e].
Proof.
  intros Hs. unfold transpose, rank. rewrite Hs. cbn [length Nat.ltb Nat.leb andb].
  intros H. injection H as <-. unfold permute, rank. rewrite Hs. reflexivity.
Qed.

Lemma transpose12_rank4_ok (x : Tensor F) (a b c e : nat) :
  shape x = [a; b; c; e] ->
  exists y, transpose f0 1 2 x = inr y /\ shape y = [a; c; b; e].
Proof.
  intros Hs. unfold transpose, rank. rewrite Hs. cbn [length Nat.ltb Nat.leb andb].
  eexists. split; [reflexivity|]. unfold permute, rank. rewrite Hs. reflexivity.
Qed.

Lemma Linear_forward_inr (l : @Linear F) (x y : Tensor F) (pre : list nat) (n : nat) :
  shape x = pre ++ [n] ->
  Linear_forward l x = inr y ->
  n = in_features l /\ shape y = pre ++ [out_features l].
Proof.
  intros Hs. unfold Linear_forward. rewrite Hs, rev_app_distr. cbn [rev app].
  destruct (Nat.eqb_spec n (in_features l)); [|discriminate].
  intros H. injection H as <-. rewrite rev_involutive. split; [assumption|reflexivity].
Qed.

Lemma Linear_forward_ok (l : @Linear F) (x : Tensor F) (pre : list nat) (n : nat) :
  shape x = pre ++ [n] -> n = in_features l ->
  exists y, Linear_forward l x = inr y /\ shape y = pre ++ [out_features l].
Proof.
  intros Hs Hn. unfold Linear_forward. rewrite Hs, rev_app_distr. cbn [rev app].
  destruct (Nat.eqb_spec n (in_features l)); [|contradiction].
  eexists. split; [reflexivity|]. cbn [shape build]. rewrite rev_involutive. reflexivity.
Qed.
End TorchFacts.

(* ===================================================================== *)
(** ** The positional encoders *)
(* ===================================================================== *)

Section PositionalFacts.
Context {F : Type} {FO : Float F} {G : Type} {GO : Generator G F}.

Lemma ceil_div_1 (x : nat) : (x + (1 - 1)) / 1 = x.
Proof. rewrite Nat.sub_diag, Nat.add_0_r, Nat.div_1_r. reflexivity. Qed.

(** [torch.arange(0, max_len).unsqueeze(1)] *)
Lemma position_get (L : Z) (position : Tensor F) :
  unsqueeze 1 (arange L 1) = inr position ->
  shape position = [Z.to_nat L; 1] /\
  forall pos, pos < Z.to_nat L ->
    tget f0 position [pos; 0] = of_Z (Z.of_nat pos).
Proof.
  intros Hp. apply unsqueeze_inr in Hp. destruct Hp as [_ ->].
  rewrite arange_shape, ceil_div_1. cbn [firstn skipn app shape].
  split; [reflexivity|]. intros pos Hpos.
  unfold tget. cbn [shape data].
  replace (ravel [Z.to_nat L; 1] [pos; 0]) with (ravel [Z.to_nat L] [pos])
    by (cbn [ravel numel fold_right]; lia).
  pose proof (@arange_get _ _ f0 L 1 pos) as E.
  rewrite ceil_div_1 in E. specialize (E Hpos).
  unfold tget in E. rewrite arange_shape, ceil_div_1 in E.
  rewrite E, Nat.mul_1_l. reflexivity.
Qed.

Lemma div_term_get (d : Z) (div_term : Tensor F) :
  WhalePositionalEncoding.div_term_of d = inr div_term ->
  d <> 0%Z /\ shape div_term = [(Z.to_nat d + 1) / 2] /\
  forall i, i < (Z.to_nat d + 1) / 2 ->
    tget f0 div_term [i] =
      fexp (fmul (of_Z (Z.of_nat (2 * i)))
                 (fneg (fdiv (flog (of_Z 10000)) (of_Z d)))).
Proof.
  unfold WhalePositionalEncoding.div_term_of.
  destruct (Z.eqb_spec d 0) as [|Hd0]; [discriminate|]. intros H. injection H as <-.
  split; [exact Hd0|]. split; [reflexivity|]. intros i Hi.
  rewrite (@tget_tmap _ _ fexp f0 f0);
    [|apply wf_tmap, wf_build|repeat constructor; exact Hi].
  f_equal. unfold tscale.
  rewrite (@tget_tmap _ _ _ f0 f0); [|apply wf_build|repeat constructor; exact Hi].
  rewrite arange_get by exact Hi. reflexivity.
Qed.

(** [position * div_term] *)
Lemma angle_get (d L : Z) (position div_term angle : Tensor F) :
  unsqueeze 1 (arange L 1) = inr position ->
  WhalePositionalEncoding.div_term_of d = inr div_term ->
  tmul position div_term = inr angle ->
  let n := Z.to_nat L in
  let h := (Z.to_nat d + 1) / 2 in
  d <> 0%Z /\ shape angle = [n; h] /\ wf angle /\
  forall pos i, pos < n -> i < h ->
    tget f0 angle [pos; i] = pe_angle d pos i.
Proof.
  intros Hp Hd Ha n h.
  apply position_get in Hp. destruct Hp as [Sp Gp].
  apply div_term_get in Hd. destruct Hd as (Hd0 & Sd & Gd).
  apply tzip_inr in Ha. destruct Ha as (s & Hs & ->).
  rewrite Sp, Sd in *. fold n h in Hs. rewrite broadcast_col_row in Hs.
  injection Hs as <-.
  split; [exact Hd0|]. split; [reflexivity|]. split; [apply wf_build|].
  intros pos i Hpos Hi.
  rewrite tget_build by (repeat constructor; assumption).
  unfold pe_angle. f_equal.
  - replace (bidx [Z.to_nat L; 1] [pos; i]) with [pos; 0].
    + apply Gp. exact Hpos.
    + unfold bidx. cbn [length skipn Nat.sub bmask Nat.eqb].
      fold n. destruct (Nat.eqb_spec n 1); repeat f_equal; lia.
  - replace (bidx [(Z.to_nat d + 1) / 2] [pos; i]) with [i].
    + apply Gd. exact Hi.
    + unfold bidx. cbn [length skipn Nat.sub bmask].
      fold h. destruct (Nat.eqb_spec h 1); repeat f_equal; lia.
Qed.

(** What [WhalePositionalEncoding.__init__] leaves in the module. *)
Lemma pe_init_inv (cfg : WhaleConfig.t F) m :
  WhalePositionalEncoding.__init__ cfg = inr m ->
  let d := WhaleConfig.hidden_size cfg in
  let L := WhaleConfig.max_position_embeddings cfg in
  (0 < d)%Z /\ (0 <= L)%Z /\
  WhalePositionalEncoding.d_model m = d /\
  WhalePositionalEncoding.max_len m = L /\
  WhalePositionalEncoding.xscale m = fsqrt (of_Z d) /\
  shape (WhalePositionalEncoding.pe m) = [1; Z.to_nat L; Z.to_nat d] /\
  forall pos j, pos < Z.to_nat L -> j < Z.to_nat d ->
    tget f0 (WhalePositionalEncoding.pe m) [0; pos; j] = pe_entry d pos j.
Proof.
  intros H d L. unfold WhalePositionalEncoding.__init__ in H.
  fold d in H. fold L in H.
  res_inv H. injection H as <-. cbn [WhalePositionalEncoding.d_model
    WhalePositionalEncoding.max_len WhalePositionalEncoding.xscale
    WhalePositionalEncoding.pe].
  unfold WhalePositionalEncoding.math_sqrt in E.
  destruct (Z.ltb_spec d 0) as [|Hd]; [discriminate|]. injection E as <-.
  apply torch_zeros_inr in E1. destruct E1 as [Hdims ->].
  assert (HL : (0 <= L)%Z) by (inversion Hdims; assumption).
  (* the angles, computed twice *)
  destruct (@angle_get d L _ _ _ E2 E3 E4) as (Hd0 & S4 & W4 & G4).
  destruct (@angle_get d L _ _ _ E2 E3 E6) as (_ & S6 & W6 & G6).
  set (n := Z.to_nat L) in *. set (c := Z.to_nat d) in *.
  set (h := (c + 1) / 2) in *.
  (* the two assignments *)
  apply (@setitem_cols_inr _ _ 0 2 n c) in E5; [|reflexivity].
  destruct E5 as [_ ->].
  apply (@setitem_cols_inr _ _ 1 2 n c) in E7; [|reflexivity].
  destruct E7 as [B7 ->].
  apply unsqueeze_inr in E8. destruct E8 as [_ ->].
  cbn [shape build firstn skipn app data].
  repeat split; try assumption; try lia.
  intros pos j Hpos Hj.
  assert (Hc : 1 <= c) by lia.
  unfold tget. cbn [shape data].
  replace (ravel [1; n; c] [0; pos; j]) with (ravel [n; c] [pos; j])
    by (cbn [ravel numel fold_right]; lia).
  match goal with
  | |- nth _ (map ?f (indices ?s)) ?d0 = _ =>
      change (tget d0 (build s f) [pos; j] = pe_entry d pos j)
  end.
  rewrite tget_build by (repeat constructor; assumption).
  rewrite Nat.min_l by exact Hc.
  unfold pe_entry.
  assert (Hh : j / 2 < h).
  { unfold h. apply Nat.Div0.div_lt_upper_bound.
    pose proof (Nat.div_mod_eq (c + 1) 2).
    pose proof (Nat.mod_upper_bound (c + 1) 2). lia. }
  destruct (Nat.even j) eqn:Ev.
  - (* an even column keeps the sine written by the first assignment *)
    assert (Hodd : (1 <=? j) && ((j - 1) mod 2 =? 0) = false).
    { apply Nat.even_spec in Ev. destruct Ev as [k ->].
      destruct k as [|k]; [reflexivity|].
      replace (2 * S k - 1) with (1 + k * 2) by lia.
      rewrite Nat.Div0.mod_add. reflexivity. }
    rewrite Hodd. unfold fget at 1.
    rewrite tget_build by (repeat constructor; assumption).
    rewrite Nat.min_0_l, Nat.sub_0_r.
    assert (Hev : (0 <=? j) && (j mod 2 =? 0) = true).
    { apply Nat.even_spec in Ev. destruct Ev as [k ->].
      rewrite Nat.mul_comm, Nat.Div0.mod_mul. reflexivity. }
    rewrite Hev. unfold fget.
    cbn [shape tmap]. rewrite S4, bidx_same_rank2 by assumption.
    rewrite (@tget_tmap _ _ fsin f0 f0);
      [|assumption|rewrite S4; repeat constructor; assumption].
    rewrite G4 by assumption. reflexivity.
  - (* an odd column receives the cosine *)
    assert (Od : Nat.odd j = true) by (unfold Nat.odd; rewrite Ev; reflexivity).
    apply Nat.odd_spec in Od. destruct Od as [k Hk].
    assert (Hodd : (1 <=? j) && ((j - 1) mod 2 =? 0) = true).
    { rewrite Hk. replace (2 * k + 1 - 1) with (k * 2) by lia.
      rewrite Nat.Div0.mod_mul.
      destruct (Nat.leb_spec 1 (2 * k + 1)); [reflexivity|lia]. }
    rewrite Hodd. unfold fget.
    assert (Hq : (j - 1) / 2 = j / 2).
    { rewrite Hk. replace (2 * k + 1 - 1) with (k * 2) by lia.
      rewrite Nat.div_mul by lia.
      replace (2 * k + 1) with (1 + k * 2) by lia.
      rewrite Nat.div_add by lia. reflexivity. }
    rewrite Hq. cbn [shape tmap]. rewrite S6, bidx_same_rank2 by assumption.
    rewrite (@tget_tmap _ _ fcos f0 f0);
      [|assumption|rewrite S6; repeat constructor; assumption].
    rewrite G6 by assumption. reflexivity.
Qed.

(** The table depends on the hidden size and the table length only. *)
Lemma pe_init_deterministic (cfg1 cfg2 : WhaleConfig.t F) m1 m2 :
  WhaleConfig.hidden_size cfg1 = WhaleConfig.hidden_size cfg2 ->
  WhaleConfig.max_position_embeddings cfg1
    = WhaleConfig.max_position_embeddings cfg2 ->
  WhalePositionalEncoding.__init__ cfg1 = inr m1 ->
  WhalePositionalEncoding.__init__ cfg2 = inr m2 ->
  WhalePositionalEncoding.pe m1 = WhalePositionalEncoding.pe m2.
Proof.
  intros Hd HL H1 H2. unfold WhalePositionalEncoding.__init__ in H1, H2.
  rewrite <- Hd, <- HL in H2.
  res_inv H1. res_inv H2.
  injection H1 as <-. injection H2 as <-.
  cbn [WhalePositionalEncoding.pe]. congruence.
Qed.

Lemma rel_init_inv (cfg : WhaleConfig.t F) m :
  RelPositionalEncoding.__init__ cfg = inr m ->
  WhalePositionalEncoding.__init__ cfg = inr (RelPositionalEncoding.super m).
Proof.
  unfold RelPositionalEncoding.__init__. intros H. res_inv H.
  injection H as <-. exact E.
Qed.

Lemma Dropout_forward_fails P (d : @Dropout F) (x : Tensor F) :
  fails_with (G := G) P (Dropout_forward d x).
Proof.
  intros w e w' H. destruct (Dropout_forward_ok d x w) as (y & w1 & E & _).
  rewrite E in H. discriminate.
Qed.

Lemma slice_dim1_inl A (d : A) start stop step (t : Tensor A) e :
  slice_dim1 d start stop step t = inl e -> exists msg, e = IndexError msg.
Proof.
  unfold slice_dim1. destruct (shape t) as [|d0 [|d1 rest]].
  - intros H. injection H as <-. eexists. reflexivity.
  - intros H. injection H as <-. eexists. reflexivity.
  - destruct (pyslice start stop step d1). discriminate.
Qed.

(** The absolute encoder checks its bound... *)
Lemma positional_forward_asserts m (x : Tensor F) (offset : Z) (n : nat)
    (w : World G) :
  size x 1 = inr n ->
  (WhalePositionalEncoding.max_len m <= offset + Z.of_nat n)%Z ->
  WhalePositionalEncoding.forward m x offset w = (inl AssertionError, w).
Proof.
  intros Hn Hb. unfold WhalePositionalEncoding.forward.
  rewrite (bind_lift_ok _ _ Hn).
  destruct (Z.ltb_spec (offset + Z.of_nat n) (WhalePositionalEncoding.max_len m));
    [lia|reflexivity].
Qed.

(** ... and passes it below the bound. *)
Lemma positional_forward_passes m (x : Tensor F) (offset : Z) (n : nat) :
  size x 1 = inr n ->
  (offset + Z.of_nat n < WhalePositionalEncoding.max_len m)%Z ->
  fails_with (G := G) (fun e => e <> AssertionError)
    (WhalePositionalEncoding.forward m x offset).
Proof.
  intros Hn Hb w e w' H. unfold WhalePositionalEncoding.forward in H.
  rewrite (bind_lift_ok _ _ Hn) in H.
  destruct (Z.ltb_spec (offset + Z.of_nat n) (WhalePositionalEncoding.max_len m));
    [|lia].
  cbn [negb] in H. revert w e w' H.
  change (fails_with (G := G) (fun e => e <> AssertionError)
    (pos_emb <- lift (slice_dim1 f0 (Some offset) (Some (offset + Z.of_nat n)%Z)
                       1 (WhalePositionalEncoding.pe m)) ;;
     x0 <- lift (tadd (tscale (WhalePositionalEncoding.xscale m) x) pos_emb) ;;
     x1 <- Dropout_forward (WhalePositionalEncoding.dropout m) x0 ;;
     pos_emb0 <- Dropout_forward (WhalePositionalEncoding.dropout m) pos_emb ;;
     ret (x1, pos_emb0))).
  apply fails_with_bind.
  - apply fails_with_lift. intros e He. apply slice_dim1_inl in He.
    destruct He as [msg ->]. discriminate.
  - intros s. apply fails_with_bind.
    + apply fails_with_lift. intros e He. apply tzip_inl in He.
      destruct He as [msg ->]. discriminate.
    + intros y. apply fails_with_bind; [apply Dropout_forward_fails|].
      intros a. apply fails_with_bind; [apply Dropout_forward_fails|].
      intros b. apply fails_with_ret.
Qed.

(** The streaming accessor checks the same bound. *)
Lemma position_encoding_asserts m (offset size : Z) (w : World G) :
  (WhalePositionalEncoding.max_len m <= offset + size)%Z ->
  WhalePositionalEncoding.position_encoding m offset size w
  = (inl AssertionError, w).
Proof.
  intros Hb. unfold WhalePositionalEncoding.position_encoding.
  destruct (Z.ltb_spec (offset + size) (WhalePositionalEncoding.max_len m));
    [lia|reflexivity].
Qed.

Lemma position_encoding_returns (cfg : WhaleConfig.t F) m (offset size : Z)
    (w : World G) :
  WhalePositionalEncoding.__init__ cfg = inr m ->
  (offset + size < WhalePositionalEncoding.max_len m)%Z ->
  exists p w', WhalePositionalEncoding.position_encoding m offset size w
               = (inr p, w').
Proof.
  intros Hm Hb. unfold WhalePositionalEncoding.position_encoding.
  destruct (Z.ltb_spec (offset + size) (WhalePositionalEncoding.max_len m));
    [|lia].
  cbn [negb].
  destruct (pe_init_inv _ Hm) as (_ & _ & _ & _ & _ & Hpe & _).
  destruct (@slice_dim1_ok _ f0 (Some offset) (Some (offset + size)%Z) 1
              (WhalePositionalEncoding.pe m) _ _ _ Hpe) as (pos & Epos & _).
  rewrite (bind_lift_ok _ _ Epos).
  destruct (Dropout_forward_ok (WhalePositionalEncoding.dropout m) pos w)
    as (y & w' & E & _).
  exists y, w'. exact E.
Qed.

(** The override in the relative variant has no such check: whatever
    the offset, it never raises [AssertionError]. *)
Lemma rel_forward_never_asserts m (x : Tensor F) (offset : Z) :
  fails_with (G := G) (fun e => e <> AssertionError)
    (RelPositionalEncoding.forward m x offset).
Proof.
  unfold RelPositionalEncoding.forward. apply fails_with_bind.
  - apply fails_with_lift. unfold size. intros e He.
    destruct (nth_error _ 1); [discriminate|]. injection He as <-. discriminate.
  - intros n. apply fails_with_bind.
    + apply fails_with_lift. intros e He. apply slice_dim1_inl in He.
      destruct He as [msg ->]. discriminate.
    + intros s. apply fails_with_bind; [apply Dropout_forward_fails|].
      intros a. apply fails_with_bind; [apply Dropout_forward_fails|].
      intros b. apply fails_with_ret.
Qed.

(** On a constructed module the override returns for every offset and
    every input of rank 3; the positional tensor has as many rows as the
    slice of the table, which Python clamps to the table. *)
Lemma rel_forward_returns (cfg : WhaleConfig.t F) m (x : Tensor F)
    (B T D : nat) (offset : Z) (w : World G) :
  RelPositionalEncoding.__init__ cfg = inr m ->
  shape x = [B; T; D] ->
  exists x' p w',
    RelPositionalEncoding.forward m x offset w = (inr (x', p), w') /\
    shape x' = [B; T; D] /\
    shape p = [1;
               snd (pyslice (Some offset) (Some (offset + Z.of_nat T)%Z) 1
                      (Z.to_nat (WhaleConfig.max_position_embeddings cfg)));
               Z.to_nat (WhaleConfig.hidden_size cfg)].
Proof.
  intros Hm Hx. apply rel_init_inv in Hm.
  destruct (pe_init_inv _ Hm) as (_ & _ & _ & _ & _ & Hpe & _).
  set (base := RelPositionalEncoding.super m) in *.
  destruct (@slice_dim1_ok _ f0 (Some offset) (Some (offset + Z.of_nat T)%Z) 1
              (WhalePositionalEncoding.pe base) _ _ _ Hpe) as (pos & Epos & Spos & _).
  assert (Esz : size (tscale (WhalePositionalEncoding.xscale base) x) 1 = inr T).
  { unfold size, tscale. cbn [shape tmap]. rewrite Hx. reflexivity. }
  unfold RelPositionalEncoding.forward. fold base.
  rewrite (bind_lift_ok _ _ Esz), (bind_lift_ok _ _ Epos).
  destruct (Dropout_forward_ok (WhalePositionalEncoding.dropout base)
              (tscale (WhalePositionalEncoding.xscale base) x) w)
    as (a & w1 & Ea & Sa).
  rewrite (bind_ok _ Ea).
  destruct (Dropout_forward_ok (WhalePositionalEncoding.dropout base) pos w1)
    as (b & w2 & Eb & Sb).
  rewrite (bind_ok _ Eb).
  exists a, b, w2. split; [reflexivity|]. split.
  - rewrite Sa. unfold tscale. cbn [shape tmap]. exact Hx.
  - rewrite Sb. exact Spos.
Qed.
End PositionalFacts.

(** *** The table in exact arithmetic *)

Lemma Q2R_inject_Z (z : Z) : Q2R (inject_Z z) = IZR z.
Proof. unfold Q2R, inject_Z. simpl. rewrite Rinv_1, Rmult_1_r. reflexivity. Qed.

Lemma pe_angle_real (d : Z) (pos k : nat) :
  (0 < d)%Z ->
  pe_angle (F := ifloat) d pos k
  = Real (INR pos / Rpower 10000 (INR (2 * k) / IZR d)).
Proof.
  intros Hd. unfold pe_angle.
  cbn [fmul fexp fneg fdiv flog of_Z ifloat_Float].
  change (ilog (Rat (inject_Z 10000))) with (Real (ln (Q2R (inject_Z 10000)))).
  unfold idiv. cbn [fin].
  assert (Hd0 : IZR d <> 0%R) by (apply not_0_IZR; lia).
  rewrite !Q2R_inject_Z.
  destruct (Req_dec_T (IZR d) 0) as [E|_]; [contradiction|].
  cbn [ineg imul fin iexp]. rewrite !Q2R_inject_Z.
  f_equal. rewrite <- !INR_IZR_INZ.
  unfold Rpower.
  replace (INR pos / exp (INR (2 * k) / IZR d * ln 10000))%R
    with (INR pos * exp (- (INR (2 * k) / IZR d * ln 10000)))%R
    by (rewrite exp_Ropp; reflexivity).
  f_equal. f_equal. field. exact Hd0.
Qed.

(* ===================================================================== *)
(** ** The subsampling *)
(* ===================================================================== *)

(** Two convolutions of kernel 3 and stride 2 shorten an axis of length
    [n] to [(n - 3) / 4]; they need [n >= 7]. *)
Lemma conv_out_twice (n : nat) :
  3 <= n -> 3 <= conv_out n 3 2 ->
  7 <= n /\ conv_out (conv_out n 3 2) 3 2 = (n - 3) / 4.
Proof.
  unfold conv_out. intros H1 H2.
  assert (H3 : 2 <= (n - 3) / 2) by lia.
  assert (H4 : 4 <= n - 3).
  { destruct (Nat.le_gt_cases 4 (n - 3)) as [|Hlt]; [assumption|].
    assert ((n - 3) / 2 < 2); [|lia].
    apply Nat.Div0.div_lt_upper_bound. lia. }
  split; [lia|].
  replace ((n - 3) / 2 + 1 - 3) with ((n - 3) / 2 - 2) by lia.
  assert (E : (n - 3) / 4 = (n - 3) / 2 / 2)
    by (rewrite Nat.Div0.div_div; reflexivity).
  rewrite E. remember ((n - 3) / 2) as a.
  replace (a / 2) with ((a - 2 + 1 * 2) / 2) by (f_equal; lia).
  rewrite Nat.div_add by lia. reflexivity.
Qed.

Lemma conv_out_ge3 (n : nat) : 7 <= n -> 3 <= conv_out n 3 2.
Proof.
  intros H. unfold conv_out. assert (2 <= (n - 3) / 2); [|lia].
  apply Nat.div_le_lower_bound; lia.
Qed.

(** Slicing [2::2] twice leaves [(n - 3) / 4] elements. *)
Lemma slice_twice_length (n : nat) : ((n - 1) / 2 - 1) / 2 = (n - 3) / 4.
Proof.
  assert (E : (n - 3) / 4 = (n - 3) / 2 / 2)
    by (rewrite Nat.Div0.div_div; reflexivity).
  rewrite E. destruct (Nat.le_gt_cases 3 n) as [H|H].
  - replace (n - 1) with (n - 3 + 1 * 2) by lia.
    rewrite Nat.div_add by lia. f_equal. lia.
  - replace (n - 3) with 0 by lia.
    destruct n as [|[|[|n]]]; [reflexivity|reflexivity|reflexivity|lia].
Qed.

(** How far [(T - 3) // 4] is from [T // 4]. *)
Lemma subsampled_vs_quarter (T : nat) :
  7 <= T -> (T - 3) / 4 = T / 4 - (if T mod 4 =? 3 then 0 else 1).
Proof.
  intros HT. pose proof (Nat.div_mod_eq T 4) as E.
  pose proof (Nat.mod_upper_bound T 4 ltac:(lia)) as Hr.
  set (q := T / 4) in *. set (r := T mod 4) in *.
  assert (Hq : 1 <= q) by lia.
  destruct (Nat.eqb_spec r 3) as [Hr3|Hr3].
  - replace (T - 3) with (q * 4) by lia. rewrite Nat.div_mul by lia. lia.
  - replace (T - 3) with (r + 1 + (q - 1) * 4) by lia.
    rewrite Nat.div_add by lia. rewrite Nat.div_small by lia. lia.
Qed.

(** The size of the output projection, [((input_dim - 1) // 2 - 1) // 2],
    is the number of frequency bins left after the two convolutions. *)
Lemma intermediate_bins (Fd : nat) :
  7 <= Fd ->
  Z.to_nat (((Z.of_nat Fd - 1) / 2 - 1) / 2) = (Fd - 3) / 4.
Proof.
  intros HF.
  replace (Z.of_nat Fd - 1)%Z with (Z.of_nat (Fd - 3) + 1 * 2)%Z by lia.
  rewrite Z.div_add by lia.
  replace (Z.of_nat (Fd - 3) / 2 + 1 - 1)%Z with (Z.of_nat (Fd - 3) / 2)%Z by lia.
  rewrite Z.div_div by lia.
  change (2 * 2)%Z with (Z.of_nat 4).
  rewrite <- Nat2Z.inj_div, Nat2Z.id. reflexivity.
Qed.

Section SubsamplingFacts.
Context {F : Type} {FO : Float F} {G : Type} {GO : Generator G F}.

Lemma subsampling_init_inv (cfg : WhaleConfig.t F) (w w' : World G) m :
  WhaleConv2dSubsampling4.__init__ cfg w = (inr m, w') ->
  subsampling_built cfg m.
Proof.
  unfold WhaleConv2dSubsampling4.__init__. intros H. py_inv H.
  apply nn_Conv2d_inr in E. apply nn_Conv2d_inr in E0. apply nn_Linear_inr in E1.
  destruct E as (? & ? & ? & ? & ? & ?), E0 as (? & ? & ? & ? & _),
           E1 as (? & ? & _).
  exists v, v0. cbn. repeat split; assumption.
Qed.

(** Shape and content of [t[:, 2::2]]. *)
Lemma mask_step_inr (m m' : Tensor bool) :
  WhaleConv2dSubsampling4.mask_step m = inr m' ->
  exists d0 d1 rest, shape m = d0 :: d1 :: rest /\
    shape m' = d0 :: (d1 - 1) / 2 :: rest /\
    forall i j r, Forall2 lt (i :: j :: r) (shape m') ->
      tget false m' (i :: j :: r) = tget false m (i :: 2 + 2 * j :: r).
Proof.
  unfold WhaleConv2dSubsampling4.mask_step, slice_dim1.
  destruct (shape m) as [|d0 [|d1 rest]]; try discriminate.
  change (Some 2%Z) with (Some (Z.of_nat 2)). rewrite pyslice_from.
  assert (Hn : (d1 - Nat.min 2 d1 + (2 - 1)) / 2 = (d1 - 1) / 2).
  { destruct (Nat.le_gt_cases 2 d1).
    - rewrite Nat.min_l by assumption. f_equal. lia.
    - rewrite Nat.min_r by lia. replace (d1 - d1 + (2 - 1)) with 1 by lia.
      destruct d1 as [|[|d1]]; [reflexivity|reflexivity|lia]. }
  rewrite Hn.
  intros H. injection H as <-. exists d0, d1, rest.
  cbn [shape build]. split; [reflexivity|]. split; [reflexivity|].
  intros i j r Hidx. rewrite tget_build by exact Hidx.
  assert (Hj : j < (d1 - 1) / 2)
    by (inversion Hidx as [|? ? ? ? _ Hr]; inversion Hr; assumption).
  destruct d1 as [|[|d1]]; [simpl in Hj; lia|simpl in Hj; lia|reflexivity].
Qed.

Lemma mask_step_ok (m : Tensor bool) :
  2 <= rank m ->
  exists m', WhaleConv2dSubsampling4.mask_step m = inr m' /\ rank m' = rank m.
Proof.
  unfold WhaleConv2dSubsampling4.mask_step, slice_dim1, rank.
  destruct (shape m) as [|d0 [|d1 rest]]; cbn [length]; try lia.
  intros _. destruct (pyslice (Some 2%Z) None 2 d1) as [lo n].
  eexists. split; reflexivity.
Qed.

(** What a forward pass that returns has done. *)
Lemma subsampling_forward_inv (cfg : WhaleConfig.t F) m (x : Tensor F)
    (mask : option (Tensor bool)) (B T Fd : nat) (w w' : World G) out mask' :
  subsampling_built cfg m ->
  shape x = [B; T; Fd] ->
  WhaleConv2dSubsampling4.forward m x mask w = (inr (out, mask'), w') ->
  7 <= T /\ 7 <= Fd /\
  shape out = [B; (T - 3) / 4; Z.to_nat (WhaleConfig.hidden_size cfg)] /\
  w' = w /\
  exists mk m1, mask = Some mk /\
    WhaleConv2dSubsampling4.mask_step mk = inr m1 /\
    WhaleConv2dSubsampling4.mask_step m1 = inr mask'.
Proof.
  intros (c1 & c2 & Hconv & K1 & S1 & I1 & O1 & K2 & S2 & I2 & O2 & IL & OL & _)
         Hx H.
  unfold WhaleConv2dSubsampling4.forward in H. rewrite Hconv in H.
  cbn [Sequential_forward Module_forward] in H.
  py_inv H.
  apply unsqueeze_inr in E. destruct E as [_ ->]. rewrite Hx in *.
  cbn [firstn skipn app] in *.
  eapply Conv2d_forward_inr in E1; [|reflexivity].
  destruct E1 as (_ & HT1 & HF1 & Sv1). rewrite K1, S1 in *.
  eapply Conv2d_forward_inr in E2; [|exact Sv1].
  destruct E2 as (_ & HT2 & HF2 & Sv2). rewrite K2, S2, O2 in *.
  destruct (conv_out_twice HT1 HT2) as [HT ET].
  destruct (conv_out_twice HF1 HF2) as [HF EF].
  rewrite ET, EF in Sv2.
  change (shape (relu v2)) with (shape v2) in H. rewrite Sv2 in H.
  py_inv H.
  eapply transpose12_rank4 in E; [|exact Sv2].
  change [Z.of_nat B; Z.of_nat ((T - 3) / 4);
          Z.of_nat (Z.to_nat (WhaleConfig.hidden_size cfg) * ((Fd - 3) / 4))]
    with (map Z.of_nat [B; (T - 3) / 4;
                        Z.to_nat (WhaleConfig.hidden_size cfg) * ((Fd - 3) / 4)]) in E0.
  apply view_nonneg in E0. destruct E0 as (Sv & _ & _).
  eapply (Linear_forward_inr _ _ [B; (T - 3) / 4]) in E1; [|exact Sv].
  destruct E1 as [_ Sout]. rewrite OL in Sout.
  destruct mask as [mk|]; [|discriminate H]. py_inv H.
  injection H as <- <-.
  repeat split; try assumption. eauto.
Qed.

(** The forward pass returns on every input that is long and wide
    enough for the two convolutions. *)
Lemma subsampling_forward_ok (cfg : WhaleConfig.t F) m (x : Tensor F)
    (mk : Tensor bool) (B T Fd : nat) (w : World G) :
  subsampling_built cfg m ->
  shape x = [B; T; Fd] -> 7 <= T -> 7 <= Fd ->
  Z.to_nat (WhaleConfig.num_channels cfg) = 1 ->
  (0 < WhaleConfig.hidden_size cfg)%Z ->
  Z.to_nat (WhaleConfig.hidden_size cfg) * ((Fd - 3) / 4)
    = in_features (WhaleConv2dSubsampling4.out m) ->
  2 <= rank mk ->
  exists out mask',
    WhaleConv2dSubsampling4.forward m x (Some mk) w = (inr (out, mask'), w).
Proof.
  intros (c1 & c2 & Hconv & K1 & S1 & I1 & O1 & K2 & S2 & I2 & O2 & IL & OL & _)
         Hx HT HF Hch Hhid Hin Hmk.
  unfold WhaleConv2dSubsampling4.forward. rewrite Hconv.
  assert (E0 : unsqueeze 1 x = inr (mkTensor [B; 1; T; Fd] (data x))).
  { unfold unsqueeze, rank. rewrite Hx. reflexivity. }
  rewrite (bind_lift_ok _ _ E0).
  destruct (@Conv2d_forward_ok _ _ c1 (mkTensor [B; 1; T; Fd] (data x)) B 1 T Fd)
    as (y1 & E1 & Sy1); [reflexivity|congruence|lia|lia|lia|].
  rewrite K1, S1, O1 in Sy1.
  pose proof (conv_out_ge3 HT) as HT1. pose proof (conv_out_ge3 HF) as HF1.
  destruct (@Conv2d_forward_ok _ _ c2 (relu y1) _ _ _ _ Sy1)
    as (y2 & E2 & Sy2); [congruence|lia|lia|lia|].
  rewrite K2, S2, O2 in Sy2.
  destruct (@conv_out_twice T) as [_ ET]; [lia|assumption|].
  destruct (@conv_out_twice Fd) as [_ EF]; [lia|assumption|].
  rewrite ET, EF in Sy2.
  assert (Eseq : Sequential_forward [M_Conv2d c1; M_ReLU; M_Conv2d c2; M_ReLU]
                   (mkTensor [B; 1; T; Fd] (data x)) w = (inr (relu y2), w)).
  { cbn [Sequential_forward Module_forward].
    rewrite (bind_lift_ok _ _ E1).
    rewrite (bind_ok (c := ret (relu y1)) (a := relu y1) (w1 := w) _ eq_refl).
    rewrite (bind_lift_ok _ _ E2). reflexivity. }
  rewrite (bind_ok _ Eseq).
  change (shape (relu y2)) with (shape y2). rewrite Sy2.
  destruct (transpose12_rank4_ok (relu y2) Sy2) as (xt & Et & Sxt).
  rewrite (bind_lift_ok _ _ Et).
  set (hid := Z.to_nat (WhaleConfig.hidden_size cfg)) in *.
  assert (Ev : view [Z.of_nat B; Z.of_nat ((T - 3) / 4);
                     Z.of_nat (hid * ((Fd - 3) / 4))] xt
               = inr (mkTensor [B; (T - 3) / 4; hid * ((Fd - 3) / 4)] (data xt))).
  { apply (@view_nonneg_ok _ [B; (T - 3) / 4; hid * ((Fd - 3) / 4)]).
    rewrite Sxt. cbn [numel fold_right]. lia. }
  rewrite (bind_lift_ok _ _ Ev).
  destruct (@Linear_forward_ok _ _ (WhaleConv2dSubsampling4.out m)
              (mkTensor [B; (T - 3) / 4; hid * ((Fd - 3) / 4)] (data xt))
              [B; (T - 3) / 4] (hid * ((Fd - 3) / 4)))
    as (o & Eo & So); [reflexivity|exact Hin|].
  rewrite (bind_lift_ok _ _ Eo).
  destruct (mask_step_ok mk Hmk) as (m1 & Em1 & Rm1).
  rewrite (bind_lift_ok _ _ Em1).
  destruct (mask_step_ok m1) as (m2 & Em2 & _); [lia|].
  rewrite (bind_lift_ok _ _ Em2).
  exists o, m2. reflexivity.
Qed.

(** On a module built for one channel, [Fd] features per frame and a
    positive hidden size, the call returns for every input with at least 7
    frames of at least 7 features and every mask of rank at least 2. *)
Lemma subsampling_forward_returns (cfg : WhaleConfig.t F) (w w1 w2 : World G)
    m (x : Tensor F) (mk : Tensor bool) (B T Fd : nat) :
  WhaleConv2dSubsampling4.__init__ cfg w = (inr m, w1) ->
  WhaleConfig.num_channels cfg = 1%Z ->
  (0 < WhaleConfig.hidden_size cfg)%Z ->
  WhaleConfig.input_dim cfg = Z.of_nat Fd ->
  shape x = [B; T; Fd] -> 7 <= T -> 7 <= Fd -> 2 <= rank mk ->
  exists out mask',
    WhaleConv2dSubsampling4.forward m x (Some mk) w2 = (inr (out, mask'), w2).
Proof.
  intros Hm Hch Hhid Hin Hx HT HF Hmk.
  apply subsampling_init_inv in Hm.
  assert (Hlin : Z.to_nat (WhaleConfig.hidden_size cfg) * ((Fd - 3) / 4)
                 = in_features (WhaleConv2dSubsampling4.out m)).
  { destruct Hm as (c1 & c2 & _ & _ & _ & _ & _ & _ & _ & _ & _ & IL & _ & Hh).
    rewrite IL, Hin, Z2Nat.inj_mul.
    - rewrite intermediate_bins by exact HF. reflexivity.
    - exact Hh.
    - apply Z.div_pos; [|lia].
      assert (3 <= (Z.of_nat Fd - 1) / 2)%Z; [|lia].
      apply Z.div_le_lower_bound; lia. }
  apply (@subsampling_forward_ok cfg m x mk B T Fd w2); try assumption.
  rewrite Hch. reflexivity.
Qed.
(** A mask of shape (B, T), the shape [WhaleAudioModel.forward] passes on:
    the subsampling returns [x_mask[:, 2::2][:, 2::2]], of shape
    (B, (T - 3) // 4): its element (b, j) is element (b, 4 j + 6) of the
    input, and its time length is that of the returned features.  The call
    returns when the input has at least 7 frames of at least 7 features and
    the hidden size is positive. *)
Lemma subsampling_mask_sliced_twice (cfg : WhaleConfig.t F) (w w1 w2 : World G)
    m (x : Tensor F) (mk : Tensor bool) (B T Fd : nat) :
  WhaleConv2dSubsampling4.__init__ cfg w = (inr m, w1) ->
  shape x = [B; T; Fd] -> shape mk = [B; T] ->
  (forall out mask' w3,
      WhaleConv2dSubsampling4.forward m x (Some mk) w2 = (inr (out, mask'), w3) ->
      shape mask' = [B; (T - 3) / 4] /\
      shape out = [B; (T - 3) / 4; Z.to_nat (WhaleConfig.hidden_size cfg)] /\
      forall b j, b < B -> j < (T - 3) / 4 ->
        tget false mask' [b; j] = tget false mk [b; 4 * j + 6]) /\
  (WhaleConfig.num_channels cfg = 1%Z ->
   (0 < WhaleConfig.hidden_size cfg)%Z ->
   WhaleConfig.input_dim cfg = Z.of_nat Fd -> 7 <= T -> 7 <= Fd ->
   exists out mask',
     WhaleConv2dSubsampling4.forward m x (Some mk) w2 = (inr (out, mask'), w2)).
Proof.
  intros Hm Hx Hmk. split.
  2: { intros Hch Hhid Hin HT HF.
       apply (@subsampling_forward_returns cfg w w1 w2 m x mk B T Fd
                Hm Hch Hhid Hin Hx HT HF).
       unfold rank. rewrite Hmk. cbn. lia. }
  intros out mask' w3 E. apply subsampling_init_inv in Hm.
  destruct (@subsampling_forward_inv _ _ _ _ _ _ _ _ _ _ _ Hm Hx E)
    as (_ & _ & S & _ & mk0 & m1 & Emk & E1 & E2).
  injection Emk as <-.
  apply mask_step_inr in E1. destruct E1 as (a0 & a1 & r1 & S0 & S1 & G1).
  rewrite Hmk in S0. injection S0 as <- <- <-.
  apply mask_step_inr in E2. destruct E2 as (b0 & b1 & r2 & S1' & S2 & G2).
  assert (Eb : b0 = B /\ b1 = (T - 1) / 2 /\ r2 = []).
  { rewrite S1 in S1'. injection S1' as <- <- <-. repeat split. }
  destruct Eb as (-> & -> & ->).
  rewrite slice_twice_length in S2.
  split; [exact S2|]. split; [exact S|].
  intros b j Hb Hj.
  rewrite G2 by (rewrite S2; repeat constructor; assumption).
  assert (Hj2 : 2 + 2 * j < (T - 1) / 2).
  { rewrite <- slice_twice_length in Hj.
    assert (2 * (j + 1) <= (T - 1) / 2 - 1); [|lia].
    destruct (Nat.le_gt_cases (2 * (j + 1)) ((T - 1) / 2 - 1)) as [|Hlt];
      [assumption|].
    assert (((T - 1) / 2 - 1) / 2 < j + 1); [|lia].
    apply Nat.Div0.div_lt_upper_bound. lia. }
  rewrite G1 by (rewrite S1; repeat constructor; assumption).
  f_equal. f_equal. f_equal. lia.
Qed.
End SubsamplingFacts.

(* ===================================================================== *)
(** ** The attention module *)
(* ===================================================================== *)

Lemma runtime_not_divisible e : is_RuntimeError e -> not_divisible_error e.
Proof. intros [msg ->]. discriminate. Qed.

(** Everything the constructor runs after the divisibility check fails,
    if it fails, with another error. *)
Ltac after_check :=
  repeat first
    [ apply fails_with_ret
    | apply fails_with_print
    | apply (fails_with_weaken runtime_not_divisible (nn_Linear_fails _ _ _))
    | apply (fails_with_weaken runtime_not_divisible (torch_rand_fails _))
    | apply fails_with_bind; [|intros ?]
    | match goal with
      | |- fails_with _ (if ?b then _ else _) => destruct b
      | |- fails_with _ (let (_, _) := ?x in _) => destruct x
      | |- fails_with _ (lift (WhaleAttention.inv_sqrt _)) =>
          apply fails_with_lift; unfold WhaleAttention.inv_sqrt;
          let e := fresh in let H := fresh in
          intros e H; destruct (_ =? _)%Z; [injection H as <-|]; discriminate
      | |- fails_with _ (lift (nn_Dropout _)) =>
          apply fails_with_lift;
          let e := fresh in let H := fresh in
          intros e H; apply nn_Dropout_inl in H; subst e; discriminate
      | |- fails_with _ (lift (nn_LayerNorm _ _)) =>
          apply fails_with_lift;
          let e := fresh in let H := fresh in
          intros e H; apply nn_LayerNorm_inl in H;
          apply runtime_not_divisible; exact H
      | |- fails_with _ (raise _) => apply fails_with_raise; discriminate
      end ].

Section AttentionFacts.
Context {F : Type} {FO : Float F} {G : Type} {GO : Generator G F}.

(** What [WhaleAttention.__init__] leaves in the module. *)
Lemma attention_init_inv (cfg : WhaleConfig.t F) (w w' : World G) m :
  WhaleAttention.__init__ cfg w = (inr m, w') ->
  WhaleAttention.use_flash_attn m = false /\
  WhaleAttention.embed_dim m = WhaleConfig.hidden_size cfg /\
  WhaleAttention.num_heads m = WhaleConfig.num_attention_heads cfg /\
  WhaleConfig.num_attention_heads cfg <> 0%Z /\
  WhaleAttention.head_dim m
    = (WhaleConfig.hidden_size cfg / WhaleConfig.num_attention_heads cfg)%Z /\
  (WhaleAttention.head_dim m * WhaleAttention.num_heads m
   = WhaleAttention.embed_dim m)%Z.
Proof.
  unfold WhaleAttention.__init__. intros H.
  apply bind_inr in H. destruct H as (_ & w1 & _ & H).
  apply bind_inr in H. destruct H as (hd & w2 & Hfd & H).
  apply lift_inr in Hfd. destruct Hfd as [Hfd ->].
  unfold WhaleAttention.floordiv in Hfd.
  destruct (Z.eqb_spec (WhaleConfig.num_attention_heads cfg) 0) as [|Hh];
    [discriminate|]. injection Hfd as <-.
  destruct (Z.eqb_spec
              (WhaleConfig.hidden_size cfg / WhaleConfig.num_attention_heads cfg
               * WhaleConfig.num_attention_heads cfg)
              (WhaleConfig.hidden_size cfg)) as [Hdiv|];
    [|discriminate H].
  cbn [negb] in H. py_inv H.
  cbn [WhaleAttention.use_flash_attn WhaleAttention.embed_dim
       WhaleAttention.num_heads WhaleAttention.head_dim].
  unfold has_flash_attn. rewrite andb_false_r.
  repeat split; try assumption; try reflexivity.
Qed.

(** The flag of the module is never set, whatever mode it is put in. *)
Lemma forward_without_flash (m : @WhaleAttention.t F) (mode : bool)
    (x : Tensor F) mask pos :
  WhaleAttention.use_flash_attn m = false ->
  WhaleAttention.forward (G := G) (WhaleAttention.train mode m) x mask pos
  = WhaleAttention._naive_attn (WhaleAttention.train mode m) x mask pos.
Proof.
  intros H. unfold WhaleAttention.forward, WhaleAttention.train.
  cbn [WhaleAttention.use_flash_attn]. rewrite H. reflexivity.
Qed.

(** The warning step of the constructor always passes. *)
Lemma warn_step (cfg : WhaleConfig.t F) (w : World G) :
  exists w1,
    (if WhaleConfig.use_flash_attn cfg && negb has_flash_attn
     then print WhaleAttention.flash_warning else ret tt) w = (inr tt, w1) /\
    stdout w1 = stdout w ++ (if WhaleConfig.use_flash_attn cfg
                             then [WhaleAttention.flash_warning] else []).
Proof.
  unfold has_flash_attn. cbn [negb]. rewrite andb_true_r.
  destruct (WhaleConfig.use_flash_attn cfg).
  - eexists. split; reflexivity.
  - exists w. split; [reflexivity|]. rewrite app_nil_r. reflexivity.
Qed.

(** With a head count other than zero, the constructor raises the
    divisibility error exactly when the division is not exact. *)
Lemma attention_init_divisibility (cfg : WhaleConfig.t F) (w : World G) :
  WhaleConfig.num_attention_heads cfg <> 0%Z ->
  (fst (WhaleAttention.__init__ cfg w)
     = inl (ValueError WhaleAttention.divisible_error)
   <-> ~ (WhaleConfig.num_attention_heads cfg | WhaleConfig.hidden_size cfg)%Z).
Proof.
  intros Hh. set (e := WhaleConfig.hidden_size cfg).
  set (h := WhaleConfig.num_attention_heads cfg) in *.
  unfold WhaleAttention.__init__. fold e h.
  destruct (warn_step cfg w) as (w1 & E1 & _). rewrite (bind_ok _ E1).
  assert (Efd : WhaleAttention.floordiv e h = inr (e / h)%Z).
  { unfold WhaleAttention.floordiv.
    destruct (Z.eqb_spec h 0); [contradiction|reflexivity]. }
  rewrite (bind_lift_ok _ _ Efd).
  destruct (Z.eqb_spec (e / h * h) e) as [Hd|Hd]; cbn [negb].
  - (* divisible: whatever happens next is not the divisibility error *)
    split.
    + intros Hv. exfalso.
      match type of Hv with fst (?c w1) = _ =>
        assert (Hfw : fails_with not_divisible_error c); [after_check|]
      end.
      match type of Hv with fst (?c w1) = _ =>
        destruct (c w1) as [r w2] eqn:Er
      end.
      simpl in Hv. subst r. exact (Hfw _ _ _ Er eq_refl).
    + intros Hn. exfalso. apply Hn. exists (e / h)%Z. symmetry. exact Hd.
  - split; [|reflexivity].
    intros _ [k Hk]. apply Hd. rewrite Hk, Z.div_mul by exact Hh. reflexivity.
Qed.

Ltac run_linear w Hs :=
  match goal with
  | |- context [bind (nn_Linear ?i ?o ?b) _ w] =>
      let l := fresh "l" in let w' := fresh "w" in let E := fresh "E" in
      destruct (nn_Linear_ok (i := i) (o := o) b w) as (l & w' & E & _ & _ & Hs);
      [lia | lia | rewrite (bind_ok _ E)]
  end.

(** On a valid configuration the constructor returns, and prints the
    warning if the optimized kernel was asked for. *)
Lemma attention_init_ok (cfg : WhaleConfig.t F) (w : World G) :
  valid_attention_config cfg ->
  exists m w', WhaleAttention.__init__ cfg w = (inr m, w') /\
    stdout w' = stdout w ++ (if WhaleConfig.use_flash_attn cfg
                             then [WhaleAttention.flash_warning] else []).
Proof.
  intros (He & Hh & Hdiv & Hp0 & Hp1).
  set (e := WhaleConfig.hidden_size cfg) in *.
  set (h := WhaleConfig.num_attention_heads cfg) in *.
  unfold WhaleAttention.__init__. fold e h.
  destruct (warn_step cfg w) as (w1 & E1 & Hs1). rewrite (bind_ok _ E1).
  assert (Efd : WhaleAttention.floordiv e h = inr (e / h)%Z).
  { unfold WhaleAttention.floordiv. destruct (Z.eqb_spec h 0); [lia|reflexivity]. }
  rewrite (bind_lift_ok _ _ Efd).
  assert (Hd : (e / h * h)%Z = e).
  { destruct Hdiv as [k Hk]. rewrite Hk, Z.div_mul by lia. reflexivity. }
  assert (Hhd : (0 < e / h)%Z).
  { apply Z.div_str_pos. split; [lia|]. apply Z.divide_pos_le; assumption. }
  rewrite (proj2 (Z.eqb_eq _ _) Hd). cbn [negb].
  assert (Eis : WhaleAttention.inv_sqrt (e / h)
                = inr (fpow (of_Z (e / h)) (of_Q (- (1 # 2))))).
  { unfold WhaleAttention.inv_sqrt.
    destruct (Z.eqb_spec (e / h) 0); [lia|reflexivity]. }
  rewrite (bind_lift_ok _ _ Eis).
  run_linear w1 Hs2. run_linear w0 Hs3. run_linear w2 Hs4. run_linear w3 Hs5.
  rewrite (bind_lift_ok _ _ (nn_Dropout_ok _ Hp0 Hp1)).
  destruct (nn_LayerNorm_ok (n := e) (WhaleConfig.layer_norm_eps cfg))
    as (ln & Eln & _); [lia|].
  unfold has_flash_attn. rewrite andb_false_r.
  assert (Eqk : exists qk,
             (if WhaleConfig.qk_normalization cfg
              then
                qn <- lift (nn_LayerNorm e (WhaleConfig.layer_norm_eps cfg));;
                kn <- lift (nn_LayerNorm e (WhaleConfig.layer_norm_eps cfg));;
                ret (Some qn, Some kn)
              else ret (None, None)) w4 = (inr qk, w4)).
  { destruct (WhaleConfig.qk_normalization cfg).
    - rewrite (bind_lift_ok _ _ Eln), (bind_lift_ok _ _ Eln). eexists. reflexivity.
    - eexists. reflexivity. }
  destruct Eqk as ([qn kn] & Eqk). rewrite (bind_ok _ Eqk).
  rewrite (bind_ok (w := w4) (a := tt) (w1 := w4) _ eq_refl).
  run_linear w4 Hs6.
  assert (Erel : exists r w6,
             (if WhaleConfig.use_relative_pe cfg
              then
                lp <- nn_Linear e e false;;
                u <- torch_rand [h; (e / h)%Z];;
                v <- torch_rand [h; (e / h)%Z];; ret (Some lp, Some u, Some v)
              else ret (None, None, None)) w5 = (inr r, w6)
             /\ stdout w6 = stdout w5).
  { destruct (WhaleConfig.use_relative_pe cfg).
    - run_linear w5 Hs7.
      destruct (torch_rand_ok (dims := [h; (e / h)%Z]) w6)
        as (u & w7 & Eu & _ & Hs8); [repeat constructor; lia|].
      rewrite (bind_ok _ Eu).
      destruct (torch_rand_ok (dims := [h; (e / h)%Z]) w7)
        as (v & w8 & Ev & _ & Hs9); [repeat constructor; lia|].
      rewrite (bind_ok _ Ev).
      eexists _, w8. split; [reflexivity|]. congruence.
    - eexists _, w5. split; reflexivity. }
  destruct Erel as ([[lp u] v] & w6 & Erel & Hs7). rewrite (bind_ok _ Erel).
  eexists _, w6. split; [reflexivity|].
  rewrite Hs7, Hs6, Hs5, Hs4, Hs3, Hs2. exact Hs1.
Qed.
Lemma outcome_map_bind {A B B'} (f : B -> B') (c : Py G A)
    (k : A -> Py G B) (k' : A -> Py G B') (w : World G) :
  (forall a w', k' a w' = outcome_map f (k a w')) ->
  bind c k' w = outcome_map f (bind c k w).
Proof.
  intros Hk. unfold bind. destruct (c w) as [[e|a] w']; [reflexivity|apply Hk].
Qed.

Lemma outcome_map_ret {A B} (f : A -> B) (a : A) (w : World G) :
  ret (f a) w = outcome_map f (ret a w).
Proof. reflexivity. Qed.

Lemma outcome_map_raise {A B} (f : A -> B) (e : PyError) (w : World G) :
  raise e w = outcome_map f (raise e w).
Proof. reflexivity. Qed.

Lemma bind_print {A} (s : string) (k : unit -> Py G A) (w : World G) :
  bind (print s) k w = k tt (mkWorld (rng w) (stdout w ++ [s])).
Proof. reflexivity. Qed.

Lemma bind_ret {A B} (a : A) (k : A -> Py G B) (w : World G) :
  bind (ret a) k w = k a w.
Proof. reflexivity. Qed.

(** Asking for the optimized kernel changes the construction by the
    warning and by nothing else: the outcome is that of the same
    configuration without the request, run after the warning is printed. *)
Lemma attention_init_flash_request (cfg : WhaleConfig.t F) (w : World G) :
  WhaleConfig.use_flash_attn cfg = true ->
  WhaleAttention.__init__ cfg w
  = outcome_map (holding cfg)
      (WhaleAttention.__init__ (without_flash_request cfg)
         (mkWorld (rng w) (stdout w ++ [WhaleAttention.flash_warning]))).
Proof.
  intros Hflag. unfold WhaleAttention.__init__.
  cbn [without_flash_request WhaleConfig.num_channels WhaleConfig.hidden_size
       WhaleConfig.num_attention_heads WhaleConfig.use_flash_attn
       WhaleConfig.attention_dropout WhaleConfig.qk_normalization
       WhaleConfig.layer_norm_eps WhaleConfig.use_relative_pe].
  rewrite Hflag. unfold has_flash_attn. cbn [andb negb].
  rewrite bind_print, bind_ret.
  apply outcome_map_bind. intros hd w1.
  destruct (negb _); [apply outcome_map_raise|].
  do 6 (apply outcome_map_bind; intros ? ?).
  apply outcome_map_bind. intros [qn kn] w2.
  rewrite !bind_ret.
  apply outcome_map_bind; intros ? ?.
  apply outcome_map_bind. intros [[lp u] v] w3.
  reflexivity.
Qed.
End AttentionFacts.

(* ===================================================================== *)
(** ** The model *)
(* ===================================================================== *)

Section ModelFacts.
Context {F : Type} {FO : Float F} {G : Type} {GO : Generator G F}.

Lemma forward_both_unset (m : @WhaleAudioModel.t F) mask ohs rd (w : World G) :
  WhaleAudioModel.forward m None mask ohs rd None w
  = (inl (ValueError WhaleAudioModel.specify_error), w).
Proof. reflexivity. Qed.

Lemma forward_wrong_rank (m : @WhaleAudioModel.t F) x mask ohs rd (w : World G) :
  rank x <> 3 ->
  WhaleAudioModel.forward m (Some x) mask ohs rd None w
  = (inl (ValueError WhaleAudioModel.wrong_size_error), w).
Proof.
  intros Hr. unfold WhaleAudioModel.forward.
  cbn [WhaleAudioModel.is_None andb].
  unfold bind at 1. unfold bind at 1. cbn [lift].
  destruct (Nat.eqb_spec (rank x) 3); [contradiction|]. reflexivity.
Qed.

(** With [pixel_embeds] the argument check passes and [input_features]
    is not looked at; the call then stops at the read of [pos_embeds],
    which this branch never assigns. *)
Lemma forward_pixel_embeds (m : @WhaleAudioModel.t F) xo mask ohs rd pe
    (w : World G) :
  WhaleAudioModel.forward m xo mask ohs rd (Some pe) w
  = (inl (UnboundLocalError "pos_embeds"), w).
Proof.
  unfold WhaleAudioModel.forward.
  replace (WhaleAudioModel.is_None xo && WhaleAudioModel.is_None (Some pe))
    with false by (destruct xo; reflexivity).
  reflexivity.
Qed.

(** What a call that returns has done. *)
Lemma forward_returns (m : @WhaleAudioModel.t F) xo mask ohs rd pe
    (w w' : World G) r :
  WhaleAudioModel.forward m xo mask ohs rd pe w = (inr r, w') ->
  exists o enc x hs mk pos w1 w2,
    r = AsDict o /\
    xo = Some x /\ pe = None /\ rank x = 3 /\
    WhaleAudioEncoder.forward (WhaleAudioModel.encoder m) hs mk pos
      (Some (match ohs with
             | Some b => b
             | None => WhaleConfig.output_hidden_states (WhaleAudioModel.config m)
             end)) (Some true) w1 = (inr (AsDict enc), w2) /\
    last_hidden_state o = bmo_last_hidden_state enc /\
    hidden_states o = bmo_hidden_states enc /\
    select_dim1 f0 0 (last_hidden_state o) = inr (pooler_output o).
Proof.
  unfold WhaleAudioModel.forward. intros H.
  destruct (WhaleAudioModel.is_None xo && WhaleAudioModel.is_None pe) eqn:En;
    [discriminate H|].
  destruct pe as [pe|].
  - (* the branch for pixel_embeds leaves pos_embeds unbound *)
    exfalso. py_inv H. discriminate.
  - destruct xo as [x|]; [|discriminate En].
    apply bind_inr in H. destruct H as ([[hs mk] pos] & w1 & E1 & H).
    apply bind_inr in E1. destruct E1 as (x' & w0 & Ex & E1).
    apply lift_inr in Ex. destruct Ex as [Ex ->]. injection Ex as <-.
    destruct (Nat.eqb_spec (rank x) 3) as [Hr|]; [|discriminate E1].
    apply bind_inr in H. destruct H as (pos' & w1' & Ep & H).
    apply lift_inr in Ep. destruct Ep as [Ep ->].
    apply bind_inr in H. destruct H as (eo & w2 & Eenc & H).
    destruct eo as [items|enc]; [discriminate H|].
    apply bind_inr in H. destruct H as (pooled & w3 & Esel & H).
    apply lift_inr in Esel. destruct Esel as [Esel ->].
    destruct (match rd with
              | Some b => b
              | None => WhaleConfig.use_return_dict (WhaleAudioModel.config m)
              end) eqn:Erd; cbn [negb] in H.
    + apply ret_inr in H. destruct H as [-> ->].
      eexists _, enc, x, hs, mk, (Some pos'), w1, w2.
      repeat split; try reflexivity; try assumption.
    + (* without return_dict the encoder returns a tuple, which has no
         attribute last_hidden_state *)
      exfalso. unfold WhaleAudioEncoder.forward in Eenc.
      apply bind_inr in Eenc. destruct Eenc as ([es hs'] & w4 & _ & Eenc).
      apply bind_inr in Eenc. destruct Eenc as (hs'' & w5 & _ & Eenc).
      cbn [negb] in Eenc. discriminate Eenc.
Qed.
End ModelFacts.

(* ===================================================================== *)
(** ** The claims *)
(* ===================================================================== *)

Section Claims.
Context {F : Type} {FO : Float F} {G : Type} {GO : Generator G F}.

(** C1, as the code has it: [WhaleAudioModel.forward] raises
    [ValueError] when neither argument is given, and when
    [pixel_embeds] is not given and [input_features] is not of rank 3;
    when [pixel_embeds] is given it takes precedence, [input_features]
    is not examined, and no [ValueError] is raised. *)
Theorem C1_forward_argument_check (m : @WhaleAudioModel.t F) mask ohs rd
    (w : World G) :
  WhaleAudioModel.forward m None mask ohs rd None w
    = (inl (ValueError WhaleAudioModel.specify_error), w)
  /\ (forall x, rank x <> 3 ->
        WhaleAudioModel.forward m (Some x) mask ohs rd None w
        = (inl (ValueError WhaleAudioModel.wrong_size_error), w))
  /\ (forall xo pe msg w',
        WhaleAudioModel.forward m xo mask ohs rd (Some pe) w
        <> (inl (ValueError msg), w')).
Proof.
  split; [apply forward_both_unset|].
  split; [intros x Hx; apply forward_wrong_rank; exact Hx|].
  intros xo pe msg w' H. rewrite forward_pixel_embeds in H. discriminate H.
Qed.

(** C2, as the code has it: on an input of shape (B, T, Fd) with
    [T >= 7] and [Fd >= 7], a module built with one channel, a positive
    hidden size and [input_dim = Fd] returns features whose time dimension
    is [(T - 3) // 4]; that is [T // 4] when [T mod 4 = 3] and [T // 4 - 1]
    otherwise. *)
Theorem C2_subsampled_time_dimension (cfg : WhaleConfig.t F) (w w1 w2 : World G)
    m (x : Tensor F) (mk : Tensor bool) (B T Fd : nat) :
  WhaleConv2dSubsampling4.__init__ cfg w = (inr m, w1) ->
  WhaleConfig.num_channels cfg = 1%Z ->
  (0 < WhaleConfig.hidden_size cfg)%Z ->
  WhaleConfig.input_dim cfg = Z.of_nat Fd ->
  shape x = [B; T; Fd] -> 7 <= T -> 7 <= Fd -> 2 <= rank mk ->
  exists out mask',
    WhaleConv2dSubsampling4.forward m x (Some mk) w2 = (inr (out, mask'), w2) /\
    shape out = [B; (T - 3) / 4; Z.to_nat (WhaleConfig.hidden_size cfg)] /\
    (T - 3) / 4 = T / 4 - (if T mod 4 =? 3 then 0 else 1).
Proof.
  intros Hm Hch Hhid Hin Hx HT HF Hmk.
  destruct (@subsampling_forward_returns _ _ _ _ cfg w w1 w2 m x mk B T Fd
              Hm Hch Hhid Hin Hx HT HF Hmk)
    as (out & mask' & E).
  exists out, mask'. split; [exact E|].
  apply subsampling_init_inv in Hm.
  destruct (@subsampling_forward_inv _ _ _ _ _ _ _ _ _ _ _ _ _ _ _ Hm Hx E)
    as (_ & _ & S & _).
  split; [exact S|]. apply subsampled_vs_quarter. exact HT.
Qed.

(** C5: with a head count other than zero, constructing the attention
    module fails with the divisibility [ValueError] exactly when the
    head count does not divide the embedding dimension; every module
    that was constructed has [head_dim * num_heads = embed_dim]. *)
Theorem C5_attention_divisibility_check (cfg : WhaleConfig.t F) (w : World G) :
  WhaleConfig.num_attention_heads cfg <> 0%Z ->
  (fst (WhaleAttention.__init__ cfg w)
     = inl (ValueError WhaleAttention.divisible_error)
   <-> ~ (WhaleConfig.num_attention_heads cfg | WhaleConfig.hidden_size cfg)%Z)
  /\ (forall m w', WhaleAttention.__init__ cfg w = (inr m, w') ->
        (WhaleAttention.head_dim m * WhaleAttention.num_heads m
         = WhaleAttention.embed_dim m)%Z).
Proof.
  intros Hh. split; [apply attention_init_divisibility; exact Hh|].
  intros m w' Hm. apply attention_init_inv in Hm.
  destruct Hm as (_ & _ & _ & _ & _ & Hd). exact Hd.
Qed.

(** C7: on an input of shape (B, T, D) the forward pass of the relative
    variant is the pair (dropout(x * sqrt(d)),
    dropout(pe[:, offset : offset + T])), and it returns for every
    offset; in evaluation mode, where dropout is the identity, the first
    component is [x] scaled by [sqrt(hidden_size)], without the positional
    slice, and the second is the slice. *)
Theorem C7_relative_forward_scales_and_slices (cfg : WhaleConfig.t F) m
    (x : Tensor F) (B T D : nat) (offset : Z) (w : World G) :
  RelPositionalEncoding.__init__ cfg = inr m ->
  shape x = [B; T; D] ->
  let base := RelPositionalEncoding.super m in
  RelPositionalEncoding.forward m x offset w
  = rel_forward_spec (WhaleConfig.hidden_size cfg)
      (WhalePositionalEncoding.dropout base) (WhalePositionalEncoding.pe base)
      x offset T w
  /\ (exists x' p w',
        RelPositionalEncoding.forward m x offset w = (inr (x', p), w') /\
        shape x' = shape x)
  /\ (exists pos,
        slice_dim1 f0 (Some offset) (Some (offset + Z.of_nat T)%Z) 1
          (WhalePositionalEncoding.pe base) = inr pos /\
        RelPositionalEncoding.forward (RelPositionalEncoding.train false m) x offset w
        = (inr (tmap (fun v => fmul v (fsqrt (of_Z (WhaleConfig.hidden_size cfg)))) x,
                pos), w)).
Proof.
  intros Hm Hx base.
  assert (Hret : exists x' p w',
             RelPositionalEncoding.forward m x offset w = (inr (x', p), w') /\
             shape x' = shape x).
  { destruct (@rel_forward_returns _ _ _ _ cfg m x B T D offset w Hm Hx)
      as (x' & p & w' & E & Sx & _).
    exists x', p, w'. split; [exact E|]. rewrite Sx, Hx. reflexivity. }
  apply rel_init_inv in Hm. fold base in Hm.
  destruct (pe_init_inv _ Hm) as (_ & _ & _ & _ & Hsc & Hpe & _).
  destruct (@slice_dim1_ok _ f0 (Some offset) (Some (offset + Z.of_nat T)%Z) 1
              (WhalePositionalEncoding.pe base) _ _ _ Hpe) as (pos & Epos & _).
  assert (Esz : size (tscale (WhalePositionalEncoding.xscale base) x) 1 = inr T).
  { unfold size, tscale. cbn [shape tmap]. rewrite Hx. reflexivity. }
  split; [|split; [exact Hret|]].
  - unfold RelPositionalEncoding.forward, rel_forward_spec. fold base.
    rewrite (bind_lift_ok _ _ Esz), (bind_lift_ok _ _ Epos).
    rewrite Hsc. unfold tscale.
    destruct (Dropout_forward_ok (WhalePositionalEncoding.dropout base)
                (tmap (fun v => fmul v (fsqrt (of_Z (WhaleConfig.hidden_size cfg)))) x) w)
      as (a & w1 & Ea & _).
    rewrite !(bind_ok _ Ea). rewrite (bind_lift_ok _ _ Epos). reflexivity.
  - exists pos. split; [exact Epos|].
    unfold RelPositionalEncoding.forward, RelPositionalEncoding.train.
    cbn [RelPositionalEncoding.super WhalePositionalEncoding.train
         WhalePositionalEncoding.xscale WhalePositionalEncoding.pe
         WhalePositionalEncoding.dropout]. fold base.
    rewrite (bind_lift_ok _ _ Esz), (bind_lift_ok _ _ Epos).
    rewrite Hsc. reflexivity.
Qed.

(** C8: every call of [WhaleAudioModel.forward] that returns, returns a
    [BaseModelOutputWithPooling] whose last hidden state is the one the
    encoder returned and whose pooled output is
    [last_hidden_state[:, 0, :]]. *)
Theorem C8_pooler_output_is_first_position (m : @WhaleAudioModel.t F)
    xo mask ohs rd pe (w w' : World G) r :
  WhaleAudioModel.forward m xo mask ohs rd pe w = (inr r, w') ->
  exists o,
    r = AsDict o /\
    select_dim1 f0 0 (last_hidden_state o) = inr (pooler_output o) /\
    (exists d0 d1 d2 rest,
        shape (last_hidden_state o) = d0 :: d1 :: d2 :: rest /\
        shape (pooler_output o) = d0 :: d2 :: rest /\
        forall b i, Forall2 lt (b :: i) (d0 :: d2 :: rest) ->
          tget f0 (pooler_output o) (b :: i)
          = tget f0 (last_hidden_state o) (b :: 0 :: i)) /\
    (exists enc hs mk pos ohs' w1 w2,
        WhaleAudioEncoder.forward (WhaleAudioModel.encoder m) hs mk pos
          ohs' (Some true) w1 = (inr (AsDict enc), w2) /\
        last_hidden_state o = bmo_last_hidden_state enc).
Proof.
  intros H. apply forward_returns in H.
  destruct H as (o & enc & x & hs & mk & pos & w1 & w2 & -> & _ & _ & _
                 & Eenc & Hlast & _ & Hsel).
  exists o. split; [reflexivity|]. split; [exact Hsel|]. split.
  - apply select_dim1_inr in Hsel.
    destruct Hsel as (d0 & d1 & d2 & rest & S1 & _ & S2 & Hget).
    exists d0, d1, d2, rest. split; [exact S1|]. split; [exact S2|].
    intros b i Hb. apply Hget. rewrite S2. exact Hb.
  - exists enc, hs, mk, pos. eexists _, w1, w2. split; [exact Eenc|exact Hlast].
Qed.

(** C9: when the configuration asks for the optimized kernel, which is
    not available, construction does not fail on that account: it prints
    the warning and goes on as for the same configuration without the
    request.  On a valid configuration it returns a module, with the
    warning printed, and every module it returns takes the standard
    attention path in every forward call, in training and in evaluation
    mode. *)
Theorem C9_flash_request_falls_back (cfg : WhaleConfig.t F) (w : World G) :
  WhaleConfig.use_flash_attn cfg = true ->
  WhaleAttention.__init__ cfg w
  = outcome_map (holding cfg)
      (WhaleAttention.__init__ (without_flash_request cfg)
         (mkWorld (rng w) (stdout w ++ [WhaleAttention.flash_warning]))) /\
  (valid_attention_config cfg ->
   exists m w',
     WhaleAttention.__init__ cfg w = (inr m, w') /\
     stdout w' = stdout w ++ [WhaleAttention.flash_warning]) /\
  (forall m w',
     WhaleAttention.__init__ cfg w = (inr m, w') ->
     WhaleAttention.use_flash_attn m = false /\
     (forall x mask pos,
         WhaleAttention.forward (G := G) m x mask pos
         = WhaleAttention._naive_attn m x mask pos) /\
     (forall mode x mask pos,
         WhaleAttention.forward (G := G) (WhaleAttention.train mode m) x mask pos
         = WhaleAttention._naive_attn (WhaleAttention.train mode m) x mask pos)).
Proof.
  intros Hflag. split; [apply attention_init_flash_request; exact Hflag|]. split.
  - intros Hvalid.
    destruct (attention_init_ok w Hvalid) as (m & w' & Hm & Hout).
    rewrite Hflag in Hout. exists m, w'. split; [exact Hm|exact Hout].
  - intros m w' Hm.
    apply attention_init_inv in Hm. destruct Hm as (Hf & _).
    split; [exact Hf|]. split.
    + intros x mask pos. unfold WhaleAttention.forward. rewrite Hf. reflexivity.
    + intros mode x mask pos. apply forward_without_flash. exact Hf.
Qed.

(** C10: the availability flag is false in this module, so every
    constructed attention module has [use_flash_attn = False] and its
    [forward] is [_naive_attn] on the same arguments. *)
Theorem C10_forward_is_naive_attn (cfg : WhaleConfig.t F) (w w' : World G) m :
  WhaleAttention.__init__ cfg w = (inr m, w') ->
  has_flash_attn = false /\
  WhaleAttention.use_flash_attn m = false /\
  forall x mask pos,
    WhaleAttention.forward (G := G) m x mask pos
    = WhaleAttention._naive_attn m x mask pos.
Proof.
  intros Hm. apply attention_init_inv in Hm. destruct Hm as (Hf & _).
  split; [reflexivity|]. split; [exact Hf|].
  intros x mask pos. unfold WhaleAttention.forward. rewrite Hf. reflexivity.
Qed.
End Claims.

(** C6, as the code has it: at every position below [max_len] the table
    built by the constructor holds [sin a] in column [2i] and [cos a] in
    column [2i + 1], where that column exists, for the angle
    [a = pos * exp (2i * -(log 10000 / d))] computed with the
    floating-point operations of the code, in that order.  In exact
    arithmetic [a] is [pos / 10000^(2i/d)].  The table is a function of
    the table length and the hidden size alone. *)
Theorem C6_positional_table_values (F : Type) (FO : Float F)
    (cfg : WhaleConfig.t F) m :
  WhalePositionalEncoding.__init__ cfg = inr m ->
  let d := WhaleConfig.hidden_size cfg in
  let L := WhaleConfig.max_position_embeddings cfg in
  shape (WhalePositionalEncoding.pe m) = [1; Z.to_nat L; Z.to_nat d] /\
  (forall pos i, pos < Z.to_nat L -> 2 * i < Z.to_nat d ->
     tget f0 (WhalePositionalEncoding.pe m) [0; pos; 2 * i]
     = fsin (fmul (of_Z (Z.of_nat pos))
                  (fexp (fmul (of_Z (Z.of_nat (2 * i)))
                              (fneg (fdiv (flog (of_Z 10000)) (of_Z d)))))) /\
     (2 * i + 1 < Z.to_nat d ->
      tget f0 (WhalePositionalEncoding.pe m) [0; pos; 2 * i + 1]
      = fcos (fmul (of_Z (Z.of_nat pos))
                   (fexp (fmul (of_Z (Z.of_nat (2 * i)))
                               (fneg (fdiv (flog (of_Z 10000)) (of_Z d)))))))) /\
  (forall pos i,
     fmul (Float := ifloat_Float) (of_Z (Z.of_nat pos))
       (fexp (fmul (of_Z (Z.of_nat (2 * i)))
                   (fneg (fdiv (flog (of_Z 10000)) (of_Z d)))))
     = Real (INR pos / Rpower 10000 (INR (2 * i) / IZR d))) /\
  (forall cfg' m',
     WhaleConfig.hidden_size cfg' = d ->
     WhaleConfig.max_position_embeddings cfg' = L ->
     WhalePositionalEncoding.__init__ cfg' = inr m' ->
     WhalePositionalEncoding.pe m' = WhalePositionalEncoding.pe m).
Proof.
  intros Hm d L.
  destruct (pe_init_inv _ Hm) as (Hd & _ & _ & _ & _ & Hshape & Hget).
  fold d L in Hd, Hshape, Hget.
  split; [exact Hshape|]. split; [|split].
  - intros pos i Hpos Hi.
    assert (Hhalf : 2 * i / 2 = i)
      by (replace (2 * i) with (i * 2) by lia; apply Nat.div_mul; lia).
    assert (Hhalf' : (2 * i + 1) / 2 = i).
    { replace (2 * i + 1) with (1 + i * 2) by lia.
      rewrite Nat.div_add by lia. reflexivity. }
    split.
    + rewrite Hget by assumption. unfold pe_entry.
      replace (Nat.even (2 * i)) with true
        by (symmetry; apply Nat.even_spec; exists i; reflexivity).
      rewrite Hhalf. reflexivity.
    + intros Hi'. rewrite Hget by assumption. unfold pe_entry.
      replace (Nat.even (2 * i + 1)) with false.
      * rewrite Hhalf'. reflexivity.
      * symmetry. rewrite <- Nat.negb_odd.
        replace (Nat.odd (2 * i + 1)) with true; [reflexivity|].
        symmetry. apply Nat.odd_spec. exists i. reflexivity.
  - intros pos i. exact (pe_angle_real pos i Hd).
  - intros cfg' m' Hd' HL' Hm'.
    exact (pe_init_deterministic cfg' cfg Hd' HL' Hm' Hm).
Qed.

(* ===================================================================== *)
(** ** The claims on the small model *)
(* ===================================================================== *)

Lemma demo_subsampling_eq :
  WhaleConv2dSubsampling4.__init__ demo_config demo_world
  = (inr demo_subsampling,
     snd (WhaleConv2dSubsampling4.__init__ demo_config demo_world)).
Proof. exact (run_eq (WhaleConv2dSubsampling4.__init__ demo_config demo_world) eq_refl). Qed.

Lemma demo_positional_eq :
  RelPositionalEncoding.__init__ demo_config = inr demo_positional.
Proof. exact (get_eq (RelPositionalEncoding.__init__ demo_config) eq_refl). Qed.

Lemma demo_attention_eq :
  WhaleAttention.__init__ demo_config demo_world
  = (inr demo_attention, snd (WhaleAttention.__init__ demo_config demo_world)).
Proof. exact (run_eq (WhaleAttention.__init__ demo_config demo_world) eq_refl). Qed.

(** C1, a call the claim gets wrong: with both arguments given the call
    is not rejected as an invalid argument; it stops later, at the unbound
    [pos_embeds]. *)
Lemma C1_both_supplied_not_rejected :
  WhaleAudioModel.forward demo_model (Some (features 7)) (Some (mask2 7))
    None None (Some (hidden 1)) demo_world
  = (inl (UnboundLocalError "pos_embeds"), demo_world)
  /\ WhaleAudioModel.forward demo_model (Some unbatched_features) (Some (mask2 7))
       None None (Some (hidden 1)) demo_world
     = (inl (UnboundLocalError "pos_embeds"), demo_world)
  /\ forall msg, UnboundLocalError "pos_embeds" <> ValueError msg.
Proof.
  split; [apply forward_pixel_embeds|].
  split; [apply forward_pixel_embeds|].
  intros msg. discriminate.
Qed.

Lemma C1_forward_argument_check_witness :
  rank unbatched_features <> 3 /\
  WhaleAudioModel.forward demo_model (Some unbatched_features) None None None None
    demo_world
  = (inl (ValueError WhaleAudioModel.wrong_size_error), demo_world).
Proof.
  assert (H : rank unbatched_features <> 3) by discriminate.
  split; [exact H|].
  exact (proj1 (proj2 (C1_forward_argument_check demo_model None None None
                         demo_world)) unbatched_features H).
Defined.

(** C2, an input the claim gets wrong: 8 frames give 1 frame, not
    8 // 4 = 2. *)
Lemma C2_eight_frames_give_one :
  exists out mask',
    WhaleConv2dSubsampling4.forward demo_subsampling (features 8)
      (Some (mask2 8)) demo_world = (inr (out, mask'), demo_world) /\
    shape out = [1; 1; 4] /\ 8 / 4 = 2.
Proof.
  pose proof demo_subsampling_eq as Hb. apply subsampling_init_inv in Hb.
  destruct (@subsampling_forward_ok _ _ _ _ demo_config demo_subsampling
              (features 8) (mask2 8) 1 8 7 demo_world)
    as (out & mask' & E);
    [exact Hb|reflexivity|lia|lia|reflexivity|reflexivity|reflexivity|cbn; lia|].
  exists out, mask'. split; [exact E|].
  destruct (@subsampling_forward_inv _ _ _ _ _ _ (features 8) _ 1 8 7 _ _ _ _
              Hb eq_refl E)
    as (_ & _ & S & _).
  split; [exact S|reflexivity].
Qed.

Lemma C2_subsampled_time_dimension_witness :
  exists out mask',
    WhaleConv2dSubsampling4.forward demo_subsampling (features 11)
      (Some (mask2 11)) demo_world = (inr (out, mask'), demo_world) /\
    shape out = [1; (11 - 3) / 4; Z.to_nat (WhaleConfig.hidden_size demo_config)] /\
    (11 - 3) / 4 = 11 / 4 - (if 11 mod 4 =? 3 then 0 else 1).
Proof.
  refine (C2_subsampled_time_dimension (B := 1) (T := 11) (Fd := 7)
            demo_config demo_world demo_world (features 11) (mask2 11)
            demo_subsampling_eq eq_refl eq_refl eq_refl eq_refl _ _ _).
  - lia.
  - lia.
  - cbn. lia.
Defined.

(** C3: the subsampling is given 7 frames with a mask of shape (1, 1, 7),
    the shape (#batch, 1, time) that its docstring names.  The call
    returns: the slices [x_mask[:, 2::2][:, 2::2]] act on the axis of
    length 1 and leave a mask of shape (1, 0, 7), which is neither
    (#batch, 1, time') nor as long as the one frame the features keep.
    With the mask of shape (1, 7), the shape [WhaleAudioModel.forward]
    passes on, the same call returns a mask of one element for the one
    frame. *)
Theorem C3_docstring_mask_is_emptied :
  shape (mask3 7) = [1; 1; 7] /\
  (exists out mask',
      WhaleConv2dSubsampling4.forward demo_subsampling (features 7)
        (Some (mask3 7)) demo_world = (inr (out, mask'), demo_world) /\
      shape mask' = [1; 0; 7] /\ shape out = [1; 1; 4]) /\
  (exists out mask',
      WhaleConv2dSubsampling4.forward demo_subsampling (features 7)
        (Some (mask2 7)) demo_world = (inr (out, mask'), demo_world) /\
      shape mask' = [1; 1] /\ shape out = [1; 1; 4]).
Proof.
  split; [reflexivity|].
  pose proof demo_subsampling_eq as Hb. apply subsampling_init_inv in Hb.
  split.
  - destruct (@subsampling_forward_ok _ _ _ _ demo_config demo_subsampling
                (features 7) (mask3 7) 1 7 7 demo_world)
      as (out & mask' & E);
      [exact Hb|reflexivity|lia|lia|reflexivity|reflexivity|reflexivity
      |cbn; lia|].
    exists out, mask'. split; [exact E|].
    destruct (@subsampling_forward_inv _ _ _ _ _ _ (features 7) _ 1 7 7 _ _ _ _
                Hb eq_refl E)
      as (_ & _ & S & _ & mk & m1 & Emk & E1 & E2).
    injection Emk as <-.
    apply mask_step_inr in E1. destruct E1 as (a0 & a1 & r1 & S0 & S1 & _).
    assert (Ea : a0 = 1 /\ a1 = 1 /\ r1 = [7]).
    { change (shape (mask3 7)) with [1; 1; 7] in S0.
      injection S0 as <- <- <-. repeat split. }
    destruct Ea as (-> & -> & ->).
    apply mask_step_inr in E2. destruct E2 as (b0 & b1 & r2 & S1' & S2 & _).
    assert (Eb : b0 = 1 /\ b1 = 0 /\ r2 = [7]).
    { rewrite S1 in S1'. injection S1' as <- <- <-. repeat split. }
    destruct Eb as (-> & -> & ->).
    split; [exact S2|exact S].
  - destruct (@subsampling_mask_sliced_twice _ _ _ _ demo_config demo_world _
                demo_world demo_subsampling (features 7) (mask2 7) 1 7 7
                demo_subsampling_eq eq_refl eq_refl) as [Hshape Hret].
    destruct Hret as (out & mask' & E);
      [reflexivity|reflexivity|reflexivity|lia|lia|].
    exists out, mask'. split; [exact E|].
    destruct (Hshape out mask' demo_world E) as (S1 & S2 & _).
    split; [exact S1|exact S2].
Qed.

Lemma subsampling_run_forward :
  WhaleConv2dSubsampling4.forward demo_subsampling (features 11)
    (Some (mask2 11)) demo_world
  = (inr (get (fst subsampling_run) eq_refl), snd subsampling_run).
Proof. unfold subsampling_run. apply run_eq. Qed.

(** The subsampling on 11 frames and a mask of shape (1, 11): two frames,
    and the mask elements 6 and 10. *)
Lemma subsampling_run_mask :
  shape (snd (get (fst subsampling_run) eq_refl)) = [1; (11 - 3) / 4] /\
  shape (fst (get (fst subsampling_run) eq_refl))
    = [1; (11 - 3) / 4; Z.to_nat (WhaleConfig.hidden_size demo_config)] /\
  forall b j, b < 1 -> j < (11 - 3) / 4 ->
    tget false (snd (get (fst subsampling_run) eq_refl)) [b; j]
    = tget false (mask2 11) [b; 4 * j + 6].
Proof.
  refine (proj1 (@subsampling_mask_sliced_twice _ _ _ _ demo_config demo_world _
                   demo_world demo_subsampling (features 11) (mask2 11) 1 11 7
                   demo_subsampling_eq eq_refl eq_refl)
            _ _ (snd subsampling_run) _).
  rewrite <- surjective_pairing. exact subsampling_run_forward.
Qed.

(** C4: the relative encoder, whose table holds 16 positions, is called on
    20 frames at offset 0.  The call returns, and the positional tensor it
    returns has 16 rows for the 20 frames.  The forward pass of the base
    class and [position_encoding] stop at their assertion on the same
    arguments. *)
Theorem C4_relative_forward_has_no_bounds_check :
  (exists x' p w',
      RelPositionalEncoding.forward demo_positional (hidden 20) 0 demo_world
      = (inr (x', p), w') /\
      shape x' = [1; 20; 4] /\ shape p = [1; 16; 4]) /\
  WhalePositionalEncoding.max_len (RelPositionalEncoding.super demo_positional)
    = 16%Z /\
  WhalePositionalEncoding.forward (RelPositionalEncoding.super demo_positional)
    (hidden 20) 0 demo_world = (inl AssertionError, demo_world) /\
  WhalePositionalEncoding.position_encoding
    (RelPositionalEncoding.super demo_positional) 0 20 demo_world
  = (inl AssertionError, demo_world).
Proof.
  pose proof demo_positional_eq as Hm.
  pose proof Hm as Hb. apply rel_init_inv in Hb.
  destruct (pe_init_inv _ Hb) as (_ & _ & _ & HL & _).
  change (WhaleConfig.max_position_embeddings demo_config) with 16%Z in HL.
  split; [|split; [exact HL|split]].
  - exact (@rel_forward_returns _ _ _ _ demo_config demo_positional (hidden 20)
             1 20 4 0%Z demo_world Hm eq_refl).
  - apply positional_forward_asserts with (n := 20); [reflexivity|].
    rewrite HL. lia.
  - apply position_encoding_asserts. rewrite HL. lia.
Qed.

(** C5, configurations the claim gets wrong: with no head the constructor
    stops at the division that computes [head_dim], before the check,
    whether the hidden size is 4, which zero does not divide, or 0, which
    it does. *)
Lemma C5_zero_heads_stop_before_the_check :
  fst (WhaleAttention.__init__ zero_heads_config demo_world)
    = inl ZeroDivisionError /\
  ~ (WhaleConfig.num_attention_heads zero_heads_config
     | WhaleConfig.hidden_size zero_heads_config)%Z /\
  fst (WhaleAttention.__init__ zero_size_config demo_world)
    = inl ZeroDivisionError /\
  (WhaleConfig.num_attention_heads zero_size_config
   | WhaleConfig.hidden_size zero_size_config)%Z /\
  forall msg, ZeroDivisionError <> ValueError msg.
Proof.
  split; [reflexivity|]. split.
  - intros [z Hz]. cbn in Hz. lia.
  - split; [reflexivity|]. split; [exists 0%Z; reflexivity|].
    intros msg. discriminate.
Qed.

Lemma C5_attention_divisibility_check_witness :
  (fst (WhaleAttention.__init__ three_heads_config demo_world)
     = inl (ValueError WhaleAttention.divisible_error)
   <-> ~ (WhaleConfig.num_attention_heads three_heads_config
          | WhaleConfig.hidden_size three_heads_config)%Z)
  /\ (forall m w', WhaleAttention.__init__ three_heads_config demo_world = (inr m, w') ->
        (WhaleAttention.head_dim m * WhaleAttention.num_heads m
         = WhaleAttention.embed_dim m)%Z).
Proof.
  apply (C5_attention_divisibility_check three_heads_config demo_world).
  cbn. lia.
Defined.

Lemma C6_positional_table_values_witness :
  tget (Rat 0)
    (WhalePositionalEncoding.pe (RelPositionalEncoding.super demo_positional))
    [0; 3; 2 * 1]
  = isin (imul (Rat 3)
            (iexp (imul (Rat 2) (ineg (idiv (ilog (Rat 10000)) (Rat 4)))))) /\
  imul (Rat 3) (iexp (imul (Rat 2) (ineg (idiv (ilog (Rat 10000)) (Rat 4)))))
  = Real (INR 3 / Rpower 10000 (INR (2 * 1) / IZR 4)).
Proof.
  pose proof demo_positional_eq as Hm. apply rel_init_inv in Hm.
  destruct (@C6_positional_table_values ifloat _ demo_config _ Hm)
    as (_ & H & Hreal & _).
  destruct (H 3 1) as [Hs _]; [cbn; lia|cbn; lia|].
  split; [exact Hs|exact (Hreal 3 1)].
Defined.

Lemma C7_relative_forward_scales_and_slices_witness :
  exists pos,
    slice_dim1 (Rat 0) (Some 2%Z) (Some (2 + Z.of_nat 5)%Z) 1
      (WhalePositionalEncoding.pe (RelPositionalEncoding.super demo_positional))
    = inr pos /\
    RelPositionalEncoding.forward (RelPositionalEncoding.train false demo_positional)
      (hidden 5) 2 demo_world
    = (inr (tmap (fun v => fmul v (fsqrt (of_Z 4))) (hidden 5), pos), demo_world).
Proof.
  exact (proj2 (proj2 (@C7_relative_forward_scales_and_slices _ _ _ _ demo_config
                         demo_positional (hidden 5) 1 5 4 2%Z demo_world
                         demo_positional_eq eq_refl))).
Defined.

Lemma demo_run_forward :
  WhaleAudioModel.forward demo_model (Some (features 7)) (Some (mask2 7))
    None None None demo_world
  = (inr (get (fst demo_run) eq_refl), snd demo_run).
Proof.
  exact (run_eq (WhaleAudioModel.forward demo_model (Some (features 7))
                   (Some (mask2 7)) None None None demo_world) eq_refl).
Qed.

Lemma C8_pooler_output_is_first_position_witness :
  exists o,
    get (fst demo_run) eq_refl = AsDict o /\
    select_dim1 (Rat 0) 0 (last_hidden_state o) = inr (pooler_output o).
Proof.
  destruct (@C8_pooler_output_is_first_position _ _ _ _ demo_model
              (Some (features 7)) (Some (mask2 7)) None None None
              demo_world (snd demo_run) (get (fst demo_run) eq_refl)
              demo_run_forward)
    as (o & Ho & Hsel & _).
  exists o. split; [exact Ho|exact Hsel].
Defined.

(** C9, configurations the claim gets wrong: both ask for the optimized
    kernel, and for neither is a module constructed.  With three heads
    for a hidden size of 4 the constructor prints the warning and stops
    at the divisibility check; with no head it prints the warning and
    stops at the division that computes [head_dim]. *)
Lemma C9_invalid_request_fails :
  WhaleConfig.use_flash_attn three_heads_config = true /\
  WhaleAttention.__init__ three_heads_config demo_world
  = (inl (ValueError WhaleAttention.divisible_error),
     mkWorld tt [WhaleAttention.flash_warning]) /\
  WhaleConfig.use_flash_attn zero_heads_config = true /\
  WhaleAttention.__init__ zero_heads_config demo_world
  = (inl ZeroDivisionError, mkWorld tt [WhaleAttention.flash_warning]).
Proof. repeat split; reflexivity. Qed.

Lemma C9_flash_request_falls_back_witness :
  exists m w',
    WhaleAttention.__init__ demo_config demo_world = (inr m, w') /\
    stdout w' = [WhaleAttention.flash_warning] /\
    WhaleAttention.use_flash_attn m = false.
Proof.
  assert (Hv : valid_attention_config demo_config).
  { repeat split; try (cbn; lia); try reflexivity. exists 2%Z. reflexivity. }
  destruct (@C9_flash_request_falls_back _ _ _ _ demo_config demo_world eq_refl)
    as (_ & Hok & Hnaive).
  destruct (Hok Hv) as (m & w' & Hm & Hout).
  exists m, w'. split; [exact Hm|]. split; [exact Hout|].
  exact (proj1 (Hnaive m w' Hm)).
Defined.

Lemma C10_forward_is_naive_attn_witness :
  has_flash_attn = false /\
  WhaleAttention.use_flash_attn demo_attention = false /\
  forall x mask pos,
    WhaleAttention.forward (G := unit) demo_attention x mask pos
    = WhaleAttention._naive_attn demo_attention x mask pos.
Proof.
  exact (@C10_forward_is_naive_attn _ _ _ _ demo_config demo_world _ _
           demo_attention_eq).
Defined.

(* ===================================================================== *)
(** * The rest of the code *)
(* ===================================================================== *)

Unset Implicit Arguments.

(* ===================================================================== *)
(** ** Shapes through the torch operations *)
(* ===================================================================== *)

(** Every multi-index that [indices] lists lies within the shape. *)
Lemma in_indices (s idx : list nat) : In idx (indices s) -> Forall2 lt idx s.
Proof.
  revert idx. induction s as [|d s IH]; intros idx H.
  - destruct H as [<-|[]]. constructor.
  - cbn [indices] in H. apply in_flat_map in H. destruct H as (i & Hi & H).
    apply in_map_iff in H. destruct H as (idx' & <- & H).
    apply in_seq in Hi. constructor; [lia|apply IH; exact H].
Qed.

(** Negating a mask that holds nothing but [True]. *)
Lemma all_true_negb (l : list bool) (k : nat) :
  Forall (fun v => v = true) l -> nth k (map negb l) false = false.
Proof.
  intros H. revert k. induction H as [|v l Hv _ IH]; intros k.
  - destruct k; reflexivity.
  - destruct k as [|k]; [cbn; rewrite Hv; reflexivity|apply IH].
Qed.

Lemma broadcast_rev_same (s : list nat) : broadcast_rev s s = Some s.
Proof.
  induction s as [|x s IH]; [reflexivity|].
  cbn [broadcast_rev]. rewrite IH, Nat.eqb_refl. reflexivity.
Qed.

Lemma broadcast_shapes_same (s : list nat) : broadcast_shapes s s = Some s.
Proof.
  unfold broadcast_shapes. rewrite broadcast_rev_same. cbn [option_map].
  rewrite rev_involutive. reflexivity.
Qed.

(** A batch of size one is broadcast to any batch. *)
Lemma broadcast_rev_one_batch (h b : nat) :
  broadcast_rev [h; b] [h; 1] = Some [h; b].
Proof.
  cbn [broadcast_rev].
  destruct (Nat.eqb_spec b 1) as [->|]; rewrite !Nat.eqb_refl; reflexivity.
Qed.

(** The mask [(B, 1, 1, M)] against the scores [(B, H, N, M)]. *)
Lemma broadcast_scores_mask (b h n m : nat) :
  broadcast_shapes [b; h; n; m] [b; 1; 1; m] = Some [b; h; n; m].
Proof.
  unfold broadcast_shapes. cbn [rev app broadcast_rev].
  destruct (Nat.eqb_spec h 1) as [->|]; destruct (Nat.eqb_spec n 1) as [->|];
    rewrite !Nat.eqb_refl; reflexivity.
Qed.

(** The bias [(H, D)] against the queries [(B, N, H, D)]. *)
Lemma broadcast_heads_bias (b n h d : nat) :
  broadcast_shapes [b; n; h; d] [h; d] = Some [b; n; h; d].
Proof.
  unfold broadcast_shapes. cbn [rev app broadcast_rev].
  rewrite !Nat.eqb_refl. reflexivity.
Qed.

Lemma of_nat_tests (a : nat) :
  ((-1 <=? Z.of_nat a)%Z = true) /\ ((0 <=? Z.of_nat a)%Z = true) /\
  ((Z.of_nat a =? -1)%Z = false).
Proof.
  repeat split; [apply Z.leb_le|apply Z.leb_le|apply Z.eqb_neq]; lia.
Qed.

(** [y.view(a, -1, h, d)] for [y] of shape [(a, p, h * d)]. *)
Lemma view_infer_heads (A : Type) (y : Tensor A) (a p h d : nat) :
  shape y = [a; p; h * d] -> 0 < a -> 0 < h -> 0 < d ->
  view [Z.of_nat a; (-1)%Z; Z.of_nat h; Z.of_nat d] y
  = inr (mkTensor [a; p; h; d] (data y)).
Proof.
  intros Hs Ha Hh Hd. unfold view, infer_dims.
  destruct (of_nat_tests a) as (A1 & A2 & A3).
  destruct (of_nat_tests h) as (H1 & H2 & H3).
  destruct (of_nat_tests d) as (D1 & D2 & D3).
  cbn [forallb filter map length].
  rewrite A1, A2, A3, H1, H2, H3, D1, D2, D3.
  cbn [andb forallb filter map length Z.leb Z.eqb Z.compare Pos.compare
       Pos.compare_cont CompOpp].
  rewrite !Nat2Z.id, Hs. cbn [numel fold_right].
  set (known := a * (h * (d * 1))).
  assert (Hk : known <> 0) by (unfold known; nia).
  assert (Hn : a * (p * (h * d * 1)) = p * known) by (unfold known; nia).
  rewrite Hn, Nat.Div0.mod_mul, Nat.div_mul by exact Hk.
  destruct (Nat.eqb_spec known 0) as [|_]; [contradiction|].
  reflexivity.
Qed.

Section ShapeFacts.
Context {F : Type} {FO : Float F} {G : Type} {GO : Generator G F}.

Lemma tadd_same_shape (a b : Tensor F) :
  shape a = shape b ->
  exists y, tadd a b = inr y /\ shape y = shape a.
Proof.
  intros H. unfold tadd, tzip. rewrite <- H, broadcast_shapes_same.
  eexists. split; reflexivity.
Qed.

Lemma LayerNorm_forward_ok (l : @LayerNorm F) (x : Tensor F) (pre : list nat) :
  shape x = pre ++ [normalized_shape l] ->
  exists y, LayerNorm_forward l x = inr y /\ shape y = shape x.
Proof.
  intros Hs.
  assert (E : rev (shape x) = normalized_shape l :: rev pre)
    by (rewrite Hs, rev_app_distr; reflexivity).
  unfold LayerNorm_forward. rewrite E, Nat.eqb_refl.
  eexists. split; reflexivity.
Qed.

Lemma LayerNorm_forward_inr (l : @LayerNorm F) (x y : Tensor F) :
  LayerNorm_forward l x = inr y -> shape y = shape x.
Proof.
  unfold LayerNorm_forward. destruct (rev (shape x)) as [|n r]; [discriminate|].
  destruct (n =? normalized_shape l); [|discriminate].
  intros H. injection H as <-. reflexivity.
Qed.

Lemma cat_last_ok (a b : Tensor F) (pre : list nat) (na nb : nat) :
  shape a = pre ++ [na] -> shape b = pre ++ [nb] ->
  exists y, cat_last f0 a b = inr y /\ shape y = pre ++ [na + nb].
Proof.
  intros Ha Hb. unfold cat_last. rewrite Ha, Hb, !rev_app_distr. cbn [rev app].
  destruct (list_eq_dec Nat.eq_dec (rev pre) (rev pre)); [|contradiction].
  eexists. split; [reflexivity|]. cbn [shape build]. rewrite rev_involutive.
  reflexivity.
Qed.

Lemma permute_0213 (y : Tensor F) (b n h d : nat) :
  shape y = [b; n; h; d] -> shape (permute f0 [0; 2; 1; 3] y) = [b; h; n; d].
Proof. intros H. unfold permute. cbn [shape build map]. rewrite H. reflexivity. Qed.

Lemma transpose_last2_rank4 (x : Tensor F) (a b c e : nat) :
  shape x = [a; b; c; e] ->
  exists y, WhaleAttention.transpose_last2 x = inr y /\ shape y = [a; b; e; c].
Proof.
  intros Hs. unfold WhaleAttention.transpose_last2, transpose, rank.
  rewrite Hs. cbn [length Nat.sub Nat.ltb Nat.leb andb].
  eexists. split; [reflexivity|]. unfold permute, rank. rewrite Hs. reflexivity.
Qed.

Lemma flatten_last2_rank4 (x : Tensor F) (a b c e : nat) :
  shape x = [a; b; c; e] ->
  flatten_last2 x = inr (mkTensor [a; b; c * e] (data x)).
Proof. intros Hs. unfold flatten_last2. rewrite Hs. reflexivity. Qed.

Lemma matmul_ok (x y : Tensor F) (ba bb bs : list nat) (n k m : nat) :
  shape x = rev ba ++ [n; k] -> shape y = rev bb ++ [k; m] ->
  broadcast_rev ba bb = Some bs ->
  exists z, matmul x y = inr z /\ shape z = rev bs ++ [n; m].
Proof.
  intros Hx Hy Hb. unfold matmul.
  rewrite Hx, Hy, !rev_app_distr, !rev_involutive. cbn [rev app].
  rewrite Nat.eqb_refl, Hb. eexists. split; reflexivity.
Qed.

(** [masked_fill] returns whenever the two shapes broadcast, with the
    broadcast shape. *)
Lemma masked_fill_broadcast (x : Tensor F) (mask : Tensor bool) (v : F)
    (s : list nat) :
  broadcast_shapes (shape x) (shape mask) = Some s ->
  exists y, masked_fill x mask v = inr y /\ shape y = s.
Proof.
  intros H. unfold masked_fill. rewrite H. eexists. split; reflexivity.
Qed.

Lemma masked_fill_scores (x : Tensor F) (mask : Tensor bool) (v : F)
    (b h n m : nat) :
  shape x = [b; h; n; m] -> shape mask = [b; 1; 1; m] ->
  exists y, masked_fill x mask v = inr y /\ shape y = [b; h; n; m].
Proof.
  intros Hx Hm. unfold masked_fill. rewrite Hx, Hm, broadcast_scores_mask.
  eexists. split; reflexivity.
Qed.

Lemma softmax_last_shape (x : Tensor F) : shape (softmax_last x) = shape x.
Proof. reflexivity. Qed.

Lemma tscale_shape (c : F) (x : Tensor F) : shape (tscale c x) = shape x.
Proof. reflexivity. Qed.

Lemma relu_shape (x : Tensor F) : shape (relu x) = shape x.
Proof. reflexivity. Qed.
(** Filling the scores under a mask that masks nothing leaves their
    softmax as it was. *)
Lemma softmax_full_mask (s : Tensor F) (mk : Tensor bool) (B H N : nat) :
  shape s = [B; H; N; N] ->
  Forall (fun v => v = true) (data mk) ->
  exists s',
    masked_fill s (tmap negb (mkTensor [B; 1; 1; N] (data mk))) neg_inf = inr s' /\
    softmax_last s' = softmax_last s.
Proof.
  intros Ss Hall. unfold masked_fill. cbn [shape tmap].
  rewrite Ss, broadcast_scores_mask.
  eexists. split; [reflexivity|].
  match goal with |- softmax_last ?t = _ => set (s' := t) end.
  assert (Hget : forall i, Forall2 lt i [B; H; N; N] -> fget s' i = fget s i).
  { intros i Hi. unfold fget, s'. rewrite tget_build by exact Hi.
    unfold tget at 1. cbn [shape data].
    rewrite (all_true_negb _ _ Hall), (bidx_within Hi). reflexivity. }
  unfold softmax_last. cbn [shape build s']. rewrite Ss. unfold build.
  f_equal. apply map_ext_in. intros idx Hidx. apply in_indices in Hidx.
  inversion Hidx as [|a n1 l1 r1 Ha H1]; subst.
  inversion H1 as [|b n2 l2 r2 Hb' H2]; subst.
  inversion H2 as [|c n3 l3 r3 Hc H3]; subst.
  inversion H3 as [|j n4 l4 r4 Hj H4]; subst.
  inversion H4; subst.
  cbn [removelast last app].
  rewrite (Hget [a; b; c; j]) by (repeat constructor; assumption).
  f_equal. f_equal. apply map_ext_in. intros j' Hj'. apply in_seq in Hj'.
  rewrite (Hget [a; b; c; j']) by (repeat constructor; lia).
  reflexivity.
Qed.
End ShapeFacts.

(* ===================================================================== *)
(** ** The feed-forward block *)
(* ===================================================================== *)

Section MLPFacts.
Context {F : Type} {FO : Float F} {G : Type} {GO : Generator G F}.

Lemma mlp_init_inv (cfg : WhaleConfig.t F) (w w' : World G) m :
  WhaleMLP.__init__ cfg w = (inr m, w') ->
  ACT2FN (WhaleConfig.hidden_act cfg) = Some (WhaleMLP.act m) /\
  mlp_built cfg m.
Proof.
  unfold WhaleMLP.__init__. intros H. py_inv H.
  destruct (ACT2FN (WhaleConfig.hidden_act cfg)) as [f|] eqn:Ef; [|discriminate].
  match goal with H : inr f = inr _ |- _ => injection H as <- end.
  repeat match goal with
         | H : nn_Linear _ _ _ _ = (inr _, _) |- _ =>
             apply nn_Linear_inr in H; destruct H as (? & ? & _ & _)
         end.
  split; [reflexivity|]. split; split; assumption.
Qed.

(** An activation name outside the registry stops the constructor at its
    first statement. *)
Lemma mlp_init_unknown (cfg : WhaleConfig.t F) (w : World G) :
  ACT2FN (WhaleConfig.hidden_act cfg) = None ->
  WhaleMLP.__init__ cfg w = (inl (KeyError (WhaleConfig.hidden_act cfg)), w).
Proof. intros H. unfold WhaleMLP.__init__. rewrite H. reflexivity. Qed.

(** With a known name, the constructor does not raise [KeyError]. *)
Lemma mlp_init_known (cfg : WhaleConfig.t F) f :
  ACT2FN (WhaleConfig.hidden_act cfg) = Some f ->
  fails_with (G := G) (fun e => forall k, e <> KeyError k) (WhaleMLP.__init__ cfg).
Proof.
  intros H. unfold WhaleMLP.__init__. rewrite H.
  apply fails_with_bind; [apply fails_with_lift; discriminate|]. intros a.
  apply fails_with_bind.
  { eapply fails_with_weaken; [|apply nn_Linear_fails].
    intros e [msg ->] k. discriminate. }
  intros l1. apply fails_with_bind.
  { eapply fails_with_weaken; [|apply nn_Linear_fails].
    intros e [msg ->] k. discriminate. }
  intros l2. apply fails_with_bind; [|intros; apply fails_with_ret].
  apply fails_with_lift. intros e He. apply nn_Dropout_inl in He. subst e.
  intros k. discriminate.
Qed.

Lemma mlp_forward_ok (cfg : WhaleConfig.t F) (m : @WhaleMLP.t F) (x : Tensor F)
    (pre : list nat) (w : World G) :
  mlp_built cfg m ->
  shape x = pre ++ [Z.to_nat (WhaleConfig.hidden_size cfg)] ->
  exists y w', WhaleMLP.forward m x w = (inr y, w') /\ shape y = shape x.
Proof.
  intros [[I1 O1] [I2 O2]] Hx. unfold WhaleMLP.forward.
  destruct (Linear_forward_ok (WhaleMLP.w_1 m) x pre Hx (eq_sym I1))
    as (y1 & E1 & S1).
  rewrite (bind_lift_ok _ _ E1).
  destruct (Dropout_forward_ok (WhaleMLP.dropout m) (tmap (WhaleMLP.act m) y1) w)
    as (y2 & w' & E2 & S2).
  rewrite (bind_ok _ E2).
  assert (S2' : shape y2 = pre ++ [in_features (WhaleMLP.w_2 m)]).
  { rewrite S2. cbn [tmap shape]. rewrite S1, O1, I2. reflexivity. }
  destruct (Linear_forward_ok (WhaleMLP.w_2 m) y2 pre S2' eq_refl)
    as (y3 & E3 & S3).
  exists y3, w'. split; [unfold lift; rewrite E3; reflexivity|].
  rewrite S3, O2, Hx. reflexivity.
Qed.

(** A call that returns was given an input whose last dimension is the
    hidden size, and returns a tensor of the same shape. *)
Lemma mlp_forward_inv (cfg : WhaleConfig.t F) (m : @WhaleMLP.t F) (x y : Tensor F)
    (w w' : World G) :
  mlp_built cfg m ->
  WhaleMLP.forward m x w = (inr y, w') ->
  exists pre, shape x = pre ++ [Z.to_nat (WhaleConfig.hidden_size cfg)] /\
              shape y = shape x.
Proof.
  intros Hb H.
  assert (Hx : exists pre n, shape x = pre ++ [n]).
  { destruct (shape x) as [|a l] eqn:E using rev_ind.
    - exfalso. unfold WhaleMLP.forward, Linear_forward in H. rewrite E in H.
      discriminate H.
    - exists l, a. reflexivity. }
  destruct Hx as (pre & n & Hx).
  assert (Hn : n = Z.to_nat (WhaleConfig.hidden_size cfg)).
  { unfold WhaleMLP.forward in H. apply bind_inr in H.
    destruct H as (y1 & w1 & E1 & _). apply lift_inr in E1. destruct E1 as [E1 _].
    eapply Linear_forward_inr in E1; [|exact Hx]. destruct E1 as [-> _].
    destruct Hb as [[I1 _] _]. exact I1. }
  subst n. exists pre. split; [exact Hx|].
  destruct (mlp_forward_ok cfg m x pre w Hb Hx) as (y' & w2 & E & S).
  rewrite E in H. injection H as <- _. exact S.
Qed.
End MLPFacts.

(* ===================================================================== *)
(** ** The attention, shape by shape *)
(* ===================================================================== *)

Section AttentionShapes.
Context {F : Type} {FO : Float F} {G : Type} {GO : Generator G F}.

Lemma nn_LayerNorm_inr (n : Z) (eps : F) (l : @LayerNorm F) :
  nn_LayerNorm n eps = inr l -> normalized_shape l = Z.to_nat n /\ (0 <= n)%Z.
Proof.
  unfold nn_LayerNorm, torch_ones, torch_zeros. intros H.
  destruct (check_dims [n]) as [e|s] eqn:E; [discriminate H|].
  apply check_dims_inr in E. destruct E as [Hn ->]. cbn [res_bind] in H.
  injection H as <-. split; [reflexivity|]. inversion Hn; assumption.
Qed.

Lemma nn_Linear_sized (i o : Z) (b : bool) (w w' : World G) (l : @Linear F) :
  nn_Linear i o b w = (inr l, w') ->
  linear_sized (Z.to_nat i) (Z.to_nat o) l /\ (0 <= i)%Z /\ (0 <= o)%Z.
Proof.
  intros H. apply nn_Linear_inr in H. destruct H as (Hi & Ho & H1 & H2).
  repeat split; assumption.
Qed.

Lemma attention_init_built (cfg : WhaleConfig.t F) (w w' : World G) m :
  WhaleAttention.__init__ cfg w = (inr m, w') -> attention_built cfg m.
Proof.
  intros H. pose proof (attention_init_inv cfg w H) as (Hf & He & Hh & Hh0 & Hd & Hp).
  rewrite He in Hp.
  unfold WhaleAttention.__init__ in H.
  apply bind_inr in H. destruct H as (_ & w1 & _ & H).
  apply bind_inr in H. destruct H as (hd & w2 & Hfd & H).
  destruct (negb _); [discriminate H|].
  py_inv H.
  cbn [WhaleAttention.num_heads WhaleAttention.head_dim] in Hp.
  assert (Hhd : hd <> 0%Z).
  { unfold WhaleAttention.inv_sqrt in E.
    destruct (Z.eqb_spec hd 0); [discriminate|assumption]. }
  apply nn_Linear_sized in E0, E1, E2, E7.
  destruct E0 as (Lq & He0 & _), E1 as (Lk & _), E2 as (Lv & _), E7 as (Lo & _).
  unfold attention_built.
  cbn [WhaleAttention.use_flash_attn WhaleAttention.num_heads
       WhaleAttention.head_dim WhaleAttention.linear_q WhaleAttention.linear_k
       WhaleAttention.linear_v WhaleAttention.linear_out
       WhaleAttention.qk_normalization WhaleAttention.q_norm
       WhaleAttention.k_norm WhaleAttention.use_relative_pe
       WhaleAttention.linear_pos WhaleAttention.pos_bias_u
       WhaleAttention.pos_bias_v].
  split; [exact Hf|]. split; [reflexivity|]. split; [reflexivity|].
  split; [exact Hp|].
  split; [exact He0|]. split; [exact Hhd|].
  split; [exact Lq|]. split; [exact Lk|]. split; [exact Lv|]. split; [exact Lo|].
  split.
  - intros Hqk. rewrite Hqk in E5. py_inv E5.
    match goal with
    | H1 : nn_LayerNorm _ _ = inr ?a, H2 : nn_LayerNorm _ _ = inr ?b |- _ =>
        apply nn_LayerNorm_inr in H1, H2;
        destruct H1 as [H1 _], H2 as [H2 _]; exists a, b
    end.
    match goal with H : (_, _) = (_, _) |- _ => injection H as <- <- end.
    repeat split; try reflexivity; assumption.
  - intros Hrel. rewrite Hrel in E8. py_inv E8.
    match goal with
    | H : nn_Linear _ _ false _ = (inr ?lp, _) |- _ =>
        apply nn_Linear_sized in H; destruct H as (Lp & _); exists lp
    end.
    match goal with
    | H1 : torch_rand _ _ = (inr ?u, _), H2 : torch_rand _ _ = (inr ?v, _) |- _ =>
        apply torch_rand_inr in H1, H2;
        destruct H1 as [_ H1], H2 as [_ H2]; exists u, v
    end.
    match goal with H : (_, _) = (_, _) |- _ => injection H as <- <- <- end.
    repeat match goal with H : shape _ = map _ _ |- _ => cbn [map] in H end.
    repeat split; try reflexivity; try assumption; apply Lp.
Qed.

(** *** The forward pass, shape by shape *)

Section Shapes.
Variable cfg : WhaleConfig.t F.
Variable m : @WhaleAttention.t F.
Hypothesis Hb : attention_built cfg m.
Hypothesis Hheads : (0 < WhaleConfig.num_attention_heads cfg)%Z.

Let e : nat := Z.to_nat (WhaleConfig.hidden_size cfg).
Let h : nat := Z.to_nat (WhaleAttention.num_heads m).
Let d : nat := Z.to_nat (WhaleAttention.head_dim m).

Lemma heads_tile : h * d = e /\ 0 < h /\ 0 < d /\
  WhaleAttention.num_heads m = Z.of_nat h /\
  WhaleAttention.head_dim m = Z.of_nat d.
Proof.
  destruct Hb as (_ & Hh & _ & Hp & He & Hd & _).
  rewrite <- Hh in Hheads.
  assert (0 < WhaleAttention.head_dim m)%Z by nia.
  unfold h, d, e. rewrite <- Hp.
  repeat split; lia.
Qed.

Lemma to_heads_ok (l : @Linear F) (x : Tensor F) (B N : nat) :
  linear_sized e e l -> shape x = [B; N; e] ->
  exists y, WhaleAttention.to_heads m l x B N = inr y /\ shape y = [B; h; N; d].
Proof.
  intros [Li Lo] Hx. destruct heads_tile as (Hhd & _ & _ & Eh & Ed).
  unfold WhaleAttention.to_heads.
  destruct (Linear_forward_ok l x [B; N] Hx (eq_sym Li)) as (y1 & E1 & S1).
  rewrite E1. cbn [res_bind]. rewrite Eh, Ed.
  change [Z.of_nat B; Z.of_nat N; Z.of_nat h; Z.of_nat d]
    with (map Z.of_nat [B; N; h; d]).
  rewrite view_nonneg_ok.
  - cbn [res_bind]. eexists. split; [reflexivity|].
    apply permute_0213. reflexivity.
  - rewrite S1, Lo. cbn [app numel fold_right]. rewrite <- Hhd. lia.
Qed.

Lemma head_norm_ok (n : @LayerNorm F) (q : Tensor F) (B N : nat) :
  normalized_shape n = e -> shape q = [B; h; N; d] ->
  exists y, WhaleAttention.head_norm n q B h N d = inr y /\
            shape y = [B; h; N; d].
Proof.
  intros Hn Hq. destruct heads_tile as (Hhd & _).
  unfold WhaleAttention.head_norm.
  destruct (transpose12_rank4_ok q Hq) as (y1 & E1 & S1).
  rewrite E1. cbn [res_bind].
  rewrite (flatten_last2_rank4 y1 B N h d S1). cbn [res_bind].
  destruct (LayerNorm_forward_ok n (mkTensor [B; N; h * d] (data y1)) [B; N])
    as (y2 & E2 & S2).
  { cbn [shape app]. rewrite Hn, Hhd. reflexivity. }
  rewrite E2. cbn [res_bind].
  change [Z.of_nat B; Z.of_nat N; Z.of_nat h; Z.of_nat d]
    with (map Z.of_nat [B; N; h; d]).
  rewrite view_nonneg_ok.
  - cbn [res_bind]. apply transpose12_rank4_ok. reflexivity.
  - rewrite S2. cbn [shape numel fold_right]. lia.
Qed.

Lemma tadd_bias (a u : Tensor F) (b n : nat) :
  shape a = [b; n; h; d] -> shape u = [h; d] ->
  exists y, tadd a u = inr y /\ shape y = [b; n; h; d].
Proof.
  intros Ha Hu. unfold tadd, tzip. rewrite Ha, Hu, broadcast_heads_bias.
  eexists. split; reflexivity.
Qed.

(** The scores [q k^T], of shape (B, H, N, N). *)
Lemma scores_ok (q k : Tensor F) (B N : nat) :
  shape q = [B; h; N; d] -> shape k = [B; h; N; d] ->
  exists s, (kt <~ WhaleAttention.transpose_last2 k ;; matmul q kt) = inr s /\
            shape s = [B; h; N; N].
Proof.
  intros Hq Hk.
  destruct (transpose_last2_rank4 k B h N d Hk) as (kt & Ekt & Skt).
  rewrite Ekt. cbn [res_bind].
  apply (matmul_ok q kt [h; B] [h; B] [h; B] N d N Hq Skt).
  apply broadcast_rev_same.
Qed.

(** The two terms of the scores with relative positions: the content
    term [(q + u) k^T], of shape (B, H, N, N), and the position term
    [(q + v) p^T], of shape (B, H, N, P) for [P] rows of positions. *)
Lemma relative_terms (q k p : Tensor F) (B N P : nat) (w : World G) :
  WhaleAttention.use_relative_pe m = true ->
  shape q = [B; h; N; d] -> shape k = [B; h; N; d] -> shape p = [1; P; e] ->
  exists ac bd,
    shape ac = [B; h; N; N] /\ shape bd = [B; h; N; P] /\
    (q <- lift (transpose f0 1 2 q) ;;
     pos <- lift (match Some p with
                  | Some pos => inr pos
                  | None => inl (AttributeError "size")
                  end) ;;
     batch_size <- lift (size pos 0) ;;
     lp <- lift (attr "linear_pos" (WhaleAttention.linear_pos m)) ;;
     p <- lift (y <~ Linear_forward lp pos ;;
                y <~ view [Z.of_nat batch_size; (-1)%Z;
                           WhaleAttention.num_heads m;
                           WhaleAttention.head_dim m] y ;;
                transpose f0 1 2 y) ;;
     u <- lift (attr "pos_bias_u" (WhaleAttention.pos_bias_u m)) ;;
     query_with_bias_u <- lift (y <~ tadd q u ;; transpose f0 1 2 y) ;;
     b <- lift (attr "pos_bias_v" (WhaleAttention.pos_bias_v m)) ;;
     query_with_bias_v <- lift (y <~ tadd q b ;; transpose f0 1 2 y) ;;
     matrix_ac <- lift (kt <~ WhaleAttention.transpose_last2 k ;;
                        matmul query_with_bias_u kt) ;;
     matrix_bd <- lift (pt <~ WhaleAttention.transpose_last2 p ;;
                        matmul query_with_bias_v pt) ;;
     s <- lift (tadd matrix_ac matrix_bd) ;;
     ret (tscale (WhaleAttention.scale m) s)) w
    = (s <- lift (tadd ac bd) ;; ret (tscale (WhaleAttention.scale m) s)) w.
Proof.
  intros Erel Sq Sk Sp.
  destruct heads_tile as (Hhd & Hh0 & Hd0 & Eh & Ed).
  pose proof Hb as (_ & _ & _ & _ & _ & _ & _ & _ & _ & _ & _ & Hrel).
  destruct (Hrel Erel) as (lp & u & b & Elp & [Lpi Lpo] & Eu & Eb & Su & Sb).
  destruct (transpose12_rank4_ok q Sq) as (q0 & Eq0 & Sq0).
  rewrite (bind_lift_ok _ _ Eq0), (bind_lift_ok _ _ eq_refl).
  assert (Esz : size p 0 = inr 1) by (unfold size; rewrite Sp; reflexivity).
  rewrite (bind_lift_ok _ _ Esz), Elp, Eu, Eb. cbn [attr].
  rewrite (bind_lift_ok _ _ eq_refl).
  (* the projected positions *)
  destruct (Linear_forward_ok lp p [1; P] Sp (eq_sym Lpi)) as (p1 & Ep1 & Sp1).
  assert (Sp1' : shape p1 = [1; P; h * d])
    by (rewrite Sp1, Lpo, Hhd; reflexivity).
  pose proof (view_infer_heads _ p1 1 P h d Sp1' Nat.lt_0_1 Hh0 Hd0) as Ep2.
  destruct (transpose12_rank4_ok (mkTensor [1; P; h; d] (data p1)) eq_refl)
    as (p3 & Ep3 & Sp3).
  match goal with
  | |- exists ac bd, _ /\ _ /\ bind (lift ?r) _ w = _ =>
      assert (Ep : r = inr p3)
        by (rewrite Ep1; cbn [res_bind]; rewrite Eh, Ed, Ep2; exact Ep3)
  end.
  rewrite (bind_lift_ok _ _ Ep), (bind_lift_ok _ _ eq_refl).
  (* the two biased queries *)
  destruct (tadd_bias q0 u B N Sq0 Su) as (qu & Equ & Squ).
  destruct (transpose12_rank4_ok qu Squ) as (qu' & Equ' & Squ').
  destruct (tadd_bias q0 b B N Sq0 Sb) as (qb & Eqb & Sqb).
  destruct (transpose12_rank4_ok qb Sqb) as (qb' & Eqb' & Sqb').
  match goal with
  | |- exists ac bd, _ /\ _ /\ bind (lift ?r) _ w = _ =>
      assert (E1 : r = inr qu') by (rewrite Equ; exact Equ')
  end.
  rewrite (bind_lift_ok _ _ E1), (bind_lift_ok _ _ eq_refl).
  match goal with
  | |- exists ac bd, _ /\ _ /\ bind (lift ?r) _ w = _ =>
      assert (E2 : r = inr qb') by (rewrite Eqb; exact Eqb')
  end.
  rewrite (bind_lift_ok _ _ E2).
  destruct (scores_ok qu' k B N Squ' Sk) as (ac & Eac & Sac).
  rewrite (bind_lift_ok _ _ Eac).
  destruct (transpose_last2_rank4 p3 1 h P d Sp3) as (pt & Ept & Spt).
  destruct (matmul_ok qb' pt [h; B] [h; 1] [h; B] N d P Sqb' Spt
              (broadcast_rev_one_batch h B)) as (bd & Ebd & Sbd).
  match goal with
  | |- exists ac bd, _ /\ _ /\ bind (lift ?r) _ w = _ =>
      assert (E3 : r = inr bd) by (rewrite Ept; exact Ebd)
  end.
  rewrite (bind_lift_ok _ _ E3).
  exists ac, bd. split; [exact Sac|]. split; [exact Sbd|]. reflexivity.
Qed.

(** Up to the mask the computation is the same whatever the mask is:
    it leaves the scores [s], of shape (B, H, N, N), and the values [v],
    of shape (B, H, N, D). *)
Lemma naive_attn_scores (x : Tensor F) (mask mask' : option (Tensor bool))
    (pos : option (Tensor F)) (B N : nat) (w : World G) :
  shape x = [B; N; e] ->
  (WhaleAttention.use_relative_pe m = true ->
   exists p, pos = Some p /\ shape p = [1; N; e]) ->
  let rest (mask : option (Tensor bool)) (s v : Tensor F) : Py G (Tensor F) :=
    attn <- match mask with
            | Some mk =>
                lift (mk <~ unsqueeze 1 mk ;;
                      mk <~ unsqueeze 2 mk ;;
                      masked_fill s (tmap negb mk) neg_inf)
            | None => ret s
            end ;;
    attn <- Dropout_forward (WhaleAttention.attn_drop m) (softmax_last attn) ;;
    y <- lift (y <~ matmul attn v ;;
               y <~ transpose f0 1 2 y ;;
               view [Z.of_nat B; Z.of_nat N; Z.of_nat e] y) ;;
    lift (Linear_forward (WhaleAttention.linear_out m) y) in
  exists s v,
    shape s = [B; h; N; N] /\ shape v = [B; h; N; d] /\
    WhaleAttention._naive_attn m x mask pos w = rest mask s v w /\
    WhaleAttention._naive_attn m x mask' pos w = rest mask' s v w.
Proof.
  intros Hx Hpos rest.
  destruct heads_tile as (Hhd & Hh0 & Hd0 & Eh & Ed).
  pose proof Hb as (_ & _ & _ & _ & _ & _ & Lq & Lk & Lv & Lo & Hqk & Hrel).
  unfold WhaleAttention._naive_attn. rewrite Hx.
  destruct (to_heads_ok (WhaleAttention.linear_q m) x B N Lq Hx) as (q & Eq & Sq).
  destruct (to_heads_ok (WhaleAttention.linear_k m) x B N Lk Hx) as (k & Ek & Sk).
  destruct (to_heads_ok (WhaleAttention.linear_v m) x B N Lv Hx) as (v & Ev & Sv).
  rewrite !(bind_lift_ok _ _ Eq), !(bind_lift_ok _ _ Ek), !(bind_lift_ok _ _ Ev).
  (* the normalisation of queries and keys *)
  match goal with
  | |- exists s v, _ /\ _ /\ bind ?c _ w = _ /\ _ =>
      assert (Enorm : exists q' k', c w = (inr (q', k'), w) /\
                        shape q' = [B; h; N; d] /\ shape k' = [B; h; N; d])
  end.
  { destruct (WhaleAttention.qk_normalization m) eqn:Eqk.
    - destruct (Hqk eq_refl) as (qn & kn & Eqn & Ekn & Sqn & Skn).
      rewrite Sq, Eqn, Ekn. cbn [attr].
      destruct (head_norm_ok qn q B N Sqn Sq) as (q' & Eq' & Sq').
      destruct (head_norm_ok kn k B N Skn Sk) as (k' & Ek' & Sk').
      exists q', k'.
      rewrite (bind_lift_ok _ _ eq_refl), (bind_lift_ok _ _ Eq'),
              (bind_lift_ok _ _ eq_refl), (bind_lift_ok _ _ Ek').
      repeat split; assumption.
    - exists q, k. repeat split; assumption. }
  destruct Enorm as (q' & k' & Enorm & Sq' & Sk').
  rewrite !(bind_ok _ Enorm). clear Enorm.
  (* the scores *)
  match goal with
  | |- exists s v, _ /\ _ /\ bind ?c _ w = _ /\ _ =>
      assert (Escore : exists s, c w = (inr s, w) /\ shape s = [B; h; N; N])
  end.
  { destruct (WhaleAttention.use_relative_pe m) eqn:Erel.
    - destruct (Hpos eq_refl) as (p & -> & Sp).
      destruct (relative_terms q' k' p B N N w Erel Sq' Sk' Sp)
        as (ac & bd & Sac & Sbd & E).
      rewrite E.
      destruct (tadd_same_shape ac bd) as (s & Es & Ss);
        [rewrite Sac, Sbd; reflexivity|].
      rewrite (bind_lift_ok _ _ Es).
      eexists. split; [reflexivity|]. rewrite tscale_shape, Ss. exact Sac.
    - destruct (scores_ok (tscale (WhaleAttention.scale m) q') k' B N) as (s & Es & Ss);
        [rewrite tscale_shape; exact Sq'|exact Sk'|].
      exists s. unfold lift. rewrite Es. split; [reflexivity|exact Ss]. }
  destruct Escore as (s & Escore & Ss).
  rewrite !(bind_ok _ Escore). clear Escore.
  exists s, v. split; [exact Ss|]. split; [exact Sv|]. split; reflexivity.
Qed.

Lemma naive_attn_ok (x : Tensor F) (mask : option (Tensor bool))
    (pos : option (Tensor F)) (B N : nat) (w : World G) :
  shape x = [B; N; e] ->
  match mask with Some mk => shape mk = [B; N] | None => True end ->
  (WhaleAttention.use_relative_pe m = true ->
   exists p, pos = Some p /\ shape p = [1; N; e]) ->
  exists y w', WhaleAttention._naive_attn m x mask pos w = (inr y, w') /\
               shape y = [B; N; e].
Proof.
  intros Hx Hmask Hpos.
  destruct heads_tile as (Hhd & Hh0 & Hd0 & Eh & Ed).
  pose proof Hb as (_ & _ & _ & _ & _ & _ & _ & _ & _ & Lo & _).
  destruct (naive_attn_scores x mask mask pos B N w Hx Hpos)
    as (s & v & Ss & Sv & E & _).
  rewrite E. clear E.
  (* the mask *)
  match goal with
  | |- exists y w', bind ?c _ w = _ /\ _ =>
      assert (Emask : exists s', c w = (inr s', w) /\ shape s' = [B; h; N; N])
  end.
  { destruct mask as [mk|]; [|exists s; split; [reflexivity|exact Ss]].
    assert (E1 : unsqueeze 1 mk = inr (mkTensor [B; 1; N] (data mk)))
      by (unfold unsqueeze, rank; rewrite Hmask; reflexivity).
    assert (E2 : unsqueeze 2 (mkTensor [B; 1; N] (data mk))
                 = inr (mkTensor [B; 1; 1; N] (data mk))) by reflexivity.
    destruct (masked_fill_scores s (tmap negb (mkTensor [B; 1; 1; N] (data mk)))
                neg_inf B h N N Ss eq_refl) as (s' & Es' & Ss').
    exists s'. unfold lift. rewrite E1. cbn [res_bind]. rewrite E2. cbn [res_bind].
    rewrite Es'. split; [reflexivity|exact Ss']. }
  destruct Emask as (s' & Emask & Ss').
  rewrite (bind_ok _ Emask). clear Emask.
  (* the weighted values *)
  destruct (Dropout_forward_ok (WhaleAttention.attn_drop m) (softmax_last s') w)
    as (a & w' & Ea & Sa).
  rewrite (bind_ok _ Ea). rewrite softmax_last_shape, Ss' in Sa.
  destruct (matmul_ok a v [h; B] [h; B] [h; B] N N d Sa Sv (broadcast_rev_same _))
    as (y0 & Ey0 & Sy0).
  destruct (transpose12_rank4_ok y0 Sy0) as (y1 & Ey1 & Sy1).
  assert (Ey2 : view [Z.of_nat B; Z.of_nat N; Z.of_nat e] y1
                = inr (mkTensor [B; N; e] (data y1))).
  { apply (view_nonneg_ok [B; N; e]). rewrite Sy1. cbn [numel fold_right].
    rewrite <- Hhd. lia. }
  match goal with
  | |- exists y ww, bind (lift ?r) _ w' = _ /\ _ =>
      assert (E4 : r = inr (mkTensor [B; N; e] (data y1)))
        by (rewrite Ey0; cbn [res_bind]; rewrite Ey1; exact Ey2)
  end.
  rewrite (bind_lift_ok _ _ E4).
  destruct Lo as [Loi Loo].
  destruct (Linear_forward_ok (WhaleAttention.linear_out m)
              (mkTensor [B; N; e] (data y1)) [B; N] eq_refl (eq_sym Loi))
    as (y & Ey & Sy).
  exists y, w'. unfold lift. rewrite Ey. split; [reflexivity|].
  rewrite Sy, Loo. reflexivity.
Qed.
(** A mask that masks nothing is as good as no mask. *)
Lemma naive_attn_full_mask (x : Tensor F) (mk : Tensor bool)
    (pos : option (Tensor F)) (B N : nat) (w : World G) :
  shape x = [B; N; e] ->
  (WhaleAttention.use_relative_pe m = true ->
   exists p, pos = Some p /\ shape p = [1; N; e]) ->
  shape mk = [B; N] -> Forall (fun v => v = true) (data mk) ->
  WhaleAttention._naive_attn m x (Some mk) pos w
  = WhaleAttention._naive_attn m x None pos w.
Proof.
  intros Hx Hpos Hmk Hall.
  destruct (naive_attn_scores x (Some mk) None pos B N w Hx Hpos)
    as (s & v & Ss & Sv & E1 & E2).
  rewrite E1, E2. clear E1 E2.
  destruct (softmax_full_mask s mk B h N Ss Hall) as (s' & Es' & Esm).
  assert (Em : (mk <~ unsqueeze 1 mk ;; mk <~ unsqueeze 2 mk ;;
                masked_fill s (tmap negb mk) neg_inf) = inr s').
  { unfold unsqueeze at 1. unfold rank. rewrite Hmk. cbn [length Nat.leb res_bind].
    cbn [firstn skipn app]. unfold unsqueeze, rank. cbn [shape length Nat.leb res_bind].
    cbn [firstn skipn app data]. exact Es'. }
  rewrite (bind_lift_ok _ _ Em).
  rewrite (bind_ok (c := ret s) _ eq_refl).
  rewrite Esm. reflexivity.
Qed.

(** Positions whose number of rows is neither the number of frames nor
    one cannot be added to the content term. *)
Lemma broadcast_scores_mismatch (B H N P : nat) :
  P <> N -> P <> 1 -> N <> 1 ->
  broadcast_shapes [B; H; N; N] [B; H; N; P] = None.
Proof.
  intros H1 H2 H3. unfold broadcast_shapes. cbn [rev app].
  change (broadcast_rev [N; N; H; B] [P; N; H; B])
    with (match broadcast_rev [N; H; B] [N; H; B] with
          | None => None
          | Some r => if N =? P then Some (N :: r)
                      else if N =? 1 then Some (P :: r)
                      else if P =? 1 then Some (N :: r)
                      else None
          end).
  rewrite broadcast_rev_same.
  destruct (Nat.eqb_spec N P); [congruence|].
  destruct (Nat.eqb_spec N 1); [congruence|].
  destruct (Nat.eqb_spec P 1); [congruence|]. reflexivity.
Qed.

Lemma naive_attn_pos_mismatch (x : Tensor F) (mask : option (Tensor bool))
    (p : Tensor F) (B N P : nat) (w : World G) :
  WhaleAttention.use_relative_pe m = true ->
  shape x = [B; N; e] -> shape p = [1; P; e] ->
  P <> N -> P <> 1 -> N <> 1 ->
  exists msg,
    WhaleAttention._naive_attn m x mask (Some p) w = (inl (RuntimeError msg), w).
Proof.
  intros Erel Hx Sp H1 H2 H3.
  destruct heads_tile as (Hhd & Hh0 & Hd0 & Eh & Ed).
  pose proof Hb as (_ & _ & _ & _ & _ & _ & Lq & Lk & Lv & Lo & Hqk & Hrel).
  unfold WhaleAttention._naive_attn. rewrite Hx.
  destruct (to_heads_ok (WhaleAttention.linear_q m) x B N Lq Hx) as (q & Eq & Sq).
  destruct (to_heads_ok (WhaleAttention.linear_k m) x B N Lk Hx) as (k & Ek & Sk).
  destruct (to_heads_ok (WhaleAttention.linear_v m) x B N Lv Hx) as (v & Ev & Sv).
  rewrite (bind_lift_ok _ _ Eq), (bind_lift_ok _ _ Ek), (bind_lift_ok _ _ Ev).
  match goal with
  | |- exists msg, bind ?c _ w = _ =>
      assert (Enorm : exists q' k', c w = (inr (q', k'), w) /\
                        shape q' = [B; h; N; d] /\ shape k' = [B; h; N; d])
  end.
  { destruct (WhaleAttention.qk_normalization m) eqn:Eqk.
    - destruct (Hqk eq_refl) as (qn & kn & Eqn & Ekn & Sqn & Skn).
      rewrite Sq, Eqn, Ekn. cbn [attr].
      destruct (head_norm_ok qn q B N Sqn Sq) as (q' & Eq' & Sq').
      destruct (head_norm_ok kn k B N Skn Sk) as (k' & Ek' & Sk').
      exists q', k'.
      rewrite (bind_lift_ok _ _ eq_refl), (bind_lift_ok _ _ Eq'),
              (bind_lift_ok _ _ eq_refl), (bind_lift_ok _ _ Ek').
      repeat split; assumption.
    - exists q, k. repeat split; assumption. }
  destruct Enorm as (q' & k' & Enorm & Sq' & Sk').
  rewrite (bind_ok _ Enorm). clear Enorm.
  rewrite Erel.
  destruct (relative_terms q' k' p B N P w Erel Sq' Sk' Sp)
    as (ac & bd & Sac & Sbd & E).
  unfold bind at 1. rewrite E.
  unfold bind at 1, lift at 1, tadd, tzip.
  rewrite Sac, Sbd, (broadcast_scores_mismatch B h N P H1 H2 H3).
  eexists. reflexivity.
Qed.
End Shapes.
End AttentionShapes.

(* ===================================================================== *)
(** ** The encoder layer *)
(* ===================================================================== *)

Section LayerFacts.
Context {F : Type} {FO : Float F} {G : Type} {GO : Generator G F}.

Lemma layer_init_built (cfg : WhaleConfig.t F) (w w' : World G) l :
  WhaleAudioEncoderLayer.__init__ cfg w = (inr l, w') -> layer_built cfg l.
Proof.
  unfold WhaleAudioEncoderLayer.__init__. intros H. py_inv H.
  match goal with
  | H : WhaleAttention.__init__ _ _ = _ |- _ => apply attention_init_built in H
  end.
  match goal with
  | H : WhaleMLP.__init__ _ _ = _ |- _ => apply mlp_init_inv in H; destruct H as [_ H]
  end.
  repeat match goal with
         | H : nn_LayerNorm _ _ = inr _ |- _ =>
             apply nn_LayerNorm_inr in H; destruct H as [H _]
         end.
  unfold layer_built.
  cbn [WhaleAudioEncoderLayer.attn WhaleAudioEncoderLayer.feed_forward
       WhaleAudioEncoderLayer.norm1 WhaleAudioEncoderLayer.norm2
       WhaleAudioEncoderLayer.concat_after WhaleAudioEncoderLayer.concat_linear].
  repeat (split; [assumption|]).
  intros Hc.
  match goal with
  | H : (if WhaleConfig.concat_after cfg then _ else _) _ = _ |- _ =>
      rewrite Hc in H; py_inv H
  end.
  match goal with
  | H : nn_Linear _ _ _ _ = (inr ?l, _) |- _ =>
      apply nn_Linear_sized in H; destruct H as ([Hi Ho] & Hpos & _); exists l
  end.
  split; [reflexivity|]. split; [|exact Ho].
  rewrite Hi. lia.
Qed.

Lemma norm_step_ok (b : bool) (n : @LayerNorm F) (x : Tensor F) (pre : list nat)
    (w : World G) :
  shape x = pre ++ [normalized_shape n] ->
  exists y, (if b then lift (LayerNorm_forward n x) else ret x) w = (inr y, w) /\
            shape y = shape x.
Proof.
  intros Hx. destruct b; [|exists x; split; reflexivity].
  destruct (LayerNorm_forward_ok n x pre Hx) as (y & E & S).
  exists y. unfold lift. rewrite E. split; [reflexivity|exact S].
Qed.

Lemma attention_forward_ok (cfg : WhaleConfig.t F) (m : @WhaleAttention.t F)
    (x : Tensor F) (mask : option (Tensor bool)) (pos : option (Tensor F))
    (B N : nat) (w : World G) :
  attention_built cfg m ->
  (0 < WhaleConfig.num_attention_heads cfg)%Z ->
  shape x = [B; N; Z.to_nat (WhaleConfig.hidden_size cfg)] ->
  match mask with Some mk => shape mk = [B; N] | None => True end ->
  (WhaleAttention.use_relative_pe m = true ->
   exists p, pos = Some p /\
             shape p = [1; N; Z.to_nat (WhaleConfig.hidden_size cfg)]) ->
  exists y w', WhaleAttention.forward m x mask pos w = (inr y, w') /\
               shape y = [B; N; Z.to_nat (WhaleConfig.hidden_size cfg)].
Proof.
  intros Hb Hh Hx Hm Hp. unfold WhaleAttention.forward.
  destruct Hb as (Hf & Hrest). rewrite Hf. cbn [negb].
  apply (naive_attn_ok cfg m (conj Hf Hrest) Hh x mask pos B N w Hx Hm Hp).
Qed.

Lemma layer_forward_ok (cfg : WhaleConfig.t F) (l : @WhaleAudioEncoderLayer.t F)
    (x : Tensor F) (mask : option (Tensor bool)) (pos : option (Tensor F))
    (B N : nat) (w : World G) :
  layer_built cfg l ->
  (0 < WhaleConfig.num_attention_heads cfg)%Z ->
  shape x = [B; N; Z.to_nat (WhaleConfig.hidden_size cfg)] ->
  match mask with Some mk => shape mk = [B; N] | None => True end ->
  (WhaleAttention.use_relative_pe (WhaleAudioEncoderLayer.attn l) = true ->
   exists p, pos = Some p /\
             shape p = [1; N; Z.to_nat (WhaleConfig.hidden_size cfg)]) ->
  exists y w', WhaleAudioEncoderLayer.forward l x mask pos w = (inr y, w') /\
               shape y = shape x.
Proof.
  intros (Ha & Hm & N1 & N2 & Hcat) Hh Hx Hmask Hpos.
  set (e := Z.to_nat (WhaleConfig.hidden_size cfg)) in *.
  unfold WhaleAudioEncoderLayer.forward.
  (* the first normalisation *)
  destruct (norm_step_ok (WhaleAudioEncoderLayer.normalize_before l)
              (WhaleAudioEncoderLayer.norm1 l) x [B; N] w) as (x1 & E1 & S1);
    [rewrite N1; exact Hx|].
  rewrite (bind_ok _ E1). rewrite Hx in S1.
  (* attention and the residual *)
  destruct (attention_forward_ok cfg (WhaleAudioEncoderLayer.attn l) x1 mask pos
              B N w Ha Hh S1 Hmask Hpos) as (a & w1 & Ea & Sa).
  match goal with
  | |- exists y w', bind ?c _ w = _ /\ _ =>
      assert (E2 : exists x2 w2, c w = (inr x2, w2) /\ shape x2 = [B; N; e])
  end.
  { destruct (WhaleAudioEncoderLayer.concat_after l) eqn:Ec.
    - destruct (Hcat eq_refl) as (lin & Elin & [Li Lo]).
      rewrite (bind_ok _ Ea).
      destruct (cat_last_ok x1 a [B; N] e e S1 Sa) as (c & Ec' & Sc).
      rewrite (bind_lift_ok _ _ Ec'). rewrite Elin. cbn [Module_forward].
      destruct (Linear_forward_ok lin c [B; N] Sc (eq_sym Li)) as (y & Ey & Sy).
      rewrite (bind_lift_ok _ _ Ey).
      destruct (tadd_same_shape y x) as (z & Ez & Sz);
        [rewrite Sy, Lo, Hx; reflexivity|].
      exists z, w1. unfold lift. rewrite Ez. split; [reflexivity|].
      rewrite Sz, Sy, Lo. reflexivity.
    - rewrite (bind_ok _ Ea).
      destruct (Dropout_forward_ok (WhaleAudioEncoderLayer.dropout l) a w1)
        as (y & w2 & Ey & Sy).
      rewrite (bind_ok _ Ey).
      destruct (tadd_same_shape y x) as (z & Ez & Sz);
        [rewrite Sy, Sa, Hx; reflexivity|].
      exists z, w2. unfold lift. rewrite Ez. split; [reflexivity|].
      rewrite Sz, Sy, Sa. reflexivity. }
  destruct E2 as (x2 & w2 & E2 & S2). rewrite (bind_ok _ E2). clear E2 Ea.
  destruct (norm_step_ok (negb (WhaleAudioEncoderLayer.normalize_before l))
              (WhaleAudioEncoderLayer.norm1 l) x2 [B; N] w2) as (x3 & E3 & S3);
    [rewrite N1; exact S2|].
  rewrite (bind_ok _ E3). rewrite S2 in S3.
  (* the feed-forward block and its residual *)
  destruct (norm_step_ok (WhaleAudioEncoderLayer.normalize_before l)
              (WhaleAudioEncoderLayer.norm2 l) x3 [B; N] w2) as (x4 & E4 & S4);
    [rewrite N2; exact S3|].
  rewrite (bind_ok _ E4). rewrite S3 in S4.
  destruct (mlp_forward_ok cfg (WhaleAudioEncoderLayer.feed_forward l) x4 [B; N]
              w2 Hm S4) as (y5 & w3 & E5 & S5).
  rewrite (bind_ok _ E5).
  destruct (Dropout_forward_ok (WhaleAudioEncoderLayer.dropout l) y5 w3)
    as (y6 & w4 & E6 & S6).
  rewrite (bind_ok _ E6).
  destruct (tadd_same_shape y6 x3) as (x7 & E7 & S7);
    [rewrite S6, S5, S4, S3; reflexivity|].
  rewrite (bind_lift_ok _ _ E7).
  destruct (norm_step_ok (negb (WhaleAudioEncoderLayer.normalize_before l))
              (WhaleAudioEncoderLayer.norm2 l) x7 [B; N] w4) as (x8 & E8 & S8).
  { rewrite N2, S7, S6, S5. exact S4. }
  rewrite (bind_ok _ E8).
  exists x8, w4. split; [reflexivity|].
  rewrite S8, S7, S6, S5, S4, Hx. reflexivity.
Qed.
(** Two computations that do the same in the world at hand go on alike. *)
Lemma bind_same (A B : Type) (c c' : Py G A) (k : A -> Py G B) (w : World G) :
  c w = c' w -> bind c k w = bind c' k w.
Proof. intros H. unfold bind. rewrite H. reflexivity. Qed.

(** A mask that masks nothing is as good as no mask. *)
Lemma layer_full_mask (cfg : WhaleConfig.t F) (l : @WhaleAudioEncoderLayer.t F)
    (x : Tensor F) (mk : Tensor bool) (pos : option (Tensor F))
    (B N : nat) (w : World G) :
  layer_built cfg l ->
  (0 < WhaleConfig.num_attention_heads cfg)%Z ->
  shape x = [B; N; Z.to_nat (WhaleConfig.hidden_size cfg)] ->
  (WhaleAttention.use_relative_pe (WhaleAudioEncoderLayer.attn l) = true ->
   exists p, pos = Some p /\
             shape p = [1; N; Z.to_nat (WhaleConfig.hidden_size cfg)]) ->
  shape mk = [B; N] -> Forall (fun v => v = true) (data mk) ->
  WhaleAudioEncoderLayer.forward l x (Some mk) pos w
  = WhaleAudioEncoderLayer.forward l x None pos w.
Proof.
  intros (Ha & _ & N1 & _) Hh Hx Hpos Hmk Hall.
  unfold WhaleAudioEncoderLayer.forward.
  destruct (norm_step_ok (WhaleAudioEncoderLayer.normalize_before l)
              (WhaleAudioEncoderLayer.norm1 l) x [B; N] w) as (x1 & E1 & S1);
    [rewrite N1; exact Hx|].
  rewrite !(bind_ok _ E1). rewrite Hx in S1.
  assert (Eatt : WhaleAttention.forward (WhaleAudioEncoderLayer.attn l) x1
                   (Some mk) pos w
                 = WhaleAttention.forward (WhaleAudioEncoderLayer.attn l) x1
                     None pos w).
  { unfold WhaleAttention.forward. destruct (negb _); [|reflexivity].
    exact (naive_attn_full_mask cfg _ Ha Hh x1 mk pos B N w S1 Hpos Hmk Hall). }
  apply bind_same.
  destruct (WhaleAudioEncoderLayer.concat_after l); apply bind_same; exact Eatt.
Qed.
End LayerFacts.

(* ===================================================================== *)
(** ** The encoder *)
(* ===================================================================== *)

Section EncoderFacts.
Context {F : Type} {FO : Float F} {G : Type} {GO : Generator G F}.

Lemma last_cons_indep (A : Type) (l : list A) (a d d' : A) :
  last (a :: l) d = last (a :: l) d'.
Proof.
  revert a. induction l as [|b l IH]; intros a; [reflexivity|].
  change (last (b :: l) d = last (b :: l) d'). apply IH.
Qed.

Lemma mapM_inr (A B : Type) (P : B -> Prop) (f : A -> Py G B) :
  (forall a w b w', f a w = (inr b, w') -> P b) ->
  forall (l : list A) (w w' : World G) (bs : list B),
    mapM f l w = (inr bs, w') -> length bs = length l /\ Forall P bs.
Proof.
  intros Hf l. induction l as [|a l IH]; intros w w' bs H; cbn [mapM] in H.
  - apply ret_inr in H. destruct H as [-> _]. split; [reflexivity|constructor].
  - apply bind_inr in H. destruct H as (b & w1 & Eb & H).
    apply bind_inr in H. destruct H as (bs' & w2 & Ebs & H).
    apply ret_inr in H. destruct H as [-> _].
    destruct (IH _ _ _ Ebs) as [Hl HP].
    split; [cbn [length]; rewrite Hl; reflexivity|].
    constructor; [exact (Hf _ _ _ _ Eb)|exact HP].
Qed.

Lemma encoder_init_built (cfg : WhaleConfig.t F) (w w' : World G) m :
  WhaleAudioEncoder.__init__ cfg w = (inr m, w') -> encoder_built cfg m.
Proof.
  unfold WhaleAudioEncoder.__init__. intros H.
  apply bind_inr in H. destruct H as (ls & w1 & Els & H).
  apply bind_inr in H. destruct H as (ln & w2 & Eln & H).
  apply ret_inr in H. destruct H as [-> _].
  apply (mapM_inr _ _ (layer_built cfg)) in Els.
  2: { intros _ w0 b w0' Hb. exact (layer_init_built cfg w0 w0' b Hb). }
  destruct Els as [Hlen Hall]. rewrite length_seq in Hlen.
  unfold encoder_built.
  cbn [WhaleAudioEncoder.config WhaleAudioEncoder.layers
       WhaleAudioEncoder.normalize_before WhaleAudioEncoder.layer_norm].
  split; [reflexivity|]. split; [exact Hlen|]. split; [exact Hall|].
  split; [reflexivity|].
  intros Hnb. rewrite Hnb in Eln. py_inv Eln.
  match goal with
  | H : nn_LayerNorm _ _ = inr ?n |- _ =>
      apply nn_LayerNorm_inr in H; destruct H as [H _]; exists n
  end.
  split; [reflexivity|assumption].
Qed.

(** *** The loop over the layers *)

(** What the loop leaves in [encoder_states]: the input of every layer. *)
Lemma run_layers_inv (self : @WhaleAudioEncoder.t F)
    (ls : list (@WhaleAudioEncoderLayer.t F)) (ohs : bool)
    (mask : option (Tensor bool)) (pos : option (Tensor F)) :
  forall (es : option (list (Tensor F))) (hs : Tensor F) (w w' : World G) es' hs',
    WhaleAudioEncoder.run_layers self ls ohs mask pos es hs w
    = (inr (es', hs'), w') ->
    exists outs,
      layer_outputs (G := G) ls mask pos hs outs /\
      length outs = length ls /\
      hs' = last outs hs /\
      es' = (if ohs then option_map (fun l => l ++ removelast (hs :: outs)) es
             else es).
Proof.
  induction ls as [|l ls IH]; intros es hs w w' es' hs' H;
    cbn [WhaleAudioEncoder.run_layers] in H.
  - apply ret_inr in H. destruct H as [H _]. injection H as -> ->.
    exists []. split; [exact I|]. split; [reflexivity|]. split; [reflexivity|].
    destruct ohs; [|reflexivity]. destruct es as [l|]; [|reflexivity].
    cbn [option_map removelast]. rewrite app_nil_r. reflexivity.
  - apply bind_inr in H. destruct H as (out & w1 & Eout & H).
    apply IH in H. destruct H as (outs & Hch & Hlen & Hlast & Hes).
    exists (out :: outs). split; [|split; [|split]].
    + cbn [layer_outputs]. split; [|exact Hch]. exists w, w1.
      unfold WhaleAudioEncoder.checkpoint in Eout.
      destruct (_ && _) in Eout; exact Eout.
    + cbn [length]. rewrite Hlen. reflexivity.
    + rewrite Hlast. destruct outs as [|t outs]; [reflexivity|].
      change (last (out :: t :: outs) hs) with (last (t :: outs) hs).
      apply last_cons_indep.
    + rewrite Hes. destruct ohs; [|reflexivity].
      destruct es as [l0|]; [|reflexivity]. cbn [option_map].
      rewrite <- app_assoc. reflexivity.
Qed.

(** What [WhaleAudioEncoder.forward] returns, in terms of the outputs of
    its layers. *)
Lemma encoder_forward_inv (self : @WhaleAudioEncoder.t F) (x : Tensor F)
    (mask : option (Tensor bool)) (pos : option (Tensor F))
    (ohs rd : option bool) (w w' : World G) r :
  WhaleAudioEncoder.forward self x mask pos ohs rd w = (inr r, w') ->
  let ohs' := match ohs with
              | Some b => b
              | None => WhaleConfig.output_hidden_states
                          (WhaleAudioEncoder.config self)
              end in
  let rd' := match rd with
             | Some b => b
             | None => WhaleConfig.use_return_dict (WhaleAudioEncoder.config self)
             end in
  exists outs final,
    layer_outputs (G := G) (WhaleAudioEncoder.layers self) mask pos x outs /\
    length outs = length (WhaleAudioEncoder.layers self) /\
    (if WhaleAudioEncoder.normalize_before self
     then exists n, WhaleAudioEncoder.layer_norm self = Some n /\
                    LayerNorm_forward n (last outs x) = inr final
     else final = last outs x) /\
    let states := if ohs' then Some (removelast (x :: outs) ++ [final])
                  else None in
    r = if rd' then AsDict (mkBaseModelOutput final states None)
        else AsTuple (O_Tensor final ::
                      match states with Some es => [O_Tuple es] | None => [] end).
Proof.
  intros H ohs' rd'. unfold WhaleAudioEncoder.forward in H.
  fold ohs' in H. fold rd' in H.
  apply bind_inr in H. destruct H as ([es hs] & w1 & Erun & H).
  apply run_layers_inv in Erun. destruct Erun as (outs & Hch & Hlen & -> & ->).
  apply bind_inr in H. destruct H as (final & w2 & Efin & H).
  exists outs, final. split; [exact Hch|]. split; [exact Hlen|]. split.
  - destruct (WhaleAudioEncoder.normalize_before self).
    + py_inv Efin.
      destruct (WhaleAudioEncoder.layer_norm self) as [n|]; [|discriminate].
      match goal with H : attr _ _ = inr _ |- _ => injection H as <- end.
      exists n. split; [reflexivity|assumption].
    + apply ret_inr in Efin. destruct Efin as [-> _]. reflexivity.
  - cbv zeta. destruct ohs'; cbn [option_map app] in H |- *;
      destruct rd'; cbn [negb] in H; apply ret_inr in H; destruct H as [-> _];
      reflexivity.
Qed.

(** The loop returns when every layer is given a tensor of the shape it
    was built for, and every layer returns a tensor of that shape. *)
Lemma run_layers_ok (cfg : WhaleConfig.t F) (self : @WhaleAudioEncoder.t F)
    (ohs : bool) (mask : option (Tensor bool)) (pos : option (Tensor F))
    (B N : nat) :
  (0 < WhaleConfig.num_attention_heads cfg)%Z ->
  match mask with Some mk => shape mk = [B; N] | None => True end ->
  (WhaleConfig.use_relative_pe cfg = true ->
   exists p, pos = Some p /\
             shape p = [1; N; Z.to_nat (WhaleConfig.hidden_size cfg)]) ->
  forall (ls : list (@WhaleAudioEncoderLayer.t F)),
    Forall (layer_built cfg) ls ->
    forall (es : option (list (Tensor F))) (hs : Tensor F) (w : World G),
      shape hs = [B; N; Z.to_nat (WhaleConfig.hidden_size cfg)] ->
      exists outs w',
        WhaleAudioEncoder.run_layers self ls ohs mask pos es hs w
        = (inr (if ohs
                then option_map (fun l => l ++ removelast (hs :: outs)) es
                else es,
                last outs hs), w') /\
        length outs = length ls /\
        Forall (fun t => shape t = shape hs) outs.
Proof.
  intros Hh Hmask Hpos ls Hls. induction Hls as [|l ls Hl _ IH];
    intros es hs w Hs.
  - exists [], w. split; [|split; [reflexivity|constructor]].
    cbn [WhaleAudioEncoder.run_layers removelast last].
    destruct ohs; [|reflexivity]. destruct es; [|reflexivity].
    cbn [option_map]. rewrite app_nil_r. reflexivity.
  - cbn [WhaleAudioEncoder.run_layers].
    assert (Hpos' : WhaleAttention.use_relative_pe (WhaleAudioEncoderLayer.attn l)
                    = true ->
                    exists p, pos = Some p /\
                      shape p = [1; N; Z.to_nat (WhaleConfig.hidden_size cfg)]).
    { intros Hr. apply Hpos. destruct Hl as ((_ & _ & Hrel & _) & _).
      rewrite <- Hrel. exact Hr. }
    destruct (layer_forward_ok cfg l hs mask pos B N w Hl Hh Hs Hmask Hpos')
      as (y & w1 & Ey & Sy).
    assert (Estep : (if WhaleAudioEncoder.gradient_checkpointing self
                        && WhaleAudioEncoder.training self
                     then WhaleAudioEncoder.checkpoint
                            (WhaleAudioEncoderLayer.forward l hs mask pos)
                     else WhaleAudioEncoderLayer.forward l hs mask pos) w
                    = (inr y, w1)).
    { destruct (_ && _); exact Ey. }
    rewrite (bind_ok _ Estep).
    destruct (IH (if ohs then option_map (fun es0 => es0 ++ [hs]) es else es)
                 y w1) as (outs & w' & E & Hlen & Hsh);
      [rewrite Sy; exact Hs|].
    exists (y :: outs), w'. split; [|split].
    + rewrite E.
      assert (H1 : last outs y = last (y :: outs) hs).
      { destruct outs as [|t outs]; [reflexivity|].
        change (last (y :: t :: outs) hs) with (last (t :: outs) hs).
        apply last_cons_indep. }
      rewrite H1.
      destruct ohs; [|reflexivity]. destruct es as [l0|]; [|reflexivity].
      cbn [option_map]. rewrite <- app_assoc. reflexivity.
    + cbn [length]. rewrite Hlen. reflexivity.
    + constructor; [exact Sy|].
      apply (Forall_impl _ (P := fun t => shape t = shape y)); [|exact Hsh].
      intros t Ht. rewrite Ht. exact Sy.
Qed.

Lemma last_in_or_default (A : Type) (P : A -> Prop) (l : list A) (d : A) :
  Forall P l -> P d -> P (last l d).
Proof.
  intros Hl Hd. induction Hl as [|a l Ha Hl IH]; [exact Hd|].
  destruct l as [|b l]; [exact Ha|]. exact IH.
Qed.

Lemma Forall_removelast (A : Type) (P : A -> Prop) (l : list A) :
  Forall P l -> Forall P (removelast l).
Proof.
  intros Hl. induction Hl as [|a l Ha Hl IH]; [constructor|].
  destruct l as [|b l]; [constructor|].
  change (Forall P (a :: removelast (b :: l))). constructor; assumption.
Qed.

Lemma length_removelast_cons (A : Type) (a : A) (l : list A) :
  length (removelast (a :: l)) = length l.
Proof.
  revert a. induction l as [|b l IH]; intros a; [reflexivity|].
  change (S (length (removelast (b :: l))) = S (length l)). rewrite IH. reflexivity.
Qed.

(** The call returns, and all the tensors it returns have the shape of
    its input. *)
Lemma encoder_forward_ok (cfg : WhaleConfig.t F) (self : @WhaleAudioEncoder.t F)
    (x : Tensor F) (mask : option (Tensor bool)) (pos : option (Tensor F))
    (ohs rd : option bool) (B N : nat) (w : World G) :
  encoder_built cfg self ->
  (0 < WhaleConfig.num_attention_heads cfg)%Z ->
  shape x = [B; N; Z.to_nat (WhaleConfig.hidden_size cfg)] ->
  match mask with Some mk => shape mk = [B; N] | None => True end ->
  (WhaleConfig.use_relative_pe cfg = true ->
   exists p, pos = Some p /\
             shape p = [1; N; Z.to_nat (WhaleConfig.hidden_size cfg)]) ->
  let ohs' := match ohs with
              | Some b => b
              | None => WhaleConfig.output_hidden_states cfg
              end in
  let rd' := match rd with
             | Some b => b
             | None => WhaleConfig.use_return_dict cfg
             end in
  exists final states w',
    WhaleAudioEncoder.forward self x mask pos ohs rd w
    = (inr (if rd'
            then AsDict (mkBaseModelOutput final
                           (if ohs' then Some states else None) None)
            else AsTuple (O_Tensor final ::
                          if ohs' then [O_Tuple states] else [])), w') /\
    shape final = shape x /\
    length states = Z.to_nat (WhaleConfig.num_hidden_layers cfg) + 1 /\
    Forall (fun t => shape t = shape x) states /\
    last states x = final.
Proof.
  intros (Hcfg & Hlen & Hls & _ & Hln) Hh Hx Hmask Hpos ohs' rd'.
  unfold WhaleAudioEncoder.forward. rewrite Hcfg. fold ohs' rd'.
  destruct (run_layers_ok cfg self ohs' mask pos B N Hh Hmask Hpos
              (WhaleAudioEncoder.layers self) Hls
              (if ohs' then Some [] else None) x w Hx)
    as (outs & w1 & Erun & Hlo & Hso).
  rewrite (bind_ok _ Erun). cbv iota beta.
  assert (Slast : shape (last outs x) = shape x)
    by (apply (last_in_or_default _ (fun t => shape t = shape x));
        [exact Hso|reflexivity]).
  match goal with
  | |- exists final states w', bind ?c _ w1 = _ /\ _ =>
      assert (Efin : exists final, c w1 = (inr final, w1) /\
                                   shape final = shape x)
  end.
  { destruct (WhaleAudioEncoder.normalize_before self) eqn:Enb;
      [|eexists; split; [reflexivity|exact Slast]].
    destruct (Hln eq_refl) as (n & En & Sn). rewrite En. cbn [attr].
    rewrite (bind_lift_ok _ _ eq_refl).
    destruct (LayerNorm_forward_ok n (last outs x) [B; N]) as (y & Ey & Sy);
      [rewrite Slast, Hx, Sn; reflexivity|].
    exists y. unfold lift. rewrite Ey. split; [reflexivity|].
    rewrite Sy. exact Slast. }
  destruct Efin as (final & Efin & Sfin). rewrite (bind_ok _ Efin).
  exists final, (removelast (x :: outs) ++ [final]), w1.
  split; [|split; [exact Sfin|split; [|split]]].
  - destruct ohs'; cbn [option_map app]; destruct rd'; reflexivity.
  - rewrite length_app, length_removelast_cons, Hlo, Hlen. reflexivity.
  - apply Forall_app. split; [|repeat constructor; exact Sfin].
    apply Forall_removelast. constructor; [reflexivity|exact Hso].
  - apply last_last.
Qed.
(** *** A mask that masks nothing *)

Lemma run_layers_full_mask (cfg : WhaleConfig.t F) (self : @WhaleAudioEncoder.t F)
    (ohs : bool) (mk : Tensor bool) (pos : option (Tensor F)) (B N : nat) :
  (0 < WhaleConfig.num_attention_heads cfg)%Z ->
  (WhaleConfig.use_relative_pe cfg = true ->
   exists p, pos = Some p /\
             shape p = [1; N; Z.to_nat (WhaleConfig.hidden_size cfg)]) ->
  shape mk = [B; N] -> Forall (fun v => v = true) (data mk) ->
  forall (ls : list (@WhaleAudioEncoderLayer.t F)),
    Forall (layer_built cfg) ls ->
    forall (es : option (list (Tensor F))) (hs : Tensor F) (w : World G),
      shape hs = [B; N; Z.to_nat (WhaleConfig.hidden_size cfg)] ->
      WhaleAudioEncoder.run_layers self ls ohs (Some mk) pos es hs w
      = WhaleAudioEncoder.run_layers self ls ohs None pos es hs w.
Proof.
  intros Hh Hpos Hmk Hall ls Hls. induction Hls as [|l ls Hl _ IH];
    intros es hs w Hs; [reflexivity|].
  cbn [WhaleAudioEncoder.run_layers].
  assert (Hpos' : WhaleAttention.use_relative_pe (WhaleAudioEncoderLayer.attn l)
                  = true ->
                  exists p, pos = Some p /\
                    shape p = [1; N; Z.to_nat (WhaleConfig.hidden_size cfg)]).
  { intros Hr. apply Hpos. destruct Hl as ((_ & _ & Hrel & _) & _).
    rewrite <- Hrel. exact Hr. }
  destruct (layer_forward_ok cfg l hs None pos B N w Hl Hh Hs I Hpos')
    as (y & w1 & Ey & Sy).
  pose proof (layer_full_mask cfg l hs mk pos B N w Hl Hh Hs Hpos' Hmk Hall) as Em.
  rewrite Ey in Em.
  unfold WhaleAudioEncoder.checkpoint.
  assert (E1 : (if WhaleAudioEncoder.gradient_checkpointing self
                   && WhaleAudioEncoder.training self
                then WhaleAudioEncoderLayer.forward l hs (Some mk) pos
                else WhaleAudioEncoderLayer.forward l hs (Some mk) pos) w
               = (inr y, w1)) by (destruct (_ && _); exact Em).
  assert (E2 : (if WhaleAudioEncoder.gradient_checkpointing self
                   && WhaleAudioEncoder.training self
                then WhaleAudioEncoderLayer.forward l hs None pos
                else WhaleAudioEncoderLayer.forward l hs None pos) w
               = (inr y, w1)) by (destruct (_ && _); exact Ey).
  rewrite (bind_ok _ E1), (bind_ok _ E2).
  apply IH. rewrite Sy. exact Hs.
Qed.

Lemma encoder_full_mask (cfg : WhaleConfig.t F) (self : @WhaleAudioEncoder.t F)
    (x : Tensor F) (mk : Tensor bool) (pos : option (Tensor F))
    (ohs rd : option bool) (B N : nat) (w : World G) :
  encoder_built cfg self ->
  (0 < WhaleConfig.num_attention_heads cfg)%Z ->
  shape x = [B; N; Z.to_nat (WhaleConfig.hidden_size cfg)] ->
  (WhaleConfig.use_relative_pe cfg = true ->
   exists p, pos = Some p /\
             shape p = [1; N; Z.to_nat (WhaleConfig.hidden_size cfg)]) ->
  shape mk = [B; N] -> Forall (fun v => v = true) (data mk) ->
  WhaleAudioEncoder.forward self x (Some mk) pos ohs rd w
  = WhaleAudioEncoder.forward self x None pos ohs rd w.
Proof.
  intros (_ & _ & Hls & _) Hh Hx Hpos Hmk Hall.
  unfold WhaleAudioEncoder.forward. apply bind_same.
  apply (run_layers_full_mask cfg self _ mk pos B N Hh Hpos Hmk Hall _ Hls).
  exact Hx.
Qed.
End EncoderFacts.

(* ===================================================================== *)
(** ** The embeddings *)
(* ===================================================================== *)

(** [pe[:, offset : offset + n]] for an offset that is not negative: the
    slice is clamped to the table. *)
Lemma pyslice_window (offset : Z) (n L : nat) :
  (0 <= offset)%Z ->
  pyslice (Some offset) (Some (offset + Z.of_nat n)%Z) 1 L
  = (Nat.min (Z.to_nat offset) L,
     Nat.min (Z.to_nat offset + n) L - Nat.min (Z.to_nat offset) L).
Proof.
  intros Ho. unfold pyslice.
  destruct (Z.ltb_spec offset 0); [lia|].
  destruct (Z.ltb_spec (offset + Z.of_nat n) 0); [lia|].
  rewrite ceil_div_1. f_equal; lia.
Qed.

Section ModelShapes.
Context {F : Type} {FO : Float F} {G : Type} {GO : Generator G F}.

Lemma table_init_built (cfg : WhaleConfig.t F) p :
  WhalePositionalEncoding.__init__ cfg = inr p -> table_built cfg p.
Proof.
  intros H. destruct (pe_init_inv cfg H) as (Hd & HL & _ & Hm & Hx & Hs & Hg).
  repeat split; assumption.
Qed.

Lemma table_built_train (cfg : WhaleConfig.t F) p (mode : bool) :
  table_built cfg p -> table_built cfg (WhalePositionalEncoding.train mode p).
Proof. intros H. exact H. Qed.

(** The relative encoder at offset 0: the input scaled, and the first
    rows of the table. *)
Lemma rel_forward_ok (cfg : WhaleConfig.t F) (m : @RelPositionalEncoding.t F)
    (x : Tensor F) (B N D : nat) (w : World G) :
  table_built cfg (RelPositionalEncoding.super m) ->
  shape x = [B; N; D] ->
  exists y p w',
    RelPositionalEncoding.forward m x 0 w = (inr (y, p), w') /\
    shape y = [B; N; D] /\
    shape p = [1; Nat.min N (Z.to_nat (WhaleConfig.max_position_embeddings cfg));
               Z.to_nat (WhaleConfig.hidden_size cfg)].
Proof.
  intros (_ & _ & _ & _ & Hs & _) Hx. unfold RelPositionalEncoding.forward.
  set (base := RelPositionalEncoding.super m) in *.
  assert (Esz : size (tscale (WhalePositionalEncoding.xscale base) x) 1 = inr N)
    by (unfold size; rewrite tscale_shape, Hx; reflexivity).
  rewrite (bind_lift_ok _ _ Esz).
  destruct (slice_dim1_ok f0 (Some 0%Z) (Some (0 + Z.of_nat N)%Z) 1
              (WhalePositionalEncoding.pe base) Hs) as (s & Es & Ss & _).
  rewrite (bind_lift_ok _ _ Es).
  rewrite pyslice_window in Ss by lia. cbn [snd Z.to_nat] in Ss.
  rewrite Nat.min_0_l, Nat.sub_0_r, Nat.add_0_l in Ss.
  destruct (Dropout_forward_ok (WhalePositionalEncoding.dropout base)
              (tscale (WhalePositionalEncoding.xscale base) x) w)
    as (y & w1 & Ey & Sy).
  rewrite (bind_ok _ Ey).
  destruct (Dropout_forward_ok (WhalePositionalEncoding.dropout base) s w1)
    as (p & w2 & Ep & Sp).
  rewrite (bind_ok _ Ep).
  exists y, p, w2. split; [reflexivity|]. split.
  - rewrite Sy, tscale_shape. exact Hx.
  - rewrite Sp. exact Ss.
Qed.

Lemma embeddings_init_built (cfg : WhaleConfig.t F) (w w' : World G) m :
  WhaleAudioEmbeddings.__init__ cfg w = (inr m, w') -> embeddings_built cfg m.
Proof.
  unfold WhaleAudioEmbeddings.__init__. intros H. py_inv H.
  match goal with
  | H : nn_Linear _ _ _ _ = (inr ?l, _) |- _ =>
      apply nn_Linear_sized in H; destruct H as (Hl & _)
  end.
  match goal with
  | H : nn_LayerNorm _ _ = inr _ |- _ =>
      apply nn_LayerNorm_inr in H; destruct H as [Hn _]
  end.
  match goal with
  | H : RelPositionalEncoding.__init__ _ = inr _ |- _ =>
      apply rel_init_inv in H; apply table_init_built in H
  end.
  split; [|assumption].
  eexists _, _, _. split; [reflexivity|]. split; assumption.
Qed.

Lemma embeddings_forward_ok (cfg : WhaleConfig.t F)
    (m : @WhaleAudioEmbeddings.t F) (x : Tensor F) (B N : nat) (w : World G) :
  embeddings_built cfg m ->
  shape x = [B; N; Z.to_nat (WhaleConfig.hidden_size cfg)] ->
  exists y p w',
    WhaleAudioEmbeddings.forward m x w = (inr (y, p), w') /\
    shape y = shape x /\
    shape p = [1; Nat.min N (Z.to_nat (WhaleConfig.max_position_embeddings cfg));
               Z.to_nat (WhaleConfig.hidden_size cfg)].
Proof.
  intros ((l & n & d & Eemb & [Li Lo] & Hn) & Ht) Hx.
  destruct (Linear_forward_ok l x [B; N] Hx (eq_sym Li)) as (y1 & E1 & S1).
  destruct (LayerNorm_forward_ok n y1 [B; N]) as (y2 & E2 & S2);
    [rewrite S1, Lo, Hn; reflexivity|].
  destruct (Dropout_forward_ok d y2 w) as (y3 & w1 & E3 & S3).
  assert (Eseq : Sequential_forward
                   [M_Linear l; M_LayerNorm n; M_Dropout d; M_ReLU] x w
                 = (inr (relu y3), w1)).
  { cbn [Sequential_forward Module_forward].
    rewrite (bind_lift_ok _ _ E1), (bind_lift_ok _ _ E2), (bind_ok _ E3).
    reflexivity. }
  assert (S4 : shape (relu y3) = [B; N; Z.to_nat (WhaleConfig.hidden_size cfg)]).
  { rewrite relu_shape, S3, S2, S1, Lo. reflexivity. }
  destruct (rel_forward_ok cfg (WhaleAudioEmbeddings.positional_embedding m)
              (relu y3) B N _ w1 Ht S4) as (y & p & w2 & E & Sy & Sp).
  unfold WhaleAudioEmbeddings.forward. rewrite Eemb.
  rewrite (bind_ok _ Eseq), (bind_ok _ E).
  exists y, p, w2. split; [reflexivity|]. split; [|exact Sp].
  rewrite Sy, Hx. reflexivity.
Qed.

(** The positions that the relative encoder returns at offset 0: the
    slice [pe[:, 0:N]], which holds the first [min N max_len] rows of the
    table, passed through the dropout. *)
Lemma rel_forward_rows (cfg : WhaleConfig.t F) (m : @RelPositionalEncoding.t F)
    (x : Tensor F) (B N D : nat) (w : World G) :
  table_built cfg (RelPositionalEncoding.super m) ->
  shape x = [B; N; D] ->
  let base := RelPositionalEncoding.super m in
  let rows := Nat.min N (Z.to_nat (WhaleConfig.max_position_embeddings cfg)) in
  exists y p s w1 w',
    RelPositionalEncoding.forward m x 0 w = (inr (y, p), w') /\
    shape y = [B; N; D] /\
    shape p = [1; rows; Z.to_nat (WhaleConfig.hidden_size cfg)] /\
    slice_dim1 f0 (Some 0%Z) (Some (0 + Z.of_nat N)%Z) 1
      (WhalePositionalEncoding.pe base) = inr s /\
    (forall t c, t < rows -> c < Z.to_nat (WhaleConfig.hidden_size cfg) ->
       tget f0 s [0; t; c] = tget f0 (WhalePositionalEncoding.pe base) [0; t; c]) /\
    Dropout_forward (WhalePositionalEncoding.dropout base) s w1 = (inr p, w').
Proof.
  intros (_ & _ & _ & _ & Hs & _) Hx base rows.
  unfold RelPositionalEncoding.forward. fold base.
  assert (Esz : size (tscale (WhalePositionalEncoding.xscale base) x) 1 = inr N)
    by (unfold size; rewrite tscale_shape, Hx; reflexivity).
  rewrite (bind_lift_ok _ _ Esz).
  destruct (slice_dim1_ok f0 (Some 0%Z) (Some (0 + Z.of_nat N)%Z) 1
              (WhalePositionalEncoding.pe base) Hs) as (s & Es & Ss & Gs).
  rewrite (bind_lift_ok _ _ Es).
  rewrite pyslice_window in Ss, Gs by lia. cbn [fst snd Z.to_nat] in Ss, Gs.
  rewrite Nat.min_0_l, Nat.sub_0_r, Nat.add_0_l in Ss. fold rows in Ss.
  rewrite Nat.min_0_l in Gs.
  destruct (Dropout_forward_ok (WhalePositionalEncoding.dropout base)
              (tscale (WhalePositionalEncoding.xscale base) x) w)
    as (y & w1 & Ey & Sy).
  rewrite (bind_ok _ Ey).
  destruct (Dropout_forward_ok (WhalePositionalEncoding.dropout base) s w1)
    as (p & w2 & Ep & Sp).
  rewrite (bind_ok _ Ep).
  exists y, p, s, w1, w2. split; [reflexivity|]. split.
  { rewrite Sy, tscale_shape. exact Hx. }
  split; [rewrite Sp; exact Ss|]. split; [exact Es|]. split; [|exact Ep].
  intros t c Ht Hc. rewrite Gs by (rewrite Ss; repeat constructor; assumption).
  rewrite Nat.add_0_l, Nat.mul_1_l. reflexivity.
Qed.

(** The embeddings return the features in their shape, and the positions
    of [rel_forward_rows]. *)
Lemma embeddings_forward_rows (cfg : WhaleConfig.t F)
    (m : @WhaleAudioEmbeddings.t F) (x : Tensor F) (B N : nat) (w : World G) :
  embeddings_built cfg m ->
  shape x = [B; N; Z.to_nat (WhaleConfig.hidden_size cfg)] ->
  let base := RelPositionalEncoding.super
                (WhaleAudioEmbeddings.positional_embedding m) in
  let rows := Nat.min N (Z.to_nat (WhaleConfig.max_position_embeddings cfg)) in
  exists y p s w1 w',
    WhaleAudioEmbeddings.forward m x w = (inr (y, p), w') /\
    shape y = shape x /\
    shape p = [1; rows; Z.to_nat (WhaleConfig.hidden_size cfg)] /\
    slice_dim1 f0 (Some 0%Z) (Some (0 + Z.of_nat N)%Z) 1
      (WhalePositionalEncoding.pe base) = inr s /\
    (forall t c, t < rows -> c < Z.to_nat (WhaleConfig.hidden_size cfg) ->
       tget f0 s [0; t; c] = tget f0 (WhalePositionalEncoding.pe base) [0; t; c]) /\
    Dropout_forward (WhalePositionalEncoding.dropout base) s w1 = (inr p, w').
Proof.
  intros ((l & n & d & Eemb & [Li Lo] & Hn) & Ht) Hx base rows.
  destruct (Linear_forward_ok l x [B; N] Hx (eq_sym Li)) as (y1 & E1 & S1).
  destruct (LayerNorm_forward_ok n y1 [B; N]) as (y2 & E2 & S2);
    [rewrite S1, Lo, Hn; reflexivity|].
  destruct (Dropout_forward_ok d y2 w) as (y3 & w1 & E3 & S3).
  assert (Eseq : Sequential_forward
                   [M_Linear l; M_LayerNorm n; M_Dropout d; M_ReLU] x w
                 = (inr (relu y3), w1)).
  { cbn [Sequential_forward Module_forward].
    rewrite (bind_lift_ok _ _ E1), (bind_lift_ok _ _ E2), (bind_ok _ E3).
    reflexivity. }
  assert (S4 : shape (relu y3) = [B; N; Z.to_nat (WhaleConfig.hidden_size cfg)]).
  { rewrite relu_shape, S3, S2, S1, Lo. reflexivity. }
  destruct (rel_forward_rows cfg (WhaleAudioEmbeddings.positional_embedding m)
              (relu y3) B N _ w1 Ht S4)
    as (y & p & s & w2 & w3 & E & Sy & Sp & Es & Gs & Ep).
  unfold WhaleAudioEmbeddings.forward. rewrite Eemb.
  rewrite (bind_ok _ Eseq), (bind_ok _ E).
  exists y, p, s, w2, w3. split; [reflexivity|]. split.
  { rewrite Sy, Hx. reflexivity. }
  split; [exact Sp|]. split; [exact Es|]. split; [exact Gs|exact Ep].
Qed.
End ModelShapes.

(* ===================================================================== *)
(** ** The whole model *)
(* ===================================================================== *)

Section WholeModel.
Context {F : Type} {FO : Float F} {G : Type} {GO : Generator G F}.

(** *** [train] changes no size *)

Lemma subsampling_built_train (cfg : WhaleConfig.t F) m (mode : bool) :
  subsampling_built cfg m ->
  subsampling_built cfg (WhaleConv2dSubsampling4.train mode m).
Proof.
  intros (c1 & c2 & Hc & H). exists c1, c2.
  cbn [WhaleConv2dSubsampling4.train WhaleConv2dSubsampling4.conv_in
       WhaleConv2dSubsampling4.out].
  rewrite Hc. split; [reflexivity|exact H].
Qed.

Lemma attention_built_train (cfg : WhaleConfig.t F) m (mode : bool) :
  attention_built cfg m -> attention_built cfg (WhaleAttention.train mode m).
Proof. intros H. exact H. Qed.

Lemma mlp_built_train (cfg : WhaleConfig.t F) m (mode : bool) :
  mlp_built cfg m -> mlp_built cfg (WhaleMLP.train mode m).
Proof. intros H. exact H. Qed.

Lemma layer_built_train (cfg : WhaleConfig.t F) l (mode : bool) :
  layer_built cfg l -> layer_built cfg (WhaleAudioEncoderLayer.train mode l).
Proof.
  intros (Ha & Hm & N1 & N2 & Hc).
  split; [exact Ha|]. split; [exact Hm|]. split; [exact N1|]. split; [exact N2|].
  intros Hcat. destruct (Hc Hcat) as (lin & El & Hl). exists lin.
  cbn [WhaleAudioEncoderLayer.train WhaleAudioEncoderLayer.concat_linear].
  rewrite El. split; [reflexivity|exact Hl].
Qed.

Lemma encoder_built_train (cfg : WhaleConfig.t F) m (mode : bool) :
  encoder_built cfg m -> encoder_built cfg (WhaleAudioEncoder.train mode m).
Proof.
  intros (Hc & Hlen & Hls & Hnb & Hln).
  unfold encoder_built.
  cbn [WhaleAudioEncoder.train WhaleAudioEncoder.config WhaleAudioEncoder.layers
       WhaleAudioEncoder.normalize_before WhaleAudioEncoder.layer_norm].
  split; [exact Hc|]. split; [rewrite length_map; exact Hlen|].
  split; [|split; [exact Hnb|exact Hln]].
  apply Forall_map. apply (Forall_impl _ (P := layer_built cfg)); [|exact Hls].
  intros l Hl. apply layer_built_train. exact Hl.
Qed.

Lemma embeddings_built_train (cfg : WhaleConfig.t F) m (mode : bool) :
  embeddings_built cfg m -> embeddings_built cfg (WhaleAudioEmbeddings.train mode m).
Proof.
  intros ((l & n & d & Ee & Hl & Hn) & Ht). split; [|exact Ht].
  exists l, n, (Dropout_train mode d).
  cbn [WhaleAudioEmbeddings.train WhaleAudioEmbeddings.embedding].
  rewrite Ee. split; [reflexivity|]. split; assumption.
Qed.

Lemma model_built_train (cfg : WhaleConfig.t F) m (mode : bool) :
  model_built cfg m -> model_built cfg (WhaleAudioModel.train mode m).
Proof.
  intros (Hc & Hs & He & Hn). split; [exact Hc|].
  split; [apply subsampling_built_train; exact Hs|].
  split; [apply embeddings_built_train; exact He|].
  apply encoder_built_train; exact Hn.
Qed.

Lemma model_init_built (cfg : WhaleConfig.t F) (w w' : World G) m :
  WhaleAudioModel.__init__ cfg w = (inr m, w') -> model_built cfg m.
Proof.
  unfold WhaleAudioModel.__init__. intros H.
  apply bind_inr in H. destruct H as (s & w1 & Es & H).
  apply bind_inr in H. destruct H as (e & w2 & Ee & H).
  apply bind_inr in H. destruct H as (n & w3 & En & H).
  apply ret_inr in H. destruct H as [-> _].
  split; [reflexivity|].
  split; [exact (subsampling_init_inv cfg w Es)|].
  split; [exact (embeddings_init_built cfg w1 w2 e Ee)|].
  exact (encoder_init_built cfg w2 w3 n En).
Qed.

(** *** The subsampling with a mask of shape (B, T) *)

Lemma subsampling_forward_shapes (cfg : WhaleConfig.t F) m (x : Tensor F)
    (mk : Tensor bool) (B T Fd : nat) (w : World G) :
  subsampling_built cfg m ->
  WhaleConfig.num_channels cfg = 1%Z ->
  (0 < WhaleConfig.hidden_size cfg)%Z ->
  WhaleConfig.input_dim cfg = Z.of_nat Fd ->
  shape x = [B; T; Fd] -> shape mk = [B; T] -> 7 <= T -> 7 <= Fd ->
  exists out mask',
    WhaleConv2dSubsampling4.forward m x (Some mk) w = (inr (out, mask'), w) /\
    shape out = [B; (T - 3) / 4; Z.to_nat (WhaleConfig.hidden_size cfg)] /\
    shape mask' = [B; (T - 3) / 4].
Proof.
  intros Hb Hch Hhid Hin Hx Hmk HT HF.
  assert (Hlin : Z.to_nat (WhaleConfig.hidden_size cfg) * ((Fd - 3) / 4)
                 = in_features (WhaleConv2dSubsampling4.out m)).
  { destruct Hb as (c1 & c2 & _ & _ & _ & _ & _ & _ & _ & _ & _ & IL & _ & Hh).
    rewrite IL, Hin, Z2Nat.inj_mul.
    - rewrite intermediate_bins by exact HF. reflexivity.
    - exact Hh.
    - apply Z.div_pos; [|lia].
      assert (3 <= (Z.of_nat Fd - 1) / 2)%Z; [|lia].
      apply Z.div_le_lower_bound; lia. }
  destruct (subsampling_forward_ok x mk w Hb Hx HT HF) as (out & mask' & E);
    [rewrite Hch; reflexivity|exact Hhid|exact Hlin
    |unfold rank; rewrite Hmk; cbn; lia|].
  exists out, mask'. split; [exact E|].
  destruct (subsampling_forward_inv x (Some mk) w Hb Hx E)
    as (_ & _ & S & _ & mk0 & m1 & Emk & E1 & E2).
  split; [exact S|]. injection Emk as <-.
  apply mask_step_inr in E1. destruct E1 as (a0 & a1 & r1 & S0 & S1 & _).
  rewrite Hmk in S0. injection S0 as <- <- <-.
  apply mask_step_inr in E2. destruct E2 as (b0 & b1 & r2 & S1' & S2 & _).
  rewrite S1 in S1'.
  assert (Eb : b0 = B /\ b1 = (T - 1) / 2 /\ r2 = [])
    by (injection S1' as <- <- <-; repeat split).
  destruct Eb as (-> & -> & ->).
  rewrite slice_twice_length in S2. exact S2.
Qed.


End WholeModel.

(* ===================================================================== *)
(** ** What a forward pass does to the generator and to the output *)
(* ===================================================================== *)

Section Effects.
Context {F : Type} {FO : Float F} {G : Type} {GO : Generator G F}.

Lemma stateless_quiet (A : Type) (c : Py G A) : stateless c -> quiet c.
Proof. intros [r H] w. rewrite H. reflexivity. Qed.

Lemma stateless_ret (A : Type) (a : A) : stateless (ret (G := G) a).
Proof. exists (inr a). intros w. reflexivity. Qed.

Lemma stateless_raise (A : Type) (e : PyError) : stateless (@raise G A e).
Proof. exists (inl e). intros w. reflexivity. Qed.

Lemma stateless_lift (A : Type) (r : Res A) : stateless (@lift G A r).
Proof. exists r. intros w. reflexivity. Qed.

Lemma stateless_bind (A B : Type) (c : Py G A) (k : A -> Py G B) :
  stateless c -> (forall a, stateless (k a)) -> stateless (bind c k).
Proof.
  intros [[e|a] Hc] Hk.
  - exists (inl e). intros w. unfold bind. rewrite Hc. reflexivity.
  - destruct (Hk a) as [r Hr]. exists r. intros w. unfold bind.
    rewrite Hc. apply Hr.
Qed.

Lemma quiet_ret (A : Type) (a : A) : quiet (ret (G := G) a).
Proof. intros w. reflexivity. Qed.

Lemma quiet_raise (A : Type) (e : PyError) : quiet (@raise G A e).
Proof. intros w. reflexivity. Qed.

Lemma quiet_lift (A : Type) (r : Res A) : quiet (@lift G A r).
Proof. intros w. reflexivity. Qed.

Lemma quiet_bind (A B : Type) (c : Py G A) (k : A -> Py G B) :
  quiet c -> (forall a, quiet (k a)) -> quiet (bind c k).
Proof.
  intros Hc Hk w. unfold bind. pose proof (Hc w) as H1.
  destruct (c w) as [[e|a] w1]; cbn [snd] in H1 |- *; [exact H1|].
  rewrite <- H1. apply Hk.
Qed.

(** Dropout draws in training mode only, and never prints. *)
Lemma Dropout_eval_stateless (d : @Dropout F) (x : Tensor F) :
  stateless (Dropout_forward (G := G) (Dropout_train false d) x).
Proof. exists (inr x). intros w. reflexivity. Qed.

Lemma Dropout_quiet (d : @Dropout F) (x : Tensor F) :
  quiet (Dropout_forward (G := G) d x).
Proof.
  intros w. unfold Dropout_forward. destruct (dropout_training d); [|reflexivity].
  destruct (keeps_ok (fsub (of_Z 1) (dropout_p d)) (length (data x)) w)
    as (ks & w' & E & _ & Hs).
  rewrite (bind_ok _ E). exact Hs.
Qed.

Ltac effects :=
  repeat first
    [ apply stateless_ret
    | apply stateless_raise
    | apply stateless_lift
    | apply Dropout_eval_stateless
    | apply stateless_bind; [|intros ?]
    | match goal with
      | |- stateless (if ?b then _ else _) => destruct b
      | |- stateless (match ?x with _ => _ end) => destruct x
      end ].

Ltac quietness :=
  repeat first
    [ apply quiet_ret
    | apply quiet_raise
    | apply quiet_lift
    | apply Dropout_quiet
    | apply quiet_bind; [|intros ?]
    | match goal with
      | |- quiet (if ?b then _ else _) => destruct b
      | |- quiet (match ?x with _ => _ end) => destruct x
      end ].

Lemma Module_eval_stateless (md : @Module F) (x : Tensor F) :
  stateless (Module_forward (G := G) (Module_train false md) x).
Proof. destruct md; cbn [Module_train Module_forward]; effects. Qed.

Lemma Module_quiet (md : @Module F) (x : Tensor F) :
  quiet (Module_forward (G := G) md x).
Proof. destruct md; cbn [Module_forward]; quietness. Qed.

Lemma Sequential_eval_stateless (ms : list (@Module F)) (x : Tensor F) :
  stateless (Sequential_forward (G := G) (map (Module_train false) ms) x).
Proof.
  revert x. induction ms as [|md ms IH]; intros x; cbn [map Sequential_forward].
  - apply stateless_ret.
  - apply stateless_bind; [apply Module_eval_stateless|]. intros y. apply IH.
Qed.

Lemma Sequential_quiet (ms : list (@Module F)) (x : Tensor F) :
  quiet (Sequential_forward (G := G) ms x).
Proof.
  revert x. induction ms as [|md ms IH]; intros x; cbn [Sequential_forward].
  - apply quiet_ret.
  - apply quiet_bind; [apply Module_quiet|]. intros y. apply IH.
Qed.

Lemma subsampling_eval_stateless (m : @WhaleConv2dSubsampling4.t F) x mask :
  stateless (WhaleConv2dSubsampling4.forward (G := G)
                 (WhaleConv2dSubsampling4.train false m) x mask).
Proof.
  unfold WhaleConv2dSubsampling4.forward.
  cbn [WhaleConv2dSubsampling4.train WhaleConv2dSubsampling4.conv_in
       WhaleConv2dSubsampling4.out].
  apply stateless_bind; [apply stateless_lift|]. intros x1.
  apply stateless_bind; [apply Sequential_eval_stateless|]. intros x2.
  effects.
Qed.

Lemma subsampling_quiet (m : @WhaleConv2dSubsampling4.t F) x mask :
  quiet (WhaleConv2dSubsampling4.forward (G := G) m x mask).
Proof.
  unfold WhaleConv2dSubsampling4.forward.
  apply quiet_bind; [apply quiet_lift|]. intros x1.
  apply quiet_bind; [apply Sequential_quiet|]. intros x2.
  quietness.
Qed.

Lemma rel_eval_stateless (m : @RelPositionalEncoding.t F) x offset :
  stateless (RelPositionalEncoding.forward (G := G)
                 (RelPositionalEncoding.train false m) x offset).
Proof.
  unfold RelPositionalEncoding.forward.
  cbn [RelPositionalEncoding.train RelPositionalEncoding.super
       WhalePositionalEncoding.train WhalePositionalEncoding.dropout
       WhalePositionalEncoding.xscale WhalePositionalEncoding.pe].
  effects.
Qed.

Lemma rel_quiet (m : @RelPositionalEncoding.t F) x offset :
  quiet (RelPositionalEncoding.forward (G := G) m x offset).
Proof. unfold RelPositionalEncoding.forward. quietness. Qed.

Lemma embeddings_eval_stateless (m : @WhaleAudioEmbeddings.t F) x :
  stateless (WhaleAudioEmbeddings.forward (G := G)
                 (WhaleAudioEmbeddings.train false m) x).
Proof.
  unfold WhaleAudioEmbeddings.forward.
  cbn [WhaleAudioEmbeddings.train WhaleAudioEmbeddings.embedding
       WhaleAudioEmbeddings.positional_embedding].
  apply stateless_bind; [apply Sequential_eval_stateless|]. intros y.
  apply stateless_bind; [apply rel_eval_stateless|]. intros [a b].
  apply stateless_ret.
Qed.

Lemma embeddings_quiet (m : @WhaleAudioEmbeddings.t F) x :
  quiet (WhaleAudioEmbeddings.forward (G := G) m x).
Proof.
  unfold WhaleAudioEmbeddings.forward.
  apply quiet_bind; [apply Sequential_quiet|]. intros y.
  apply quiet_bind; [apply rel_quiet|]. intros [a b]. apply quiet_ret.
Qed.

Lemma attention_eval_stateless (m : @WhaleAttention.t F) x mask pos :
  stateless (WhaleAttention.forward (G := G) (WhaleAttention.train false m)
                 x mask pos).
Proof.
  unfold WhaleAttention.forward, WhaleAttention._flash_attn,
    WhaleAttention._naive_attn.
  cbn [WhaleAttention.train WhaleAttention.use_flash_attn
       WhaleAttention.attn_drop WhaleAttention.qk_normalization
       WhaleAttention.use_relative_pe WhaleAttention.linear_q
       WhaleAttention.linear_k WhaleAttention.linear_v WhaleAttention.linear_out
       WhaleAttention.q_norm WhaleAttention.k_norm WhaleAttention.linear_pos
       WhaleAttention.pos_bias_u WhaleAttention.pos_bias_v WhaleAttention.scale
       WhaleAttention.num_heads WhaleAttention.head_dim].
  effects.
Qed.

Lemma attention_quiet (m : @WhaleAttention.t F) x mask pos :
  quiet (WhaleAttention.forward (G := G) m x mask pos).
Proof.
  unfold WhaleAttention.forward, WhaleAttention._flash_attn,
    WhaleAttention._naive_attn.
  quietness.
Qed.

Lemma mlp_eval_stateless (m : @WhaleMLP.t F) x :
  stateless (WhaleMLP.forward (G := G) (WhaleMLP.train false m) x).
Proof.
  unfold WhaleMLP.forward. cbn [WhaleMLP.train WhaleMLP.dropout]. effects.
Qed.

Lemma mlp_quiet (m : @WhaleMLP.t F) x : quiet (WhaleMLP.forward (G := G) m x).
Proof. unfold WhaleMLP.forward. quietness. Qed.

Lemma layer_eval_stateless (l : @WhaleAudioEncoderLayer.t F) x mask pos :
  stateless (WhaleAudioEncoderLayer.forward (G := G)
                 (WhaleAudioEncoderLayer.train false l) x mask pos).
Proof.
  unfold WhaleAudioEncoderLayer.forward.
  cbn [WhaleAudioEncoderLayer.train WhaleAudioEncoderLayer.attn
       WhaleAudioEncoderLayer.feed_forward WhaleAudioEncoderLayer.dropout
       WhaleAudioEncoderLayer.concat_linear WhaleAudioEncoderLayer.norm1
       WhaleAudioEncoderLayer.norm2 WhaleAudioEncoderLayer.normalize_before
       WhaleAudioEncoderLayer.concat_after].
  repeat first
    [ apply attention_eval_stateless
    | apply mlp_eval_stateless
    | apply Module_eval_stateless
    | apply stateless_ret
    | apply stateless_lift
    | apply Dropout_eval_stateless
    | apply stateless_bind; [|intros ?]
    | match goal with
      | |- stateless (if ?b then _ else _) => destruct b
      end ].
Qed.

Lemma layer_quiet (l : @WhaleAudioEncoderLayer.t F) x mask pos :
  quiet (WhaleAudioEncoderLayer.forward (G := G) l x mask pos).
Proof.
  unfold WhaleAudioEncoderLayer.forward.
  repeat first
    [ apply attention_quiet
    | apply mlp_quiet
    | apply Module_quiet
    | apply quiet_ret
    | apply quiet_lift
    | apply Dropout_quiet
    | apply quiet_bind; [|intros ?]
    | match goal with
      | |- quiet (if ?b then _ else _) => destruct b
      end ].
Qed.

Lemma run_layers_eval_stateless (self : @WhaleAudioEncoder.t F)
    (ls : list (@WhaleAudioEncoderLayer.t F)) ohs mask pos :
  forall es hs,
    stateless (WhaleAudioEncoder.run_layers (G := G) self
                   (map (WhaleAudioEncoderLayer.train false) ls)
                   ohs mask pos es hs).
Proof.
  induction ls as [|l ls IH]; intros es hs;
    cbn [map WhaleAudioEncoder.run_layers].
  - apply stateless_ret.
  - apply stateless_bind.
    + unfold WhaleAudioEncoder.checkpoint.
      destruct (_ && _); apply layer_eval_stateless.
    + intros y. apply IH.
Qed.

Lemma run_layers_quiet (self : @WhaleAudioEncoder.t F)
    (ls : list (@WhaleAudioEncoderLayer.t F)) ohs mask pos :
  forall es hs,
    quiet (WhaleAudioEncoder.run_layers (G := G) self ls ohs mask pos es hs).
Proof.
  induction ls as [|l ls IH]; intros es hs; cbn [WhaleAudioEncoder.run_layers].
  - apply quiet_ret.
  - apply quiet_bind.
    + unfold WhaleAudioEncoder.checkpoint. destruct (_ && _); apply layer_quiet.
    + intros y. apply IH.
Qed.

Lemma encoder_eval_stateless (m : @WhaleAudioEncoder.t F) x mask pos ohs rd :
  stateless (WhaleAudioEncoder.forward (G := G)
                 (WhaleAudioEncoder.train false m) x mask pos ohs rd).
Proof.
  unfold WhaleAudioEncoder.forward.
  apply stateless_bind.
  - cbn [WhaleAudioEncoder.train WhaleAudioEncoder.layers].
    apply run_layers_eval_stateless.
  - intros [es hs]. effects.
Qed.

Lemma encoder_quiet (m : @WhaleAudioEncoder.t F) x mask pos ohs rd :
  quiet (WhaleAudioEncoder.forward (G := G) m x mask pos ohs rd).
Proof.
  unfold WhaleAudioEncoder.forward.
  apply quiet_bind; [apply run_layers_quiet|]. intros [es hs]. quietness.
Qed.

Lemma model_eval_stateless (m : @WhaleAudioModel.t F) xo mask ohs rd pe :
  stateless (WhaleAudioModel.forward (G := G) (WhaleAudioModel.train false m)
                 xo mask ohs rd pe).
Proof.
  unfold WhaleAudioModel.forward.
  cbn [WhaleAudioModel.train WhaleAudioModel.subsampling
       WhaleAudioModel.embeddings WhaleAudioModel.encoder WhaleAudioModel.config].
  repeat first
    [ apply subsampling_eval_stateless
    | apply embeddings_eval_stateless
    | apply encoder_eval_stateless
    | apply stateless_ret
    | apply stateless_raise
    | apply stateless_lift
    | apply stateless_bind; [|intros ?]
    | match goal with
      | |- stateless (if ?b then _ else _) => destruct b
      | |- stateless (match ?x with _ => _ end) => destruct x
      end ].
Qed.

Lemma model_quiet (m : @WhaleAudioModel.t F) xo mask ohs rd pe :
  quiet (WhaleAudioModel.forward (G := G) m xo mask ohs rd pe).
Proof.
  unfold WhaleAudioModel.forward.
  repeat first
    [ apply subsampling_quiet
    | apply embeddings_quiet
    | apply encoder_quiet
    | apply quiet_ret
    | apply quiet_raise
    | apply quiet_lift
    | apply quiet_bind; [|intros ?]
    | match goal with
      | |- quiet (if ?b then _ else _) => destruct b
      | |- quiet (match ?x with _ => _ end) => destruct x
      end ].
Qed.
End Effects.

(* ===================================================================== *)
(** ** The values the positional encoders return *)
(* ===================================================================== *)

(** The slice [(1, T, D)] of the table against the input [(B, T, D)]. *)
Lemma broadcast_batch_table (b t d : nat) :
  broadcast_shapes [b; t; d] [1; t; d] = Some [b; t; d].
Proof.
  unfold broadcast_shapes. cbn [rev app broadcast_rev].
  destruct (Nat.eqb_spec b 1) as [->|]; rewrite !Nat.eqb_refl; reflexivity.
Qed.

Lemma bidx_full3 (B T D b t c : nat) :
  b < B -> t < T -> c < D -> bidx [B; T; D] [b; t; c] = [b; t; c].
Proof.
  intros Hb Ht Hc. unfold bidx. cbn [length skipn Nat.sub bmask].
  destruct (Nat.eqb_spec B 1), (Nat.eqb_spec T 1), (Nat.eqb_spec D 1);
    repeat f_equal; lia.
Qed.

Lemma bidx_row3 (T D b t c : nat) :
  t < T -> c < D -> bidx [1; T; D] [b; t; c] = [0; t; c].
Proof.
  intros Ht Hc. unfold bidx. cbn [length skipn Nat.sub bmask Nat.eqb].
  destruct (Nat.eqb_spec T 1), (Nat.eqb_spec D 1); repeat f_equal; lia.
Qed.

Section PositionalValues.
Context {F : Type} {FO : Float F} {G : Type} {GO : Generator G F}.

(** Rows [offset .. offset + n - 1] of the table. *)
Lemma table_window (cfg : WhaleConfig.t F) (p : @WhalePositionalEncoding.t F)
    (offset : Z) (n : nat) :
  table_built cfg p ->
  (0 <= offset)%Z ->
  (offset + Z.of_nat n < WhaleConfig.max_position_embeddings cfg)%Z ->
  exists s,
    slice_dim1 f0 (Some offset) (Some (offset + Z.of_nat n)%Z) 1
      (WhalePositionalEncoding.pe p) = inr s /\
    shape s = [1; n; Z.to_nat (WhaleConfig.hidden_size cfg)] /\
    forall t c, t < n -> c < Z.to_nat (WhaleConfig.hidden_size cfg) ->
      tget f0 s [0; t; c]
      = pe_entry (WhaleConfig.hidden_size cfg) (Z.to_nat offset + t) c.
Proof.
  intros (_ & _ & _ & _ & Hs & Hg) Ho Hb.
  destruct (slice_dim1_ok f0 (Some offset) (Some (offset + Z.of_nat n)%Z) 1
              (WhalePositionalEncoding.pe p) Hs) as (s & Es & Ss & Gs).
  rewrite pyslice_window in Ss, Gs by exact Ho. cbn [fst snd] in Ss, Gs.
  assert (E1 : Nat.min (Z.to_nat offset)
                 (Z.to_nat (WhaleConfig.max_position_embeddings cfg))
               = Z.to_nat offset) by lia.
  assert (E2 : Nat.min (Z.to_nat offset + n)
                 (Z.to_nat (WhaleConfig.max_position_embeddings cfg))
               = Z.to_nat offset + n) by lia.
  rewrite E1, E2 in Ss. rewrite E1 in Gs.
  replace (Z.to_nat offset + n - Z.to_nat offset) with n in Ss by lia.
  exists s. split; [exact Es|]. split; [exact Ss|].
  intros t c Ht Hc. rewrite Gs by (rewrite Ss; repeat constructor; assumption).
  rewrite Nat.mul_1_l. apply Hg; [lia|exact Hc].
Qed.

(** The base encoder in evaluation mode: the scaled input plus the rows
    of the table, and these rows. *)
Lemma positional_forward_values (cfg : WhaleConfig.t F)
    (p : @WhalePositionalEncoding.t F) (x : Tensor F) (offset : Z)
    (B T : nat) (w : World G) :
  table_built cfg p -> wf x ->
  shape x = [B; T; Z.to_nat (WhaleConfig.hidden_size cfg)] ->
  (0 <= offset)%Z ->
  (offset + Z.of_nat T < WhaleConfig.max_position_embeddings cfg)%Z ->
  let d := WhaleConfig.hidden_size cfg in
  exists y s,
    WhalePositionalEncoding.forward (WhalePositionalEncoding.train false p)
      x offset w = (inr (y, s), w) /\
    shape y = shape x /\ shape s = [1; T; Z.to_nat d] /\
    (forall b t c, b < B -> t < T -> c < Z.to_nat d ->
       tget f0 y [b; t; c]
       = fadd (fmul (tget f0 x [b; t; c]) (fsqrt (of_Z d)))
              (pe_entry d (Z.to_nat offset + t) c)) /\
    (forall t c, t < T -> c < Z.to_nat d ->
       tget f0 s [0; t; c] = pe_entry d (Z.to_nat offset + t) c).
Proof.
  intros Hp Hwf Hx Ho Hb d.
  destruct (table_window cfg p offset T Hp Ho Hb) as (s & Es & Ss & Gs).
  destruct Hp as (_ & _ & Hm & Hsc & _).
  unfold WhalePositionalEncoding.forward.
  cbn [WhalePositionalEncoding.train WhalePositionalEncoding.max_len
       WhalePositionalEncoding.pe WhalePositionalEncoding.xscale
       WhalePositionalEncoding.dropout].
  assert (Esz : size x 1 = inr T) by (unfold size; rewrite Hx; reflexivity).
  rewrite (bind_lift_ok _ _ Esz), Hm.
  destruct (Z.ltb_spec (offset + Z.of_nat T)
              (WhaleConfig.max_position_embeddings cfg)); [|lia].
  cbn [negb]. rewrite (bind_lift_ok _ _ Es).
  assert (Eadd : tadd (tscale (WhalePositionalEncoding.xscale p) x) s
                 = inr (build [B; T; Z.to_nat d]
                          (fun idx =>
                             fadd (tget f0 (tscale (WhalePositionalEncoding.xscale p) x)
                                     (bidx [B; T; Z.to_nat d] idx))
                                  (tget f0 s (bidx [1; T; Z.to_nat d] idx))))).
  { unfold tadd, tzip. rewrite tscale_shape, Hx, Ss, broadcast_batch_table.
    reflexivity. }
  rewrite (bind_lift_ok _ _ Eadd).
  eexists _, s. split; [reflexivity|]. split; [rewrite Hx; reflexivity|].
  split; [exact Ss|]. split; [|exact Gs].
  intros b t c Hb' Ht Hc.
  rewrite tget_build by (repeat constructor; assumption).
  rewrite bidx_full3, bidx_row3 by assumption.
  rewrite Gs by assumption. f_equal.
  unfold tscale. rewrite (tget_tmap _ f0 f0 Hwf)
    by (rewrite Hx; repeat constructor; assumption).
  rewrite Hsc. reflexivity.
Qed.

(** The streaming accessor in evaluation mode: [size] rows of the table
    from row [offset] on. *)
Lemma position_encoding_values (cfg : WhaleConfig.t F)
    (p : @WhalePositionalEncoding.t F) (offset : Z) (n : nat) (w : World G) :
  table_built cfg p ->
  (0 <= offset)%Z ->
  (offset + Z.of_nat n < WhaleConfig.max_position_embeddings cfg)%Z ->
  let d := WhaleConfig.hidden_size cfg in
  exists s,
    WhalePositionalEncoding.position_encoding
      (WhalePositionalEncoding.train false p) offset (Z.of_nat n) w
    = (inr s, w) /\
    shape s = [1; n; Z.to_nat d] /\
    forall t c, t < n -> c < Z.to_nat d ->
      tget f0 s [0; t; c] = pe_entry d (Z.to_nat offset + t) c.
Proof.
  intros Hp Ho Hb d.
  destruct (table_window cfg p offset n Hp Ho Hb) as (s & Es & Ss & Gs).
  destruct Hp as (_ & _ & Hm & _).
  unfold WhalePositionalEncoding.position_encoding.
  cbn [WhalePositionalEncoding.train WhalePositionalEncoding.max_len
       WhalePositionalEncoding.pe WhalePositionalEncoding.dropout].
  rewrite Hm.
  destruct (Z.ltb_spec (offset + Z.of_nat n)
              (WhaleConfig.max_position_embeddings cfg)); [|lia].
  cbn [negb]. rewrite (bind_lift_ok _ _ Es).
  exists s. split; [reflexivity|]. split; [exact Ss|exact Gs].
Qed.
End PositionalValues.

(* ===================================================================== *)
(** ** Inputs the subsampling and the model reject *)
(* ===================================================================== *)

Lemma conv_out_short (n : nat) : 3 <= n -> n < 7 -> conv_out n 3 2 < 3.
Proof.
  intros H3 H7. unfold conv_out.
  assert ((n - 3) / 2 < 2); [|lia].
  apply Nat.Div0.div_lt_upper_bound. lia.
Qed.

Section Rejections.
Context {F : Type} {FO : Float F} {G : Type} {GO : Generator G F}.

Lemma Conv2d_forward_small (c : @Conv2d F) (x : Tensor F) (b ci h w : nat) :
  shape x = [b; ci; h; w] -> ci = in_channels c ->
  h < kernel_size c \/ w < kernel_size c ->
  exists msg, Conv2d_forward c x = inl (RuntimeError msg).
Proof.
  intros Hs Hc Hk. unfold Conv2d_forward. rewrite Hs. unfold conv2d_batched.
  destruct (out_channels c =? 0); [eexists; reflexivity|].
  destruct (Nat.eqb_spec ci (in_channels c)); [|contradiction]. cbn [negb].
  destruct (Nat.ltb_spec h (kernel_size c)); cbn [orb]; [eexists; reflexivity|].
  destruct (Nat.ltb_spec w (kernel_size c)); [eexists; reflexivity|lia].
Qed.

(** Fewer than 7 frames, or fewer than 7 features per frame: one of the
    two convolutions has nothing to slide its kernel over.  A hidden size
    of 0: the first convolution has no output channel. *)
Lemma subsampling_forward_short (cfg : WhaleConfig.t F)
    (m : @WhaleConv2dSubsampling4.t F) (x : Tensor F)
    (mask : option (Tensor bool)) (B T Fd : nat) (w : World G) :
  subsampling_built cfg m ->
  Z.to_nat (WhaleConfig.num_channels cfg) = 1 ->
  shape x = [B; T; Fd] ->
  T < 7 \/ Fd < 7 \/ WhaleConfig.hidden_size cfg = 0%Z ->
  exists msg,
    WhaleConv2dSubsampling4.forward m x mask w = (inl (RuntimeError msg), w).
Proof.
  intros (c1 & c2 & Hconv & K1 & S1 & I1 & O1 & K2 & S2 & I2 & O2 & _)
         Hch Hx Hshort.
  unfold WhaleConv2dSubsampling4.forward. rewrite Hconv.
  assert (E0 : unsqueeze 1 x = inr (mkTensor [B; 1; T; Fd] (data x))).
  { unfold unsqueeze, rank. rewrite Hx. reflexivity. }
  rewrite (bind_lift_ok _ _ E0).
  cbn [Sequential_forward Module_forward].
  destruct (Nat.eq_dec (out_channels c1) 0) as [Hno|Hout].
  { eexists. unfold bind at 1. unfold bind at 1. unfold lift at 1.
    rewrite (Conv2d_forward_no_output c1 (mkTensor [B; 1; T; Fd] (data x))
               eq_refl Hno).
    reflexivity. }
  assert (Hshort' : T < 7 \/ Fd < 7).
  { destruct Hshort as [H|[H|H]]; [left; exact H|right; exact H|].
    exfalso. apply Hout. rewrite O1, H. reflexivity. }
  clear Hshort. rename Hshort' into Hshort.
  destruct (Nat.lt_ge_cases T 3) as [HT3|HT3];
    [|destruct (Nat.lt_ge_cases Fd 3) as [HF3|HF3]].
  - destruct (Conv2d_forward_small c1 (mkTensor [B; 1; T; Fd] (data x))
                B 1 T Fd eq_refl) as (msg & E); [congruence|left; lia|].
    exists msg. unfold bind at 1. unfold bind at 1. unfold lift at 1.
    rewrite E. reflexivity.
  - destruct (Conv2d_forward_small c1 (mkTensor [B; 1; T; Fd] (data x))
                B 1 T Fd eq_refl) as (msg & E); [congruence|right; lia|].
    exists msg. unfold bind at 1. unfold bind at 1. unfold lift at 1.
    rewrite E. reflexivity.
  - destruct (@Conv2d_forward_ok _ _ c1 (mkTensor [B; 1; T; Fd] (data x)) B 1 T Fd)
      as (y1 & E1 & Sy1); [reflexivity|congruence|lia|lia|lia|].
    rewrite K1, S1, O1 in Sy1.
    destruct (Conv2d_forward_small c2 (relu y1) _ _ _ _ Sy1) as (msg & E);
      [congruence| |].
    { rewrite K2. destruct Hshort as [H|H];
        [left|right]; apply conv_out_short; assumption. }
    exists msg. unfold bind at 1. unfold bind at 1. unfold lift at 1.
    rewrite E1. cbn [fst snd]. unfold bind at 1. unfold ret at 1.
    unfold bind at 1. unfold lift at 1. rewrite E. reflexivity.
Qed.

(** Without a mask the features are computed first, and the call stops
    where the mask is subscripted. *)
Lemma subsampling_forward_no_mask (cfg : WhaleConfig.t F)
    (m : @WhaleConv2dSubsampling4.t F) (x : Tensor F) (B T Fd : nat)
    (w : World G) :
  subsampling_built cfg m ->
  WhaleConfig.num_channels cfg = 1%Z ->
  (0 < WhaleConfig.hidden_size cfg)%Z ->
  WhaleConfig.input_dim cfg = Z.of_nat Fd ->
  shape x = [B; T; Fd] -> 7 <= T -> 7 <= Fd ->
  WhaleConv2dSubsampling4.forward m x None w
  = (inl (TypeError "'NoneType' object is not subscriptable"), w).
Proof.
  intros Hb Hch Hhid Hin Hx HT HF.
  destruct (subsampling_forward_shapes cfg m x (build [B; T] (fun _ => true))
              B T Fd w Hb Hch Hhid Hin Hx eq_refl HT HF) as (out & mask' & E & _).
  unfold WhaleConv2dSubsampling4.forward in E |- *.
  apply bind_inr in E. destruct E as (x1 & w1 & E0 & E).
  apply bind_inr in E. destruct E as (x2 & w2 & E1 & E).
  rewrite (bind_ok _ E0), (bind_ok _ E1).
  destruct (shape x2) as [|b [|c [|t [|f [|]]]]]; try discriminate E.
  apply bind_inr in E. destruct E as (x3 & w3 & E2 & E).
  apply bind_inr in E. destruct E as (x4 & w4 & E3 & E).
  apply bind_inr in E. destruct E as (x5 & w5 & E4 & E).
  rewrite (bind_ok _ E2), (bind_ok _ E3), (bind_ok _ E4).
  py_inv E. injection E as <- <-. reflexivity.
Qed.

(** What a call of the model that returns was given. *)
Lemma model_forward_needs (cfg : WhaleConfig.t F) (m : @WhaleAudioModel.t F)
    (xo : option (Tensor F)) (mask : option (Tensor bool))
    (ohs rd : option bool) (pe : option (Tensor F)) (w w' : World G)
    (r : Returned F (BaseModelOutputWithPooling F)) :
  model_built cfg m ->
  WhaleAudioModel.forward m xo mask ohs rd pe w = (inr r, w') ->
  pe = None /\
  (exists x B T Fd, xo = Some x /\ shape x = [B; T; Fd] /\ 7 <= T /\ 7 <= Fd) /\
  (exists mk, mask = Some mk /\ 2 <= rank mk) /\
  match rd with Some b => b | None => WhaleConfig.use_return_dict cfg end = true /\
  exists o, r = AsDict o.
Proof.
  intros (Hcfg & Hsub & _) H.
  pose proof H as H'. apply forward_returns in H'.
  destruct H' as (o & enc & x & hs & mk & pos & w1 & w2 & -> & -> & -> & Hr & _).
  assert (Hrd : match rd with Some b => b
                | None => WhaleConfig.use_return_dict cfg end = true).
  { rewrite <- Hcfg.
    destruct (match rd with Some b => b
              | None => WhaleConfig.use_return_dict (WhaleAudioModel.config m)
              end) eqn:Erd; [reflexivity|].
    exfalso. unfold WhaleAudioModel.forward in H. rewrite Erd in H.
    cbn [WhaleAudioModel.is_None andb] in H.
    apply bind_inr in H. destruct H as (v & w3 & _ & H).
    destruct v as [[hs' mk'] pos'].
    apply bind_inr in H. destruct H as (p' & w4 & _ & H).
    apply bind_inr in H. destruct H as (eo & w5 & Eenc & H).
    destruct eo as [items|enc']; [discriminate H|].
    unfold WhaleAudioEncoder.forward in Eenc.
    apply bind_inr in Eenc. destruct Eenc as ([es hs''] & w6 & _ & Eenc).
    apply bind_inr in Eenc. destruct Eenc as (hs3 & w7 & _ & Eenc).
    cbn [negb] in Eenc. discriminate Eenc. }
  split; [reflexivity|].
  unfold WhaleAudioModel.forward in H.
  cbn [WhaleAudioModel.is_None andb] in H.
  apply bind_inr in H. destruct H as (v & w3 & E1 & _).
  apply bind_inr in E1. destruct E1 as (x' & w0 & Ex & E1).
  apply lift_inr in Ex. destruct Ex as [Ex ->]. injection Ex as <-.
  rewrite Hr, Nat.eqb_refl in E1.
  apply bind_inr in E1. destruct E1 as ([out mask'] & w4 & Esub & _).
  unfold rank in Hr.
  destruct (shape x) as [|B [|T [|Fd [|]]]] eqn:Sx; try discriminate Hr.
  destruct (subsampling_forward_inv x mask w Hsub Sx Esub)
    as (HT & HF & _ & _ & mk0 & m1 & -> & Em1 & _).
  split; [exists x, B, T, Fd; repeat split; assumption|].
  split; [|split; [exact Hrd|exists o; reflexivity]].
  exists mk0. split; [reflexivity|].
  apply mask_step_inr in Em1. destruct Em1 as (a0 & a1 & r1 & S0 & _).
  unfold rank. rewrite S0. cbn [length]. lia.
Qed.
End Rejections.

(* ===================================================================== *)
(** ** More frames than the table of positions has rows *)
(* ===================================================================== *)

Section TooLong.
Context {F : Type} {FO : Float F} {G : Type} {GO : Generator G F}.

Lemma bind_fail {A B : Type} (c : Py G A) (k : A -> Py G B) (w w' : World G)
    (e : PyError) :
  c w = (inl e, w') -> bind c k w = (inl e, w').
Proof. unfold bind. intros ->. reflexivity. Qed.

Lemma layer_forward_pos_mismatch (cfg : WhaleConfig.t F)
    (l : @WhaleAudioEncoderLayer.t F) (x : Tensor F)
    (mask : option (Tensor bool)) (p : Tensor F) (B N P : nat) (w : World G) :
  layer_built cfg l ->
  (0 < WhaleConfig.num_attention_heads cfg)%Z ->
  WhaleConfig.use_relative_pe cfg = true ->
  shape x = [B; N; Z.to_nat (WhaleConfig.hidden_size cfg)] ->
  shape p = [1; P; Z.to_nat (WhaleConfig.hidden_size cfg)] ->
  P <> N -> P <> 1 -> N <> 1 ->
  exists msg,
    WhaleAudioEncoderLayer.forward l x mask (Some p) w
    = (inl (RuntimeError msg), w).
Proof.
  intros (Ha & _ & N1 & _) Hh Hrel Hx Sp H1 H2 H3.
  unfold WhaleAudioEncoderLayer.forward.
  destruct (norm_step_ok (WhaleAudioEncoderLayer.normalize_before l)
              (WhaleAudioEncoderLayer.norm1 l) x [B; N] w) as (y & Ey & Sy);
    [rewrite N1; exact Hx|].
  rewrite (bind_ok _ Ey). rewrite Hx in Sy.
  pose proof Ha as (Hf & _ & Hr & _). rewrite Hrel in Hr.
  destruct (naive_attn_pos_mismatch cfg (WhaleAudioEncoderLayer.attn l) Ha Hh
              y mask p B N P w Hr Sy Sp H1 H2 H3) as (msg & E).
  assert (E' : WhaleAttention.forward (WhaleAudioEncoderLayer.attn l) y mask
                 (Some p) w = (inl (RuntimeError msg), w)).
  { unfold WhaleAttention.forward. rewrite Hf. exact E. }
  exists msg. apply bind_fail.
  destruct (WhaleAudioEncoderLayer.concat_after l); apply bind_fail; exact E'.
Qed.

(** With relative positions and at least one layer, an input that is
    subsampled to more frames than the table has rows goes through the
    subsampling and the embeddings and stops in the attention of the
    first layer. *)
Lemma model_forward_too_long (cfg : WhaleConfig.t F) (m : @WhaleAudioModel.t F)
    (x : Tensor F) (mk : Tensor bool) (ohs rd : option bool)
    (B T Fd : nat) (w : World G) :
  model_built cfg m ->
  (0 < WhaleConfig.num_attention_heads cfg)%Z ->
  WhaleConfig.num_channels cfg = 1%Z ->
  WhaleConfig.input_dim cfg = Z.of_nat Fd ->
  shape x = [B; T; Fd] -> shape mk = [B; T] -> 7 <= T -> 7 <= Fd ->
  WhaleConfig.use_relative_pe cfg = true ->
  (0 < WhaleConfig.num_hidden_layers cfg)%Z ->
  1 < Z.to_nat (WhaleConfig.max_position_embeddings cfg) ->
  Z.to_nat (WhaleConfig.max_position_embeddings cfg) < (T - 3) / 4 ->
  exists msg w',
    WhaleAudioModel.forward m (Some x) (Some mk) ohs rd None w
    = (inl (RuntimeError msg), w').
Proof.
  intros (Hcfg & Hsub & Hemb & Henc) Hh Hch Hin Hx Hmk HT HF Hrel Hl HL1 HL2.
  assert (Hhid : (0 < WhaleConfig.hidden_size cfg)%Z)
    by (destruct Hemb as (_ & Htab); exact (proj1 Htab)).
  destruct (subsampling_forward_shapes cfg (WhaleAudioModel.subsampling m) x mk
              B T Fd w Hsub Hch Hhid Hin Hx Hmk HT HF)
    as (x1 & mk1 & E1 & Sx1 & Smk1).
  destruct (embeddings_forward_ok cfg (WhaleAudioModel.embeddings m) x1 B
              ((T - 3) / 4) w Hemb Sx1) as (hs & pos & w1 & E2 & Shs & Spos).
  rewrite Sx1 in Shs. rewrite Nat.min_r in Spos by lia.
  destruct Henc as (_ & Hlen & Hls & _).
  destruct (WhaleAudioEncoder.layers (WhaleAudioModel.encoder m))
    as [|l ls] eqn:El; [cbn [length] in Hlen; lia|].
  inversion Hls as [|l0 ls0 Hl0 _]; subst l0 ls0.
  destruct (layer_forward_pos_mismatch cfg l hs (Some mk1) pos B ((T - 3) / 4)
              (Z.to_nat (WhaleConfig.max_position_embeddings cfg)) w1
              Hl0 Hh Hrel Shs Spos) as (msg & E); [lia|lia|lia|].
  exists msg, w1.
  unfold WhaleAudioModel.forward.
  cbn [WhaleAudioModel.is_None andb].
  match goal with
  | |- bind ?c _ w = _ =>
      assert (Efirst : c w = (inr (hs, Some mk1, Some pos), w1))
  end.
  { rewrite (bind_lift_ok _ _ eq_refl).
    unfold rank. rewrite Hx. cbn [length Nat.eqb].
    rewrite (bind_ok _ E1). cbv iota beta. rewrite (bind_ok _ E2). reflexivity. }
  rewrite (bind_ok _ Efirst). cbv iota beta. cbn [WhaleAudioModel.local].
  rewrite (bind_lift_ok _ _ eq_refl).
  apply bind_fail. unfold WhaleAudioEncoder.forward. apply bind_fail.
  rewrite El. cbn [WhaleAudioEncoder.run_layers]. apply bind_fail.
  unfold WhaleAudioEncoder.checkpoint.
  destruct (WhaleAudioEncoder.gradient_checkpointing (WhaleAudioModel.encoder m)
            && WhaleAudioEncoder.training (WhaleAudioModel.encoder m));
    exact E.
Qed.
End TooLong.

(* ===================================================================== *)
(** ** The configurations that the constructors accept *)
(* ===================================================================== *)

(** The columns [1::2] of a table of [c] columns against the
    [(c + 1) / 2] columns of cosines. *)
Lemma broadcast_odd_columns (n c : nat) :
  1 <= c ->
  broadcast_shapes [n; c / 2] [n; (c + 1) / 2] = Some [n; c / 2] <->
  Nat.even c = true \/ c = 1.
Proof.
  intros Hc. unfold broadcast_shapes. cbn [rev app broadcast_rev].
  rewrite Nat.eqb_refl.
  pose proof (Nat.div_mod_eq c 2) as Ec.
  pose proof (Nat.mod_upper_bound c 2 ltac:(lia)) as Hr.
  destruct (Nat.even c) eqn:Ev.
  - apply Nat.even_spec in Ev. destruct Ev as [k ->].
    replace (2 * k + 1) with (1 + k * 2) by lia.
    rewrite Nat.div_add by lia. rewrite (Nat.mul_comm 2 k), Nat.div_mul by lia.
    cbn [Nat.div Nat.divmod fst Nat.add]. rewrite Nat.eqb_refl.
    split; [intros _; left; reflexivity|reflexivity].
  - assert (Od : Nat.odd c = true) by (unfold Nat.odd; rewrite Ev; reflexivity).
    apply Nat.odd_spec in Od. destruct Od as [k ->].
    replace (2 * k + 1 + 1) with ((k + 1) * 2) by lia.
    rewrite Nat.div_mul by lia.
    replace (2 * k + 1) with (1 + k * 2) by lia.
    rewrite Nat.div_add by lia.
    cbn [Nat.div Nat.divmod fst Nat.add].
    destruct (Nat.eqb_spec k (k + 1)) as [|_]; [lia|].
    destruct (Nat.eqb_spec k 1) as [->|Hk1].
    + cbn. split; [discriminate|intros [H|H]; [discriminate|lia]].
    + destruct (Nat.eqb_spec (k + 1) 1) as [Hk0|Hk0].
      * assert (k = 0) by lia. subst k. cbn.
        split; [intros _; right; reflexivity|reflexivity].
      * cbn [option_map]. split; [discriminate|].
        intros [H|H]; [discriminate|lia].
Qed.

Section Constructors.
Context {F : Type} {FO : Float F} {G : Type} {GO : Generator G F}.

(** *** The table of positions *)

Lemma even_to_nat (d : Z) : (0 < d)%Z ->
  (Nat.even (Z.to_nat d) = true \/ Z.to_nat d = 1) <->
  (Z.even d = true \/ d = 1%Z).
Proof.
  intros Hd.
  assert (E : Nat.even (Z.to_nat d) = Z.even d).
  { rewrite <- (Z2Nat.id d) at 2 by lia.
    destruct (Nat.even (Z.to_nat d)) eqn:Ev.
    - apply Nat.even_spec in Ev. destruct Ev as [k Hk]. rewrite Hk.
      rewrite Nat2Z.inj_mul. symmetry. apply Z.even_spec.
      exists (Z.of_nat k). reflexivity.
    - assert (Od : Nat.odd (Z.to_nat d) = true)
        by (unfold Nat.odd; rewrite Ev; reflexivity).
      apply Nat.odd_spec in Od. destruct Od as [k Hk]. rewrite Hk.
      rewrite Nat2Z.inj_add, Nat2Z.inj_mul. symmetry.
      rewrite <- Z.negb_odd. apply negb_false_iff. apply Z.odd_spec.
      exists (Z.of_nat k). reflexivity. }
  rewrite E. split; intros [H|H]; try (left; exact H); right; lia.
Qed.

Lemma pe_init_ok (cfg : WhaleConfig.t F) :
  table_config cfg -> exists p, WhalePositionalEncoding.__init__ cfg = inr p.
Proof.
  intros (Hd & Hev & HL & Hp0 & Hp1).
  set (d := WhaleConfig.hidden_size cfg) in *.
  set (L := WhaleConfig.max_position_embeddings cfg) in *.
  unfold WhalePositionalEncoding.__init__. fold d L.
  unfold WhalePositionalEncoding.math_sqrt.
  destruct (Z.ltb_spec d 0); [lia|]. cbn [res_bind].
  rewrite (nn_Dropout_ok _ Hp0 Hp1). cbn [res_bind].
  unfold torch_zeros. rewrite check_dims_ok by (repeat constructor; lia).
  cbn [res_bind map].
  assert (Epos : unsqueeze 1 (arange (F := F) L 1)
                 = inr (mkTensor [Z.to_nat L; 1] (data (arange L 1)))).
  { unfold unsqueeze, rank. rewrite arange_shape, ceil_div_1. reflexivity. }
  rewrite Epos. cbn [res_bind].
  unfold WhalePositionalEncoding.div_term_of.
  destruct (Z.eqb_spec d 0) as [|Hd0]; [lia|]. cbn [res_bind].
  set (n := Z.to_nat L). set (c := Z.to_nat d). set (h := (c + 1) / 2).
  match goal with
  | |- exists p, res_bind (tmul ?a ?b) _ = _ =>
      assert (Eang : exists angle, tmul a b = inr angle /\ shape angle = [n; h])
  end.
  { unfold tmul, tzip. cbn [shape tmap tscale].
    rewrite arange_shape. fold c. cbn [Nat.sub Nat.add].
    replace (c + 1) with (c + 1) by reflexivity. fold h.
    rewrite broadcast_col_row. eexists. split; reflexivity. }
  destruct Eang as (angle & Eang & Sang).
  rewrite Eang. cbn [res_bind].
  assert (Hc : 1 <= c) by (unfold c; lia).
  assert (E1 : exists pe1, setitem_cols 0 2 (build [n; c] (fun _ => f0))
                             (tmap fsin angle) = inr pe1 /\
                           shape pe1 = [n; c]).
  { unfold setitem_cols. cbn [shape build tmap].
    rewrite (pyslice_from 0 2 c). rewrite Nat.min_0_l, Nat.sub_0_r.
    cbn [Nat.sub]. fold h. rewrite Sang, broadcast_shapes_same.
    destruct (list_eq_dec Nat.eq_dec [n; h] [n; h]); [|contradiction].
    eexists. split; reflexivity. }
  destruct E1 as (pe1 & E1 & S1). rewrite E1. cbn [res_bind].
  assert (E2 : exists pe2, setitem_cols 1 2 pe1 (tmap fcos angle) = inr pe2 /\
                           shape pe2 = [n; c]).
  { unfold setitem_cols. rewrite S1. cbn [shape tmap].
    rewrite (pyslice_from 1 2 c). rewrite Nat.min_l by exact Hc.
    cbn [Nat.sub]. replace (c - 1 + 1) with c by lia. rewrite Sang. fold h.
    assert (Eb : broadcast_shapes [n; c / 2] [n; h] = Some [n; c / 2]).
    { apply broadcast_odd_columns; [exact Hc|].
      apply even_to_nat; assumption. }
    rewrite Eb.
    destruct (list_eq_dec Nat.eq_dec [n; c / 2] [n; c / 2]); [|contradiction].
    eexists. split; reflexivity. }
  destruct E2 as (pe2 & E2 & S2). rewrite E2. cbn [res_bind].
  unfold unsqueeze. cbn [Nat.leb res_bind]. eexists. reflexivity.
Qed.

(** The constructor returns for these hidden sizes and no others: with
    an odd hidden size from 3 on, the cosines have one column more than
    the slice they are assigned to. *)
Lemma pe_init_iff (cfg : WhaleConfig.t F) :
  (exists p, WhalePositionalEncoding.__init__ cfg = inr p) <-> table_config cfg.
Proof.
  split; [|apply pe_init_ok].
  intros (p & H). pose proof (pe_init_inv cfg H) as (Hd & HL & _).
  unfold WhalePositionalEncoding.__init__ in H.
  set (d := WhaleConfig.hidden_size cfg) in *.
  set (L := WhaleConfig.max_position_embeddings cfg) in *.
  res_inv H.
  assert (Hdrop : fltb (WhaleConfig.dropout cfg) f0 = false /\
                  fltb (of_Z 1) (WhaleConfig.dropout cfg) = false).
  { unfold nn_Dropout in E0.
    destruct (fltb (WhaleConfig.dropout cfg) f0); [discriminate|].
    destruct (fltb (of_Z 1) (WhaleConfig.dropout cfg)); [discriminate|].
    split; reflexivity. }
  apply torch_zeros_inr in E1. destruct E1 as [_ ->].
  destruct (@angle_get _ _ d L _ _ _ E2 E3 E4) as (_ & S4 & _).
  destruct (@angle_get _ _ d L _ _ _ E2 E3 E6) as (_ & S6 & _).
  apply (@setitem_cols_inr _ _ 0 2 (Z.to_nat L) (Z.to_nat d)) in E5;
    [|reflexivity].
  destruct E5 as [_ ->].
  apply (@setitem_cols_inr _ _ 1 2 (Z.to_nat L) (Z.to_nat d)) in E7;
    [|reflexivity].
  destruct E7 as [B7 _]. cbn [shape tmap] in B7. rewrite S6 in B7.
  rewrite Nat.min_l in B7 by lia. cbn [Nat.sub] in B7.
  replace (Z.to_nat d - 1 + 1) with (Z.to_nat d) in B7 by lia.
  apply broadcast_odd_columns in B7; [|lia].
  apply even_to_nat in B7; [|exact Hd].
  destruct Hdrop as [Hp0 Hp1].
  repeat split; assumption.
Qed.


(** *** The modules that draw their parameters *)








(** No model without the table of positions. *)
Lemma model_init_needs_table (cfg : WhaleConfig.t F) (w w' : World G)
    (m : @WhaleAudioModel.t F) :
  WhaleAudioModel.__init__ cfg w = (inr m, w') -> table_config cfg.
Proof.
  unfold WhaleAudioModel.__init__. intros H.
  apply bind_inr in H. destruct H as (s & w1 & _ & H).
  apply bind_inr in H. destruct H as (e & w2 & Ee & _).
  unfold WhaleAudioEmbeddings.__init__ in Ee.
  apply bind_inr in Ee. destruct Ee as (l & w3 & _ & Ee).
  apply bind_inr in Ee. destruct Ee as (n & w4 & _ & Ee).
  apply bind_inr in Ee. destruct Ee as (d & w5 & _ & Ee).
  apply bind_inr in Ee. destruct Ee as (p & w6 & Ep & _).
  apply lift_inr in Ep. destruct Ep as [Ep _].
  unfold RelPositionalEncoding.__init__ in Ep.
  apply res_bind_inr in Ep. destruct Ep as (base & Eb & _).
  apply pe_init_iff. exists base. exact Eb.
Qed.
End Constructors.

(* ===================================================================== *)
(** ** The frames that one subsampled frame is computed from *)
(* ===================================================================== *)

(** The input rows under the kernel of an output row. *)
Lemma conv_in_range (n i d : nat) :
  3 <= n -> i < conv_out n 3 2 -> d < 3 -> 2 * i + d < n.
Proof.
  unfold conv_out. intros Hn Hi Hd.
  pose proof (Nat.Div0.mul_div_le (n - 3) 2). lia.
Qed.

Section Locality.
Context {F : Type} {FO : Float F} {G : Type} {GO : Generator G F}.

Lemma conv2d_local (c : @Conv2d F) (x x' y y' : Tensor F)
    (b ci h w ib co i j : nat) :
  shape x = [b; ci; h; w] -> shape x' = [b; ci; h; w] ->
  Conv2d_forward c x = inr y -> Conv2d_forward c x' = inr y' ->
  ib < b -> co < out_channels c ->
  i < conv_out h (kernel_size c) (stride c) ->
  j < conv_out w (kernel_size c) (stride c) ->
  (forall qc di dj, qc < ci -> di < kernel_size c -> dj < kernel_size c ->
     fget x [ib; qc; stride c * i + di; stride c * j + dj]
     = fget x' [ib; qc; stride c * i + di; stride c * j + dj]) ->
  tget f0 y [ib; co; i; j] = tget f0 y' [ib; co; i; j].
Proof.
  intros Hx Hx' Hy Hy' Hib Hco Hi Hj Hagree.
  unfold Conv2d_forward in Hy, Hy'. rewrite Hx in Hy. rewrite Hx' in Hy'.
  unfold conv2d_batched in Hy, Hy'.
  destruct (out_channels c =? 0); [discriminate Hy|].
  destruct (negb (ci =? in_channels c)); [discriminate Hy|].
  destruct ((h <? kernel_size c) || (w <? kernel_size c)); [discriminate Hy|].
  injection Hy as <-. injection Hy' as <-.
  rewrite !tget_build by (repeat constructor; assumption).
  f_equal. f_equal. apply map_ext_in. intros q Hq.
  apply (in_indices [ci; kernel_size c; kernel_size c]) in Hq.
  inversion Hq as [|qc n1 q1 s1 Hqc Hq1]; subst.
  inversion Hq1 as [|di n2 q2 s2 Hdi Hq2]; subst.
  inversion Hq2 as [|dj n3 q3 s3 Hdj Hq3]; subst.
  inversion Hq3; subst.
  rewrite (Hagree qc di dj Hqc Hdi Hdj). reflexivity.
Qed.

Lemma Conv2d_forward_wf (c : @Conv2d F) (x y : Tensor F) (b ci h w : nat) :
  shape x = [b; ci; h; w] -> Conv2d_forward c x = inr y -> wf y.
Proof.
  intros Hx Hy. unfold Conv2d_forward in Hy. rewrite Hx in Hy.
  unfold conv2d_batched in Hy.
  destruct (out_channels c =? 0); [discriminate Hy|].
  destruct (negb (ci =? in_channels c)); [discriminate Hy|].
  destruct ((h <? kernel_size c) || (w <? kernel_size c)); [discriminate Hy|].
  injection Hy as <-. apply wf_build.
Qed.

Lemma relu_get (t : Tensor F) (idx : list nat) :
  wf t -> Forall2 lt idx (shape t) ->
  fget (relu t) idx = frelu (tget f0 t idx).
Proof. intros Hwf Hidx. unfold fget, relu. apply tget_tmap; assumption. Qed.

Lemma transpose12_get (x y : Tensor F) (a b c e i j k l : nat) :
  shape x = [a; b; c; e] -> transpose f0 1 2 x = inr y ->
  i < a -> j < c -> k < b -> l < e ->
  tget f0 y [i; j; k; l] = tget f0 x [i; k; j; l].
Proof.
  intros Hs H Hi Hj Hk Hl. unfold transpose, rank in H. rewrite Hs in H.
  cbn [length Nat.ltb Nat.leb andb] in H. injection H as <-.
  unfold permute, rank. rewrite Hs.
  rewrite tget_build by (repeat constructor; assumption).
  reflexivity.
Qed.

(** Reading [(b, t, c * f)] in the data of a [(b, t, c, f)] tensor. *)
Lemma view_merge_get (x : Tensor F) (B T C Fq b t i : nat) :
  shape x = [B; T; C; Fq] -> 0 < Fq ->
  tget f0 (mkTensor [B; T; C * Fq] (data x)) [b; t; i]
  = tget f0 x [b; t; i / Fq; i mod Fq].
Proof.
  intros Hs HF. unfold tget. cbn [shape data]. rewrite Hs. f_equal.
  cbn [ravel numel fold_right].
  pose proof (Nat.div_mod_eq i Fq) as E. nia.
Qed.

Lemma Linear_forward_local (l : @Linear F) (x x' y y' : Tensor F)
    (pre p : list nat) (n o : nat) :
  shape x = pre ++ [n] -> shape x' = pre ++ [n] ->
  Linear_forward l x = inr y -> Linear_forward l x' = inr y' ->
  Forall2 lt p pre -> o < out_features l ->
  (forall i, i < n -> fget x (p ++ [i]) = fget x' (p ++ [i])) ->
  tget f0 y (p ++ [o]) = tget f0 y' (p ++ [o]).
Proof.
  intros Hx Hx' Hy Hy' Hp Ho Hagree.
  unfold Linear_forward in Hy, Hy'.
  rewrite Hx in Hy. rewrite Hx' in Hy'.
  rewrite rev_app_distr in Hy, Hy'. cbn [rev app] in Hy, Hy'.
  destruct (n =? in_features l); [|discriminate Hy].
  injection Hy as <-. injection Hy' as <-.
  rewrite rev_involutive.
  assert (Hidx : Forall2 lt (p ++ [o]) (pre ++ [out_features l])).
  { apply Forall2_app; [exact Hp|]. repeat constructor. exact Ho. }
  rewrite !tget_build by exact Hidx.
  rewrite removelast_last, last_last.
  assert (E : map (fun i => fmul (fget x (p ++ [i])) (fget (weight l) [o; i]))
                (seq 0 n)
              = map (fun i => fmul (fget x' (p ++ [i])) (fget (weight l) [o; i]))
                  (seq 0 n)).
  { apply map_ext_in. intros i Hi. apply in_seq in Hi.
    rewrite Hagree by lia. reflexivity. }
  rewrite E. reflexivity.
Qed.

(** The steps of a forward pass that returns. *)
Lemma subsampling_forward_chain (m : @WhaleConv2dSubsampling4.t F)
    (c1 c2 : @Conv2d F) (x : Tensor F) (mask : option (Tensor bool))
    (B T Fd : nat) (w w1 : World G) (out : Tensor F) (mo : Tensor bool) :
  WhaleConv2dSubsampling4.conv_in m = [M_Conv2d c1; M_ReLU; M_Conv2d c2; M_ReLU] ->
  shape x = [B; T; Fd] ->
  WhaleConv2dSubsampling4.forward m x mask w = (inr (out, mo), w1) ->
  exists y1 y2 xt nb nc nt nf,
    Conv2d_forward c1 (mkTensor [B; 1; T; Fd] (data x)) = inr y1 /\
    Conv2d_forward c2 (relu y1) = inr y2 /\
    shape y2 = [nb; nc; nt; nf] /\
    transpose f0 1 2 (relu y2) = inr xt /\
    Linear_forward (WhaleConv2dSubsampling4.out m)
      (mkTensor [nb; nt; nc * nf] (data xt)) = inr out.
Proof.
  intros Hconv Hx H.
  unfold WhaleConv2dSubsampling4.forward in H. rewrite Hconv in H.
  cbn [Sequential_forward Module_forward] in H.
  py_inv H.
  apply unsqueeze_inr in E. destruct E as [_ ->]. rewrite Hx in *.
  cbn [firstn skipn app] in *.
  change (shape (relu v2)) with (shape v2) in H.
  destruct (shape v2) as [|nb [|nc [|nt [|nf [|]]]]] eqn:Sv2; try discriminate H.
  py_inv H.
  change [Z.of_nat nb; Z.of_nat nt; Z.of_nat (nc * nf)]
    with (map Z.of_nat [nb; nt; nc * nf]) in E0.
  apply view_nonneg in E0. destruct E0 as (Sv & Dv & _).
  destruct v0 as [sh da]. cbn [shape data] in Sv, Dv. subst sh da.
  destruct mask as [mk|]; [|discriminate H]. py_inv H. injection H as <- <-.
  exists v1, v2, v, nb, nc, nt, nf. repeat split; assumption.
Qed.

(** Frame [j] of the features that the subsampling returns is computed
    from the frames [4 j .. 4 j + 6] of its input. *)
Lemma subsampling_local (cfg : WhaleConfig.t F)
    (m : @WhaleConv2dSubsampling4.t F) (x x' : Tensor F)
    (mask mask' : option (Tensor bool)) (B T Fd : nat)
    (w w1 w' w1' : World G) (out out' : Tensor F) (mo mo' : Tensor bool)
    (b j : nat) :
  subsampling_built cfg m ->
  shape x = [B; T; Fd] -> shape x' = [B; T; Fd] ->
  WhaleConv2dSubsampling4.forward m x mask w = (inr (out, mo), w1) ->
  WhaleConv2dSubsampling4.forward m x' mask' w' = (inr (out', mo'), w1') ->
  b < B -> j < (T - 3) / 4 ->
  (forall t f, 4 * j <= t <= 4 * j + 6 -> f < Fd ->
     tget f0 x [b; t; f] = tget f0 x' [b; t; f]) ->
  forall o, o < Z.to_nat (WhaleConfig.hidden_size cfg) ->
    tget f0 out [b; j; o] = tget f0 out' [b; j; o].
Proof.
  intros (c1 & c2 & Hconv & K1 & S1 & I1 & O1 & K2 & S2 & I2 & O2 & IL & OL & _)
         Hx Hx' H H' Hb Hj Hagree o Ho.
  set (hid := Z.to_nat (WhaleConfig.hidden_size cfg)) in *.
  destruct (subsampling_forward_chain m c1 c2 x mask B T Fd w w1 out mo
              Hconv Hx H)
    as (y1 & y2 & xt & b2 & cc & t2 & f2 & E1 & E2 & Sy2 & Et & El).
  destruct (subsampling_forward_chain m c1 c2 x' mask' B T Fd w' w1' out' mo'
              Hconv Hx' H')
    as (y1' & y2' & xt' & b2' & cc' & t2' & f2' & E1' & E2' & Sy2' & Et' & El').
  (* the shapes on the way *)
  set (x1 := mkTensor [B; 1; T; Fd] (data x)) in *.
  set (x1' := mkTensor [B; 1; T; Fd] (data x')) in *.
  pose proof (Conv2d_forward_wf c1 x1 y1 B 1 T Fd eq_refl E1) as W1.
  pose proof (Conv2d_forward_wf c1 x1' y1' B 1 T Fd eq_refl E1') as W1'.
  destruct (@Conv2d_forward_inr _ _ c1 x1 y1 B 1 T Fd eq_refl E1)
    as (_ & HT1 & HF1 & Sy1).
  destruct (@Conv2d_forward_inr _ _ c1 x1' y1' B 1 T Fd eq_refl E1')
    as (_ & _ & _ & Sy1').
  rewrite K1, S1, O1 in *.
  pose proof (Conv2d_forward_wf c2 (relu y1) y2 _ _ _ _ Sy1 E2) as W2.
  pose proof (Conv2d_forward_wf c2 (relu y1') y2' _ _ _ _ Sy1' E2') as W2'.
  destruct (@Conv2d_forward_inr _ _ c2 (relu y1) y2 _ _ _ _ Sy1 E2)
    as (_ & HT2 & HF2 & Sy2a).
  destruct (@Conv2d_forward_inr _ _ c2 (relu y1') y2' _ _ _ _ Sy1' E2')
    as (_ & _ & _ & Sy2a').
  rewrite K2, S2, O2 in *.
  destruct (conv_out_twice HT1 HT2) as [HT ET].
  destruct (conv_out_twice HF1 HF2) as [HF EF].
  rewrite ET, EF in Sy2a, Sy2a'.
  rewrite Sy2a in Sy2. injection Sy2 as <- <- <- <-.
  rewrite Sy2a' in Sy2'. injection Sy2' as <- <- <- <-.
  pose proof (@transpose12_rank4 _ _ (relu y2) xt _ _ _ _ Sy2a Et) as Sxt.
  pose proof (@transpose12_rank4 _ _ (relu y2') xt' _ _ _ _ Sy2a' Et') as Sxt'.
  (* the output projection *)
  apply (Linear_forward_local (WhaleConv2dSubsampling4.out m)
           (mkTensor [B; (T - 3) / 4; hid * ((Fd - 3) / 4)] (data xt))
           (mkTensor [B; (T - 3) / 4; hid * ((Fd - 3) / 4)] (data xt'))
           out out' [B; (T - 3) / 4] [b; j] (hid * ((Fd - 3) / 4)) o
           eq_refl eq_refl El El');
    [repeat constructor; assumption|rewrite OL; exact Ho|].
  intros i Hi. cbn [app]. unfold fget.
  assert (HF0 : 0 < (Fd - 3) / 4).
  { destruct ((Fd - 3) / 4); [rewrite Nat.mul_0_r in Hi; lia|lia]. }
  rewrite (view_merge_get xt B ((T - 3) / 4) hid ((Fd - 3) / 4) b j i Sxt HF0).
  rewrite (view_merge_get xt' B ((T - 3) / 4) hid ((Fd - 3) / 4) b j i Sxt' HF0).
  assert (Hc : i / ((Fd - 3) / 4) < hid).
  { apply Nat.Div0.div_lt_upper_bound. lia. }
  assert (Hf : i mod ((Fd - 3) / 4) < (Fd - 3) / 4)
    by (apply Nat.mod_upper_bound; lia).
  set (c := i / ((Fd - 3) / 4)) in *. set (f := i mod ((Fd - 3) / 4)) in *.
  rewrite (transpose12_get (relu y2) xt _ _ _ _ b j c f Sy2a Et) by assumption.
  rewrite (transpose12_get (relu y2') xt' _ _ _ _ b j c f Sy2a' Et')
    by assumption.
  change (tget f0 (relu y2) [b; c; j; f]) with (fget (relu y2) [b; c; j; f]).
  change (tget f0 (relu y2') [b; c; j; f]) with (fget (relu y2') [b; c; j; f]).
  rewrite !relu_get
    by (try assumption; rewrite ?Sy2a, ?Sy2a'; repeat constructor; assumption).
  f_equal.
  (* the second convolution *)
  rewrite <- ET in Hj. rewrite <- EF in Hf.
  apply (conv2d_local c2 (relu y1) (relu y1') y2 y2' B hid _ _ b c j f
           Sy1 Sy1' E2 E2' Hb);
    [rewrite O2; exact Hc|rewrite K2, S2; exact Hj|rewrite K2, S2; exact Hf|].
  rewrite K2, S2. intros qc di dj Hqc Hdi Hdj.
  pose proof (conv_in_range _ j di HT2 Hj Hdi) as Hrow.
  pose proof (conv_in_range _ f dj HF2 Hf Hdj) as Hcol.
  rewrite !relu_get
    by (try assumption; rewrite ?Sy1, ?Sy1'; repeat constructor; assumption).
  f_equal.
  (* the first convolution *)
  apply (conv2d_local c1 x1 x1' y1 y1' B 1 T Fd b qc (2 * j + di) (2 * f + dj)
           eq_refl eq_refl E1 E1' Hb);
    [rewrite O1; exact Hqc|rewrite K1, S1; exact Hrow|rewrite K1, S1; exact Hcol|].
  rewrite K1, S1. intros q0 d1 d2 Hq0 Hd1 Hd2.
  assert (q0 = 0) by lia. subst q0.
  pose proof (conv_in_range _ _ d1 HT1 Hrow Hd1) as Hrow1.
  pose proof (conv_in_range _ _ d2 HF1 Hcol Hd2) as Hcol1.
  assert (Eget : forall (z : Tensor F) t0 f0',
            shape z = [B; T; Fd] ->
            fget (mkTensor [B; 1; T; Fd] (data z)) [b; 0; t0; f0']
            = tget f0 z [b; t0; f0']).
  { intros z t0 f0' Hz. unfold fget, tget. cbn [shape data]. rewrite Hz.
    f_equal. cbn [ravel numel fold_right]. lia. }
  unfold x1, x1'. rewrite !Eget by assumption.
  apply Hagree; lia.
Qed.
End Locality.

(* ===================================================================== *)
(** ** The table of positions in binary32 arithmetic *)
(* ===================================================================== *)

Section Binary32.
Local Open Scope R_scope.

(** *** Rounding *)

Lemma floorR_bounds (x : R) : IZR (floorR x) <= x < IZR (floorR x) + 1.
Proof.
  unfold floorR. rewrite minus_IZR. destruct (archimed x) as [H1 H2]. lra.
Qed.

Lemma floorR_spec (x : R) (z : Z) : IZR z <= x -> x < IZR z + 1 -> floorR x = z.
Proof.
  intros H1 H2. unfold floorR.
  rewrite <- (up_tech x z H1); [lia|]. rewrite plus_IZR. exact H2.
Qed.

Lemma floorR_IZR (z : Z) : floorR (IZR z) = z.
Proof. apply floorR_spec; lra. Qed.

Lemma nearest_even_range (x : R) :
  (floorR x <= nearest_even x <= floorR x + 1)%Z.
Proof.
  unfold nearest_even.
  destruct (Rlt_dec _ _); [lia|]. destruct (Rlt_dec _ _); [lia|].
  destruct (Z.even _); lia.
Qed.

Lemma nearest_even_IZR (z : Z) : nearest_even (IZR z) = z.
Proof.
  unfold nearest_even. rewrite floorR_IZR.
  destruct (Rlt_dec (IZR z - IZR z) (1 / 2)); [reflexivity|lra].
Qed.

Lemma nearest_even_below_half (x : R) (z : Z) :
  IZR z <= x -> x < IZR z + 1 / 2 -> nearest_even x = z.
Proof.
  intros H1 H2. unfold nearest_even. rewrite (floorR_spec x z) by lra.
  destruct (Rlt_dec (x - IZR z) (1 / 2)); [reflexivity|lra].
Qed.

Lemma nearest_even_nonneg (x : R) : 0 <= x -> (0 <= nearest_even x)%Z.
Proof.
  intros Hx. pose proof (nearest_even_range x) as [H _].
  pose proof (floorR_bounds x) as [_ Hf].
  assert (-1 < floorR x)%Z; [|lia]. apply lt_IZR. lra.
Qed.

Lemma nearest_even_upper (x : R) : IZR (nearest_even x) <= x + 1.
Proof.
  pose proof (nearest_even_range x) as [_ H]. apply IZR_le in H.
  rewrite plus_IZR in H. pose proof (floorR_bounds x) as [Hf _]. lra.
Qed.

Lemma ln2_pos : 0 < ln 2.
Proof. rewrite <- ln_1. apply ln_increasing; lra. Qed.

Lemma powerRZ2_pos (z : Z) : 0 < powerRZ 2 z.
Proof. apply powerRZ_lt. lra. Qed.

Lemma ln_powerRZ2 (z : Z) : ln (powerRZ 2 z) = IZR z * ln 2.
Proof.
  rewrite powerRZ_Rpower by lra. unfold Rpower. apply ln_exp.
Qed.

Lemma powerRZ2_le (a b : Z) : (a <= b)%Z -> powerRZ 2 a <= powerRZ 2 b.
Proof.
  intros H. rewrite !powerRZ_Rpower by lra.
  apply Rle_Rpower; [lra|]. apply IZR_le. exact H.
Qed.

Lemma ln_le_mono (x y : R) : 0 < x -> x <= y -> ln x <= ln y.
Proof.
  intros Hx [H | ->]; [|lra]. left. apply ln_increasing; assumption.
Qed.

Lemma exponent2_spec (x : R) (e : Z) :
  powerRZ 2 e <= Rabs x -> Rabs x < powerRZ 2 (e + 1) -> exponent2 x = e.
Proof.
  intros H1 H2. unfold exponent2. pose proof ln2_pos as Hl.
  pose proof (powerRZ2_pos e) as Hp.
  apply floorR_spec.
  - apply (Rmult_le_reg_r (ln 2)); [exact Hl|].
    unfold Rdiv. rewrite Rmult_assoc, Rinv_l, Rmult_1_r by lra.
    rewrite <- ln_powerRZ2. apply ln_le_mono; assumption.
  - apply (Rmult_lt_reg_r (ln 2)); [exact Hl|].
    unfold Rdiv. rewrite Rmult_assoc, Rinv_l, Rmult_1_r by lra.
    replace ((IZR e + 1) * ln 2) with (IZR (e + 1) * ln 2)
      by (rewrite plus_IZR; reflexivity).
    rewrite <- ln_powerRZ2. apply ln_increasing; lra.
Qed.

Lemma exponent2_below (x : R) : x <> 0 -> powerRZ 2 (exponent2 x) <= Rabs x.
Proof.
  intros Hx. pose proof ln2_pos as Hl.
  assert (Ha : 0 < Rabs x) by (apply Rabs_pos_lt; exact Hx).
  destruct (floorR_bounds (ln (Rabs x) / ln 2)) as [H _]. fold (exponent2 x) in H.
  assert (H0 : IZR (exponent2 x) * ln 2 <= ln (Rabs x)).
  { apply (Rmult_le_compat_r (ln 2)) in H; [|lra].
    unfold Rdiv in H. rewrite Rmult_assoc, Rinv_l, Rmult_1_r in H by lra. exact H. }
  rewrite powerRZ_Rpower by lra. unfold Rpower.
  apply Rle_trans with (exp (ln (Rabs x))); [|rewrite exp_ln by exact Ha; lra].
  destruct H0 as [H0|H0];
    [left; apply exp_increasing; exact H0|right; rewrite H0; reflexivity].
Qed.

Lemma powerRZ2_nat (n : nat) : powerRZ 2 (Z.of_nat n) = IZR (2 ^ Z.of_nat n).
Proof. rewrite <- pow_powerRZ, pow_IZR. reflexivity. Qed.

Lemma round32_zero (x : R) : x = 0 -> round32 x = Rat 0.
Proof. intros ->. unfold round32. destruct (Req_dec_T 0 0); [reflexivity|contradiction]. Qed.

(** A number with at most 24 significant digits is kept. *)
Lemma round32_exact (x : R) (e n : Z) :
  0 < x -> x < IZR (2 ^ 128 - 2 ^ 103) ->
  (-126 <= e)%Z ->
  powerRZ 2 e <= x -> x < powerRZ 2 (e + 1) ->
  x = IZR n * powerRZ 2 (e - 23) ->
  round32 x = Real x.
Proof.
  intros Hx Hmax He Hlo Hhi Hn. unfold round32.
  destruct (Req_dec_T x 0); [lra|].
  rewrite (Rabs_pos_eq x) by lra.
  destruct (Rle_dec (IZR (2 ^ 128 - 2 ^ 103)) x); [lra|].
  destruct (Rlt_dec x 0); [lra|].
  rewrite (exponent2_spec x e) by (rewrite Rabs_pos_eq by lra; assumption).
  rewrite Z.max_l by exact He.
  pose proof (powerRZ2_pos (e - 23)) as Hu.
  replace (x / powerRZ 2 (e - 23)) with (IZR n)
    by (rewrite Hn at 1; field; lra).
  rewrite nearest_even_IZR. f_equal. lra.
Qed.

Ltac exact32 e n :=
  apply (round32_exact _ e n);
  [ lra
  | apply (IZR_lt _ (2 ^ 128 - 2 ^ 103)); reflexivity
  | lia
  | simpl; lra
  | simpl; lra
  | simpl; lra ].

Lemma round32_1 : round32 1 = Real 1.
Proof. exact32 0%Z 8388608%Z. Qed.

Lemma round32_4 : round32 4 = Real 4.
Proof. exact32 2%Z 8388608%Z. Qed.

Lemma round32_10000 : round32 10000 = Real 10000.
Proof. exact32 13%Z 10240000%Z. Qed.

(** Below the overflow threshold the result is finite, and not far from
    the argument. *)
Lemma round32_finite (x : R) :
  Rabs x < IZR (2 ^ 128 - 2 ^ 103) ->
  exists r, fin (round32 x) = Some r /\ Rabs r <= 2 * Rabs x + 1.
Proof.
  intros Hmax. unfold round32.
  destruct (Req_dec_T x 0) as [->|Hx].
  { exists 0. split; [cbn; unfold Q2R; cbn; f_equal; lra|].
    rewrite Rabs_R0. lra. }
  destruct (Rle_dec _ (Rabs x)); [lra|].
  set (e := Z.max (exponent2 x) (-126)).
  set (u := powerRZ 2 (e - 23)).
  set (m := nearest_even (Rabs x / u)).
  assert (Hu : 0 < u) by apply powerRZ2_pos.
  assert (Ha : 0 < Rabs x) by (apply Rabs_pos_lt; exact Hx).
  assert (Hq : 0 <= Rabs x / u).
  { apply Rmult_le_pos; [lra|]. left. apply Rinv_0_lt_compat. exact Hu. }
  assert (Hm0 : 0 <= IZR m) by (apply IZR_le, nearest_even_nonneg; exact Hq).
  assert (Hm1 : IZR m * u <= Rabs x + u).
  { pose proof (nearest_even_upper (Rabs x / u)) as H. fold m in H.
    apply (Rmult_le_compat_r u) in H; [|lra].
    replace ((Rabs x / u + 1) * u) with (Rabs x + u) in H by (field; lra).
    exact H. }
  assert (Hu1 : u <= Rabs x + 1).
  { unfold u, e. destruct (Z.max_spec (exponent2 x) (-126)) as [[_ ->]|[_ ->]].
    - simpl. lra.
    - apply Rle_trans with (powerRZ 2 (exponent2 x)).
      + apply powerRZ2_le. lia.
      + pose proof (exponent2_below x Hx). lra. }
  eexists. split; [reflexivity|].
  rewrite Rabs_mult. rewrite (Rabs_pos_eq (IZR m * u)) by (apply Rmult_le_pos; lra).
  assert (Hs : Rabs (if Rlt_dec x 0 then -1 else 1) = 1).
  { destruct (Rlt_dec x 0); [rewrite Rabs_left by lra|rewrite Rabs_pos_eq by lra]; lra. }
  rewrite Hs. lra.
Qed.

(** The series of the sine at 1, term by term. *)
Lemma sin_term_1_S (k : nat) :
  sin_term 1 (S k) = - sin_term 1 k / (INR (2 * k + 2) * INR (2 * k + 3)).
Proof.
  unfold sin_term. rewrite !pow1.
  replace (2 * S k + 1)%nat with (S (S (2 * k + 1))) by lia.
  rewrite !fact_simpl, !mult_INR.
  replace (S (S (2 * k + 1))) with (2 * k + 3)%nat by lia.
  replace (S (2 * k + 1)) with (2 * k + 2)%nat by lia.
  pose proof (INR_fact_neq_0 (2 * k + 1)) as Hf.
  assert (H2 : INR (2 * k + 2) <> 0) by (apply not_0_INR; lia).
  assert (H3 : INR (2 * k + 3) <> 0) by (apply not_0_INR; lia).
  cbn [pow]. field. repeat split; assumption.
Qed.

Lemma sin_1_bounds :
  14117540 / 16777216 < sin 1 /\ sin 1 < (14117540 + 1 / 2) / 16777216.
Proof.
  destruct (pre_sin_bound 1 2) as [Hlo Hhi]; [lra|lra|].
  change (2 * 2 + 1)%nat with 5%nat in Hlo.
  change (2 * (2 + 1))%nat with 6%nat in Hhi.
  unfold sin_approx in Hlo, Hhi. cbn [sum_f_R0] in Hlo, Hhi.
  assert (T0 : sin_term 1 0 = 1) by (unfold sin_term; simpl; field).
  assert (T1 : sin_term 1 1 = - 1 / 6)
    by (rewrite sin_term_1_S, T0; simpl; field).
  assert (T2 : sin_term 1 2 = 1 / 120)
    by (rewrite sin_term_1_S, T1; simpl; field).
  assert (T3 : sin_term 1 3 = - 1 / 5040)
    by (rewrite sin_term_1_S, T2; simpl; field).
  assert (T4 : sin_term 1 4 = 1 / 362880)
    by (rewrite sin_term_1_S, T3; simpl; field).
  assert (T5 : sin_term 1 5 = - 1 / 39916800)
    by (rewrite sin_term_1_S, T4; simpl; field).
  assert (T6 : sin_term 1 6 = 1 / 6227020800)
    by (rewrite sin_term_1_S, T5; simpl; field).
  rewrite T0, T1, T2, T3, T4, T5 in Hlo.
  rewrite T0, T1, T2, T3, T4, T5, T6 in Hhi.
  split; lra.
Qed.

(** The binary32 number nearest to [sin 1]. *)
Lemma round32_sin_1 : round32 (sin 1) = Real (14117540 / 16777216).
Proof.
  destruct sin_1_bounds as [Hlo Hhi].
  unfold round32.
  destruct (Req_dec_T (sin 1) 0); [lra|].
  rewrite (Rabs_pos_eq (sin 1)) by lra.
  destruct (Rle_dec (IZR (2 ^ 128 - 2 ^ 103)) (sin 1)) as [Hbig|_].
  { exfalso. assert (1 < IZR (2 ^ 128 - 2 ^ 103))
      by (apply (IZR_lt 1 (2 ^ 128 - 2 ^ 103)); reflexivity). lra. }
  destruct (Rlt_dec (sin 1) 0); [lra|].
  rewrite (exponent2_spec (sin 1) (-1))
    by (rewrite Rabs_pos_eq by lra; simpl; lra).
  change (Z.max (-1) (-126) - 23)%Z with (-24)%Z.
  assert (Eu : powerRZ 2 (-24) = / 16777216) by (simpl; f_equal; lra).
  rewrite Eu.
  rewrite (nearest_even_below_half _ 14117540) by lra.
  f_equal. lra.
Qed.

(** *** The rounded operations on finite values *)

Lemma Q2R_0 : Q2R 0 = 0.
Proof. unfold Q2R. simpl. lra. Qed.

Lemma rnd_fin (x : ifloat) (r : R) : fin x = Some r -> rnd x = round32 r.
Proof. intros H. unfold rnd. rewrite H. reflexivity. Qed.

Lemma imul_fin (x y : ifloat) (a b : R) :
  fin x = Some a -> fin y = Some b -> fin (imul x y) = Some (a * b).
Proof.
  intros Hx Hy.
  destruct x as [p|r| | |], y as [q|s| | |]; try discriminate;
    cbn in Hx, Hy; injection Hx as <-; injection Hy as <-; cbn;
    try reflexivity.
  rewrite Q2R_mult. reflexivity.
Qed.

Lemma ineg_fin (x : ifloat) (a : R) : fin x = Some a -> fin (ineg x) = Some (- a).
Proof.
  destruct x as [p|r| | |]; try discriminate; cbn; intros H; injection H as <-;
    [rewrite Q2R_opp|]; reflexivity.
Qed.

Lemma idiv_Real (x : ifloat) (a b : R) :
  fin x = Some a -> b <> 0 -> idiv x (Real b) = Real (a / b).
Proof.
  intros Hx Hb.
  destruct x as [p|r| | |]; try discriminate; cbn in Hx; injection Hx as <-;
    cbn; destruct (Req_dec_T b 0); try contradiction; reflexivity.
Qed.

Lemma ln_10000_bounds : 0 < ln 10000 < 10000.
Proof.
  split.
  - rewrite <- ln_1. apply ln_increasing; lra.
  - rewrite <- (ln_exp 10000) at 2. apply ln_increasing; [lra|].
    pose proof (exp_ineq1 10000). lra.
Qed.

Lemma big_threshold : 100000 < IZR (2 ^ 128 - 2 ^ 103).
Proof. apply (IZR_lt 100000 (2 ^ 128 - 2 ^ 103)). reflexivity. Qed.

(** The scalar [-(log(10000.0) / d)] for [d = 4] is finite. *)
Lemma log_scale_finite :
  exists r,
    fin (@fneg _ binary32_Float
           (@fdiv _ binary32_Float
              (@flog _ binary32_Float (@of_Z _ binary32_Float 10000))
              (@of_Z _ binary32_Float 4))) = Some r.
Proof.
  cbn [fneg fdiv flog of_Z binary32_Float].
  rewrite round32_10000, round32_4.
  assert (El : ilog (Real 10000) = Real (ln 10000)).
  { cbn. unfold Rsign.
    destruct (Rlt_dec 10000 0); [lra|]. destruct (Rlt_dec 0 10000); [|lra].
    reflexivity. }
  rewrite El. rewrite (rnd_fin (Real (ln 10000)) (ln 10000)) by reflexivity.
  pose proof ln_10000_bounds as Hl. pose proof big_threshold as Hb.
  destruct (round32_finite (ln 10000)) as (r1 & E1 & B1).
  { rewrite Rabs_pos_eq by lra. lra. }
  rewrite (Rabs_pos_eq (ln 10000)) in B1 by lra.
  rewrite (idiv_Real _ r1 4 E1) by (apply Rgt_not_eq; lra).
  rewrite (rnd_fin (Real (r1 / 4)) (r1 / 4)) by reflexivity.
  destruct (round32_finite (r1 / 4)) as (r2 & E2 & _).
  { unfold Rdiv. rewrite Rabs_mult, (Rabs_pos_eq (/ 4)) by lra. lra. }
  exists (- r2). apply ineg_fin. exact E2.
Qed.

(** Row 1, column 0 of the table for a hidden size of 4, in binary32. *)
Lemma binary32_angle : @pe_angle _ binary32_Float 4 1 0 = Real 1.
Proof.
  unfold pe_angle. destruct log_scale_finite as (r & Hr).
  change (Z.of_nat (2 * 0)) with 0%Z. change (Z.of_nat 1) with 1%Z.
  set (c := fneg _) in *.
  cbn [fmul fexp of_Z binary32_Float].
  rewrite (round32_zero 0 eq_refl), round32_1.
  rewrite (rnd_fin _ _ (imul_fin (Rat 0) c _ _ eq_refl Hr)).
  rewrite round32_zero by (rewrite Q2R_0; lra).
  assert (Ee : iexp (Rat 0) = Real (exp (Q2R 0))) by reflexivity.
  rewrite Ee, (rnd_fin (Real (exp (Q2R 0))) _ eq_refl), Q2R_0, exp_0, round32_1.
  rewrite (rnd_fin _ _ (imul_fin (Real 1) (Real 1) _ _ eq_refl eq_refl)).
  rewrite Rmult_1_r. exact round32_1.
Qed.

Lemma binary32_entry :
  @pe_entry _ binary32_Float 4 1 0 = Real (14117540 / 16777216).
Proof.
  change (@pe_entry _ binary32_Float 4 1 0)
    with (@fsin _ binary32_Float (@pe_angle _ binary32_Float 4 1 0)).
  rewrite binary32_angle. cbn [fsin binary32_Float].
  rewrite (rnd_fin (isin (Real 1)) (sin 1) eq_refl). exact round32_sin_1.
Qed.

Lemma binary32_table_config : @table_config _ binary32_Float demo_config.
Proof.
  unfold table_config.
  change (WhaleConfig.hidden_size demo_config) with 4%Z.
  change (WhaleConfig.max_position_embeddings demo_config) with 16%Z.
  change (WhaleConfig.dropout demo_config) with (Rat 0).
  split; [lia|]. split; [left; reflexivity|]. split; [lia|].
  split; [reflexivity|].
  cbn [fltb of_Z binary32_Float]. rewrite round32_1. cbn.
  destruct (Rlt_dec 1 (Q2R 0)) as [H|]; [|reflexivity].
  rewrite Q2R_0 in H. lra.
Qed.

(** C6, an entry the claim gets wrong: with the operations rounded to
    binary32, as torch has them, row 1 and column 0 of the table for a
    hidden size of 4 hold 14117540 / 2^24, the binary32 number nearest
    to [sin 1], and not [sin (1 / 10000^(0/4)) = sin 1] itself. *)
Lemma C6_binary32_entry_is_rounded :
  exists m,
    @WhalePositionalEncoding.__init__ _ binary32_Float demo_config = inr m /\
    tget (Rat 0) (WhalePositionalEncoding.pe m) [0; 1; 2 * 0]%nat
    = Real (14117540 / 16777216) /\
    Real (14117540 / 16777216)
    <> Real (sin (INR 1 / Rpower 10000 (INR (2 * 0) / IZR 4))).
Proof.
  destruct (proj2 (@pe_init_iff _ binary32_Float demo_config)
              binary32_table_config) as (m & Hm).
  exists m. split; [exact Hm|].
  destruct (@pe_init_inv _ binary32_Float demo_config m Hm)
    as (_ & _ & _ & _ & _ & _ & Hget).
  split.
  - change (Rat 0) with (@f0 _ binary32_Float).
    rewrite Hget; [exact binary32_entry| |].
    + change (1 < 16)%nat. lia.
    + change (0 < 4)%nat. lia.
  - assert (E : INR 1 / Rpower 10000 (INR (2 * 0) / IZR 4) = 1).
    { simpl. unfold Rdiv at 2. rewrite Rmult_0_l, Rpower_O by lra. lra. }
    rewrite E. intros H. injection H as H. pose proof sin_1_bounds. lra.
Qed.
End Binary32.

(* ===================================================================== *)
(** ** Further properties of the code *)
(* ===================================================================== *)

Section Coverage.
Context {F : Type} {FO : Float F} {G : Type} {GO : Generator G F}.

(** X1: [WhaleMLP.__init__] looks the activation up first.  A name that
    the registry does not hold stops it with [KeyError] of that name,
    before anything is drawn or printed; with a name that the registry
    holds it never raises [KeyError], and the module it returns applies
    the registered function. *)
Theorem X1_mlp_activation_lookup (cfg : WhaleConfig.t F) (w : World G) :
  (ACT2FN (WhaleConfig.hidden_act cfg) = None ->
   WhaleMLP.__init__ cfg w = (inl (KeyError (WhaleConfig.hidden_act cfg)), w)) /\
  (forall f, ACT2FN (WhaleConfig.hidden_act cfg) = Some f ->
     (forall k w', WhaleMLP.__init__ cfg w <> (inl (KeyError k), w')) /\
     (forall m w', WhaleMLP.__init__ cfg w = (inr m, w') -> WhaleMLP.act m = f)).
Proof.
  split; [apply mlp_init_unknown|].
  intros f Hf. split.
  - intros k w' H. exact (mlp_init_known cfg f Hf w _ w' H k eq_refl).
  - intros m w' H. apply mlp_init_inv in H. destruct H as [H _].
    rewrite Hf in H. injection H as <-. reflexivity.
Qed.

(** X2: [WhaleMLP.forward] returns exactly on the inputs whose last
    dimension is the hidden size, and what it returns has the shape of
    its input. *)
Theorem X2_mlp_forward_shape (cfg : WhaleConfig.t F) (w0 w1 : World G)
    (m : @WhaleMLP.t F) (mode : bool) (x : Tensor F) (w : World G) :
  WhaleMLP.__init__ cfg w0 = (inr m, w1) ->
  ((exists y w', WhaleMLP.forward (WhaleMLP.train mode m) x w = (inr y, w')) <->
   (exists pre, shape x = pre ++ [Z.to_nat (WhaleConfig.hidden_size cfg)])) /\
  (forall y w', WhaleMLP.forward (WhaleMLP.train mode m) x w = (inr y, w') ->
                shape y = shape x).
Proof.
  intros Hm. apply mlp_init_inv in Hm. destruct Hm as [_ Hb].
  apply (mlp_built_train cfg m mode) in Hb.
  split; [split|].
  - intros (y & w' & H).
    destruct (mlp_forward_inv cfg _ x y w w' Hb H) as (pre & Hx & _).
    exists pre. exact Hx.
  - intros (pre & Hx).
    destruct (mlp_forward_ok cfg _ x pre w Hb Hx) as (y & w' & E & _).
    exists y, w'. exact E.
  - intros y w' H.
    destruct (mlp_forward_inv cfg _ x y w w' Hb H) as (pre & _ & S). exact S.
Qed.

(** X3: [WhaleAttention.forward] maps hidden states of shape (B, N, E),
    with a mask of shape (B, N) or none and, under relative positions,
    positions of shape (1, N, E), to a tensor of shape (B, N, E); it
    returns on all of them. *)
Theorem X3_attention_forward_shape (cfg : WhaleConfig.t F) (w0 w1 : World G)
    (m : @WhaleAttention.t F) (mode : bool) (x : Tensor F)
    (mask : option (Tensor bool)) (pos : option (Tensor F)) (B N : nat)
    (w : World G) :
  WhaleAttention.__init__ cfg w0 = (inr m, w1) ->
  (0 < WhaleConfig.num_attention_heads cfg)%Z ->
  shape x = [B; N; Z.to_nat (WhaleConfig.hidden_size cfg)] ->
  match mask with Some mk => shape mk = [B; N] | None => True end ->
  (WhaleConfig.use_relative_pe cfg = true ->
   exists p, pos = Some p /\
             shape p = [1; N; Z.to_nat (WhaleConfig.hidden_size cfg)]) ->
  exists y w',
    WhaleAttention.forward (WhaleAttention.train mode m) x mask pos w
    = (inr y, w') /\
    shape y = [B; N; Z.to_nat (WhaleConfig.hidden_size cfg)].
Proof.
  intros Hm Hh Hx Hmask Hpos. apply attention_init_built in Hm.
  apply (attention_built_train cfg m mode) in Hm.
  apply (attention_forward_ok cfg _ x mask pos B N w Hm Hh Hx Hmask).
  intros Hr. apply Hpos. destruct Hm as (_ & _ & Hrel & _).
  rewrite <- Hrel. exact Hr.
Qed.

(** X4: under relative positions the attention needs as many rows of
    positions as there are frames.  With [P] rows for [N] frames, [P]
    neither [N] nor 1 and [N] not 1, the content term of shape
    (B, H, N, N) and the position term of shape (B, H, N, P) cannot be
    added, and the call fails with [RuntimeError], before anything is
    drawn. *)
Theorem X4_attention_positions_mismatch (cfg : WhaleConfig.t F)
    (w0 w1 : World G) (m : @WhaleAttention.t F) (mode : bool) (x : Tensor F)
    (mask : option (Tensor bool)) (p : Tensor F) (B N P : nat) (w : World G) :
  WhaleAttention.__init__ cfg w0 = (inr m, w1) ->
  (0 < WhaleConfig.num_attention_heads cfg)%Z ->
  WhaleConfig.use_relative_pe cfg = true ->
  shape x = [B; N; Z.to_nat (WhaleConfig.hidden_size cfg)] ->
  shape p = [1; P; Z.to_nat (WhaleConfig.hidden_size cfg)] ->
  P <> N -> P <> 1 -> N <> 1 ->
  exists msg,
    WhaleAttention.forward (WhaleAttention.train mode m) x mask (Some p) w
    = (inl (RuntimeError msg), w).
Proof.
  intros Hm Hh Hrel Hx Hp H1 H2 H3. apply attention_init_built in Hm.
  apply (attention_built_train cfg m mode) in Hm.
  pose proof Hm as (Hf & _ & Hr & _). rewrite Hrel in Hr.
  unfold WhaleAttention.forward. rewrite Hf. cbn [negb].
  exact (naive_attn_pos_mismatch cfg _ Hm Hh x mask p B N P w Hr Hx Hp H1 H2 H3).
Qed.

(** X5: [WhaleAudioEncoderLayer.forward] keeps the shape (B, N, E) of
    its input, with the normalisation before or after the two blocks and
    with or without the concatenation, and returns on every such
    input. *)
Theorem X5_layer_forward_shape (cfg : WhaleConfig.t F) (w0 w1 : World G)
    (l : @WhaleAudioEncoderLayer.t F) (mode : bool) (x : Tensor F)
    (mask : option (Tensor bool)) (pos : option (Tensor F)) (B N : nat)
    (w : World G) :
  WhaleAudioEncoderLayer.__init__ cfg w0 = (inr l, w1) ->
  (0 < WhaleConfig.num_attention_heads cfg)%Z ->
  shape x = [B; N; Z.to_nat (WhaleConfig.hidden_size cfg)] ->
  match mask with Some mk => shape mk = [B; N] | None => True end ->
  (WhaleConfig.use_relative_pe cfg = true ->
   exists p, pos = Some p /\
             shape p = [1; N; Z.to_nat (WhaleConfig.hidden_size cfg)]) ->
  exists y w',
    WhaleAudioEncoderLayer.forward (WhaleAudioEncoderLayer.train mode l)
      x mask pos w = (inr y, w') /\
    shape y = shape x.
Proof.
  intros Hl Hh Hx Hmask Hpos. apply layer_init_built in Hl.
  apply (layer_built_train cfg l mode) in Hl.
  apply (layer_forward_ok cfg _ x mask pos B N w Hl Hh Hx Hmask).
  intros Hr. apply Hpos. destruct Hl as ((_ & _ & Hrel & _) & _).
  rewrite <- Hrel. exact Hr.
Qed.

(** X6: what [WhaleAudioEncoder.forward] returns, on every call that
    returns.  The layers have run one after the other, each on the
    output of the layer before it; the last hidden state is the output
    of the last layer, normalised if [normalize_before] is set.  With
    [return_dict] the result is a [BaseModelOutput], without it the
    tuple of the entries that are not [None].  The hidden states, when
    asked for, are the input of every layer followed by the last hidden
    state: with at least one layer the first of them is the input of
    the call, and with no layer and no normalisation the output of the
    call is its input. *)
Theorem X6_encoder_forward_outputs (cfg : WhaleConfig.t F) (w0 w1 : World G)
    (m : @WhaleAudioEncoder.t F) (mode : bool) (x : Tensor F)
    (mask : option (Tensor bool)) (pos : option (Tensor F))
    (ohs rd : option bool) (w w' : World G)
    (r : Returned F (BaseModelOutput F)) :
  WhaleAudioEncoder.__init__ cfg w0 = (inr m, w1) ->
  WhaleAudioEncoder.forward (WhaleAudioEncoder.train mode m) x mask pos ohs rd w
  = (inr r, w') ->
  exists outs final,
    let states := removelast (x :: outs) ++ [final] in
    layer_outputs (G := G)
      (WhaleAudioEncoder.layers (WhaleAudioEncoder.train mode m))
      mask pos x outs /\
    length outs = Z.to_nat (WhaleConfig.num_hidden_layers cfg) /\
    (if WhaleConfig.normalize_before cfg
     then exists n, WhaleAudioEncoder.layer_norm m = Some n /\
                    LayerNorm_forward n (last outs x) = inr final
     else final = last outs x) /\
    r = (if match rd with
            | Some b => b
            | None => WhaleConfig.use_return_dict cfg
            end
         then AsDict (mkBaseModelOutput final
                        (if match ohs with
                            | Some b => b
                            | None => WhaleConfig.output_hidden_states cfg
                            end
                         then Some states else None) None)
         else AsTuple (O_Tensor final ::
                       if match ohs with
                          | Some b => b
                          | None => WhaleConfig.output_hidden_states cfg
                          end
                       then [O_Tuple states] else [])) /\
    length states = Z.to_nat (WhaleConfig.num_hidden_layers cfg) + 1 /\
    ((0 < WhaleConfig.num_hidden_layers cfg)%Z -> nth 0 states final = x) /\
    ((WhaleConfig.num_hidden_layers cfg <= 0)%Z ->
     WhaleConfig.normalize_before cfg = false -> final = x).
Proof.
  intros Hm H. apply encoder_init_built in Hm.
  apply (encoder_built_train cfg m mode) in Hm.
  destruct Hm as (Hcfg & Hlen & _ & Hnb & _).
  apply encoder_forward_inv in H. rewrite Hcfg in H. cbv zeta in H.
  destruct H as (outs & final & Hch & Hlo & Hfin & Hr).
  rewrite Hlen in Hlo. rewrite Hnb in Hfin.
  exists outs, final. cbv zeta.
  split; [exact Hch|]. split; [exact Hlo|]. split; [exact Hfin|].
  split; [|split; [|split]].
  - rewrite Hr.
    destruct (match rd with Some b => b
              | None => WhaleConfig.use_return_dict cfg end);
      destruct (match ohs with Some b => b
                | None => WhaleConfig.output_hidden_states cfg end);
      reflexivity.
  - rewrite length_app, length_removelast_cons, Hlo. reflexivity.
  - intros Hpos. destruct outs as [|o outs]; [cbn [length] in Hlo; lia|].
    reflexivity.
  - intros Hz Hn. destruct outs as [|o outs]; [|cbn [length] in Hlo; lia].
    rewrite Hn in Hfin. exact Hfin.
Qed.

(** X7: on hidden states of shape (B, N, E), with a mask of shape (B, N)
    or none and, under relative positions, positions of shape (1, N, E),
    [WhaleAudioEncoder.forward] returns; the last hidden state and each
    of the [num_hidden_layers + 1] hidden states have the shape of the
    input. *)
Theorem X7_encoder_forward_shapes (cfg : WhaleConfig.t F) (w0 w1 : World G)
    (m : @WhaleAudioEncoder.t F) (mode : bool) (x : Tensor F)
    (mask : option (Tensor bool)) (pos : option (Tensor F))
    (ohs rd : option bool) (B N : nat) (w : World G) :
  WhaleAudioEncoder.__init__ cfg w0 = (inr m, w1) ->
  (0 < WhaleConfig.num_attention_heads cfg)%Z ->
  shape x = [B; N; Z.to_nat (WhaleConfig.hidden_size cfg)] ->
  match mask with Some mk => shape mk = [B; N] | None => True end ->
  (WhaleConfig.use_relative_pe cfg = true ->
   exists p, pos = Some p /\
             shape p = [1; N; Z.to_nat (WhaleConfig.hidden_size cfg)]) ->
  exists final states w',
    WhaleAudioEncoder.forward (WhaleAudioEncoder.train mode m) x mask pos ohs rd w
    = (inr (if match rd with
               | Some b => b
               | None => WhaleConfig.use_return_dict cfg
               end
            then AsDict (mkBaseModelOutput final
                           (if match ohs with
                               | Some b => b
                               | None => WhaleConfig.output_hidden_states cfg
                               end
                            then Some states else None) None)
            else AsTuple (O_Tensor final ::
                          if match ohs with
                             | Some b => b
                             | None => WhaleConfig.output_hidden_states cfg
                             end
                          then [O_Tuple states] else [])), w') /\
    shape final = shape x /\
    length states = Z.to_nat (WhaleConfig.num_hidden_layers cfg) + 1 /\
    Forall (fun t => shape t = shape x) states.
Proof.
  intros Hm Hh Hx Hmask Hpos. apply encoder_init_built in Hm.
  apply (encoder_built_train cfg m mode) in Hm.
  destruct (encoder_forward_ok cfg _ x mask pos ohs rd B N w Hm Hh Hx Hmask Hpos)
    as (final & states & w' & E & Sf & Hlen & Hall & _).
  exists final, states, w'. repeat split; assumption.
Qed.

(** X8: [WhaleAudioEmbeddings.forward] returns on every input of shape
    (B, N, E) and keeps that shape.  With the features it returns the
    positions: the slice [pe[:, 0:N]] of the table, which holds the first
    [min N max_len] rows of the table, passed through the dropout of the
    encoder; in evaluation mode the positions are these rows themselves.
    It asks for the rows at offset 0 and nothing bounds [N]. *)
Theorem X8_embeddings_forward_positions (cfg : WhaleConfig.t F) (w0 w1 : World G)
    (m : @WhaleAudioEmbeddings.t F) (mode : bool) (x : Tensor F) (B N : nat)
    (w : World G) :
  WhaleAudioEmbeddings.__init__ cfg w0 = (inr m, w1) ->
  shape x = [B; N; Z.to_nat (WhaleConfig.hidden_size cfg)] ->
  let base := RelPositionalEncoding.super
                (WhaleAudioEmbeddings.positional_embedding m) in
  let table := WhalePositionalEncoding.pe base in
  let rows := Nat.min N (Z.to_nat (WhaleConfig.max_position_embeddings cfg)) in
  exists y p w',
    WhaleAudioEmbeddings.forward (WhaleAudioEmbeddings.train mode m) x w
    = (inr (y, p), w') /\
    shape y = shape x /\
    shape p = [1; rows; Z.to_nat (WhaleConfig.hidden_size cfg)] /\
    (exists s w2,
        slice_dim1 f0 (Some 0%Z) (Some (0 + Z.of_nat N)%Z) 1 table = inr s /\
        (forall t c, t < rows -> c < Z.to_nat (WhaleConfig.hidden_size cfg) ->
           tget f0 s [0; t; c] = tget f0 table [0; t; c]) /\
        Dropout_forward
          (Dropout_train mode (WhalePositionalEncoding.dropout base)) s w2
        = (inr p, w')) /\
    (mode = false ->
     forall t c, t < rows -> c < Z.to_nat (WhaleConfig.hidden_size cfg) ->
       tget f0 p [0; t; c] = tget f0 table [0; t; c]).
Proof.
  intros Hm Hx base table rows. apply embeddings_init_built in Hm.
  apply (embeddings_built_train cfg m mode) in Hm.
  destruct (embeddings_forward_rows cfg _ x B N w Hm Hx)
    as (y & p & s & w2 & w' & E & Sy & Sp & Es & Gs & Ep).
  cbn [WhaleAudioEmbeddings.train WhaleAudioEmbeddings.positional_embedding
       RelPositionalEncoding.train RelPositionalEncoding.super
       WhalePositionalEncoding.train WhalePositionalEncoding.pe
       WhalePositionalEncoding.dropout] in Es, Gs, Ep.
  fold base in Es, Gs, Ep. fold table in Es, Gs. fold rows in Sp, Gs.
  exists y, p, w'. split; [exact E|]. split; [exact Sy|]. split; [exact Sp|].
  split.
  - exists s, w2. split; [exact Es|]. split; [exact Gs|exact Ep].
  - intros -> t c Ht Hc. cbn in Ep. injection Ep as <- _. apply Gs; assumption.
Qed.


(** X10: what every call of [WhaleAudioModel.forward] that returns was
    given: no [pixel_embeds]; [input_features] of rank 3 with at least 7
    frames of at least 7 features; a mask, of rank at least 2; and
    [return_dict] true, as an argument or from the configuration.  What
    it returns is the output object, never a tuple. *)
Theorem X10_model_forward_requirements (cfg : WhaleConfig.t F)
    (w0 w1 : World G) (m : @WhaleAudioModel.t F) (mode : bool)
    (xo : option (Tensor F)) (mask : option (Tensor bool))
    (ohs rd : option bool) (pe : option (Tensor F)) (w w' : World G)
    (r : Returned F (BaseModelOutputWithPooling F)) :
  WhaleAudioModel.__init__ cfg w0 = (inr m, w1) ->
  WhaleAudioModel.forward (WhaleAudioModel.train mode m) xo mask ohs rd pe w
  = (inr r, w') ->
  pe = None /\
  (exists x B T Fd, xo = Some x /\ shape x = [B; T; Fd] /\ 7 <= T /\ 7 <= Fd) /\
  (exists mk, mask = Some mk /\ 2 <= rank mk) /\
  match rd with Some b => b | None => WhaleConfig.use_return_dict cfg end = true /\
  exists o, r = AsDict o.
Proof.
  intros Hm H. apply model_init_built in Hm.
  apply (model_built_train cfg m mode) in Hm.
  exact (model_forward_needs cfg _ xo mask ohs rd pe w w' r Hm H).
Qed.

(** X11: with relative positions, at least one layer and a table of
    more than one row, an input that the subsampling leaves with more
    frames than the table has rows is not rejected by the embeddings:
    the call fails with [RuntimeError] in the attention of the first
    layer. *)
Theorem X11_model_forward_too_long (cfg : WhaleConfig.t F) (w0 w1 : World G)
    (m : @WhaleAudioModel.t F) (mode : bool) (x : Tensor F) (mk : Tensor bool)
    (ohs rd : option bool) (B T Fd : nat) (w : World G) :
  WhaleAudioModel.__init__ cfg w0 = (inr m, w1) ->
  (0 < WhaleConfig.num_attention_heads cfg)%Z ->
  WhaleConfig.num_channels cfg = 1%Z ->
  WhaleConfig.input_dim cfg = Z.of_nat Fd ->
  shape x = [B; T; Fd] -> shape mk = [B; T] -> 7 <= T -> 7 <= Fd ->
  WhaleConfig.use_relative_pe cfg = true ->
  (0 < WhaleConfig.num_hidden_layers cfg)%Z ->
  1 < Z.to_nat (WhaleConfig.max_position_embeddings cfg) ->
  Z.to_nat (WhaleConfig.max_position_embeddings cfg) < (T - 3) / 4 ->
  exists msg w',
    WhaleAudioModel.forward (WhaleAudioModel.train mode m) (Some x) (Some mk)
      ohs rd None w
    = (inl (RuntimeError msg), w').
Proof.
  intros Hm Hh Hch Hin Hx Hmk HT HF Hrel Hl HL1 HL2. apply model_init_built in Hm.
  apply (model_built_train cfg m mode) in Hm.
  exact (model_forward_too_long cfg _ x mk ohs rd B T Fd w Hm Hh Hch Hin Hx Hmk
           HT HF Hrel Hl HL1 HL2).
Qed.

(** X12: in evaluation mode [WhaleAudioModel.forward] is a function of
    its arguments alone.  Whatever it is given, and whether it returns
    or fails, it has the same result in every state of the random
    generator, draws nothing and prints nothing.  In training mode it
    may draw, for the dropout, but prints nothing either. *)
Theorem X12_model_forward_effects (m : @WhaleAudioModel.t F)
    (xo : option (Tensor F)) (mask : option (Tensor bool))
    (ohs rd : option bool) (pe : option (Tensor F)) :
  stateless (WhaleAudioModel.forward (G := G) (WhaleAudioModel.train false m)
                 xo mask ohs rd pe) /\
  quiet (WhaleAudioModel.forward (G := G) m xo mask ohs rd pe).
Proof. split; [apply model_eval_stateless|apply model_quiet]. Qed.

(** X13: [WhalePositionalEncoding.forward] in evaluation mode, on an
    input of shape (B, T, d) and an offset from 0 on with
    [offset + T < max_len]: entry (b, t, c) of the first result is
    [x[b, t, c] * sqrt(d) + PE(offset + t, c)], and the second result
    holds the rows [offset .. offset + T - 1] of the table. *)
Theorem X13_positional_forward_values (cfg : WhaleConfig.t F)
    (p : @WhalePositionalEncoding.t F) (x : Tensor F) (offset : Z)
    (B T : nat) (w : World G) :
  WhalePositionalEncoding.__init__ cfg = inr p ->
  wf x ->
  shape x = [B; T; Z.to_nat (WhaleConfig.hidden_size cfg)] ->
  (0 <= offset)%Z ->
  (offset + Z.of_nat T < WhaleConfig.max_position_embeddings cfg)%Z ->
  exists y s,
    WhalePositionalEncoding.forward (WhalePositionalEncoding.train false p)
      x offset w = (inr (y, s), w) /\
    shape y = shape x /\
    shape s = [1; T; Z.to_nat (WhaleConfig.hidden_size cfg)] /\
    (forall b t c, b < B -> t < T -> c < Z.to_nat (WhaleConfig.hidden_size cfg) ->
       tget f0 y [b; t; c]
       = fadd (fmul (tget f0 x [b; t; c])
                    (fsqrt (of_Z (WhaleConfig.hidden_size cfg))))
              (pe_entry (WhaleConfig.hidden_size cfg) (Z.to_nat offset + t) c)) /\
    (forall t c, t < T -> c < Z.to_nat (WhaleConfig.hidden_size cfg) ->
       tget f0 s [0; t; c]
       = pe_entry (WhaleConfig.hidden_size cfg) (Z.to_nat offset + t) c).
Proof.
  intros Hp Hwf Hx Ho Hb. apply table_init_built in Hp.
  exact (positional_forward_values cfg p x offset B T w Hp Hwf Hx Ho Hb).
Qed.

(** X14: [position_encoding] in evaluation mode, for an offset from 0 on
    and [offset + size < max_len]: the result has shape (1, size, d) and
    holds the rows [offset .. offset + size - 1] of the table. *)
Theorem X14_position_encoding_values (cfg : WhaleConfig.t F)
    (p : @WhalePositionalEncoding.t F) (offset : Z) (n : nat) (w : World G) :
  WhalePositionalEncoding.__init__ cfg = inr p ->
  (0 <= offset)%Z ->
  (offset + Z.of_nat n < WhaleConfig.max_position_embeddings cfg)%Z ->
  exists s,
    WhalePositionalEncoding.position_encoding
      (WhalePositionalEncoding.train false p) offset (Z.of_nat n) w
    = (inr s, w) /\
    shape s = [1; n; Z.to_nat (WhaleConfig.hidden_size cfg)] /\
    forall t c, t < n -> c < Z.to_nat (WhaleConfig.hidden_size cfg) ->
      tget f0 s [0; t; c]
      = pe_entry (WhaleConfig.hidden_size cfg) (Z.to_nat offset + t) c.
Proof.
  intros Hp Ho Hb. apply table_init_built in Hp.
  exact (position_encoding_values cfg p offset n w Hp Ho Hb).
Qed.

(** X15: inputs that [WhaleConv2dSubsampling4.forward] rejects, for one
    channel.  With fewer than 7 frames, or fewer than 7 features per
    frame, or a hidden size of 0, it fails with [RuntimeError]: one of
    the two convolutions has less input than its kernel, or the first
    has no output channel.  With enough frames and features, a positive
    hidden size and no mask it fails with [TypeError], where the mask is
    subscripted, after the features have been computed. *)
Theorem X15_subsampling_forward_rejections (cfg : WhaleConfig.t F)
    (w0 w1 : World G) (m : @WhaleConv2dSubsampling4.t F) (mode : bool)
    (x : Tensor F) (B T Fd : nat) (w : World G) :
  WhaleConv2dSubsampling4.__init__ cfg w0 = (inr m, w1) ->
  WhaleConfig.num_channels cfg = 1%Z ->
  shape x = [B; T; Fd] ->
  (T < 7 \/ Fd < 7 \/ WhaleConfig.hidden_size cfg = 0%Z ->
   forall mask, exists msg,
     WhaleConv2dSubsampling4.forward (WhaleConv2dSubsampling4.train mode m)
       x mask w = (inl (RuntimeError msg), w)) /\
  (7 <= T -> 7 <= Fd -> (0 < WhaleConfig.hidden_size cfg)%Z ->
   WhaleConfig.input_dim cfg = Z.of_nat Fd ->
   WhaleConv2dSubsampling4.forward (WhaleConv2dSubsampling4.train mode m)
     x None w
   = (inl (TypeError "'NoneType' object is not subscriptable"), w)).
Proof.
  intros Hm Hch Hx. apply subsampling_init_inv in Hm.
  apply (subsampling_built_train cfg m mode) in Hm.
  split.
  - intros Hshort mask.
    apply (subsampling_forward_short cfg _ x mask B T Fd w Hm); try assumption.
    rewrite Hch. reflexivity.
  - intros HT HF Hhid Hin.
    exact (subsampling_forward_no_mask cfg _ x B T Fd w Hm Hch Hhid Hin Hx HT HF).
Qed.

(** X16: [WhalePositionalEncoding.__init__] returns exactly when the
    hidden size is positive and even, or 1, the table length is not
    negative and the dropout probability lies between 0 and 1.  With an
    odd hidden size from 3 on it fails: the cosines have one column more
    than the columns [1::2] they are assigned to.  No
    [WhaleAudioModel] is built then either. *)
Theorem X16_positional_init_hidden_sizes (cfg : WhaleConfig.t F) :
  ((exists p, WhalePositionalEncoding.__init__ cfg = inr p) <->
   table_config cfg) /\
  (forall (w w' : World G) m,
     WhaleAudioModel.__init__ cfg w = (inr m, w') -> table_config cfg) /\
  ((3 <= WhaleConfig.hidden_size cfg)%Z ->
   Z.odd (WhaleConfig.hidden_size cfg) = true ->
   (forall p, WhalePositionalEncoding.__init__ cfg <> inr p) /\
   (forall (w w' : World G) m,
      WhaleAudioModel.__init__ cfg w <> (inr m, w'))).
Proof.
  split; [apply pe_init_iff|].
  split; [intros w w' m; apply model_init_needs_table|].
  intros H3 Hodd.
  assert (Hno : ~ table_config cfg).
  { intros (_ & [Hev|H1] & _); [|lia].
    rewrite <- Z.negb_odd, Hodd in Hev. discriminate Hev. }
  split.
  - intros p H. apply Hno. apply pe_init_iff. exists p. exact H.
  - intros w w' m H. apply Hno. exact (model_init_needs_table cfg w w' m H).
Qed.

(** X18: [WhaleConv2dSubsampling4.__init__] sets [subsampling_rate = 4]
    and [right_context = 6], and the forward pass keeps to them: frame
    [j] of the returned features is computed from the frames
    [4 j .. 4 j + 6] of the input.  Two inputs of the same shape that
    agree on these frames of batch entry [b] give the same features at
    [(b, j)], whatever else they hold and whatever their masks. *)
Theorem X18_subsampling_receptive_field (cfg : WhaleConfig.t F)
    (w0 w1 : World G) (m : @WhaleConv2dSubsampling4.t F) (mode : bool)
    (x x' : Tensor F) (mask mask' : option (Tensor bool)) (B T Fd : nat)
    (w w2 w' w2' : World G) (out out' : Tensor F) (mo mo' : Tensor bool)
    (b j : nat) :
  WhaleConv2dSubsampling4.__init__ cfg w0 = (inr m, w1) ->
  shape x = [B; T; Fd] -> shape x' = [B; T; Fd] ->
  WhaleConv2dSubsampling4.forward (WhaleConv2dSubsampling4.train mode m)
    x mask w = (inr (out, mo), w2) ->
  WhaleConv2dSubsampling4.forward (WhaleConv2dSubsampling4.train mode m)
    x' mask' w' = (inr (out', mo'), w2') ->
  b < B -> j < (T - 3) / 4 ->
  (forall t f, 4 * j <= t <= 4 * j + 6 -> f < Fd ->
     tget f0 x [b; t; f] = tget f0 x' [b; t; f]) ->
  WhaleConv2dSubsampling4.subsampling_rate m = 4%Z /\
  WhaleConv2dSubsampling4.right_context m = 6%Z /\
  forall o, o < Z.to_nat (WhaleConfig.hidden_size cfg) ->
    tget f0 out [b; j; o] = tget f0 out' [b; j; o].
Proof.
  intros Hm Hx Hx' H H' Hb Hj Hagree.
  split; [|split].
  - unfold WhaleConv2dSubsampling4.__init__ in Hm. py_inv Hm. reflexivity.
  - unfold WhaleConv2dSubsampling4.__init__ in Hm. py_inv Hm. reflexivity.
  - apply subsampling_init_inv in Hm.
    apply (subsampling_built_train cfg m mode) in Hm.
    exact (subsampling_local cfg _ x x' mask mask' B T Fd w w2 w' w2' out out'
             mo mo' b j Hm Hx Hx' H H' Hb Hj Hagree).
Qed.
(** X19: for [WhaleAudioEncoder.forward] a mask that masks nothing is as
    good as no mask.  On hidden states of shape (B, N, E), with
    positions of shape (1, N, E) under relative positions, a mask of
    shape (B, N) that is [True] everywhere gives what the call without
    a mask gives: the same result and the same state of the generator,
    in training and in evaluation mode. *)
Theorem X19_encoder_full_mask (cfg : WhaleConfig.t F) (w0 w1 : World G)
    (m : @WhaleAudioEncoder.t F) (mode : bool) (x : Tensor F) (mk : Tensor bool)
    (pos : option (Tensor F)) (ohs rd : option bool) (B N : nat) (w : World G) :
  WhaleAudioEncoder.__init__ cfg w0 = (inr m, w1) ->
  (0 < WhaleConfig.num_attention_heads cfg)%Z ->
  shape x = [B; N; Z.to_nat (WhaleConfig.hidden_size cfg)] ->
  (WhaleConfig.use_relative_pe cfg = true ->
   exists p, pos = Some p /\
             shape p = [1; N; Z.to_nat (WhaleConfig.hidden_size cfg)]) ->
  shape mk = [B; N] -> Forall (fun v => v = true) (data mk) ->
  WhaleAudioEncoder.forward (WhaleAudioEncoder.train mode m) x (Some mk) pos
    ohs rd w
  = WhaleAudioEncoder.forward (WhaleAudioEncoder.train mode m) x None pos
      ohs rd w.
Proof.
  intros Hm Hh Hx Hpos Hmk Hall. apply encoder_init_built in Hm.
  apply (encoder_built_train cfg m mode) in Hm.
  exact (encoder_full_mask cfg _ x mk pos ohs rd B N w Hm Hh Hx Hpos Hmk Hall).
Qed.
End Coverage.

(* ===================================================================== *)
(** ** The further properties on the small model *)
(* ===================================================================== *)

Lemma demo_table_eq : WhalePositionalEncoding.__init__ demo_config = inr demo_table.
Proof. exact (get_eq (WhalePositionalEncoding.__init__ demo_config) eq_refl). Qed.

Lemma demo_embeddings_eq :
  WhaleAudioEmbeddings.__init__ demo_config demo_world
  = (inr demo_embeddings,
     snd (WhaleAudioEmbeddings.__init__ demo_config demo_world)).
Proof. exact (run_eq (WhaleAudioEmbeddings.__init__ demo_config demo_world) eq_refl). Qed.

Lemma demo_mlp_eq :
  WhaleMLP.__init__ demo_config demo_world
  = (inr demo_mlp, snd (WhaleMLP.__init__ demo_config demo_world)).
Proof. exact (run_eq (WhaleMLP.__init__ demo_config demo_world) eq_refl). Qed.

Lemma demo_layer_eq :
  WhaleAudioEncoderLayer.__init__ demo_config demo_world
  = (inr demo_layer,
     snd (WhaleAudioEncoderLayer.__init__ demo_config demo_world)).
Proof. exact (run_eq (WhaleAudioEncoderLayer.__init__ demo_config demo_world) eq_refl). Qed.

Lemma demo_encoder_eq :
  WhaleAudioEncoder.__init__ demo_config demo_world
  = (inr demo_encoder, snd (WhaleAudioEncoder.__init__ demo_config demo_world)).
Proof. exact (run_eq (WhaleAudioEncoder.__init__ demo_config demo_world) eq_refl). Qed.

Lemma demo_model_eq :
  WhaleAudioModel.__init__ demo_config demo_world
  = (inr demo_model, snd (WhaleAudioModel.__init__ demo_config demo_world)).
Proof. exact (run_eq (WhaleAudioModel.__init__ demo_config demo_world) eq_refl). Qed.

Lemma encoder_run_forward :
  WhaleAudioEncoder.forward (WhaleAudioEncoder.train false demo_encoder)
    (hidden 3) (Some (mask2 3)) (Some (hidden 3)) (Some true) None demo_world
  = (inr (get (fst encoder_run) eq_refl), snd encoder_run).
Proof. unfold encoder_run. apply run_eq. Qed.

Lemma eval_run_forward :
  WhaleAudioModel.forward (WhaleAudioModel.train false demo_model)
    (Some (features 7)) (Some (mask2 7)) None None None demo_world
  = (inr (get (fst eval_run) eq_refl), snd eval_run).
Proof. unfold eval_run. apply run_eq. Qed.

Lemma X2_mlp_forward_shape_witness :
  exists y w',
    WhaleMLP.forward (WhaleMLP.train false demo_mlp) (hidden 3) demo_world
    = (inr y, w') /\
    shape y = shape (hidden 3).
Proof.
  destruct (X2_mlp_forward_shape demo_config demo_world _ demo_mlp false
              (hidden 3) demo_world demo_mlp_eq) as [[_ Hret] Hshape].
  destruct (Hret (ex_intro _ [1; 3] eq_refl)) as (y & w' & E).
  exists y, w'. split; [exact E|exact (Hshape y w' E)].
Defined.

Lemma X3_attention_forward_shape_witness :
  exists y w',
    WhaleAttention.forward (WhaleAttention.train false demo_attention)
      (hidden 3) (Some (mask2 3)) (Some (hidden 3)) demo_world = (inr y, w') /\
    shape y = [1; 3; Z.to_nat (WhaleConfig.hidden_size demo_config)].
Proof.
  exact (X3_attention_forward_shape demo_config demo_world _ demo_attention
           false (hidden 3) (Some (mask2 3)) (Some (hidden 3)) 1 3 demo_world
           demo_attention_eq eq_refl eq_refl eq_refl
           (fun _ => ex_intro _ (hidden 3) (conj eq_refl eq_refl))).
Defined.

Lemma X4_attention_positions_mismatch_witness :
  exists msg,
    WhaleAttention.forward (WhaleAttention.train false demo_attention)
      (hidden 3) None (Some (hidden 2)) demo_world
    = (inl (RuntimeError msg), demo_world).
Proof.
  apply (X4_attention_positions_mismatch demo_config demo_world _
           demo_attention false (hidden 3) None (hidden 2) 1 3 2 demo_world
           demo_attention_eq);
    try reflexivity; lia.
Defined.

Lemma X5_layer_forward_shape_witness :
  exists y w',
    WhaleAudioEncoderLayer.forward (WhaleAudioEncoderLayer.train false demo_layer)
      (hidden 3) (Some (mask2 3)) (Some (hidden 3)) demo_world = (inr y, w') /\
    shape y = shape (hidden 3).
Proof.
  exact (X5_layer_forward_shape demo_config demo_world _ demo_layer
           false (hidden 3) (Some (mask2 3)) (Some (hidden 3)) 1 3 demo_world
           demo_layer_eq eq_refl eq_refl eq_refl
           (fun _ => ex_intro _ (hidden 3) (conj eq_refl eq_refl))).
Defined.

Lemma X6_encoder_forward_outputs_witness :
  exists outs final,
    get (fst encoder_run) eq_refl
    = AsDict (mkBaseModelOutput final
                (Some (removelast (hidden 3 :: outs) ++ [final])) None) /\
    length outs = 1 /\
    nth 0 (removelast (hidden 3 :: outs) ++ [final]) final = hidden 3.
Proof.
  destruct (X6_encoder_forward_outputs demo_config demo_world _ demo_encoder
              false (hidden 3) (Some (mask2 3)) (Some (hidden 3)) (Some true)
              None demo_world (snd encoder_run) (get (fst encoder_run) eq_refl)
              demo_encoder_eq encoder_run_forward)
    as (outs & final & _ & Hlen & _ & Hr & _ & Hfirst & _).
  exists outs, final.
  split; [exact Hr|]. split; [exact Hlen|].
  apply Hfirst. reflexivity.
Defined.

Lemma X7_encoder_forward_shapes_witness :
  exists final states w',
    WhaleAudioEncoder.forward (WhaleAudioEncoder.train false demo_encoder)
      (hidden 3) (Some (mask2 3)) (Some (hidden 3)) (Some true) (Some true)
      demo_world
    = (inr (AsDict (mkBaseModelOutput final (Some states) None)), w') /\
    shape final = shape (hidden 3) /\
    length states = 2 /\
    Forall (fun t => shape t = shape (hidden 3)) states.
Proof.
  exact (X7_encoder_forward_shapes demo_config demo_world _ demo_encoder
           false (hidden 3) (Some (mask2 3)) (Some (hidden 3)) (Some true)
           (Some true) 1 3 demo_world demo_encoder_eq eq_refl eq_refl eq_refl
           (fun _ => ex_intro _ (hidden 3) (conj eq_refl eq_refl))).
Defined.

Lemma X8_embeddings_forward_positions_witness :
  exists y p w',
    WhaleAudioEmbeddings.forward (WhaleAudioEmbeddings.train false demo_embeddings)
      (hidden 20) demo_world = (inr (y, p), w') /\
    shape y = shape (hidden 20) /\
    shape p = [1; 16; 4] /\
    tget f0 p [0; 15; 3]
    = tget f0 (WhalePositionalEncoding.pe
                 (RelPositionalEncoding.super
                    (WhaleAudioEmbeddings.positional_embedding demo_embeddings)))
        [0; 15; 3].
Proof.
  destruct (X8_embeddings_forward_positions demo_config demo_world _
              demo_embeddings false (hidden 20) 1 20 demo_world
              demo_embeddings_eq eq_refl)
    as (y & p & w' & E & Sy & Sp & _ & Hrows).
  exists y, p, w'. split; [exact E|]. split; [exact Sy|]. split; [exact Sp|].
  apply (Hrows eq_refl 15 3).
  - change (15 < 16). lia.
  - change (3 < 4). lia.
Defined.


Lemma X10_model_forward_requirements_witness :
  exists x B T Fd,
    Some (features 7) = Some x /\ shape x = [B; T; Fd] /\ 7 <= T /\ 7 <= Fd.
Proof.
  exact (proj1 (proj2
    (X10_model_forward_requirements demo_config demo_world _ demo_model false
       (Some (features 7)) (Some (mask2 7)) None None None demo_world
       (snd eval_run) (get (fst eval_run) eq_refl)
       demo_model_eq eval_run_forward))).
Defined.

(** A mask that is not of the shape (B, T): with a mask of shape
    (1, 11, 1), which [masked_fill] broadcasts against the scores, the
    model returns as well. *)
Lemma model_forward_column_mask :
  is_inr (fst (WhaleAudioModel.forward demo_model (Some (features 11))
                 (Some (mask_column 11)) None None None demo_world)) = true.
Proof. reflexivity. Qed.

Lemma X11_model_forward_too_long_witness :
  exists msg w',
    WhaleAudioModel.forward (WhaleAudioModel.train false demo_model)
      (Some (features 71)) (Some (mask2 71)) None None None demo_world
    = (inl (RuntimeError msg), w').
Proof.
  apply (X11_model_forward_too_long demo_config demo_world _ demo_model false
           (features 71) (mask2 71) None None 1 71 7 demo_world demo_model_eq);
    try reflexivity; try lia; vm_compute; lia.
Defined.

Lemma X13_positional_forward_values_witness :
  exists y s,
    WhalePositionalEncoding.forward (G := unit)
      (WhalePositionalEncoding.train false demo_table) (hidden 3) 2 demo_world
    = (inr (y, s), demo_world) /\
    tget f0 y [0; 1; 2]
    = fadd (fmul (tget f0 (hidden 3) [0; 1; 2]) (fsqrt (of_Z 4)))
           (pe_entry 4 3 2) /\
    tget f0 s [0; 1; 2] = pe_entry 4 3 2.
Proof.
  destruct (X13_positional_forward_values demo_config demo_table (hidden 3) 2
              1 3 demo_world demo_table_eq (wf_build _ _) eq_refl)
    as (y & s & E & _ & _ & Hy & Hs); [lia|simpl; lia|].
  exists y, s. split; [exact E|]. split.
  - apply (Hy 0 1 2); simpl; lia.
  - apply (Hs 1 2); simpl; lia.
Defined.

Lemma X14_position_encoding_values_witness :
  exists s,
    WhalePositionalEncoding.position_encoding (G := unit)
      (WhalePositionalEncoding.train false demo_table) 2 (Z.of_nat 3) demo_world
    = (inr s, demo_world) /\
    shape s = [1; 3; 4] /\
    tget f0 s [0; 1; 2] = pe_entry 4 3 2.
Proof.
  destruct (X14_position_encoding_values demo_config demo_table 2 3 demo_world
              demo_table_eq) as (s & E & Ss & Hs); [lia|simpl; lia|].
  exists s. split; [exact E|]. split; [exact Ss|].
  apply (Hs 1 2); simpl; lia.
Defined.

Lemma X15_subsampling_forward_rejections_witness :
  (exists msg,
     WhaleConv2dSubsampling4.forward
       (WhaleConv2dSubsampling4.train false demo_subsampling)
       (features 5) (Some (mask2 5)) demo_world
     = (inl (RuntimeError msg), demo_world)) /\
  WhaleConv2dSubsampling4.forward
    (WhaleConv2dSubsampling4.train false demo_subsampling)
    (features 7) None demo_world
  = (inl (TypeError "'NoneType' object is not subscriptable"), demo_world).
Proof.
  split.
  - refine (proj1 (X15_subsampling_forward_rejections demo_config demo_world _
                     demo_subsampling false (features 5) 1 5 7 demo_world
                     demo_subsampling_eq eq_refl eq_refl) _ (Some (mask2 5))).
    left. lia.
  - refine (proj2 (X15_subsampling_forward_rejections demo_config demo_world _
                     demo_subsampling false (features 7) 1 7 7 demo_world
                     demo_subsampling_eq eq_refl eq_refl) _ _ eq_refl eq_refl);
      lia.
Defined.


Lemma early_run_forward :
  WhaleConv2dSubsampling4.forward
    (WhaleConv2dSubsampling4.train false demo_subsampling)
    (features 11) (Some (mask2 11)) demo_world
  = (inr (fst (get (fst early_run) eq_refl), snd (get (fst early_run) eq_refl)),
     snd early_run).
Proof.
  rewrite <- surjective_pairing. unfold early_run. apply run_eq.
Qed.

Lemma late_run_forward :
  WhaleConv2dSubsampling4.forward
    (WhaleConv2dSubsampling4.train false demo_subsampling)
    late_features (Some (mask2 11)) demo_world
  = (inr (fst (get (fst late_run) eq_refl), snd (get (fst late_run) eq_refl)),
     snd late_run).
Proof.
  rewrite <- surjective_pairing. unfold late_run. apply run_eq.
Qed.

Lemma X18_subsampling_receptive_field_witness :
  tget f0 (fst (get (fst early_run) eq_refl)) [0; 0; 0]
  = tget f0 (fst (get (fst late_run) eq_refl)) [0; 0; 0].
Proof.
  refine (proj2 (proj2
    (X18_subsampling_receptive_field demo_config demo_world _ demo_subsampling
       false (features 11) late_features (Some (mask2 11)) (Some (mask2 11))
       1 11 7 demo_world (snd early_run) demo_world (snd late_run)
       (fst (get (fst early_run) eq_refl)) (fst (get (fst late_run) eq_refl))
       (snd (get (fst early_run) eq_refl)) (snd (get (fst late_run) eq_refl))
       0 0 demo_subsampling_eq eq_refl eq_refl early_run_forward
       late_run_forward _ _ _)) 0 _).
  - lia.
  - vm_compute. lia.
  - intros t f Ht Hf. unfold features, late_features.
    rewrite !tget_build
      by (constructor; [lia|constructor; [lia|constructor; [lia|constructor]]]).
    cbn [nth]. destruct (Nat.ltb_spec t 7); [reflexivity|lia].
  - vm_compute. lia.
Defined.

Lemma X19_encoder_full_mask_witness :
  WhaleAudioEncoder.forward (WhaleAudioEncoder.train false demo_encoder)
    (hidden 3) (Some (mask2 3)) (Some (hidden 3)) None None demo_world
  = WhaleAudioEncoder.forward (WhaleAudioEncoder.train false demo_encoder)
      (hidden 3) None (Some (hidden 3)) None None demo_world.
Proof.
  apply (X19_encoder_full_mask demo_config demo_world _ demo_encoder false
           (hidden 3) (mask2 3) (Some (hidden 3)) None None 1 3 demo_world
           demo_encoder_eq eq_refl eq_refl
           (fun _ => ex_intro _ (hidden 3) (conj eq_refl eq_refl)) eq_refl).
  vm_compute. repeat constructor.
Defined.
